(** * Figure extraction and reference matching: a verification development

    The programs modelled here are
    - [ImprovedPDFParser._merge_nearby_bboxes] / [_is_nearby], the three
      extraction strategies ([_extract_by_region_crop],
      [_extract_by_merging] with [_group_nearby_images] and
      [_merge_bboxes_to_one], [_extract_raw_images]) and [parse]
      (src/parsers/pdf_parser_improved.py),
    - [FigureReferenceExtractor.extract_references] and [get_context],
      and [FigureParser._find_valleys], [_find_grid_lines],
      [_generate_labels] and [_detect_by_grid]
      (src/parsers/figure_parser.py),
    - [SmartAgent.load_pdf], [_match_figures_intelligently], [query],
      [_extract_figure_number], [_get_figure_description], [_search_text]
      and [auto_split_all_figures] (src/agents/smart_agent.py),
    - [SubfigureAnalyzer.ensure_subfigures_split]
      (src/agents/subfigure_agent.py),
    - [SubfigureSplitter.__init__], [is_available], [split] and
      [_split_simple] (src/parsers/subfigure_splitter.py).

    Python integers are [Z]; page coordinates (floats in the source) are
    idealised as [Z]: only comparisons, [min], [max] and one addition are
    performed on them.  Python dictionaries are insertion-ordered
    association lists, since the order of [dict.items()] is observable in
    [auto_split_all_figures].  A function that can raise returns an
    [option], [None] standing for the exception; so do the functions that
    call [int] on the digits of a figure number, which CPython refuses
    when there are more than 4300 of them. *)

From Stdlib Require Import ZArith List Bool Lia Permutation Arith Sorted.
From Stdlib Require Ascii String DecimalString DecimalNat DecimalFacts QArith_base.
Import ListNotations.
Import Ascii.AsciiSyntax String.StringSyntax.
Delimit Scope string_scope with string.
Delimit Scope char_scope with char.

Open Scope Z_scope.

(* ================================================================== *)
(** * Bounding-box merger *)
(* ================================================================== *)

Module BBox.

(** [fitz.Rect]: the corners [(x0, y0)] and [(x1, y1)]. *)
Record Rect : Type := mkRect { x0 : Z; y0 : Z; x1 : Z; y1 : Z }.

Definition zero_rect : Rect := mkRect 0 0 0 0.

(** [_is_nearby(bbox1, bbox2, threshold)]. *)
Definition is_nearby (bbox1 bbox2 : Rect) (threshold : Z) : bool :=
  let x_overlap :=
    negb ((x1 bbox1 + threshold <? x0 bbox2) || (x1 bbox2 + threshold <? x0 bbox1)) in
  let y_overlap :=
    negb ((y1 bbox1 + threshold <? y0 bbox2) || (y1 bbox2 + threshold <? y0 bbox1)) in
  x_overlap && y_overlap.

(** The rectangle built in the body of the inner loop:
    [fitz.Rect(min(..x0), min(..y0), max(..x1), max(..y1))]. *)
Definition union (a b : Rect) : Rect :=
  mkRect (Z.min (x0 a) (x0 b)) (Z.min (y0 a) (y0 b))
         (Z.max (x1 a) (x1 b)) (Z.max (y1 a) (y1 b)).

(** [j in used] for the index set [used]. *)
Definition mem (j : nat) (used : list nat) : bool := existsb (Nat.eqb j) used.

(** One iteration of [for j in range(i + 1, len(merged))]; the state is
    [(current_bbox, used, changed)]. *)
Definition inner_step (threshold : Z) (merged : list Rect)
    (st : Rect * list nat * bool) (j : nat) : Rect * list nat * bool :=
  let '(current_bbox, used, changed) := st in
  if mem j used then st
  else
    let bbox2 := nth j merged zero_rect in
    if is_nearby current_bbox bbox2 threshold
    then (union current_bbox bbox2, j :: used, true)
    else st.

(** One iteration of [for i, bbox1 in enumerate(merged)]; the state is
    [(new_merged, used, changed)]. *)
Definition outer_step (threshold : Z) (merged : list Rect)
    (st : list Rect * list nat * bool) (i : nat) : list Rect * list nat * bool :=
  let '(new_merged, used, changed) := st in
  if mem i used then st
  else
    let '(current_bbox, used', changed') :=
      fold_left (inner_step threshold merged)
                (seq (S i) (length merged - S i))
                (nth i merged zero_rect, used, changed) in
    (new_merged ++ [current_bbox], i :: used', changed').

(** The body of [while changed]: returns [new_merged] and [changed]. *)
Definition merge_pass (threshold : Z) (merged : list Rect) : list Rect * bool :=
  let '(new_merged, _, changed) :=
    fold_left (outer_step threshold merged) (seq 0 (length merged)) ([], [], false) in
  (new_merged, changed).

(** [while changed: ...], with the number of passes bounded by [fuel]. *)
Fixpoint merge_loop (fuel : nat) (threshold : Z) (merged : list Rect) : list Rect :=
  match fuel with
  | O => merged
  | S fuel' =>
      let '(new_merged, changed) := merge_pass threshold merged in
      if changed then merge_loop fuel' threshold new_merged else new_merged
  end.

(** [_merge_nearby_bboxes(bboxes, threshold)].  Every pass that sets
    [changed] shortens the list, so [length bboxes] passes suffice
    (lemma [merge_loop_fuel] below). *)
Definition merge_nearby_bboxes (bboxes : list Rect) (threshold : Z) : list Rect :=
  match bboxes with
  | [] => []
  | _ => merge_loop (length bboxes) threshold bboxes
  end.

(** ** Regions: rectangles together with the input indices they cover

    The source keeps only the running union rectangle.  For the statements
    about constituents the same scan is replayed on pairs of a rectangle and
    the list of input positions merged into it. *)

Definition Region : Type := (Rect * list nat)%type.

Definition join (a b : Region) : Region :=
  (union (fst a) (fst b), snd a ++ snd b).

(** The inner loop on the entries not yet consumed: absorbs into [cur]
    every entry of [rest] that is near the running union, returns the final
    union, the entries left over (in order) and whether anything merged. *)
Fixpoint absorb (threshold : Z) (cur : Region) (rest : list Region)
  : Region * list Region * bool :=
  match rest with
  | [] => (cur, [], false)
  | r :: rest' =>
      if is_nearby (fst cur) (fst r) threshold
      then let '(c, keep, _) := absorb threshold (join cur r) rest' in (c, keep, true)
      else let '(c, keep, ch) := absorb threshold cur rest' in (c, r :: keep, ch)
  end.

(** The outer loop on the entries not yet consumed. *)
Fixpoint scan (fuel : nat) (threshold : Z) (l : list Region) : list Region * bool :=
  match fuel, l with
  | S fuel', r :: rest =>
      let '(c, keep, ch) := absorb threshold r rest in
      let '(out, ch') := scan fuel' threshold keep in
      (c :: out, ch || ch')
  | _, _ => ([], false)
  end.

Fixpoint region_loop (fuel : nat) (threshold : Z) (l : list Region) : list Region :=
  match fuel with
  | O => l
  | S fuel' =>
      let '(out, ch) := scan (length l) threshold l in
      if ch then region_loop fuel' threshold out else out
  end.

(** Each input rectangle tagged with its own position. *)
Definition tag (bboxes : list Rect) : list Region :=
  combine bboxes (map (fun k => [k]) (seq 0 (length bboxes))).

(** The merged regions: bounds and members. *)
Definition merge_regions (bboxes : list Rect) (threshold : Z) : list Region :=
  match bboxes with
  | [] => []
  | _ => region_loop (length bboxes) threshold (tag bboxes)
  end.

(** The smallest rectangle covering a non-empty list of rectangles. *)
Fixpoint cover (r : Rect) (rs : list Rect) : Rect :=
  match rs with
  | [] => r
  | r' :: rs' => cover (union r r') rs'
  end.

Definition bounding_box (rs : list Rect) : Rect :=
  match rs with
  | [] => zero_rect
  | r :: rs' => cover r rs'
  end.

(** [inside a b]: rectangle [a] lies within rectangle [b]. *)
Definition inside (a b : Rect) : Prop :=
  x0 b <= x0 a /\ y0 b <= y0 a /\ x1 a <= x1 b /\ y1 a <= y1 b.

(** The gap between two rectangles along each axis (negative when they
    overlap on that axis). *)
Definition x_gap (a b : Rect) : Z := Z.max (x0 b - x1 a) (x0 a - x1 b).
Definition y_gap (a b : Rect) : Z := Z.max (y0 b - y1 a) (y0 a - y1 b).

(** How a region comes about: an input rectangle, or the union of two
    regions that were near each other when they were united. *)
Inductive Cluster (threshold : Z) (bboxes : list Rect) : Rect -> list nat -> Prop :=
| Cluster_leaf k :
    (k < length bboxes)%nat ->
    Cluster threshold bboxes (nth k bboxes zero_rect) [k]
| Cluster_join b1 m1 b2 m2 :
    Cluster threshold bboxes b1 m1 ->
    Cluster threshold bboxes b2 m2 ->
    is_nearby b1 b2 threshold = true ->
    Cluster threshold bboxes (union b1 b2) (m1 ++ m2).

(** The entries of [tl] at positions [j .. j+k-1] whose index is not in
    [used]: what the index loops of the source still have to look at. *)
Definition pending (tl : list Region) (used : list nat) (j k : nat) : list Region :=
  flat_map (fun x => if mem x used then [] else [nth x tl (zero_rect, [])]) (seq j k).


(** ** Notions used in the statements and proofs *)

(** Two regions whose bounds are not near each other. *)
Definition apart (threshold : Z) (a b : Region) : Prop :=
  is_nearby (fst a) (fst b) threshold = false.

(** All input positions covered by a list of regions. *)
Definition members (l : list Region) : list nat := concat (map snd l).

(** The first member of a region stands for it when regions are counted. *)
Definition rep (r : Region) : nat := hd 0%nat (snd r).

(** Two boxes 40 apart and a third one far away. *)
Definition three_in_a_row : list Rect :=
  [mkRect 0 0 10 10; mkRect 50 0 60 10; mkRect 500 0 510 10].

End BBox.

(* ================================================================== *)
(** * Figure references in text *)
(* ================================================================== *)

Module Refs.

(** A Python [str] is a sequence of code points.  The model of [re] below
    follows Python's matching of the patterns on any text, except that
    [\d] is taken to be the ASCII digits: the decimal digits of other
    scripts are not treated. *)
Definition text : Type := list N.

Definition code (c : Ascii.ascii) : N := Ascii.N_of_ascii c.

Fixpoint codes (s : String.string) : text :=
  match s with
  | String.EmptyString => []
  | String.String c s' => code c :: codes s'
  end.

(** The items of a character class, and the two escapes used. *)
Inductive class_item : Type :=
| One (c : N)
| Range (lo hi : N)
| Space
| Digit.

(** The fragment of regular expressions used by [PATTERNS]; repetition is
    only applied to single characters. *)
Inductive regex : Type :=
| Lit (c : N)
| Class (items : list class_item)
| Cat (a b : regex)
| Alt (a b : regex)
| Opt (a : regex)
| Star (items : list class_item)
| Group (n : nat) (a : regex)
| NotAhead (a : regex).

(** Case folding as far as ASCII letters are concerned: besides the
    uppercase letters, Python's [re.IGNORECASE] treats U+0130 and U+0131 as
    "i", U+017F as "s" and U+212A as "k". *)
Definition lower (c : N) : N :=
  if (65 <=? c)%N && (c <=? 90)%N then (c + 32)%N
  else if (c =? 304)%N || (c =? 305)%N then 105%N
  else if (c =? 383)%N then 115%N
  else if (c =? 8490)%N then 107%N
  else c.

Definition upper (c : N) : N := if (97 <=? c)%N && (c <=? 122)%N then (c - 32)%N else c.

(** [\s] on [str]: the characters for which [str.isspace()] holds. *)
Definition is_space (c : N) : bool :=
  ((9 <=? c) && (c <=? 13) || (28 <=? c) && (c <=? 32)
   || (c =? 133) || (c =? 160) || (c =? 5760)
   || (8192 <=? c) && (c <=? 8202)
   || (c =? 8232) || (c =? 8233) || (c =? 8239) || (c =? 8287) || (c =? 12288))%N.

(** [\d], on ASCII. *)
Definition is_digit (c : N) : bool := ((48 <=? c) && (c <=? 57))%N.

Definition in_item (it : class_item) (c : N) : bool :=
  match it with
  | One x => (c =? x)%N
  | Range lo hi => ((lo <=? c) && (c <=? hi))%N
  | Space => is_space c
  | Digit => is_digit c
  end.

(** Matching under [re.IGNORECASE]: a character matches a class when its
    lower or its upper case is in the class, and a literal when both have
    the same lower case. *)
Definition class_match (items : list class_item) (c : N) : bool :=
  existsb (fun it => in_item it (lower c) || in_item it (upper (lower c))) items.

Definition lit_match (x c : N) : bool := (lower c =? lower x)%N.

(** The groups captured so far: group number and matched text, latest
    first. *)
Definition captures : Type := list (nat * text).

Fixpoint group (n : nat) (caps : captures) : option text :=
  match caps with
  | [] => None
  | (m, t) :: caps' => if Nat.eqb n m then Some t else group n caps'
  end.

(** Greedy [x*] over a single-character class: take as many characters as
    possible, then give them back one by one until the rest matches. *)
Fixpoint star {R : Type} (items : list class_item) (s : text) (pos : nat)
    (k : text -> nat -> option R) : option R :=
  match s with
  | c :: s' =>
      if class_match items c
      then match star items s' (S pos) k with
           | Some r => Some r
           | None => k s pos
           end
      else k s pos
  | [] => k s pos
  end.

(** The backtracking matcher: [match_re r s pos caps k] matches [r] at the
    front of [s] (which starts at offset [pos]) and hands the rest to the
    continuation [k]; the first success in priority order is returned. *)
Fixpoint match_re (r : regex) (R : Type) (s : text) (pos : nat) (caps : captures)
    (k : text -> nat -> captures -> option R) {struct r} : option R :=
  match r with
  | Lit x =>
      match s with
      | c :: s' => if lit_match x c then k s' (S pos) caps else None
      | [] => None
      end
  | Class items =>
      match s with
      | c :: s' => if class_match items c then k s' (S pos) caps else None
      | [] => None
      end
  | Cat a b =>
      match_re a R s pos caps (fun s' pos' caps' => match_re b R s' pos' caps' k)
  | Alt a b =>
      match match_re a R s pos caps k with
      | Some r => Some r
      | None => match_re b R s pos caps k
      end
  | Opt a =>
      match match_re a R s pos caps k with
      | Some r => Some r
      | None => k s pos caps
      end
  | Star items => star items s pos (fun s' pos' => k s' pos' caps)
  | Group n a =>
      match_re a R s pos caps
               (fun s' pos' caps' => k s' pos' ((n, firstn (pos' - pos) s) :: caps'))
  | NotAhead a =>
      match match_re a unit s pos caps (fun _ _ _ => Some tt) with
      | Some _ => None
      | None => k s pos caps
      end
  end.

(** A match object: [start()], [end()], the groups and [group(0)]. *)
Record Match : Type := mkMatch {
  m_start : nat;
  m_end : nat;
  m_groups : captures;
  m_text : text
}.

(** The leftmost match at or after the front of [s]; also returns the text
    after the match. *)
Fixpoint search (r : regex) (s : text) (pos : nat) : option (Match * text) :=
  match match_re r (Match * text) s pos []
          (fun s' pos' caps => Some (mkMatch pos pos' caps (firstn (pos' - pos) s), s')) with
  | Some m => Some m
  | None =>
      match s with
      | [] => None
      | _ :: s' => search r s' (S pos)
      end
  end.

(** [re.finditer]: the non-overlapping matches from left to right.  Every
    round moves on by at least one character, so [fuel] greater than the
    length of the text is enough. *)
Fixpoint finditer_from (fuel : nat) (r : regex) (s : text) (pos : nat) : list Match :=
  match fuel with
  | O => []
  | S fuel' =>
      match search r s pos with
      | None => []
      | Some (m, s') =>
          m :: (if Nat.eqb (m_end m) (m_start m)
                then match s' with
                     | [] => []
                     | _ :: s'' => finditer_from fuel' r s'' (S (m_end m))
                     end
                else finditer_from fuel' r s' (m_end m))
      end
  end.

Definition finditer (r : regex) (t : text) : list Match :=
  finditer_from (S (length t)) r t 0.

(** ** The patterns *)

Fixpoint cat (rs : list regex) : regex :=
  match rs with
  | [] => Opt (Class [])
  | [r] => r
  | r :: rs' => Cat r (cat rs')
  end.

Definition word (s : String.string) : regex := cat (map Lit (codes s)).

Definition plus (items : list class_item) : regex := Cat (Class items) (Star items).

Definition one_of (s : String.string) : regex := Class (map One (codes s)).

(** [[Ff]igure?], [[Ff]ig\.?], and the character U+56FE. *)
Definition figure_word : regex :=
  cat [one_of "Ff"%string; word "igur"%string; Opt (word "e"%string)].
Definition fig_word : regex :=
  cat [one_of "Ff"%string; word "ig"%string; Opt (word "."%string)].
Definition tu : regex := Lit 22270.

(** [(\d+)], [([a-z])] and [(?!\s*[a-z])]. *)
Definition number : regex := Group 1 (plus [Digit]).
Definition letter : regex := Group 2 (Class [Range (code "a"%char) (code "z"%char)]).
Definition no_letter : regex :=
  NotAhead (cat [Star [Space]; Class [Range (code "a"%char) (code "z"%char)]]).

(** [PATTERNS], in the order of the source. *)
Definition PATTERNS : list (regex * bool) :=
  [ (* [Ff]igure?\s+(\d+)\s*[\.\(]?\s*([a-z])\s*[\)]? *)
    (cat [figure_word; plus [Space]; number; Star [Space]; Opt (one_of ".("%string);
          Star [Space]; letter; Star [Space]; Opt (one_of ")"%string)], true);
    (* [Ff]ig\.?\s+(\d+)\s*[\.\(]?\s*([a-z])\s*[\)]? *)
    (cat [fig_word; plus [Space]; number; Star [Space]; Opt (one_of ".("%string);
          Star [Space]; letter; Star [Space]; Opt (one_of ")"%string)], true);
    (* U+56FE \s*(\d+)\s*[-\.\(]?\s*([a-z])\s*[\)]? *)
    (cat [tu; Star [Space]; number; Star [Space]; Opt (one_of "-.("%string);
          Star [Space]; letter; Star [Space]; Opt (one_of ")"%string)], true);
    (* (?:see|in|as|from|of)\s+[Ff]igure?\s+(\d+)(?!\s*[a-z]) *)
    (cat [Alt (word "see"%string)
              (Alt (word "in"%string)
                   (Alt (word "as"%string) (Alt (word "from"%string) (word "of"%string))));
          plus [Space]; figure_word; plus [Space]; number; no_letter], false);
    (* [Ff]igure?\s+(\d+)(?!\s*[a-z]) *)
    (cat [figure_word; plus [Space]; number; no_letter], false);
    (* [Ff]igure?\s+(\d+)\s*[:\.]\s* *)
    (cat [figure_word; plus [Space]; number; Star [Space]; one_of ":."%string;
          Star [Space]], false);
    (* FIGURE\s+(\d+)(?!\s*[a-z]) *)
    (cat [word "FIGURE"%string; plus [Space]; number; no_letter], false);
    (* [\(\[]Figure\s+(\d+)[\)\]] *)
    (cat [one_of "(["%string; word "Figure"%string; plus [Space]; number;
          one_of ")]"%string], false);
    (* [Ff]ig\.?\s+(\d+)(?!\s*[a-z]) *)
    (cat [fig_word; plus [Space]; number; no_letter], false);
    (* U+56FE \s*(\d+)(?!\s*[a-z]) *)
    (cat [tu; Star [Space]; number; no_letter], false) ].

(** ** References *)

(** The dictionary built for one match. *)
Record Reference : Type := mkReference {
  ref_text : text;
  figure : Z;
  subfigure : option text;
  ref_start : nat;
  ref_end : nat
}.

(** The number spelled by a string of ASCII digits. *)
Definition decimal (s : text) : Z :=
  fold_left (fun acc c => 10 * acc + (Z.of_N c - 48)) s 0.

(** [sys.int_info.default_max_str_digits]: CPython converts no string of
    more digits than this, leading zeros counted. *)
Definition max_str_digits : nat := 4300.

(** [int(s)] for a string of ASCII digits, which is what group 1 of every
    pattern captures; [None] stands for the [ValueError] raised for the
    empty string and for a string of more than 4300 digits. *)
Definition int (s : text) : option Z :=
  match s with
  | [] => None
  | _ :: _ => if Nat.leb (length s) max_str_digits then Some (decimal s) else None
  end.

(** The body of the loop over the matches; [None] stands for an exception:
    the [ValueError] of [int], or the [TypeError] of [int(None)] for a
    match without group 1 (there is none: group 1 takes part in every
    match of every pattern, and group 2 in every match of the patterns
    with [has_subfigure]). *)
Definition reference (has_subfigure : bool) (m : Match) : option Reference :=
  match group 1 (m_groups m) with
  | None => None
  | Some t =>
      match int t with
      | None => None
      | Some figure_num =>
          let subfigure := if has_subfigure then group 2 (m_groups m) else None in
          Some (mkReference (m_text m) figure_num subfigure (m_start m) (m_end m))
      end
  end.

(** A loop whose body may raise: the results in order, or the exception
    ([None]) of the first round that raises. *)
Fixpoint collect {A : Type} (l : list (option A)) : option (list A) :=
  match l with
  | [] => Some []
  | None :: _ => None
  | Some a :: l' =>
      match collect l' with
      | Some r => Some (a :: r)
      | None => None
      end
  end.

(** The first loop of [extract_references]. *)
Definition references (t : text) : option (list Reference) :=
  collect (flat_map (fun p => map (reference (snd p)) (finditer (fst p) t)) PATTERNS).

(** [sorted(references, key=lambda x: x["start"])]: a stable sort. *)
Fixpoint insert_by_start (x : Reference) (l : list Reference) : list Reference :=
  match l with
  | [] => [x]
  | y :: l' => if Nat.leb (ref_start x) (ref_start y) then x :: l else y :: insert_by_start x l'
  end.

Definition sorted_by_start (l : list Reference) : list Reference :=
  fold_right insert_by_start [] l.

Definition key : Type := (Z * option text)%type.

Definition text_eqb (a b : text) : bool :=
  if list_eq_dec N.eq_dec a b then true else false.

Definition key_eqb (a b : key) : bool :=
  Z.eqb (fst a) (fst b)
  && match snd a, snd b with
     | Some x, Some y => text_eqb x y
     | None, None => true
     | _, _ => false
     end.

Definition ref_key (r : Reference) : key := (figure r, subfigure r).

(** The second loop: keep the first reference of every key. *)
Fixpoint unique (seen : list key) (refs : list Reference) : list Reference :=
  match refs with
  | [] => []
  | ref :: rest =>
      if existsb (key_eqb (ref_key ref)) seen
      then unique seen rest
      else ref :: unique (ref_key ref :: seen) rest
  end.

(** [extract_references(text)]; [None] stands for the exception of the
    first loop. *)
Definition extract_references (t : text) : option (list Reference) :=
  match references t with
  | Some references => Some (unique [] (sorted_by_start references))
  | None => None
  end.


(** ** Notions used in the statements and proofs *)

(** The continuation with which [search] builds the match object. *)
Definition found (start : nat) (s0 : text) : text -> nat -> captures -> option (Match * text) :=
  fun s' pos' caps => Some (mkMatch start pos' caps (firstn (pos' - start) s0), s').

(** The citation under study. *)
Definition figure_3a : text := codes "Figure 3a"%string.

(** The groups of a match of "Figure 3a" by the first pattern. *)
Definition groups_3a : captures := [(2%nat, codes "a"%string); (1%nat, codes "3"%string)].

(** *** The loops without the limit of [int]

    What the two loops of [extract_references] build when no number is
    refused: the same dictionaries with [decimal] for [int].  Whenever
    [extract_references] returns, it returns [kept_references]. *)

Definition reference_of (has_subfigure : bool) (m : Match) : Reference :=
  let figure_num :=
    match group 1 (m_groups m) with Some t => decimal t | None => 0 end in
  let subfigure := if has_subfigure then group 2 (m_groups m) else None in
  mkReference (m_text m) figure_num subfigure (m_start m) (m_end m).

Definition found_references (t : text) : list Reference :=
  flat_map (fun p => map (reference_of (snd p)) (finditer (fst p) t)) PATTERNS.

Definition kept_references (t : text) : list Reference :=
  unique [] (sorted_by_start (found_references t)).

(** The code points of ASCII.  The matcher's [\d] is the ASCII digits;
    Python's also accepts the decimal digits of other scripts, so the
    statements about digits are made for ASCII texts. *)
Definition is_ascii (t : text) : Prop := Forall (fun c => (c < 128)%N) t.

(** *** Texts on which [int] accepts every number

    A character that [\d] can match in Python: an ASCII digit, or a
    character outside ASCII (the decimal digits of the other scripts are
    among these). *)
Definition may_be_digit (c : N) : bool := is_digit c || (128 <=? c)%N.

(** The length of the longest run of consecutive characters that satisfy
    [P]; [cur] counts the run that ends where [t] starts. *)
Fixpoint longest_run_from (P : N -> bool) (cur : nat) (t : text) : nat :=
  match t with
  | [] => cur
  | c :: t' =>
      if P c then longest_run_from P (S cur) t'
      else Nat.max cur (longest_run_from P 0 t')
  end.

Definition longest_run (P : N -> bool) (t : text) : nat := longest_run_from P 0 t.

(** The text has no run of more than 4300 consecutive characters that
    [\d] can match, so that no number captured by [(\d+)] is refused by
    [int]. *)
Definition short_numbers (t : text) : Prop :=
  (longest_run may_be_digit t <= max_str_digits)%nat.

(** A character class that holds digits only. *)
Definition digits_only (items : list class_item) : bool :=
  forallb (fun it => match it with Digit => true | _ => false end) items.

(** Read off the expression: every match of [r] consumes digits only. *)
Fixpoint digits_alone (r : regex) : bool :=
  match r with
  | Class items | Star items => digits_only items
  | Cat a b | Alt a b => digits_alone a && digits_alone b
  | Opt a => digits_alone a
  | Lit _ | Group _ _ | NotAhead _ => false
  end.

(** Read off the expression: every match of [r] consumes a character. *)
Fixpoint consumes (r : regex) : bool :=
  match r with
  | Lit _ | Class _ => true
  | Cat a b => consumes a || consumes b
  | Alt a b => consumes a && consumes b
  | Group _ a => consumes a
  | Opt _ | Star _ | NotAhead _ => false
  end.

(** Read off the expression: group 1 encloses digits only, and at least
    one. *)
Fixpoint number_groups (r : regex) : bool :=
  match r with
  | Lit _ | Class _ | Star _ | NotAhead _ => true
  | Cat a b | Alt a b => number_groups a && number_groups b
  | Opt a => number_groups a
  | Group n a => if Nat.eqb n 1 then digits_alone a && consumes a else number_groups a
  end.

(** Read off the expression: every match of [r] captures group 1. *)
Fixpoint captures_number (r : regex) : bool :=
  match r with
  | Cat a b => captures_number a || captures_number b
  | Alt a b => captures_number a && captures_number b
  | Group n a => Nat.eqb n 1 || captures_number a
  | Lit _ | Class _ | Opt _ | Star _ | NotAhead _ => false
  end.

(** The captures [new] were taken from the text [s]: those of group 1
    are non-empty strings of digits that occur in [s]. *)
Definition taken_from (s : text) (new : captures) : Prop :=
  forall g, In (1%nat, g) new ->
    g <> []
    /\ Forall (fun c => is_digit c = true) g
    /\ exists i, g = firstn (length g) (skipn i s).

End Refs.

(* ================================================================== *)
(** * The extraction pipeline *)
(* ================================================================== *)

Module Pipeline.
Import BBox.

(** An embedded image of a page as the rendering library presents it:
    [get_image_rects(xref)] and [extract_image(xref)] either return or
    raise; [None] stands for the exception. *)
Record PageImage : Type := mkPageImage {
  image_rects : option (list Rect);
  base_image : option (list Byte.byte * String.string)
}.

(** A page: the result of [get_images(full=True)], in the library's order,
    the page rectangle and the extracted text (as code points). *)
Record Page : Type := mkPage {
  image_list : list PageImage;
  rect_width : Z;
  rect_height : Z;
  page_text : list N
}.

Inductive Method : Type :=
| region_crop_method | single_image_method | merged_region_method | raw_filtered_method.

(** An entry of [pdf_data["figures"]].  [fig_bbox] holds the four numbers
    stored under ["bbox"], when there are any. *)
Record Figure : Type := mkFigure {
  fig_page : Z;
  fig_index : nat;
  fig_data : list Byte.byte;
  fig_ext : String.string;
  fig_bbox : option (Z * Z * Z * Z);
  fig_method : Method
}.

Inductive Mode : Type := region_crop | merge_images | hybrid | extract_raw.

Definition len (data : list Byte.byte) : Z := Z.of_nat (length data).

Section Parser.
(** [page.get_pixmap(matrix=mat, clip=...).tobytes("png")]; [None] stands
    for an exception. *)
Variable get_pixmap : Page -> Rect -> option (list Byte.byte).

(** The filter parameters of the parser. *)
Variable min_image_size : Z.
Variable min_bbox_area : Z.
Variable max_aspect_ratio : Z.

(** [area < min_bbox_area] or [aspect_ratio > max_aspect_ratio] skips the
    box.  The quotient [max(w, h) / max(min(w, h), 1)] exceeds the bound
    exactly when [max(w, h)] exceeds the bound times the positive
    denominator. *)
Definition keep_bbox (bbox : Rect) : bool :=
  let width := x1 bbox - x0 bbox in
  let height := y1 bbox - y0 bbox in
  let area := width * height in
  if area <? min_bbox_area then false
  else if Z.max width height >? max_aspect_ratio * Z.max (Z.min width height) 1 then false
  else true.

(** The first loop of [_extract_by_region_crop]. *)
Definition image_bboxes (page : Page) : list Rect :=
  flat_map (fun img_info =>
              match image_rects img_info with
              | Some img_rects => img_rects
              | None => []
              end) (image_list page).

(** The body of [for idx, bbox in enumerate(filtered_bboxes)]. *)
Definition crop_region (page : Page) (page_num : Z) (idx : nat) (bbox : Rect)
  : list Figure :=
  let margin := 5 in
  let expanded_bbox :=
    mkRect (Z.max 0 (x0 bbox - margin)) (Z.max 0 (y0 bbox - margin))
           (Z.min (rect_width page) (x1 bbox + margin))
           (Z.min (rect_height page) (y1 bbox + margin)) in
  match get_pixmap page expanded_bbox with
  | None => []
  | Some img_bytes =>
      if len img_bytes <? min_image_size then []
      else [mkFigure page_num idx img_bytes "png"%string
                     (Some (x0 bbox, y0 bbox, x1 bbox - x0 bbox, y1 bbox - y0 bbox))
                     region_crop_method]
  end.

Fixpoint crop_regions (page : Page) (page_num : Z) (idx : nat) (bboxes : list Rect)
  : list Figure :=
  match bboxes with
  | [] => []
  | bbox :: rest =>
      crop_region page page_num idx bbox ++ crop_regions page page_num (S idx) rest
  end.

(** [_extract_by_region_crop(page, page_num)]. *)
Definition extract_by_region_crop (page : Page) (page_num : Z) : list Figure :=
  match image_bboxes page with
  | [] => []
  | bboxes =>
      let merged_bboxes := merge_nearby_bboxes bboxes 80 in
      let filtered_bboxes := filter keep_bbox merged_bboxes in
      crop_regions page page_num 0 filtered_bboxes
  end.

(** An entry of [image_data] in [_extract_by_merging]. *)
Record ImageData : Type := mkImageData {
  bytes : list Byte.byte;
  ext : String.string;
  bbox : Rect
}.

Definition collect_image_data (page : Page) : list ImageData :=
  flat_map (fun img_info =>
              match base_image img_info, image_rects img_info with
              | Some (img_bytes, e), Some (r :: _) =>
                  if len img_bytes >? 5000 then [mkImageData img_bytes e r] else []
              | _, _ => []
              end) (image_list page).

(** The search for a group in [_group_nearby_images]: the image joins the
    first group that has a member near it, or opens a new group. *)
Fixpoint add_to_groups (img : ImageData) (groups : list (list ImageData))
  : list (list ImageData) :=
  match groups with
  | [] => [[img]]
  | group :: rest =>
      if existsb (fun existing_img => is_nearby (bbox img) (bbox existing_img) 50) group
      then (group ++ [img]) :: rest
      else group :: add_to_groups img rest
  end.

Definition group_nearby_images (image_data : list ImageData) : list (list ImageData) :=
  match image_data with
  | [] => []
  | first :: rest => fold_left (fun groups img => add_to_groups img groups) rest [[first]]
  end.

(** [_merge_bboxes_to_one]. *)
Definition merge_bboxes_to_one (bboxes : list Rect) : Rect := bounding_box bboxes.

Definition rect_tuple (r : Rect) : Z * Z * Z * Z := (x0 r, y0 r, x1 r, y1 r).

Definition merge_group (page : Page) (page_num : Z) (idx : nat) (group : list ImageData)
  : list Figure :=
  match group with
  | [img_data] =>
      if len (bytes img_data) >=? min_image_size
      then [mkFigure page_num idx (bytes img_data) (ext img_data)
                     (Some (rect_tuple (bbox img_data))) single_image_method]
      else []
  | _ =>
      let merged_bbox := merge_bboxes_to_one (map bbox group) in
      match get_pixmap page merged_bbox with
      | None => []
      | Some img_bytes =>
          if len img_bytes >=? min_image_size
          then [mkFigure page_num idx img_bytes "png"%string (Some (rect_tuple merged_bbox))
                         merged_region_method]
          else []
      end
  end.

Fixpoint merge_groups (page : Page) (page_num : Z) (idx : nat)
    (groups : list (list ImageData)) : list Figure :=
  match groups with
  | [] => []
  | group :: rest =>
      merge_group page page_num idx group ++ merge_groups page page_num (S idx) rest
  end.

(** [_extract_by_merging(page, page_num)]. *)
Definition extract_by_merging (page : Page) (page_num : Z) : list Figure :=
  merge_groups page page_num 0 (group_nearby_images (collect_image_data page)).

(** The body of the loop of [_extract_raw_images]. *)
Definition raw_image (page_num : Z) (img_index : nat) (img_info : PageImage)
  : list Figure :=
  match base_image img_info with
  | None => []
  | Some (image_bytes, e) =>
      if len image_bytes <? min_image_size then []
      else
        match image_rects img_info with
        | None => []
        | Some [] =>
            [mkFigure page_num img_index image_bytes e None raw_filtered_method]
        | Some (r :: _) =>
            if keep_bbox r
            then [mkFigure page_num img_index image_bytes e (Some (rect_tuple r))
                           raw_filtered_method]
            else []
        end
  end.

Fixpoint raw_images (page_num : Z) (img_index : nat) (imgs : list PageImage)
  : list Figure :=
  match imgs with
  | [] => []
  | img_info :: rest =>
      raw_image page_num img_index img_info ++ raw_images page_num (S img_index) rest
  end.

(** [_extract_raw_images(page, page_num)]. *)
Definition extract_raw_images (page : Page) (page_num : Z) : list Figure :=
  raw_images page_num 0 (image_list page).

(** The choice of strategy in [parse]. *)
Definition page_figures (mode : Mode) (page : Page) (page_num : Z) : list Figure :=
  match mode with
  | region_crop => extract_by_region_crop page page_num
  | merge_images => extract_by_merging page page_num
  | hybrid =>
      match extract_by_region_crop page page_num with
      | [] => extract_by_merging page page_num
      | figures => figures
      end
  | extract_raw => extract_raw_images page page_num
  end.

(** The loop [for page_num in range(total_pages)] of [parse], as far as
    the figures go; [page_num] is the zero-based index of the first page
    of [doc]. *)
Fixpoint parse_figures (mode : Mode) (page_num : Z) (doc : list Page) : list Figure :=
  match doc with
  | [] => []
  | page :: rest =>
      page_figures mode page (page_num + 1) ++ parse_figures mode (page_num + 1) rest
  end.

End Parser.

(** [text.strip()] is non-empty when some character is not white space. *)
Definition has_text (t : list N) : bool := existsb (fun c => negb (Refs.is_space c)) t.

(** The loop of [parse], as far as the texts go: a page number and the
    text of the page, for the pages that have text. *)
Fixpoint parse_texts (page_num : Z) (doc : list Page) : list (Z * list N) :=
  match doc with
  | [] => []
  | page :: rest =>
      (if has_text (page_text page) then [(page_num + 1, page_text page)] else [])
        ++ parse_texts (page_num + 1) rest
  end.

(** [subseq l1 l2]: [l1] is [l2] with some entries left out, the order
    kept. *)
Inductive subseq {A : Type} : list A -> list A -> Prop :=
| subseq_nil : subseq [] []
| subseq_skip x l1 l2 : subseq l1 l2 -> subseq l1 (x :: l2)
| subseq_take x l1 l2 : subseq l1 l2 -> subseq (x :: l1) (x :: l2).

(** The four numbers stored under ["bbox"] by the region-crop strategy. *)
Definition xywh (r : Rect) : option (Z * Z * Z * Z) :=
  Some (x0 r, y0 r, x1 r - x0 r, y1 r - y0 r).

(** Left-to-right, then top-to-bottom: the box [a] comes no later than
    the box [b]. *)
Definition reading_order (a b : Z * Z * Z * Z) : Prop :=
  let '(ax, ay, _, _) := a in
  let '(bx, by_, _, _) := b in
  ax < bx \/ (ax = bx /\ ay <= by_).


(** ** Notions used in the statements and proofs *)

(** Default values for [nth]. *)
Definition no_figure : Figure := mkFigure 0 0 [] ""%string None region_crop_method.

(** A page with two far-apart images; the embedded-image list names the
    lower right one first. *)
Definition two_figures_page : Page :=
  mkPage [mkPageImage (Some [mkRect 500 500 700 700]) None;
          mkPageImage (Some [mkRect 0 0 200 200]) None]
         800 800 [].

(** A renderer that returns 20000 bytes for every region. *)
Definition blank_pixmap (_ : Page) (_ : Rect) : option (list Byte.byte) :=
  Some (repeat Byte.x00 (Z.to_nat 20000)).

End Pipeline.

(* ================================================================== *)
(** * Python dictionaries with integer keys *)
(* ================================================================== *)

Module PyDict.

(** A [dict] keeps its keys in insertion order; assigning to an existing
    key keeps the key's position. *)
Definition dict (V : Type) : Type := list (Z * V).

Fixpoint dict_get {V} (k : Z) (d : dict V) : option V :=
  match d with
  | [] => None
  | (k', v) :: d' => if Z.eqb k k' then Some v else dict_get k d'
  end.

(** [k in d] *)
Definition dict_mem {V} (k : Z) (d : dict V) : bool :=
  match dict_get k d with Some _ => true | None => false end.

(** [d[k] = v] *)
Fixpoint dict_set {V} (k : Z) (v : V) (d : dict V) : dict V :=
  match d with
  | [] => [(k, v)]
  | (k', v') :: d' =>
      if Z.eqb k k' then (k, v) :: d' else (k', v') :: dict_set k v d'
  end.

Definition keys {V} (d : dict V) : list Z := map fst d.

End PyDict.

(* ================================================================== *)
(** * Matching figure numbers to images *)
(* ================================================================== *)

Module Matcher.
Import PyDict Pipeline.

Definition Path : Type := String.string.

(** [str(idx)] for an index. *)
Definition str_nat (n : nat) : String.string :=
  DecimalString.NilEmpty.string_of_uint (Nat.to_uint n).

(** [str(image_dir / f"raw_{idx}.{ext}")]. *)
Definition raw_path (image_dir : String.string) (idx : nat) (ext : String.string) : Path :=
  String.append image_dir
    (String.append "/raw_"%string
       (String.append (str_nat idx) (String.append "."%string ext))).

(** An entry of [self.all_images]. *)
Record Image : Type := mkImage {
  id : nat;
  path : Path;
  page : Z;
  size : Z
}.

(** A value of [self.figure_map]; the sub-figure dictionary maps a label to
    the path of the cropped image. *)
Record FigureRecord : Type := mkRecord {
  rec_path : Path;
  rec_page : Z;
  subfigures : list (String.string * String.string);
  split_attempted : bool
}.

Definition FigureMap : Type := dict (option FigureRecord).

(** [load_pdf], step 2: the loop over [enumerate(pdf_data["figures"])],
    started at index [idx]; [image_dir] is [self.data_dir / "images"]. *)
Fixpoint enumerate_images (image_dir : String.string) (idx : nat) (figures : list Figure)
  : list Image :=
  match figures with
  | [] => []
  | fig_data :: rest =>
      mkImage idx (raw_path image_dir idx (fig_ext fig_data)) (fig_page fig_data)
              (len (Pipeline.fig_data fig_data))
        :: enumerate_images image_dir (S idx) rest
  end.

Definition load_images (image_dir : String.string) (figures : list Figure) : list Image :=
  enumerate_images image_dir 0 figures.

Definition mem_nat (x : nat) (l : list nat) : bool := existsb (Nat.eqb x) l.
Definition mem_Z (x : Z) (l : list Z) : bool := existsb (Z.eqb x) l.

(** The first loop of [_match_figures_intelligently]: one reference to
    figure [fig_num] found on page [page]. *)
Definition add_reference (page : Z) (figure_pages : dict (list Z)) (fig_num : Z)
  : dict (list Z) :=
  let figure_pages :=
    if dict_mem fig_num figure_pages then figure_pages
    else dict_set fig_num [] figure_pages in
  match dict_get fig_num figure_pages with
  | Some pages =>
      if mem_Z page pages then figure_pages
      else dict_set fig_num (pages ++ [page]) figure_pages
  | None => figure_pages
  end.

(** [page_refs] holds, for every entry of [self.texts], its page and the
    figure numbers of the references extracted from its text, in the order
    returned by [extract_references]. *)
Definition collect_figure_pages (page_refs : list (Z * list Z)) : dict (list Z) :=
  fold_left (fun figure_pages pr => fold_left (add_reference (fst pr)) (snd pr) figure_pages)
            page_refs [].

(** [sorted(...)] on integers. *)
Fixpoint insert_sorted (x : Z) (l : list Z) : list Z :=
  match l with
  | [] => [x]
  | y :: l' => if x <=? y then x :: l else y :: insert_sorted x l'
  end.

Definition sorted (l : list Z) : list Z := fold_right insert_sorted [] l.

(** [min(pages)]; [None] stands for the [ValueError] on an empty list. *)
Definition py_min (l : list Z) : option Z :=
  match l with
  | [] => None
  | x :: l' => Some (fold_left Z.min l' x)
  end.

(** [max(keys)]; [None] stands for the [ValueError] on an empty list. *)
Definition py_max (l : list Z) : option Z :=
  match l with
  | [] => None
  | x :: l' => Some (fold_left Z.max l' x)
  end.

(** [max(images, key=lambda x: x["size"])]: the first image of maximal
    size. *)
Definition max_by_size (images : list Image) : option Image :=
  match images with
  | [] => None
  | x :: l' =>
      Some (fold_left (fun best img => if size img >? size best then img else best) l' x)
  end.

(** The pages [first_mention_page + offset] for [offset] in [range(-2, 3)]
    that are [> 0]. *)
Definition search_pages (first_mention_page : Z) : list Z :=
  filter (fun page => page >? 0)
         (map (fun offset => first_mention_page + offset) [-2; -1; 0; 1; 2]).

Definition candidate_images (all_images : list Image) (search : list Z) (used : list nat)
  : list Image :=
  filter (fun img => mem_Z (page img) search && negb (mem_nat (id img) used)) all_images.

Definition is_empty {A} (l : list A) : bool :=
  match l with [] => true | _ => false end.

(** The tiers of 50000 and 20000 bytes. *)
Definition large_images (candidates : list Image) : list Image :=
  let large := filter (fun img => size img >? 50000) candidates in
  let large :=
    if is_empty large then filter (fun img => size img >? 20000) candidates else large in
  if is_empty large then candidates else large.

Definition new_record (img : Image) : FigureRecord :=
  mkRecord (path img) (page img) [] false.

(** The body of [for fig_num in sorted(figure_pages.keys())].  [None] is an
    exception ([KeyError] or [ValueError]). *)
Definition primary_step (all_images : list Image) (figure_pages : dict (list Z))
    (st : FigureMap * list nat) (fig_num : Z) : option (FigureMap * list nat) :=
  let '(figure_map, used_image_ids) := st in
  match dict_get fig_num figure_pages with
  | None => None
  | Some pages =>
      match py_min pages with
      | None => None
      | Some first_mention_page =>
          let candidates :=
            candidate_images all_images (search_pages first_mention_page) used_image_ids in
          if is_empty candidates
          then Some (dict_set fig_num None figure_map, used_image_ids)
          else
            match max_by_size (large_images candidates) with
            | None => None
            | Some best_image =>
                Some (dict_set fig_num (Some (new_record best_image)) figure_map,
                      id best_image :: used_image_ids)
            end
      end
  end.

Fixpoint primary_pass (all_images : list Image) (figure_pages : dict (list Z))
    (fig_nums : list Z) (st : FigureMap * list nat) : option (FigureMap * list nat) :=
  match fig_nums with
  | [] => Some st
  | fig_num :: rest =>
      match primary_step all_images figure_pages st fig_num with
      | None => None
      | Some st' => primary_pass all_images figure_pages rest st'
      end
  end.

(** [unmatched_large_images.sort(key=lambda x: (x["page"], -x["size"]))]:
    a stable sort on the pair, compared lexicographically. *)
Definition key_le (a b : Image) : bool :=
  (page a <? page b) || ((page a =? page b) && (- size a <=? - size b)).

Fixpoint insert_image (x : Image) (l : list Image) : list Image :=
  match l with
  | [] => [x]
  | y :: l' => if key_le x y then x :: l else y :: insert_image x l'
  end.

Definition sort_images (l : list Image) : list Image := fold_right insert_image [] l.

(** [while next_fig_num in figure_map: next_fig_num += 1].  At most
    [length figure_map] numbers can be taken. *)
Fixpoint next_free (fuel : nat) (figure_map : FigureMap) (next_fig_num : Z) : Z :=
  match fuel with
  | O => next_fig_num
  | S fuel' =>
      if dict_mem next_fig_num figure_map
      then next_free fuel' figure_map (next_fig_num + 1)
      else next_fig_num
  end.

(** The body of [for img in unmatched_large_images]; the state is
    [(figure_map, used_image_ids, next_fig_num)]. *)
Definition fallback_step (st : FigureMap * list nat * Z) (img : Image)
  : FigureMap * list nat * Z :=
  let '(figure_map, used_image_ids, next_fig_num) := st in
  let next_fig_num := next_free (length figure_map) figure_map next_fig_num in
  (dict_set next_fig_num (Some (new_record img)) figure_map,
   id img :: used_image_ids,
   next_fig_num + 1).

Definition fallback_pass (all_images : list Image) (st : FigureMap * list nat)
  : option FigureMap :=
  let '(figure_map, used_image_ids) := st in
  let unmatched_large_images :=
    filter (fun img => negb (mem_nat (id img) used_image_ids) && (size img >? 50000))
           all_images in
  if is_empty unmatched_large_images then Some figure_map
  else
    let unmatched_large_images := sort_images unmatched_large_images in
    let start :=
      if is_empty figure_map then Some 1
      else match py_max (keys figure_map) with
           | Some m => Some (m + 1)
           | None => None
           end in
    match start with
    | None => None
    | Some next_fig_num =>
        Some (fst (fst (fold_left fallback_step unmatched_large_images
                                  (figure_map, used_image_ids, next_fig_num))))
    end.

(** [_match_figures_intelligently], from the collected [figure_pages] on. *)
Definition match_figures (figure_pages : dict (list Z)) (all_images : list Image)
  : option FigureMap :=
  match primary_pass all_images figure_pages (sorted (keys figure_pages)) ([], []) with
  | None => None
  | Some st => fallback_pass all_images st
  end.

(** The references of every text, as the first loop reads them:
    [ref["figure"]] for [ref] in [extract_references(text_data["content"])].
    [None] stands for the exception of [extract_references] on one of the
    texts, which ends the matcher. *)
Definition page_refs (texts : list (Z * list N)) : option (list (Z * list Z)) :=
  Refs.collect
    (map (fun text_data =>
            match Refs.extract_references (snd text_data) with
            | Some refs => Some (fst text_data, map Refs.figure refs)
            | None => None
            end)
         texts).

(** [_match_figures_intelligently()] on [self.texts] and [self.all_images];
    [None] stands for an exception. *)
Definition match_figures_intelligently (texts : list (Z * list N)) (all_images : list Image)
  : option FigureMap :=
  match page_refs texts with
  | Some refs => match_figures (collect_figure_pages refs) all_images
  | None => None
  end.

(** [load_pdf] with the parser as [SmartAgent.__init__] sets it up: mode
    "hybrid", [min_image_size = 20000], [min_bbox_area = 5000],
    [max_aspect_ratio = 8].  Returns [self.texts], [self.all_images] and
    [self.figure_map]; [None] stands for the exception of the matcher,
    which [load_pdf] does not catch. *)
Definition load_pdf (get_pixmap : Page -> BBox.Rect -> option (list Byte.byte))
    (image_dir : String.string) (doc : list Page)
  : option (list (Z * list N) * list Image * FigureMap) :=
  let texts := parse_texts 0 doc in
  let all_images :=
    load_images image_dir (parse_figures get_pixmap 20000 5000 8 hybrid 0 doc) in
  match match_figures_intelligently texts all_images with
  | Some figure_map => Some (texts, all_images, figure_map)
  | None => None
  end.



(** ** Notions used in the statements and proofs *)

(** [self.data_dir / "images"] for the default [data_dir]. *)
Definition default_image_dir : String.string := "data/images"%string.



(** No figure number is listed without a page. *)
Definition well_formed (figure_pages : dict (list Z)) : Prop :=
  forall k pages, dict_get k figure_pages = Some pages -> pages <> [].


(** Default value for [nth]. *)
Definition no_image : Image := mkImage 0 ""%string 0 0.



(** Figure 1 is cited on page 3, figure 2 on pages 8 and 9. *)
Definition scenario_citations : list (Z * list Z) := [(3, [1]); (8, [2]); (9, [2])].

(** The images: one on page 2, one on page 3, one on page 10, of any sizes. *)
Definition img_p2 (s : Z) : Image := mkImage 0 (raw_path default_image_dir 0 "png"%string) 2 s.

Definition img_p3 (s : Z) : Image := mkImage 1 (raw_path default_image_dir 1 "png"%string) 3 s.

Definition img_p10 (s : Z) : Image := mkImage 2 (raw_path default_image_dir 2 "png"%string) 10 s.

Definition scenario_images (s2 s3 s10 : Z) : list Image :=
  [img_p2 s2; img_p3 s3; img_p10 s10].

End Matcher.

(* ================================================================== *)
(** * Lazy sub-figure splitting *)
(* ================================================================== *)

Module Split.
Import PyDict Matcher.

(** What a call of [splitter.split] does: it returns a dictionary from
    labels to paths (possibly empty), or it raises. *)
Inductive SplitResult : Type :=
| Returned (subfigs : list (String.string * String.string))
| Raised.

(** The external splitter.  The result of [split] may depend on the calls
    made before, on the image path, the figure number and [use_numbers]. *)
Record Splitter : Type := mkSplitter {
  is_available : bool;
  split : list Z -> Path -> Z -> bool -> SplitResult
}.

(** The figure map together with the figure numbers for which
    [splitter.split] has been invoked, latest first. *)
Definition State : Type := (FigureMap * list Z)%type.

(** Python truth value of [subfig]: [None] and the empty string are false. *)
Definition truthy (subfig : option String.string) : bool :=
  match subfig with
  | Some s => negb (String.eqb s ""%string)
  | None => false
  end.

Definition set_attempted (r : FigureRecord) : FigureRecord :=
  mkRecord (rec_path r) (rec_page r) (subfigures r) true.

Definition set_subfigures (subfigs : list (String.string * String.string))
    (r : FigureRecord) : FigureRecord :=
  mkRecord (rec_path r) (rec_page r) subfigs (split_attempted r).

(** The [try] blocks around [splitter.split]: [fig_data] is updated in
    place, so the entry of the map at [fig_num] changes.  [query] stores
    whatever dictionary is returned; the two other callers store it only
    when it is not empty ([assign_empty = false]). *)
Definition try_split (sp : Splitter) (use_numbers assign_empty : bool) (fig_num : Z)
    (fig_data : FigureRecord) (st : State) : State :=
  let '(figure_map, calls) := st in
  match split sp calls (rec_path fig_data) fig_num use_numbers with
  | Returned subfigs =>
      let fig_data :=
        if assign_empty || negb (is_empty subfigs)
        then set_subfigures subfigs fig_data else fig_data in
      (dict_set fig_num (Some (set_attempted fig_data)) figure_map, fig_num :: calls)
  | Raised =>
      (dict_set fig_num (Some (set_attempted fig_data)) figure_map, fig_num :: calls)
  end.

(** [query], for a question in which [_extract_figure_number] found the
    figure number [fig_num] and the sub-figure label [subfig]; the
    generator is run to its end.  Only the effect on the figure map and
    the calls of the splitter are kept.  [texts] is [self.texts]: when it
    is empty, [query] yields an error and returns at once. *)
Definition query (sp : Splitter) (texts : list (Z * list N)) (fig_num : Z)
    (subfig : option String.string) (st : State) : State :=
  let '(figure_map, calls) := st in
  match texts with
  | [] => st
  | _ :: _ =>
      match dict_get fig_num figure_map with
      | Some (Some fig_data) =>
          if truthy subfig && negb (split_attempted fig_data) then
            if is_available sp
            then try_split sp false true fig_num fig_data st
            else (dict_set fig_num (Some (set_attempted fig_data)) figure_map, calls)
          else if negb (truthy subfig) && negb (split_attempted fig_data) then
            if is_available sp
            then try_split sp false true fig_num fig_data st
            else st
          else st
      | _ => st
      end
  end.

(** The body of the loop of [auto_split_all_figures], for one item of the
    list [list(self.figure_map.items())[:5]] taken before the loop.  The
    item refers to the record object in the map, so the record is read
    from the current map. *)
Definition auto_split_item (sp : Splitter) (st : State)
    (item : Z * option FigureRecord) : State :=
  match dict_get (fst item) (fst st) with
  | Some (Some fig_data) =>
      if split_attempted fig_data then st
      else try_split sp true false (fst item) fig_data st
  | _ => st
  end.

(** [auto_split_all_figures]. *)
Definition auto_split_all_figures (sp : Splitter) (st : State) : State :=
  if negb (is_available sp) then st
  else fold_left (auto_split_item sp) (firstn 5 (fst st)) st.

(** [SubfigureAnalyzer.ensure_subfigures_split]: its effect on the figure
    map and the calls of the splitter.  The exceptions for a missing figure
    number and for an entry without a record leave both unchanged. *)
Definition ensure_subfigures_split (sp : Splitter) (fig_num : Z) (st : State) : State :=
  let '(figure_map, calls) := st in
  match dict_get fig_num figure_map with
  | Some (Some fig_data) =>
      if negb (is_empty (subfigures fig_data)) then st
      else if negb (split_attempted fig_data) then
        if negb (is_available sp)
        then (dict_set fig_num (Some (set_attempted fig_data)) figure_map, calls)
        else try_split sp true false fig_num fig_data st
      else st
  | _ => st
  end.

(** What a consumer may do with the figure map of a loaded document. *)
Inductive Request : Type :=
| Query (fig_num : Z) (subfig : option String.string)
| AutoSplitAll
| EnsureSplit (fig_num : Z).

(** The requests leave [self.texts] as [load_pdf] set it. *)
Definition serve (sp : Splitter) (texts : list (Z * list N)) (st : State) (req : Request)
  : State :=
  match req with
  | Query fig_num subfig => query sp texts fig_num subfig st
  | AutoSplitAll => auto_split_all_figures sp st
  | EnsureSplit fig_num => ensure_subfigures_split sp fig_num st
  end.

Definition serve_all (sp : Splitter) (texts : list (Z * list N)) (reqs : list Request)
    (st : State) : State :=
  fold_left (serve sp texts) reqs st.

(** The flag of the record stored under [fig_num], if there is one. *)
Definition attempted (figure_map : FigureMap) (fig_num : Z) : option bool :=
  match dict_get fig_num figure_map with
  | Some (Some r) => Some (split_attempted r)
  | _ => None
  end.


(** ** Notions used in the statements and proofs *)

(** What one request may do: the splitter is called for some figure
    numbers whose flag was false and is true afterwards; flags that were
    true stay true; entries without a record stay so. *)
Definition advances (st st' : State) : Prop :=
  exists new,
    snd st' = new ++ snd st
    /\ NoDup new
    /\ (forall k, In k new -> attempted (fst st) k = Some false)
    /\ (forall k, In k new -> attempted (fst st') k = Some true)
    /\ (forall k, attempted (fst st) k = Some true -> attempted (fst st') k = Some true)
    /\ (forall k, attempted (fst st) k = None <-> attempted (fst st') k = None).

(** A record as the matcher creates it. *)
Definition fresh_record : FigureRecord := mkRecord (raw_path default_image_dir 0 "png"%string) 1 [] false.

(** An available splitter that finds one panel. *)
Definition some_splitter : Splitter :=
  mkSplitter true (fun _ _ _ _ => Returned [("a"%string, "subfig_a.png"%string)]).

(** The text of one page. *)
Definition one_text : list (Z * list N) := [(1, Refs.codes "Figure 1 shows the result."%string)].

(** A document of one page that holds one image and no text, and a
    renderer that returns 60000 bytes for every region. *)
Definition image_only_doc : list Pipeline.Page :=
  [Pipeline.mkPage [Pipeline.mkPageImage (Some [BBox.mkRect 0 0 200 200]) None] 800 800 []].

Definition large_pixmap (_ : Pipeline.Page) (_ : BBox.Rect) : option (list Byte.byte) :=
  Some (repeat Byte.x00 (Z.to_nat 60000)).

End Split.

(* ================================================================== *)
(** * Notions for the extraction strategies *)
(* ================================================================== *)

Module Extraction.
Import BBox Pipeline.

(** Every member of a group but the first is near a member that joined the
    group before it. *)
Definition chained (g : list ImageData) : Prop :=
  forall pre x post, g = pre ++ x :: post -> pre <> [] ->
    exists y, In y pre /\ is_nearby (bbox x) (bbox y) 50 = true.

(** A page with one embedded image of 6000 bytes that is placed nowhere,
    and a page with one such image placed at the origin. *)
Definition six_thousand : list Byte.byte := repeat Byte.x00 (Z.to_nat 6000).

Definition unplaced_page : Page :=
  mkPage [mkPageImage (Some []) (Some (six_thousand, "jpeg"%string))] 800 800 [].

Definition placed_page : Page :=
  mkPage [mkPageImage (Some [mkRect 0 0 200 200]) (Some (six_thousand, "jpeg"%string))]
         800 800 [].

(** A page that holds the single letter A. *)
Definition letter_page : Page := mkPage [] 100 100 [65%N].

End Extraction.

(* ================================================================== *)
(** * The statistics reported by [load_pdf] *)
(* ================================================================== *)

Module Loader.
Import PyDict Pipeline Matcher.




(** ** Notions used in the statements and proofs *)

(** The citations as pairs of a page and a figure number, in the order in
    which the first loop of the matcher meets them. *)
Definition citations (page_refs : list (Z * list Z)) : list (Z * Z) :=
  flat_map (fun pr => map (fun fig_num => (fst pr, fig_num)) (snd pr)) page_refs.


(** The images left to the fallback pass, in the order in which it numbers
    them. *)
Definition unmatched_large_images (all_images : list Image) (used : list nat) : list Image :=
  sort_images
    (filter (fun img => negb (mem_nat (id img) used) && (size img >? 50000)) all_images).






End Loader.

(* ================================================================== *)
(** * The sub-figure analyzer *)
(* ================================================================== *)

Module Analyzer.
Import PyDict Matcher Split.

(** How a call ends: with a value, or with one of the two exceptions that
    [ensure_subfigures_split] lets out. *)
Inductive Outcome (A : Type) : Type :=
| Ok (a : A)
| ValueError
| TypeError.
Arguments Ok {A} a.
Arguments ValueError {A}.
Arguments TypeError {A}.

(** [SubfigureAnalyzer.ensure_subfigures_split(fig_num)]: what it returns
    or raises, and the state in which it leaves the figure map and the
    splitter.  An entry without a record is [None] in Python, on which the
    test ["subfigures" in fig_data] raises [TypeError]. *)
Definition ensure_subfigures_split (sp : Splitter) (fig_num : Z) (st : State)
  : Outcome (list (String.string * String.string)) * State :=
  let '(figure_map, calls) := st in
  match dict_get fig_num figure_map with
  | None => (ValueError, st)
  | Some None => (TypeError, st)
  | Some (Some fig_data) =>
      if negb (is_empty (subfigures fig_data)) then (Ok (subfigures fig_data), st)
      else if negb (split_attempted fig_data) then
        if negb (is_available sp)
        then (Ok [], (dict_set fig_num (Some (set_attempted fig_data)) figure_map, calls))
        else
          match split sp calls (rec_path fig_data) fig_num true with
          | Returned subfigs =>
              if negb (is_empty subfigs)
              then (Ok subfigs,
                    (dict_set fig_num
                       (Some (set_attempted (set_subfigures subfigs fig_data))) figure_map,
                     fig_num :: calls))
              else (Ok [],
                    (dict_set fig_num (Some (set_attempted fig_data)) figure_map,
                     fig_num :: calls))
          | Raised =>
              (Ok [],
               (dict_set fig_num (Some (set_attempted fig_data)) figure_map,
                fig_num :: calls))
          end
      else (Ok (subfigures fig_data), st)
  end.

(** ** Notions used in the statements and proofs *)

(** A map with a record for figure 1 and a citation without image for
    figure 2. *)
Definition one_matched : FigureMap := [(1, Some fresh_record); (2, None)].

End Analyzer.

(* ================================================================== *)
(** * The sub-figure splitter *)
(* ================================================================== *)

Module SubfigureSplitter.
Import Pipeline Matcher.

(** A Python [dict] from strings to strings, in insertion order. *)
Definition str_dict : Type := list (String.string * String.string).

Fixpoint str_get (k : String.string) (d : str_dict) : option String.string :=
  match d with
  | [] => None
  | (k', v) :: d' => if String.eqb k k' then Some v else str_get k d'
  end.

(** [d[k] = v] *)
Fixpoint str_set (k v : String.string) (d : str_dict) : str_dict :=
  match d with
  | [] => [(k, v)]
  | (k', v') :: d' =>
      if String.eqb k k' then (k, v) :: d' else (k', v') :: str_set k v d'
  end.

(** [str(n)] for an integer. *)
Definition str_Z (n : Z) : String.string :=
  DecimalString.NilZero.string_of_int (Z.to_int n).

(** An entry of the JSON file written by figure-separator: the box, in
    pixels, and the confidence, when the entry has one.  A Python float is
    a rational number. *)
Record Detection : Type := mkDetection {
  det_x : Z;
  det_y : Z;
  det_w : Z;
  det_h : Z;
  det_conf : option QArith_base.Q
}.

(** What the part of [split] before the loop meets outside the program:
    an exception (copying the image, the time-out of the sub-process,
    reading the JSON file), or the return code of the sub-process with the
    content of the JSON file, when the file exists. *)
Inductive Run : Type :=
| RunRaised
| RunExit (returncode : Z) (json : option (list Detection)).

(** The surroundings of one call of [split]. *)
Record Env : Type := mkEnv {
  has_separator : bool;              (* main.py and the model file exist *)
  run : Run;
  imread : option (Z * Z);           (* [img.shape[:2]]: height and width *)
  imwrite_raises : String.string -> bool
}.

(** The object: only [enabled] matters here. *)
Record SubfigureSplitter : Type := mkSubfigureSplitter { enabled : bool }.

(** [__init__]: [files_found] is the result of the test that both files
    exist, [None] when the test raises. *)
Definition init (files_found : option bool) : SubfigureSplitter :=
  let enabled := false in
  match files_found with
  | Some true => mkSubfigureSplitter true
  | Some false => mkSubfigureSplitter true
  | None => mkSubfigureSplitter true
  end.

(** [is_available]. *)
Definition is_available (self : SubfigureSplitter) : bool := enabled self.

(** [_split_simple]. *)
Definition split_simple (image_path output_dir : String.string) (figure_num : Z)
    (use_numbers : bool) : str_dict := [].

(** [d.get('conf', 0)]. *)
Definition conf_or_0 (d : Detection) : QArith_base.Q :=
  match det_conf d with
  | Some c => c
  | None => QArith_base.Qmake 0 1
  end.

(** [sorted(valid_detections, key=lambda d: (d['y'], d['x']))]: a stable
    sort on the pair. *)
Definition det_le (a b : Detection) : bool :=
  (det_y a <? det_y b) || ((det_y a =? det_y b) && (det_x a <=? det_x b)).

Fixpoint insert_detection (d : Detection) (l : list Detection) : list Detection :=
  match l with
  | [] => [d]
  | e :: l' => if det_le d e then d :: l else e :: insert_detection d l'
  end.

Definition sort_detections (l : list Detection) : list Detection :=
  fold_right insert_detection [] l.

Definition number_labels : list String.string :=
  ["1"; "2"; "3"; "4"; "5"; "6"; "7"; "8"; "9"; "10"]%string.

Definition letter_labels : list String.string :=
  ["a"; "b"; "c"; "d"; "e"; "f"; "g"; "h"; "i"; "j"]%string.

(** [str(Path(output_dir) / f"figure_{figure_num}{separator}{label}.png")]. *)
Definition figure_path (output_dir : String.string) (figure_num : Z)
    (separator label : String.string) : String.string :=
  String.append output_dir
    (String.append "/figure_"%string
       (String.append (str_Z figure_num)
          (String.append separator (String.append label ".png"%string)))).

(** The loop [for idx, detection in enumerate(valid_detections)], from
    index [idx] on.  [None] stands for an exception: the missing key
    ['conf'], or a failure to write the crop. *)
Fixpoint crop_loop (env : Env) (output_dir : String.string) (figure_num : Z)
    (separator : String.string) (labels : list String.string) (height width : Z)
    (idx : nat) (valid_detections : list Detection) (result : str_dict)
  : option str_dict :=
  match valid_detections with
  | [] => Some result
  | detection :: rest =>
      if (length labels <=? idx)%nat then Some result
      else
        let label := nth idx labels ""%string in
        match det_conf detection with
        | None => None
        | Some conf =>
            let x1 := Z.max 0 (det_x detection) in
            let y1 := Z.max 0 (det_y detection) in
            let x2 := Z.min width (det_x detection + det_w detection) in
            let y2 := Z.min height (det_y detection + det_h detection) in
            if (x2 <=? x1) || (y2 <=? y1)
            then crop_loop env output_dir figure_num separator labels height width
                           (S idx) rest result
            else
              let output_path := figure_path output_dir figure_num separator label in
              if imwrite_raises env output_path then None
              else crop_loop env output_dir figure_num separator labels height width
                             (S idx) rest (str_set label output_path result)
        end
  end.

(** [split(image_path, output_dir, figure_num, min_confidence, use_numbers)]. *)
Definition split (self : SubfigureSplitter) (env : Env)
    (image_path output_dir : String.string) (figure_num : Z)
    (min_confidence : QArith_base.Q) (use_numbers : bool) : str_dict :=
  if negb (enabled self) then []
  else if negb (has_separator env)
  then split_simple image_path output_dir figure_num use_numbers
  else
    match run env with
    | RunRaised => []
    | RunExit returncode json =>
        if negb (returncode =? 0) then []
        else
          match json with
          | None => []
          | Some detections =>
              if is_empty detections then []
              else
                let valid_detections :=
                  filter (fun d => QArith_base.Qle_bool min_confidence (conf_or_0 d))
                         detections in
                if is_empty valid_detections then []
                else
                  let valid_detections := sort_detections valid_detections in
                  match imread env with
                  | None => []
                  | Some (height, width) =>
                      let labels := if use_numbers then number_labels else letter_labels in
                      let separator := if use_numbers then "-"%string else ""%string in
                      match crop_loop env output_dir figure_num separator labels
                                      height width 0 valid_detections [] with
                      | Some result => result
                      | None => []
                      end
                  end
          end
    end.

(** The default value of [min_confidence], the float written [0.3]. *)
Definition default_min_confidence : QArith_base.Q :=
  QArith_base.Qmake 5404319552844595 18014398509481984.

(** The splitter as [SmartAgent] holds it: built by [__init__], called
    with the default confidence; the surroundings of a call may depend on
    the calls made before and on the image. *)
Definition as_splitter (files_found : option bool) (env : list Z -> Path -> Env)
    (output_dir : String.string) : Split.Splitter :=
  Split.mkSplitter
    (is_available (init files_found))
    (fun calls image_path figure_num use_numbers =>
       Split.Returned
         (split (init files_found) (env calls image_path) image_path output_dir
                figure_num default_min_confidence use_numbers)).

(** The image that [query] shows for figure [fig_num] and the label
    [subfig]: the crop stored under the label, if there is one after the
    attempt to split, and the whole figure otherwise.  [None] stands for
    an error event, after which no figure is shown: nothing has been
    loaded ([self.texts] is empty), or the figure number has no record. *)
Definition selected_image (sp : Split.Splitter) (texts : list (Z * list N)) (fig_num : Z)
    (subfig : option String.string) (st : Split.State) : option Path :=
  match texts with
  | [] => None
  | _ :: _ =>
      match PyDict.dict_get fig_num (fst (Split.query sp texts fig_num subfig st)) with
      | Some (Some fig_data) =>
          match subfig with
          | Some label =>
              if Split.truthy subfig
              then match str_get label (subfigures fig_data) with
                   | Some image_path => Some image_path
                   | None => Some (rec_path fig_data)
                   end
              else Some (rec_path fig_data)
          | None => Some (rec_path fig_data)
          end
      | _ => None
      end
  end.

(** ** Notions used in the statements and proofs *)

(** Surroundings in which figure-separator reports two boxes on an image
    of 100 by 100, the second one outside the image. *)
Definition two_boxes : Env :=
  mkEnv true
        (RunExit 0 (Some [mkDetection 0 0 50 50 (Some (QArith_base.Qmake 1 1));
                          mkDetection 200 0 50 50 (Some (QArith_base.Qmake 1 1));
                          mkDetection 50 50 50 50 (Some (QArith_base.Qmake 1 1))]))
        (Some (100, 100))
        (fun _ => false).

End SubfigureSplitter.

(* ================================================================== *)
(** * Grid detection of sub-figures *)
(* ================================================================== *)

Module Grid.
Import Matcher.

(** The loop of [FigureParser._find_valleys].  The projection enters only
    through the comparisons [val < threshold]: [below] holds their
    results, in the order of the array; [i] is the index of its head. *)
Fixpoint scan_valleys (below : list bool) (i : Z) (in_valley : bool) (valley_start : Z)
  : list Z :=
  match below with
  | [] => []
  | b :: rest =>
      if b && negb in_valley then scan_valleys rest (i + 1) true i
      else if negb b && in_valley
           then (valley_start + i) / 2 :: scan_valleys rest (i + 1) false valley_start
           else scan_valleys rest (i + 1) in_valley valley_start
  end.

(** The body of [for v in valleys[1:]]. *)
Definition keep_apart (min_distance : Z) (filtered : list Z) (v : Z) : list Z :=
  if v - last filtered 0 >=? min_distance then filtered ++ [v] else filtered.

(** [_find_valleys(projection, min_distance)]. *)
Definition find_valleys (below : list bool) (min_distance : Z) : list Z :=
  let valleys := scan_valleys below 0 false 0 in
  match valleys with
  | [] => valleys
  | [_] => valleys
  | v0 :: rest => fold_left (keep_apart min_distance) rest [v0]
  end.

(** A grey image as [_find_grid_lines] uses it: its shape, and for every
    row and every column whether its mean grey value is below the
    threshold of [_find_valleys]. *)
Record Gray : Type := mkGray {
  height : Z;
  width : Z;
  rows_below : list bool;
  columns_below : list bool
}.

(** [_find_grid_lines(gray_img)]: [h_lines] and [v_lines], or [None]. *)
Definition find_grid_lines (g : Gray) : option (list Z * list Z) :=
  let h_valleys := find_valleys (rows_below g) (height g / 10) in
  let v_valleys := find_valleys (columns_below g) (width g / 10) in
  if is_empty h_valleys && is_empty v_valleys then None
  else Some (0 :: h_valleys ++ [height g], 0 :: v_valleys ++ [width g]).

(** [_generate_labels(count)]: the letters from "a" on, as code points. *)
Definition generate_labels (count : Z) : list N :=
  map (fun i => (97 + N.of_nat i)%N) (seq 0 (Z.to_nat (Z.min count 26))).

(** An entry of the list returned: the path of the saved crop, the label
    and the box [(x, y, w, h)]. *)
Record Subfigure : Type := mkSubfigure {
  sub_path : String.string;
  sub_label : N;
  sub_bbox : Z * Z * Z * Z
}.

Section Detect.

(** [_save_subfigure] for the image and figure number at hand: the path
    written for a box and a label, or [None] when saving fails. *)
Variable save_subfigure : Z * Z * Z * Z -> N -> option String.string.

(** [self.min_size] *)
Variable min_size : Z.

(** The loop over [j], for the row between [y1] and [y2]; the state is
    [(subfigures, label_idx)].  The [break] ends the row. *)
Fixpoint row_loop (labels : list N) (y1 y2 : Z) (v_lines : list Z)
    (st : list Subfigure * nat) : list Subfigure * nat :=
  match v_lines with
  | x1 :: rest =>
      match rest with
      | x2 :: _ =>
          let w := x2 - x1 in
          let h := y2 - y1 in
          if (w <? min_size) || (h <? min_size) then row_loop labels y1 y2 rest st
          else
            match nth_error labels (snd st) with
            | None => st
            | Some label =>
                match save_subfigure (x1, y1, w, h) label with
                | Some subfig_path =>
                    row_loop labels y1 y2 rest
                             (fst st ++ [mkSubfigure subfig_path label (x1, y1, w, h)],
                              S (snd st))
                | None => row_loop labels y1 y2 rest st
                end
            end
      | [] => st
      end
  | [] => st
  end.

(** The loop over [i]. *)
Fixpoint grid_loop (labels : list N) (h_lines v_lines : list Z)
    (st : list Subfigure * nat) : list Subfigure * nat :=
  match h_lines with
  | y1 :: rest =>
      match rest with
      | y2 :: _ => grid_loop labels rest v_lines (row_loop labels y1 y2 v_lines st)
      | [] => st
      end
  | [] => st
  end.

(** [_detect_by_grid]. *)
Definition detect_by_grid (g : Gray) : list Subfigure :=
  match find_grid_lines g with
  | None => []
  | Some (h_lines, v_lines) =>
      let expected_count :=
        (Z.of_nat (length h_lines) - 1) * (Z.of_nat (length v_lines) - 1) in
      let labels := generate_labels expected_count in
      let subfigures := fst (grid_loop labels h_lines v_lines ([], 0%nat)) in
      if (2 <=? length subfigures)%nat then subfigures else []
  end.

End Detect.

(** ** Notions used in the statements and proofs *)

(** The entry of [below] at index [i]; outside the array, [false]. *)
Definition low (below : list bool) (i : Z) : bool :=
  if i <? 0 then false else nth (Z.to_nat i) below false.

(** [v] is the middle of a run of low entries that starts at [s] and is
    closed by the entry at [e], which is not low. *)
Definition valley_of (below : list bool) (v : Z) : Prop :=
  exists s e,
    0 <= s /\ s < e /\ e < Z.of_nat (length below)
    /\ (forall k, s <= k < e -> low below k = true)
    /\ low below e = false
    /\ v = (s + e) / 2.

(** Neighbours in the list are at least [min_distance] apart. *)
Definition spaced (min_distance : Z) (l : list Z) : Prop :=
  forall pre a b post, l = pre ++ a :: b :: post -> min_distance <= b - a.

(** The boxes [(x, y, w, h)] of two sub-figures do not overlap. *)
Definition apart (a b : Z * Z * Z * Z) : Prop :=
  let '(xa, ya, wa, ha) := a in
  let '(xb, yb, wb, hb) := b in
  xa + wa <= xb \/ xb + wb <= xa \/ ya + ha <= yb \/ yb + hb <= ya.

(** The pairs of neighbours of a list. *)
Fixpoint neighbours (l : list Z) : list (Z * Z) :=
  match l with
  | a :: rest =>
      match rest with
      | b :: _ => (a, b) :: neighbours rest
      | [] => []
      end
  | [] => []
  end.

(** The box of a cell of the grid. *)
Definition cell (ys xs : Z * Z) : Z * Z * Z * Z :=
  (fst xs, fst ys, snd xs - fst xs, snd ys - fst ys).

(** The cells of the grid, row by row. *)
Definition cells (h_lines v_lines : list Z) : list (Z * Z * Z * Z) :=
  flat_map (fun ys => map (cell ys) (neighbours v_lines)) (neighbours h_lines).

(** The crops are saved under one name. *)
Definition save_always : Z * Z * Z * Z -> N -> option String.string :=
  fun _ _ => Some "subfig.png"%string.

(** The box is at least [min_size] wide and high, and the crop was saved
    under the path recorded. *)
Definition kept (save_subfigure : Z * Z * Z * Z -> N -> option String.string)
    (min_size : Z) (s : Subfigure) : Prop :=
  let '(x, y, w, h) := sub_bbox s in
  min_size <= w /\ min_size <= h
  /\ save_subfigure (x, y, w, h) (sub_label s) = Some (sub_path s).

(** What is required of a sub-figure returned for the image [g]. *)
Definition well_placed (save_subfigure : Z * Z * Z * Z -> N -> option String.string)
    (min_size : Z) (g : Gray) (s : Subfigure) : Prop :=
  let '(x, y, w, h) := sub_bbox s in
  min_size <= w /\ min_size <= h
  /\ 0 <= x /\ x + w <= width g /\ 0 <= y /\ y + h <= height g
  /\ save_subfigure (x, y, w, h) (sub_label s) = Some (sub_path s).

(** An image of 1000 by 600 with one dark band of columns. *)
Definition banded : Gray :=
  mkGray 600 1000 (repeat false 600)
         (repeat false 400 ++ repeat true 20 ++ repeat false 580).

End Grid.

(* ================================================================== *)
(** * Notions for the reference patterns *)
(* ================================================================== *)

Module Patterns.
Import Refs.

(** [demands_digit r]: read off the expression, every match of [r] goes
    through a digit. *)
Fixpoint demands_digit (r : regex) : bool :=
  match r with
  | Lit _ => false
  | Class items => digits_only items
  | Cat a b => demands_digit a || demands_digit b
  | Alt a b => demands_digit a && demands_digit b
  | Opt _ => false
  | Star _ => false
  | Group _ a => demands_digit a
  | NotAhead _ => false
  end.

(** [text[start:end]] for [0 <= start <= end]. *)
Definition slice (t : text) (start stop : nat) : text := firstn (stop - start) (skipn start t).

(** A text for the examples. *)
Definition see_fig_2 : text := codes "see Fig. 2"%string.

End Patterns.

(* ================================================================== *)
(** * The plain citation "Figure n" *)
(* ================================================================== *)

Module Plain.
Import Refs.

(** The text "Figure " followed by the characters [ds]. *)
Definition figure_n (ds : text) : text := codes "Figure "%string ++ ds.

(** The reference to the whole of that text, without sub-figure. *)
Definition plain_reference (ds : text) : Reference :=
  mkReference (figure_n ds) (decimal ds) None 0 (7 + length ds).

(** The match object behind it. *)
Definition plain_match (ds : text) : Match :=
  mkMatch 0 (7 + length ds) [(1%nat, ds)] (figure_n ds).

End Plain.

(* ================================================================== *)
(** * The figure number of a question *)
(* ================================================================== *)

Module Question.
Import Refs.

(** [SmartAgent._extract_figure_number] calls [re.search] without flags:
    a character matches a class when it is in it, and a literal when it
    is that character. *)
Definition class_in (items : list class_item) (c : N) : bool :=
  existsb (fun it => in_item it c) items.

Fixpoint star_cs {R : Type} (items : list class_item) (s : text) (pos : nat)
    (k : text -> nat -> option R) : option R :=
  match s with
  | c :: s' =>
      if class_in items c
      then match star_cs items s' (S pos) k with
           | Some r => Some r
           | None => k s pos
           end
      else k s pos
  | [] => k s pos
  end.

Fixpoint match_cs (r : regex) (R : Type) (s : text) (pos : nat) (caps : captures)
    (k : text -> nat -> captures -> option R) {struct r} : option R :=
  match r with
  | Lit x =>
      match s with
      | c :: s' => if (c =? x)%N then k s' (S pos) caps else None
      | [] => None
      end
  | Class items =>
      match s with
      | c :: s' => if class_in items c then k s' (S pos) caps else None
      | [] => None
      end
  | Cat a b =>
      match_cs a R s pos caps (fun s' pos' caps' => match_cs b R s' pos' caps' k)
  | Alt a b =>
      match match_cs a R s pos caps k with
      | Some r => Some r
      | None => match_cs b R s pos caps k
      end
  | Opt a =>
      match match_cs a R s pos caps k with
      | Some r => Some r
      | None => k s pos caps
      end
  | Star items => star_cs items s pos (fun s' pos' => k s' pos' caps)
  | Group n a =>
      match_cs a R s pos caps
               (fun s' pos' caps' => k s' pos' ((n, firstn (pos' - pos) s) :: caps'))
  | NotAhead a =>
      match match_cs a unit s pos caps (fun _ _ _ => Some tt) with
      | Some _ => None
      | None => k s pos caps
      end
  end.

(** The continuation with which [search_cs] builds the match object. *)
Definition found_cs (start : nat) (s0 : text) : text -> nat -> captures -> option Match :=
  fun _ pos' caps => Some (mkMatch start pos' caps (firstn (pos' - start) s0)).

(** [re.search]: the leftmost match. *)
Fixpoint search_cs (r : regex) (s : text) (pos : nat) : option Match :=
  match match_cs r Match s pos [] (found_cs pos s) with
  | Some m => Some m
  | None =>
      match s with
      | [] => None
      | _ :: s' => search_cs r s' (S pos)
      end
  end.

(** [([a-zA-Z])], [(?!\s*[a-zA-Z])], and the characters U+7684, U+5B50. *)
Definition a_zA_Z : list class_item :=
  [Range (code "a"%char) (code "z"%char); Range (code "A"%char) (code "Z"%char)].
Definition any_letter : regex := Group 2 (Class a_zA_Z).
Definition no_any_letter : regex := NotAhead (cat [Star [Space]; Class a_zA_Z]).
Definition de : regex := Lit 30340.
Definition zi : regex := Lit 23376.

(** The patterns of [_extract_figure_number], in the order of the source. *)
Definition patterns : list (regex * bool) :=
  [ (* [Ff]igure?\s*(\d+)\s*[-\.\(]?\s*([a-zA-Z])\s*[\)]? *)
    (cat [figure_word; Star [Space]; number; Star [Space]; Opt (one_of "-.("%string);
          Star [Space]; any_letter; Star [Space]; Opt (one_of ")"%string)], true);
    (* [Ff]ig\.?\s*(\d+)\s*[-\.\(]?\s*([a-zA-Z])\s*[\)]? *)
    (cat [fig_word; Star [Space]; number; Star [Space]; Opt (one_of "-.("%string);
          Star [Space]; any_letter; Star [Space]; Opt (one_of ")"%string)], true);
    (* U+56FE \s*(\d+)\s*[-\.\(]?\s*([a-zA-Z])\s*[\)]? *)
    (cat [tu; Star [Space]; number; Star [Space]; Opt (one_of "-.("%string);
          Star [Space]; any_letter; Star [Space]; Opt (one_of ")"%string)], true);
    (* U+56FE \s*(\d+)\s*(?:U+7684)?U+5B50 U+56FE \s*([a-zA-Z]) *)
    (cat [tu; Star [Space]; number; Star [Space]; Opt de; zi; tu; Star [Space];
          any_letter], true);
    (* [Ff]igure?\s*(\d+)\s*U+5B50 U+56FE \s*([a-zA-Z]) *)
    (cat [figure_word; Star [Space]; number; Star [Space]; zi; tu; Star [Space];
          any_letter], true);
    (* [Ff]igure?\s*(\d+)(?!\s*[a-zA-Z]) *)
    (cat [figure_word; Star [Space]; number; no_any_letter], false);
    (* [Ff]ig\.?\s*(\d+)(?!\s*[a-zA-Z]) *)
    (cat [fig_word; Star [Space]; number; no_any_letter], false);
    (* U+56FE \s*(\d+)(?!\s*[a-zA-Z]) *)
    (cat [tu; Star [Space]; number; no_any_letter], false) ].

(** [str.lower()] on a letter of [[a-zA-Z]]. *)
Definition letter_lower (c : N) : N :=
  if (65 <=? c)%N && (c <=? 90)%N then (c + 32)%N else c.

(** The dictionary returned: ["number"] and, when present, ["subfigure"]. *)
Record FigRef : Type := mkFigRef {
  fig_number : Z;
  fig_subfigure : option text
}.

(** The body of the loop for a pattern that matched; [None] stands for an
    exception: the [ValueError] of [int] for a number of more than 4300
    digits (or the [TypeError] of [int(None)]; but group 1 takes part in
    every match of every pattern, and group 2 in every match of the
    patterns with [has_subfig]). *)
Definition fig_ref (has_subfig : bool) (m : Match) : option FigRef :=
  match group 1 (m_groups m) with
  | None => None
  | Some t =>
      match int t with
      | None => None
      | Some number =>
          Some (mkFigRef number
                         (if has_subfig
                          then match group 2 (m_groups m) with
                               | Some t => Some (map letter_lower t)
                               | None => None
                               end
                          else None))
      end
  end.

(** The loop over the patterns: the first pattern that matches somewhere
    in the text decides.  [None] stands for the exception of [fig_ref],
    [Some None] for the value [None] returned when no pattern matches. *)
Fixpoint first_match (ps : list (regex * bool)) (t : text) : option (option FigRef) :=
  match ps with
  | [] => Some None
  | (pattern, has_subfig) :: rest =>
      match search_cs pattern t 0 with
      | Some m =>
          match fig_ref has_subfig m with
          | Some result => Some (Some result)
          | None => None
          end
      | None => first_match rest t
      end
  end.

(** [_extract_figure_number(text)]. *)
Definition extract_figure_number (t : text) : option (option FigRef) :=
  first_match patterns t.


(** ** Notions used in the statements and proofs *)

(** An ASCII letter. *)
Definition is_letter (c : N) : bool :=
  ((97 <=? c) && (c <=? 122) || (65 <=? c) && (c <=? 90))%N.

(** A question that begins with "Figure ", a number, white space and then
    a word or more. *)
Definition figure_then_word (ds spaces : text) (c : N) (rest : text) : text :=
  codes "Figure "%string ++ ds ++ spaces ++ c :: rest.

(** [Demands P r]: read off the expression, every match of [r] goes
    through a character that satisfies [P]. *)
Inductive Demands (P : N -> Prop) : regex -> Prop :=
| Demands_lit x : P x -> Demands P (Lit x)
| Demands_class items : (forall c, class_in items c = true -> P c) -> Demands P (Class items)
| Demands_left a b : Demands P a -> Demands P (Cat a b)
| Demands_right a b : Demands P b -> Demands P (Cat a b)
| Demands_alt a b : Demands P a -> Demands P b -> Demands P (Alt a b)
| Demands_group n a : Demands P a -> Demands P (Group n a).

(** A character that is neither an ASCII letter nor U+56FE. *)
Definition no_letter_char (c : N) : Prop := is_letter c = false /\ c <> 22270%N.

(** An ASCII character that is no digit.  The matcher's [\d] is the ASCII
    digits; Python's also accepts the decimal digits of other scripts, so
    the character after a number is taken in ASCII. *)
Definition ascii_no_digit (c : N) : Prop := is_digit c = false /\ (c < 128)%N.

(** The question "Figure 3?". *)
Definition figure_3_mark : text := codes "Figure 3?"%string.

(** The question "Figure 3 shows what?". *)
Definition figure_3_shows : text := codes "Figure 3 shows what?"%string.

End Question.

(* ================================================================== *)
(** * The description of a figure in the text *)
(* ================================================================== *)

Module Context.
Import Refs.

(** An index of a slice, brought into [0 .. n]: a negative index counts
    from the end. *)
Definition slice_index (n i : Z) : Z :=
  if i <? 0 then Z.max 0 (i + n) else Z.min i n.

(** [text[start:stop]]. *)
Definition py_slice (t : text) (start stop : Z) : text :=
  let n := Z.of_nat (length t) in
  let lo := slice_index n start in
  let hi := slice_index n stop in
  firstn (Z.to_nat (hi - lo)) (skipn (Z.to_nat lo) t).

(** [str.strip()]: white space is removed at both ends. *)
Fixpoint lstrip (t : text) : text :=
  match t with
  | c :: t' => if is_space c then lstrip t' else t
  | [] => []
  end.

Definition rstrip (t : text) : text := rev (lstrip (rev t)).

Definition strip (t : text) : text := rstrip (lstrip t).

(** [FigureReferenceExtractor.get_context(text, ref, context_size)]. *)
Definition get_context (t : text) (ref : Reference) (context_size : Z) : text :=
  let start := Z.max 0 (Z.of_nat (ref_start ref) - context_size) in
  let stop := Z.min (Z.of_nat (length t)) (Z.of_nat (ref_end ref) + context_size) in
  strip (py_slice t start stop).

(** Python truth value of [subfig]: [None] and the empty string are
    false. *)
Definition given (subfig : option text) : bool :=
  match subfig with
  | Some (_ :: _) => true
  | _ => false
  end.

(** [ref.get("subfigure") == subfig] *)
Definition same_label (a b : option text) : bool :=
  match a, b with
  | Some x, Some y => text_eqb x y
  | None, None => true
  | _, _ => false
  end.

(** The body of the inner loop of [_get_figure_description]: what one
    reference adds to [descriptions]. *)
Definition describes (fig_num : Z) (subfig : option text) (ref : Reference) : bool :=
  (figure ref =? fig_num)
  && (if given subfig then same_label (subfigure ref) subfig else true).

(** What the references of one text add to [descriptions]. *)
Definition described (t : text) (fig_num : Z) (subfig : option text)
    (refs : list Reference) : list text :=
  flat_map (fun ref =>
              if describes fig_num subfig ref then [get_context t ref 250] else [])
           refs.

(** The first loop: [descriptions], in the order of the texts and of the
    references of each text; [None] stands for the exception of
    [extract_references] on one of the texts. *)
Definition descriptions (texts : list (Z * text)) (fig_num : Z) (subfig : option text)
  : option (list text) :=
  match collect (map (fun text_data =>
                        match extract_references (snd text_data) with
                        | Some refs => Some (described (snd text_data) fig_num subfig refs)
                        | None => None
                        end)
                     texts) with
  | Some per_text => Some (concat per_text)
  | None => None
  end.

(** The second loop, with its [break]: [unique_desc] and [seen]. *)
Fixpoint unique_loop (descs unique_desc seen : list text) : list text :=
  match descs with
  | [] => unique_desc
  | desc :: rest =>
      if existsb (text_eqb desc) seen then unique_loop rest unique_desc seen
      else
        let unique_desc := unique_desc ++ [desc] in
        if (3 <=? length unique_desc)%nat then unique_desc
        else unique_loop rest unique_desc (desc :: seen)
  end.

(** [sep.join(parts)] *)
Fixpoint join (sep : text) (parts : list text) : text :=
  match parts with
  | [] => []
  | [p] => p
  | p :: rest => p ++ sep ++ join sep rest
  end.

(** The message returned when nothing was found: the source's text with
    [fig_num] and [subfig] filled in. *)
Definition not_found (fig_num : Z) (subfig : option text) : text :=
  [25991; 20013; 26410; 25214; 21040; 20851; 20110]%N
    ++ codes "Figure "%string
    ++ codes (SubfigureSplitter.str_Z fig_num)
    ++ (if given subfig then match subfig with Some s => s | None => [] end else [])
    ++ [30340; 26126; 30830; 25551; 36848; 12290]%N.

(** [SmartAgent._get_figure_description(fig_num, subfig)] on
    [self.texts]; [None] stands for the exception of the first loop. *)
Definition get_figure_description (texts : list (Z * text)) (fig_num : Z)
    (subfig : option text) : option text :=
  match descriptions texts fig_num subfig with
  | None => None
  | Some [] => Some (not_found fig_num subfig)
  | Some descs => Some (join [10; 10]%N (unique_loop descs [] []))
  end.


(** ** Notions used in the statements and proofs *)

(** [part] occurs in [whole] as a contiguous piece. *)
Definition infix (part whole : text) : Prop :=
  exists before after, whole = before ++ part ++ after.

(** The text neither begins nor ends with white space. *)
Definition trimmed (t : text) : Prop :=
  (forall c rest, t = c :: rest -> is_space c = false)
  /\ (forall c front, t = front ++ [c] -> is_space c = false).

(** [r] is one of the references that [extract_references] returns on
    [t]. *)
Definition returned (t : text) (r : Reference) : Prop :=
  exists refs, extract_references t = Some refs /\ In r refs.

(** The two loops when [extract_references] raises on no text. *)
Definition kept_descriptions (texts : list (Z * text)) (fig_num : Z) (subfig : option text)
  : list text :=
  flat_map (fun text_data =>
              described (snd text_data) fig_num subfig (kept_references (snd text_data)))
           texts.

Definition kept_figure_description (texts : list (Z * text)) (fig_num : Z)
    (subfig : option text) : text :=
  match kept_descriptions texts fig_num subfig with
  | [] => not_found fig_num subfig
  | descs => join [10; 10]%N (unique_loop descs [] [])
  end.

(** A page of text for the examples. *)
Definition sample_page : text := codes "  As shown in Figure 2, the loss falls.  "%string.

End Context.

(* ================================================================== *)
(** * A number followed by a letter *)
(* ================================================================== *)

Module Cut.
Import Refs.

(** [Within P r]: read off the expression, every character that a match
    of [r] goes through satisfies [P]. *)
Inductive Within (P : N -> Prop) : regex -> Prop :=
| Within_lit x : (forall c, lit_match x c = true -> P c) -> Within P (Lit x)
| Within_class items : (forall c, class_match items c = true -> P c) -> Within P (Class items)
| Within_cat a b : Within P a -> Within P b -> Within P (Cat a b)
| Within_alt a b : Within P a -> Within P b -> Within P (Alt a b)
| Within_opt a : Within P a -> Within P (Opt a)
| Within_star items : (forall c, class_match items c = true -> P c) -> Within P (Star items)
| Within_group n a : Within P a -> Within P (Group n a)
| Within_not_ahead a : Within P (NotAhead a).

(** The fifth pattern, [[Ff]igure?\s+(\d+)(?!\s*[a-z])]. *)
Definition bare_figure : regex := cat [figure_word; plus [Space]; number; no_letter].

(** What follows the first character in the fifth pattern. *)
Definition after_F : regex :=
  Cat (Cat (word "igur"%string) (Opt (word "e"%string)))
      (Cat (plus [Space]) (Cat number no_letter)).

(** "Figure ", the digits [ds] and [d], white space, the letter [c] and
    any text. *)
Definition digits_then_letter (ds : text) (d : N) (spaces : text) (c : N) (rest : text)
  : text :=
  codes "Figure "%string ++ ds ++ d :: spaces ++ c :: rest.

(** The match of [bare_figure] that stops before the digit [d]. *)
Definition cut_match (pos : nat) (ds : text) : Match :=
  mkMatch pos (pos + (7 + length ds)) [(1%nat, ds)] (codes "Figure "%string ++ ds).

End Cut.

(* ================================================================== *)
(** * Retrieval of the texts for a question *)
(* ================================================================== *)

Module Search.
Import Refs Matcher Context.

(** [str.split()]: the words between runs of white space; [word] is the
    word being read. *)
Fixpoint split_from (t : text) (word : text) : list text :=
  match t with
  | [] => if is_empty word then [] else [word]
  | c :: t' =>
      if is_space c
      then if is_empty word then split_from t' [] else word :: split_from t' []
      else split_from t' (word ++ [c])
  end.

Definition split (t : text) : list text := split_from t [].

(** [set(words)], as the list of the different words. *)
Fixpoint distinct (words : list text) : list text :=
  match words with
  | [] => []
  | w :: rest => if existsb (text_eqb w) rest then distinct rest else w :: distinct rest
  end.

(** [word in t] on strings: [word] occurs in [t]. *)
Fixpoint starts_with (word t : text) : bool :=
  match word, t with
  | [], _ => true
  | c :: word', x :: t' => (c =? x)%N && starts_with word' t'
  | _ :: _, [] => false
  end.

Fixpoint occurs_in (word t : text) : bool :=
  starts_with word t
  || match t with
     | [] => false
     | _ :: t' => occurs_in word t'
     end.

(** A list up to [stop]: [l[:stop]]. *)
Definition up_to {A} (l : list A) (stop : Z) : list A :=
  firstn (Z.to_nat (slice_index (Z.of_nat (length l)) stop)) l.

(** [scored.sort(reverse=True, key=lambda x: x[0])]: by decreasing score,
    entries of equal score staying in their order. *)
Fixpoint insert_scored (x : Z * text) (l : list (Z * text)) : list (Z * text) :=
  match l with
  | [] => [x]
  | y :: l' => if fst y <=? fst x then x :: l else y :: insert_scored x l'
  end.

Definition sort_scored (l : list (Z * text)) : list (Z * text) :=
  fold_right insert_scored [] l.

Section WithLower.

(** [str.lower()], which the model takes as given. *)
Variable lower : text -> text.

(** [query_words]: the different words of the question, in lower case,
    that have more than one character. *)
Definition query_words (query : text) : list text :=
  distinct (filter (fun w => (1 <? length w)%nat) (split (lower query))).

(** The score of one text. *)
Definition score (words : list text) (content : text) : Z :=
  let content_words := split (lower content) in
  2 * Z.of_nat (length (filter (fun w => existsb (text_eqb w) content_words) words))
  + 5 * Z.of_nat (length (filter (fun w => (2 <? length w)%nat && occurs_in w (lower content))
                                 words)).

(** The loop over [self.texts]. *)
Definition scored (words : list text) (texts : list (Z * text)) : list (Z * text) :=
  flat_map (fun text_data =>
              let content := snd text_data in
              let s := score words content in
              if s >? 0 then [(s, content)] else [])
           texts.

(** [SmartAgent._search_text(query, top_k)] on [self.texts]. *)
Definition search_text (texts : list (Z * text)) (query : text) (top_k : Z) : list text :=
  let words := query_words query in
  if is_empty words then map snd (firstn 3 texts)
  else
    let ranked := sort_scored (scored words texts) in
    if is_empty ranked then map snd (firstn 3 texts)
    else map snd (up_to ranked top_k).

End WithLower.

End Search.

(* ================================================================== *)
(** * The order of the figures *)
(* ================================================================== *)

Module Order.
Import BBox Pipeline.

(** The pages with their numbers, as the loop of [parse] meets them:
    [page_num + 1] for [page_num] in [range(total_pages)], from the page
    after page [k] on. *)
Fixpoint numbered_pages (k : Z) (doc : list Page) : list (Z * Page) :=
  match doc with
  | [] => []
  | page :: rest => (k + 1, page) :: numbered_pages (k + 1) rest
  end.

(** The regions come in the order of their first members, and the first
    member of a region is its least one. *)
Definition by_first_member (l : list Region) : Prop :=
  StronglySorted Nat.lt (map rep l)
  /\ Forall (fun r => In (rep r) (snd r) /\ Forall (fun k => (rep r <= k)%nat) (snd r)) l.

(** The box stored for a group of images by [_extract_by_merging]. *)
Definition group_box (group : list ImageData) : option (Z * Z * Z * Z) :=
  Some (rect_tuple (merge_bboxes_to_one (map bbox group))).

(** The first image of every group. *)
Definition first_images (groups : list (list ImageData)) : list ImageData :=
  flat_map (fun g => firstn 1 g) groups.

(** What a figure or an image datum was taken from: the bytes and the
    extension of an embedded image. *)
Definition figure_source (f : Figure) : option (list Byte.byte * String.string) :=
  Some (fig_data f, fig_ext f).

Definition data_source (d : ImageData) : option (list Byte.byte * String.string) :=
  Some (bytes d, ext d).

End Order.

(* ================================================================== *)
(** * Properties of the bounding-box merger *)
(* ================================================================== *)

Module BBoxFacts.
Import BBox.

Lemma mem_true_iff j used : mem j used = true <-> In j used.
Proof.
  unfold mem. rewrite existsb_exists. split.
  - intros [x [Hin Heq]]. apply Nat.eqb_eq in Heq. now subst.
  - intros Hin. exists j. split; [assumption | apply Nat.eqb_refl].
Qed.

Lemma mem_cons x j used : mem x (j :: used) = (Nat.eqb x j || mem x used)%bool.
Proof. reflexivity. Qed.

Lemma pending_S tl used j k :
  pending tl used j (S k) =
  (if mem j used then [] else [nth j tl (zero_rect, [])]) ++ pending tl used (S j) k.
Proof. reflexivity. Qed.

Lemma pending_cons_lt tl used x j k :
  (x < j)%nat -> pending tl (x :: used) j k = pending tl used j k.
Proof.
  revert j. induction k as [|k IH]; intros j Hlt; [reflexivity|].
  rewrite !pending_S, IH by lia.
  rewrite mem_cons. replace (Nat.eqb j x) with false; [reflexivity|].
  symmetry. apply Nat.eqb_neq. lia.
Qed.

Lemma pending_all tl : pending tl [] 0 (length tl) = tl.
Proof.
  unfold pending. simpl.
  assert (H : forall (l : list Region) d,
             flat_map (fun x => [nth x l d]) (seq 0 (length l)) = l).
  { induction l as [|a l IH]; intros d; [reflexivity|].
    simpl. f_equal. rewrite <- seq_shift, flat_map_concat_map, map_map.
    rewrite <- flat_map_concat_map. apply IH. }
  apply H.
Qed.

Section Simulation.
Variable threshold : Z.
Variable tl : list Region.

Let merged : list Rect := map fst tl.

Lemma nth_merged j : nth j merged zero_rect = fst (nth j tl (zero_rect, [])).
  Proof. unfold merged. apply (map_nth fst tl (zero_rect, [])). Qed.

Lemma length_merged : length merged = length tl.
  Proof. apply length_map. Qed.

  (** The inner index loop computes [absorb] on the pending entries. *)
Lemma inner_absorb k :
    forall j cur used ch c keep ch2,
      absorb threshold cur (pending tl used j k) = (c, keep, ch2) ->
      exists used',
        fold_left (inner_step threshold merged) (seq j k) (fst cur, used, ch)
          = (fst c, used', (ch || ch2)%bool)
        /\ keep = pending tl used' j k
        /\ (forall x, mem x used = true -> mem x used' = true)
        /\ (forall x, mem x used' = true -> mem x used = true \/ (j <= x)%nat).
  Proof.
    induction k as [|k IH]; intros j cur used ch c keep ch2 Habs.
    - simpl in Habs. inversion Habs; subst. exists used.
      rewrite orb_false_r. repeat split; auto.
    - rewrite pending_S in Habs. cbn [seq fold_left]. unfold inner_step at 2.
      destruct (mem j used) eqn:Hj.
      + simpl in Habs. destruct (IH _ _ _ ch _ _ _ Habs) as (used' & Hf & Hk & Hm1 & Hm2).
        exists used'. split; [exact Hf|]. split.
        * rewrite pending_S, (Hm1 _ Hj). exact Hk.
        * split; [exact Hm1|]. intros x Hx. destruct (Hm2 x Hx); [now left | right; lia].
      + cbn [app absorb] in Habs. rewrite nth_merged.
        destruct (is_nearby (fst cur) (fst (nth j tl (zero_rect, []))) threshold) eqn:Hn.
        * destruct (absorb threshold (join cur (nth j tl (zero_rect, []))) (pending tl used (S j) k))
            as [[c' keep'] ch'] eqn:Habs'.
          inversion Habs; subst c' keep' ch2.
          rewrite <- (pending_cons_lt tl used j (S j) k) in Habs' by lia.
          destruct (IH _ _ _ true _ _ _ Habs') as (used' & Hf & Hk & Hm1 & Hm2).
          exists used'. split.
          { cbn [join fst] in Hf. rewrite Hf. now rewrite orb_true_r. }
          assert (Hju : mem j used' = true).
          { apply Hm1. rewrite mem_cons, Nat.eqb_refl. reflexivity. }
          split; [rewrite pending_S, Hju; exact Hk|]. split.
          { intros x Hx. apply Hm1. rewrite mem_cons, Hx. apply orb_true_r. }
          { intros x Hx. destruct (Hm2 x Hx) as [H|H]; [|right; lia].
            rewrite mem_cons in H. apply orb_true_iff in H. destruct H as [H|H].
            - apply Nat.eqb_eq in H. right. lia.
            - now left. }
        * destruct (absorb threshold cur (pending tl used (S j) k))
            as [[c' keep'] ch'] eqn:Habs'.
          inversion Habs; subst c' keep ch2.
          destruct (IH _ _ _ ch _ _ _ Habs') as (used' & Hf & Hk & Hm1 & Hm2).
          exists used'. split; [exact Hf|].
          assert (Hju : mem j used' = false).
          { destruct (mem j used') eqn:E; [|reflexivity].
            destruct (Hm2 j E) as [H|H]; [congruence | lia]. }
          split; [rewrite pending_S, Hju; simpl; now f_equal|]. split; [exact Hm1|].
          intros x Hx. destruct (Hm2 x Hx); [now left | right; lia].
  Qed.

  (** The outer index loop computes [scan] on the pending entries. *)
Lemma outer_scan k :
    forall i new used ch fuel out ch2,
      (i + k = length tl)%nat -> (k <= fuel)%nat ->
      scan fuel threshold (pending tl used i k) = (out, ch2) ->
      exists used',
        fold_left (outer_step threshold merged) (seq i k) (new, used, ch)
          = (new ++ map fst out, used', (ch || ch2)%bool).
  Proof.
    induction k as [|k IH]; intros i new used ch fuel out ch2 Hlen Hfuel Hscan.
    - simpl in Hscan. destruct fuel; inversion Hscan; subst;
        exists used; simpl; now rewrite app_nil_r, orb_false_r.
    - rewrite pending_S in Hscan. cbn [seq fold_left]. unfold outer_step at 2.
      destruct (mem i used) eqn:Hi.
      + simpl in Hscan. apply (IH (S i) new used ch fuel); auto; lia.
      + destruct fuel as [|fuel]; [lia|]. cbn [app scan] in Hscan.
        destruct (absorb threshold (nth i tl (zero_rect, [])) (pending tl used (S i) k))
          as [[c keep] ch1] eqn:Habs.
        destruct (scan fuel threshold keep) as [out' ch'] eqn:Hscan'.
        inversion Hscan; subst out ch2.
        destruct (inner_absorb k (S i) _ used ch _ _ _ Habs) as (used' & Hf & Hk & Hm1 & Hm2).
        replace (length merged - S i)%nat with k
          by (rewrite length_merged; lia).
        rewrite nth_merged, Hf.
        subst keep. rewrite <- (pending_cons_lt tl used' i (S i) k) in Hscan' by lia.
        destruct (IH (S i) (new ++ [fst c]) (i :: used') (ch || ch1)%bool fuel out' ch')
          as (used'' & Hf'); [lia | lia | exact Hscan' |].
        exists used''. rewrite Hf'. simpl. now rewrite <- app_assoc, orb_assoc.
  Qed.

Lemma merge_pass_scan out ch :
    scan (length tl) threshold tl = (out, ch) ->
    merge_pass threshold merged = (map fst out, ch).
  Proof.
    intros Hscan. unfold merge_pass.
    rewrite <- (pending_all tl) in Hscan at 2.
    destruct (outer_scan (length tl) 0%nat [] [] false (length tl) out ch) as (used' & Hf);
      [lia | lia | exact Hscan |].
    rewrite length_merged.
    rewrite Hf. reflexivity.
  Qed.
End Simulation.


(** ** The scan on regions *)

Section Scan.
Variable threshold : Z.
Variable bboxes : list Rect.

Let good (r : Region) : Prop := Cluster threshold bboxes (fst r) (snd r).

Lemma good_join a b :
    good a -> good b -> is_nearby (fst a) (fst b) threshold = true -> good (join a b).
  Proof. intros Ha Hb Hn. unfold good, join; simpl. now apply Cluster_join. Qed.

Lemma absorb_spec rest :
    forall cur c keep ch,
      absorb threshold cur rest = (c, keep, ch) ->
      (length keep <= length rest)%nat
      /\ (ch = true -> (length keep < length rest)%nat)
      /\ (ch = false -> c = cur /\ keep = rest /\ Forall (apart threshold cur) rest)
      /\ (good cur -> Forall good rest -> good c /\ Forall good keep)
      /\ Permutation (snd c ++ members keep) (snd cur ++ members rest).
  Proof.
    induction rest as [|r rest IH]; intros cur c keep ch Habs; simpl in Habs.
    - inversion Habs; subst. simpl.
      split; [lia|]. split; [discriminate|]. split; [auto|]. split; [auto|]. reflexivity.
    - destruct (is_nearby (fst cur) (fst r) threshold) eqn:Hn.
      + destruct (absorb threshold (join cur r) rest) as [[c' keep'] ch'] eqn:E.
        inversion Habs; subst c' keep' ch.
        destruct (IH _ _ _ _ E) as (Hl & _ & _ & Hg & Hp).
        simpl. split; [lia|]. split; [intros _; lia|]. split; [discriminate|]. split.
        * intros Hc Hr. inversion Hr; subst. apply Hg; auto using good_join.
        * unfold members in *. simpl. rewrite Hp. unfold join; simpl.
          now rewrite <- app_assoc.
      + destruct (absorb threshold cur rest) as [[c' keep'] ch'] eqn:E.
        inversion Habs; subst c' keep ch'.
        destruct (IH _ _ _ _ E) as (Hl & Hlt & Hf & Hg & Hp).
        simpl. split; [lia|]. split; [intros Hc; specialize (Hlt Hc); lia|]. split; [|split].
        * intros Hc. destruct (Hf Hc) as (-> & -> & Hap).
          split; [reflexivity|]. split; [reflexivity|]. now constructor.
        * intros Hc Hr. inversion Hr; subst. destruct (Hg Hc H2) as [Hgc Hgk].
          split; [assumption | now constructor].
        * unfold members in *. simpl.
          apply Permutation_trans with (snd r ++ (snd c ++ concat (map snd keep'))).
          { rewrite !app_assoc. apply Permutation_app_tail, Permutation_app_comm. }
          rewrite Hp. rewrite !app_assoc. apply Permutation_app_tail, Permutation_app_comm.
  Qed.

Lemma absorb_fixed rest cur :
    Forall (apart threshold cur) rest -> absorb threshold cur rest = (cur, rest, false).
  Proof.
    induction 1 as [|r rest Hr _ IH]; [reflexivity|].
    simpl. unfold apart in Hr. now rewrite Hr, IH.
  Qed.

Lemma scan_spec fuel :
    forall l out ch,
      (length l <= fuel)%nat ->
      scan fuel threshold l = (out, ch) ->
      (length out <= length l)%nat
      /\ (ch = true -> (length out < length l)%nat)
      /\ (ch = false -> out = l /\ ForallOrdPairs (apart threshold) l)
      /\ (Forall good l -> Forall good out)
      /\ Permutation (members out) (members l).
  Proof.
    induction fuel as [|fuel IH]; intros l out ch Hlen Hscan.
    - destruct l; [|simpl in Hlen; lia]. inversion Hscan; subst.
      split; [lia|]. split; [discriminate|]. split; [|split; auto].
      intros _. split; [reflexivity | constructor].
    - destruct l as [|r rest].
      + inversion Hscan; subst.
        split; [lia|]. split; [discriminate|]. split; [|split; auto].
        intros _. split; [reflexivity | constructor].
      + simpl in Hscan.
        destruct (absorb threshold r rest) as [[c keep] ch1] eqn:Habs.
        destruct (scan fuel threshold keep) as [out' ch'] eqn:Hscan'.
        inversion Hscan; subst out ch.
        destruct (absorb_spec _ _ _ _ _ Habs) as (Hl & Hlt & Hf & Hg & Hp).
        simpl in Hlen.
        destruct (IH keep out' ch') as (Hl' & Hlt' & Hf' & Hg' & Hp');
          [lia | exact Hscan' |].
        simpl. split; [lia|]. split; [|split; [|split]].
        * intros Hc. apply orb_true_iff in Hc. destruct Hc as [Hc|Hc];
            [specialize (Hlt Hc) | specialize (Hlt' Hc)]; lia.
        * intros Hc. apply orb_false_iff in Hc. destruct Hc as [H1 H2].
          destruct (Hf H1) as (-> & -> & Hap). destruct (Hf' H2) as (-> & Hord).
          split; [reflexivity | now constructor].
        * intros Hall. inversion Hall; subst.
          destruct (Hg H1 H2) as [Hc Hk]. constructor; [assumption | now apply Hg'].
        * unfold members in *. simpl. rewrite Hp'. exact Hp.
  Qed.

Lemma scan_fixed fuel :
    forall l, (length l <= fuel)%nat ->
      ForallOrdPairs (apart threshold) l -> scan fuel threshold l = (l, false).
  Proof.
    induction fuel as [|fuel IH]; intros l Hlen Hord.
    - destruct l; [reflexivity | simpl in Hlen; lia].
    - destruct Hord as [|r rest Hr Hord]; [reflexivity|].
      simpl in *. rewrite (absorb_fixed _ _ Hr), IH by (auto; lia). reflexivity.
  Qed.

Lemma region_loop_spec fuel :
    forall l, (length l <= fuel)%nat ->
      ForallOrdPairs (apart threshold) (region_loop fuel threshold l)
      /\ (Forall good l -> Forall good (region_loop fuel threshold l))
      /\ Permutation (members (region_loop fuel threshold l)) (members l).
  Proof.
    induction fuel as [|fuel IH]; intros l Hlen.
    - destruct l; [|simpl in Hlen; lia]. simpl.
      split; [constructor|]. split; [auto | reflexivity].
    - simpl. destruct (scan (length l) threshold l) as [out ch] eqn:Hscan.
      destruct (scan_spec _ _ _ _ (Nat.le_refl _) Hscan) as (Hl & Hlt & Hf & Hg & Hp).
      destruct ch.
      + specialize (Hlt eq_refl).
        destruct (IH out) as (H1 & H2 & H3); [lia|].
        split; [assumption|]. split; [auto | now rewrite H3].
      + destruct (Hf eq_refl) as [-> Hord].
        split; [assumption|]. split; [auto | reflexivity].
  Qed.

Lemma region_loop_fuel f1 :
    forall f2 l, (length l <= f1)%nat -> (length l <= f2)%nat ->
      region_loop f1 threshold l = region_loop f2 threshold l.
  Proof.
    induction f1 as [|f1 IH]; intros f2 l H1 H2.
    - destruct l; [|simpl in H1; lia]. destruct f2; reflexivity.
    - destruct f2 as [|f2].
      + destruct l; [reflexivity | simpl in H2; lia].
      + simpl. destruct (scan (length l) threshold l) as [out ch] eqn:Hscan.
        destruct (scan_spec _ _ _ _ (Nat.le_refl _) Hscan) as (Hl & Hlt & _).
        destruct ch; [|reflexivity]. specialize (Hlt eq_refl). apply IH; lia.
  Qed.

Lemma merge_loop_regions fuel :
    forall tl : list Region,
      merge_loop fuel threshold (map fst tl) = map fst (region_loop fuel threshold tl).
  Proof.
    induction fuel as [|fuel IH]; intros tl; [reflexivity|].
    simpl. destruct (scan (length tl) threshold tl) as [out ch] eqn:Hscan.
    rewrite (merge_pass_scan _ _ _ _ Hscan). destruct ch; [apply IH | reflexivity].
  Qed.
End Scan.

(** ** Geometry *)

Lemma is_nearby_sym a b t : is_nearby a b t = is_nearby b a t.
Proof.
  unfold is_nearby.
  rewrite (orb_comm (x1 a + t <? x0 b)), (orb_comm (y1 a + t <? y0 b)). reflexivity.
Qed.

Lemma is_nearby_true a b t :
  is_nearby a b t = true <->
  x0 b <= x1 a + t /\ x0 a <= x1 b + t /\ y0 b <= y1 a + t /\ y0 a <= y1 b + t.
Proof.
  unfold is_nearby. rewrite andb_true_iff, !negb_true_iff, !orb_false_iff, !Z.ltb_ge.
  tauto.
Qed.

(** [_is_nearby] is the test "horizontal gap <= threshold and vertical gap
    <= threshold". *)
Lemma is_nearby_gaps a b t :
  is_nearby a b t = true <-> x_gap a b <= t /\ y_gap a b <= t.
Proof. rewrite is_nearby_true. unfold x_gap, y_gap. lia. Qed.

Lemma is_nearby_mono a b a' b' t t' :
  inside a a' -> inside b b' -> t <= t' ->
  is_nearby a b t = true -> is_nearby a' b' t' = true.
Proof. unfold inside. rewrite !is_nearby_true. lia. Qed.

Lemma inside_refl a : inside a a.
Proof. unfold inside. lia. Qed.

Lemma inside_trans a b c : inside a b -> inside b c -> inside a c.
Proof. unfold inside. lia. Qed.

Lemma inside_union_l a b : inside a (union a b).
Proof. unfold inside, union; simpl. lia. Qed.

Lemma inside_union_r a b : inside b (union a b).
Proof. unfold inside, union; simpl. lia. Qed.

Lemma union_least a b c : inside a c -> inside b c -> inside (union a b) c.
Proof. unfold inside, union; simpl. lia. Qed.

(** ** Clusters *)

Lemma Cluster_members t R b m :
  Cluster t R b m ->
  m <> []
  /\ (forall k, In k m -> (k < length R)%nat /\ inside (nth k R zero_rect) b)
  /\ (forall B, (forall k, In k m -> inside (nth k R zero_rect) B) -> inside b B).
Proof.
  induction 1 as [k Hk | b1 m1 b2 m2 _ (Hne1 & Hin1 & Hmin1) _ (Hne2 & Hin2 & Hmin2) Hn].
  - split; [discriminate|]. split.
    + intros k' [<- | []]. split; [assumption | apply inside_refl].
    + intros B HB. apply HB. now left.
  - split; [destruct m1; [congruence | discriminate]|]. split.
    + intros k Hk. apply in_app_or in Hk. destruct Hk as [Hk|Hk].
      * destruct (Hin1 k Hk). split; [assumption|].
        eapply inside_trans; [eassumption | apply inside_union_l].
      * destruct (Hin2 k Hk). split; [assumption|].
        eapply inside_trans; [eassumption | apply inside_union_r].
    + intros B HB. apply union_least.
      * apply Hmin1. intros k Hk. apply HB, in_or_app. now left.
      * apply Hmin2. intros k Hk. apply HB, in_or_app. now right.
Qed.

(** ** The tagged input *)

Lemma combine_fst {A B} (l : list A) (l' : list B) :
  length l = length l' -> map fst (combine l l') = l.
Proof.
  revert l'. induction l as [|a l IH]; intros [|b l'] H; simpl in *;
    try discriminate; auto.
  f_equal. apply IH. now injection H.
Qed.

Lemma combine_snd {A B} (l : list A) (l' : list B) :
  length l = length l' -> map snd (combine l l') = l'.
Proof.
  revert l'. induction l as [|a l IH]; intros [|b l'] H; simpl in *;
    try discriminate; auto.
  f_equal. apply IH. now injection H.
Qed.

Lemma concat_singletons (l : list nat) : concat (map (fun k => [k]) l) = l.
Proof. induction l; simpl; congruence. Qed.

Lemma tag_fst R : map fst (tag R) = R.
Proof. apply combine_fst. now rewrite length_map, length_seq. Qed.

Lemma tag_length R : length (tag R) = length R.
Proof. rewrite <- (tag_fst R) at 2. now rewrite length_map. Qed.

Lemma tag_members R : members (tag R) = seq 0 (length R).
Proof.
  unfold members, tag. rewrite combine_snd by now rewrite length_map, length_seq.
  apply concat_singletons.
Qed.

Lemma tag_In R r :
  In r (tag R) -> exists k, (k < length R)%nat /\ r = (nth k R zero_rect, [k]).
Proof.
  intros Hin. destruct (In_nth _ _ (zero_rect, [0%nat]) Hin) as (k & Hk & Hnth).
  rewrite tag_length in Hk. exists k. split; [assumption|].
  rewrite <- Hnth. unfold tag.
  rewrite combine_nth by now rewrite length_map, length_seq.
  f_equal. rewrite (map_nth (fun k => [k]) _ 0%nat), seq_nth by assumption.
  reflexivity.
Qed.

Lemma tag_Cluster R t :
  Forall (fun r : Region => Cluster t R (fst r) (snd r)) (tag R).
Proof.
  apply Forall_forall. intros r Hin.
  destruct (tag_In _ _ Hin) as (k & Hk & ->). simpl. now constructor.
Qed.

(** ** What [merge_regions] returns *)

Lemma merge_regions_spec R t :
  map fst (merge_regions R t) = merge_nearby_bboxes R t
  /\ ForallOrdPairs (apart t) (merge_regions R t)
  /\ Forall (fun r : Region => Cluster t R (fst r) (snd r)) (merge_regions R t)
  /\ Permutation (members (merge_regions R t)) (seq 0 (length R)).
Proof.
  destruct R as [|r R].
  - simpl. split; [reflexivity|]. split; [constructor|]. split; constructor.
  - unfold merge_regions, merge_nearby_bboxes.
    set (R' := r :: R).
    destruct (region_loop_spec t R' (length R') (tag R')) as (H1 & H2 & H3).
    { now rewrite tag_length. }
    split; [|split; [assumption | split]].
    + rewrite <- merge_loop_regions, tag_fst. reflexivity.
    + apply H2, tag_Cluster.
    + now rewrite H3, tag_members.
Qed.

Lemma in_members k (l : list Region) :
  In k (members l) <-> exists r, In r l /\ In k (snd r).
Proof.
  unfold members. rewrite in_concat. split.
  - intros (m & Hm & Hk). apply in_map_iff in Hm. destruct Hm as (r & <- & Hr). eauto.
  - intros (r & Hr & Hk). exists (snd r). split; [now apply in_map | assumption].
Qed.

Lemma apart_same t (l : list Region) a b :
  ForallOrdPairs (apart t) l -> In a l -> In b l ->
  is_nearby (fst a) (fst b) t = true -> a = b.
Proof.
  intros Hord Ha Hb Hn.
  destruct (ForallOrdPairs_In Hord _ _ Ha Hb) as [H | [H | H]]; [assumption| |];
    unfold apart in H; [|rewrite is_nearby_sym in H]; congruence.
Qed.

Lemma NoDup_app_disjoint {A} (l1 l2 : list A) x :
  NoDup (l1 ++ l2) -> In x l1 -> In x l2 -> False.
Proof.
  induction l1 as [|h l1 IH]; intros Hnd H1 H2; [contradiction|].
  simpl in Hnd. inversion Hnd; subst. destruct H1 as [<- | H1].
  - apply H3. apply in_or_app. now right.
  - now apply IH.
Qed.

Lemma members_disjoint (l : list Region) a b k :
  NoDup (members l) -> In a l -> In b l -> In k (snd a) -> In k (snd b) -> a = b.
Proof.
  induction l as [|r l IH]; intros Hnd Ha Hb Hka Hkb; [contradiction|].
  unfold members in Hnd. simpl in Hnd. fold (members l) in Hnd.
  destruct Ha as [<- | Ha], Hb as [<- | Hb].
  - reflexivity.
  - exfalso. apply (NoDup_app_disjoint _ _ k Hnd Hka). apply in_members. eauto.
  - exfalso. apply (NoDup_app_disjoint _ _ k Hnd Hkb). apply in_members. eauto.
  - apply IH; auto. now apply NoDup_app_remove_l in Hnd.
Qed.


Lemma rep_In (r : Region) : snd r <> [] -> In (rep r) (snd r).
Proof. unfold rep. destruct (snd r); [congruence | intros _; now left]. Qed.

Lemma reps_NoDup (l : list Region) :
  NoDup (members l) -> Forall (fun r => snd r <> []) l -> NoDup (map rep l).
Proof.
  induction l as [|r l IH]; intros Hnd Hne; [constructor|].
  inversion Hne as [|? ? Hr Hl]; subst.
  unfold members in Hnd. simpl in Hnd. fold (members l) in Hnd.
  simpl. constructor.
  - intros Hin. apply in_map_iff in Hin. destruct Hin as (r' & Hrep & Hr').
    apply (NoDup_app_disjoint _ _ (rep r) Hnd); [now apply rep_In|].
    apply in_members. exists r'. split; [assumption|].
    rewrite <- Hrep. apply rep_In. rewrite Forall_forall in Hl. now apply Hl.
  - apply IH; [|assumption]. now apply NoDup_app_remove_l in Hnd.
Qed.

(** Counting through a relation that is total on [l2] and sends different
    elements of [l2] to different elements of [l1]. *)
Lemma injective_length {A B} (rel : A -> B -> Prop) (l2 : list A) :
  forall l1 : list B,
    NoDup l2 ->
    (forall x, In x l2 -> exists y, In y l1 /\ rel x y) ->
    (forall x x' y, In x l2 -> In x' l2 -> In y l1 -> rel x y -> rel x' y -> x = x') ->
    (length l2 <= length l1)%nat.
Proof.
  induction l2 as [|x l2 IH]; intros l1 Hnd Htot Hinj; [simpl; lia|].
  inversion Hnd as [|? ? Hx Hnd']; subst.
  destruct (Htot x (or_introl eq_refl)) as (y & Hy & Hxy).
  destruct (in_split _ _ Hy) as (la & lb & ->).
  rewrite length_app. simpl.
  enough (length l2 <= length (la ++ lb))%nat by (rewrite length_app in *; lia).
  apply IH; [assumption| |].
  - intros x' Hx'. destruct (Htot x' (or_intror Hx')) as (y' & Hy' & Hxy').
    exists y'. split; [|assumption].
    apply in_app_or in Hy'. apply in_or_app.
    destruct Hy' as [Hy' | [Hy' | Hy']]; [now left | | now right].
    subst y'. exfalso. apply Hx.
    rewrite (Hinj x x' y); auto. now left. now right.
  - intros a a' b Ha Ha' Hb. apply Hinj; [now right | now right |].
    apply in_app_or in Hb. apply in_or_app. destruct Hb; [now left | right; now right].
Qed.

(** ** Coarsening: a larger threshold only unites regions *)

Section Coarsening.
Variable R : list Rect.
Variables t1 t2 : Z.
Hypothesis Hle : t1 <= t2.

Lemma cluster_within b m :
    Cluster t1 R b m ->
    exists r2, In r2 (merge_regions R t2) /\ inside b (fst r2) /\ incl m (snd r2).
  Proof.
    destruct (merge_regions_spec R t2) as (_ & Hord & Hgood & Hperm).
    induction 1 as [k Hk | b1 m1 b2 m2 _ (ra & Hra & Hia & Hma) _ (rb & Hrb & Hib & Hmb) Hn].
    - assert (Hin : In k (members (merge_regions R t2))).
      { apply (Permutation_in _ (Permutation_sym Hperm)). apply in_seq. lia. }
      apply in_members in Hin. destruct Hin as (r2 & Hr2 & Hk2).
      exists r2. split; [assumption|]. split.
      + rewrite Forall_forall in Hgood.
        apply (Cluster_members _ _ _ _ (Hgood _ Hr2)). assumption.
      + intros k' [<- | []]. assumption.
    - assert (ra = rb).
      { apply (apart_same t2 _ _ _ Hord Hra Hrb).
        apply (is_nearby_mono b1 b2 _ _ t1 t2); assumption. }
      subst rb. exists ra. split; [assumption|]. split.
      + now apply union_least.
      + now apply incl_app.
  Qed.

Lemma merge_regions_coarser :
    (length (merge_regions R t2) <= length (merge_regions R t1))%nat.
  Proof.
    destruct (merge_regions_spec R t2) as (_ & Hord2 & Hgood2 & Hperm2).
    destruct (merge_regions_spec R t1) as (_ & Hord1 & Hgood1 & Hperm1).
    assert (Hnd2 : NoDup (members (merge_regions R t2))).
    { apply (Permutation_NoDup (Permutation_sym Hperm2)), seq_NoDup. }
    assert (Hne2 : Forall (fun r : Region => snd r <> []) (merge_regions R t2)).
    { apply Forall_forall. intros r Hr. rewrite Forall_forall in Hgood2.
      apply (Cluster_members _ _ _ _ (Hgood2 _ Hr)). }
    rewrite <- (length_map rep (merge_regions R t2)).
    apply (injective_length (fun k (r1 : Region) => In k (snd r1))).
    - now apply reps_NoDup.
    - intros k Hk. apply in_map_iff in Hk. destruct Hk as (r2 & <- & Hr2).
      assert (Hin : In (rep r2) (members (merge_regions R t1))).
      { apply (Permutation_in _ (Permutation_sym Hperm1)).
        apply (Permutation_in _ Hperm2). apply in_members.
        exists r2. split; [assumption|]. apply rep_In.
        rewrite Forall_forall in Hne2. now apply Hne2. }
      apply in_members in Hin. exact Hin.
    - intros k k' r1 Hk Hk' Hr1 Hkr Hkr'.
      apply in_map_iff in Hk. destruct Hk as (ra & <- & Hra).
      apply in_map_iff in Hk'. destruct Hk' as (rb & <- & Hrb).
      rewrite Forall_forall in Hgood1, Hne2.
      destruct (cluster_within _ _ (Hgood1 _ Hr1)) as (r2 & Hr2 & _ & Hincl).
      assert (ra = r2).
      { apply (members_disjoint _ ra r2 (rep ra) Hnd2); auto using rep_In. }
      assert (rb = r2).
      { apply (members_disjoint _ rb r2 (rep rb) Hnd2); auto using rep_In. }
      congruence.
  Qed.
End Coarsening.

(** ** The merger itself *)

(** More fuel than [length bboxes] does not change the result: the loop
    has stopped by then. *)
Lemma merge_loop_fuel R t fuel :
  (length R <= fuel)%nat -> merge_loop fuel t R = merge_loop (length R) t R.
Proof.
  intros Hf.
  assert (H : forall f, merge_loop f t R = map fst (region_loop f t (tag R))).
  { intros f. now rewrite <- merge_loop_regions, tag_fst. }
  rewrite !H. f_equal. apply (region_loop_fuel t R); rewrite tag_length; lia.
Qed.

Lemma ForallOrdPairs_nth {A} (P : A -> A -> Prop) (l : list A) d :
  ForallOrdPairs P l ->
  forall i j, (i < j)%nat -> (j < length l)%nat -> P (nth i l d) (nth j l d).
Proof.
  induction 1 as [|a l Ha _ IH]; intros i j Hij Hj; [simpl in Hj; lia|].
  destruct j as [|j]; [lia|]. simpl in Hj. destruct i as [|i]; simpl.
  - rewrite Forall_forall in Ha. apply Ha, nth_In. lia.
  - apply IH; lia.
Qed.

Lemma merge_output_apart R t i j :
  (i < length (merge_nearby_bboxes R t))%nat ->
  (j < length (merge_nearby_bboxes R t))%nat ->
  i <> j ->
  is_nearby (nth i (merge_nearby_bboxes R t) zero_rect)
            (nth j (merge_nearby_bboxes R t) zero_rect) t = false.
Proof.
  destruct (merge_regions_spec R t) as (Hfst & Hord & _ & _).
  rewrite <- Hfst, length_map. intros Hi Hj Hij.
  rewrite !(map_nth fst _ (zero_rect, [])).
  pose proof (ForallOrdPairs_nth _ _ (zero_rect, []) Hord) as Hnth.
  destruct (Nat.lt_ge_cases i j) as [Hlt | Hge].
  - apply Hnth; assumption.
  - rewrite is_nearby_sym. apply Hnth; [lia | assumption].
Qed.

Lemma merge_pass_output R t :
  merge_pass t (merge_nearby_bboxes R t) = (merge_nearby_bboxes R t, false).
Proof.
  destruct (merge_regions_spec R t) as (Hfst & Hord & _ & _).
  rewrite <- Hfst. apply merge_pass_scan. now apply scan_fixed.
Qed.

(** C4: the output of the bounding-box merge holds no two rectangles that
    are near each other at the threshold (horizontal gap <= t and vertical
    gap <= t): a further pass over it merges nothing, and merging the
    output again returns it unchanged. *)
Theorem merge_fixed_point_idempotent (R : list Rect) (t : Z) :
  (forall i j,
      (i < length (merge_nearby_bboxes R t))%nat ->
      (j < length (merge_nearby_bboxes R t))%nat ->
      i <> j ->
      ~ (x_gap (nth i (merge_nearby_bboxes R t) zero_rect)
               (nth j (merge_nearby_bboxes R t) zero_rect) <= t
         /\ y_gap (nth i (merge_nearby_bboxes R t) zero_rect)
                  (nth j (merge_nearby_bboxes R t) zero_rect) <= t))
  /\ merge_pass t (merge_nearby_bboxes R t) = (merge_nearby_bboxes R t, false)
  /\ merge_nearby_bboxes (merge_nearby_bboxes R t) t = merge_nearby_bboxes R t.
Proof.
  split; [|split].
  - intros i j Hi Hj Hij Hgap. apply is_nearby_gaps in Hgap.
    rewrite (merge_output_apart R t i j Hi Hj Hij) in Hgap. discriminate.
  - apply merge_pass_output.
  - pose proof (merge_pass_output R t) as Hpass.
    destruct (merge_nearby_bboxes R t) as [|r out] eqn:E; [reflexivity|].
    unfold merge_nearby_bboxes at 1. cbn [length merge_loop]. now rewrite Hpass.
Qed.


Lemma merge_fixed_point_idempotent_witness :
  ~ (x_gap (nth 0 (merge_nearby_bboxes three_in_a_row 45) zero_rect)
           (nth 1 (merge_nearby_bboxes three_in_a_row 45) zero_rect) <= 45
     /\ y_gap (nth 0 (merge_nearby_bboxes three_in_a_row 45) zero_rect)
              (nth 1 (merge_nearby_bboxes three_in_a_row 45) zero_rect) <= 45).
Proof.
  apply (proj1 (merge_fixed_point_idempotent three_in_a_row 45) 0%nat 1%nat).
  - vm_compute. lia.
  - vm_compute. lia.
  - discriminate.
Defined.

(** C5: the merge is monotone in the threshold: for [t1 < t2] the merge at
    [t2] returns at most as many rectangles as the merge at [t1]. *)
Theorem merge_monotone (R : list Rect) (t1 t2 : Z) :
  t1 < t2 ->
  (length (merge_nearby_bboxes R t2) <= length (merge_nearby_bboxes R t1))%nat.
Proof.
  intros Hlt.
  destruct (merge_regions_spec R t1) as (<- & _).
  destruct (merge_regions_spec R t2) as (<- & _).
  rewrite !length_map. apply merge_regions_coarser. lia.
Qed.

Lemma merge_monotone_witness :
  (length (merge_nearby_bboxes three_in_a_row 45)
   <= length (merge_nearby_bboxes three_in_a_row 10))%nat.
Proof. apply (merge_monotone three_in_a_row 10 45). lia. Defined.

(** The constituents of one region need not be pairwise within the
    threshold: in a row of three boxes 40 apart, merged at threshold 45,
    the two outer boxes are 90 apart and end up in the same region. *)
Lemma region_pairwise_gap_fails :
  ~ (forall (R : list Rect) (t : Z) (b : Rect) (m : list nat),
        In (b, m) (merge_regions R t) ->
        forall i j, In i m -> In j m ->
          x_gap (nth i R zero_rect) (nth j R zero_rect) <= t
          /\ y_gap (nth i R zero_rect) (nth j R zero_rect) <= t).
Proof.
  intros H.
  specialize (H [mkRect 0 0 10 10; mkRect 50 0 60 10; mkRect 100 0 110 10] 45
                (mkRect 0 0 110 10) [0; 1; 2]%nat).
  destruct (H (or_introl eq_refl) 0%nat 2%nat) as [Hx _].
  - simpl; auto.
  - simpl; auto.
  - vm_compute in Hx. apply Hx. reflexivity.
Qed.

(** C6 (amended): the regions of the merger carry the merged rectangles as
    their bounds and share out the input positions; the bounds of a region
    are the least rectangle covering its constituents, so every absorbed
    input rectangle lies inside them; and each region is built by uniting,
    step by step, rectangles that were near the running union when they
    were united (not necessarily near each other pairwise). *)
Theorem merged_region_invariant (R : list Rect) (t : Z) :
  map fst (merge_regions R t) = merge_nearby_bboxes R t
  /\ Permutation (members (merge_regions R t)) (seq 0 (length R))
  /\ forall b m, In (b, m) (merge_regions R t) ->
       m <> []
       /\ (forall k, In k m -> (k < length R)%nat /\ inside (nth k R zero_rect) b)
       /\ (forall B, (forall k, In k m -> inside (nth k R zero_rect) B) -> inside b B)
       /\ Cluster t R b m.
Proof.
  destruct (merge_regions_spec R t) as (Hfst & _ & Hgood & Hperm).
  split; [assumption|]. split; [assumption|].
  intros b m Hin. rewrite Forall_forall in Hgood. specialize (Hgood _ Hin). simpl in Hgood.
  destruct (Cluster_members _ _ _ _ Hgood) as (Hne & Hins & Hmin).
  split; [assumption|]. split; [assumption|]. split; assumption.
Qed.

Lemma merged_region_invariant_witness :
  inside (nth 1 three_in_a_row zero_rect) (mkRect 0 0 60 10).
Proof.
  apply (proj2 (proj2 (merged_region_invariant three_in_a_row 45))
           (mkRect 0 0 60 10) [0; 1]%nat).
  - vm_compute. now left.
  - simpl. auto.
Defined.

End BBoxFacts.

(* ================================================================== *)
(** * Properties of the matcher *)
(* ================================================================== *)

Module MatcherFacts.
Import PyDict Pipeline Matcher.

(** ** Dictionaries *)

Lemma dict_get_set_same {V} k (v : V) d : dict_get k (dict_set k v d) = Some v.
Proof.
  induction d as [|[k' v'] d IH]; simpl.
  - now rewrite Z.eqb_refl.
  - destruct (Z.eqb k k') eqn:E; simpl; rewrite ?Z.eqb_refl, ?E; auto.
Qed.

Lemma dict_get_set_other {V} k k' (v : V) d :
  k <> k' -> dict_get k (dict_set k' v d) = dict_get k d.
Proof.
  intros Hne. induction d as [|[k0 v0] d IH]; simpl.
  - apply Z.eqb_neq in Hne. now rewrite Hne.
  - destruct (Z.eqb k' k0) eqn:E; simpl.
    + apply Z.eqb_eq in E. subst k0. apply Z.eqb_neq in Hne. now rewrite Hne.
    + destruct (Z.eqb k k0); auto.
Qed.

Lemma dict_mem_keys {V} k (d : dict V) : dict_mem k d = true <-> In k (keys d).
Proof.
  unfold dict_mem. induction d as [|[k' v'] d IH]; simpl.
  - split; [discriminate | contradiction].
  - destruct (Z.eqb k k') eqn:E.
    + apply Z.eqb_eq in E. split; auto.
    + apply Z.eqb_neq in E. rewrite IH. split; [auto | intros [H|H]; congruence].
Qed.

Lemma dict_mem_false_keys {V} k (d : dict V) : dict_mem k d = false <-> ~ In k (keys d).
Proof.
  rewrite <- dict_mem_keys. destruct (dict_mem k d); split; congruence.
Qed.

Lemma keys_set_in {V} k (v : V) d : In k (keys d) -> keys (dict_set k v d) = keys d.
Proof.
  induction d as [|[k' v'] d IH]; simpl; [contradiction|].
  intros Hin. destruct (Z.eqb k k') eqn:E; simpl.
  - apply Z.eqb_eq in E. now subst.
  - f_equal. apply IH. destruct Hin as [H|H]; [|assumption].
    apply Z.eqb_neq in E. congruence.
Qed.

Lemma keys_set_new {V} k (v : V) d : ~ In k (keys d) -> keys (dict_set k v d) = keys d ++ [k].
Proof.
  induction d as [|[k' v'] d IH]; simpl; [reflexivity|].
  intros Hin. destruct (Z.eqb k k') eqn:E; simpl.
  - apply Z.eqb_eq in E. subst. tauto.
  - f_equal. apply IH. tauto.
Qed.

Lemma keys_set_NoDup {V} k (v : V) d : NoDup (keys d) -> NoDup (keys (dict_set k v d)).
Proof.
  intros Hnd. destruct (in_dec Z.eq_dec k (keys d)) as [Hin | Hout].
  - now rewrite keys_set_in.
  - rewrite keys_set_new by assumption.
    apply NoDup_rev in Hnd. rewrite <- (rev_involutive (keys d ++ [k])).
    apply NoDup_rev. rewrite rev_app_distr. simpl. constructor; [|assumption].
    now rewrite <- in_rev.
Qed.


Lemma mem_Z_In x l : mem_Z x l = true <-> In x l.
Proof.
  unfold mem_Z. rewrite existsb_exists. split.
  - intros (y & Hy & E). apply Z.eqb_eq in E. now subst.
  - intros H. exists x. split; [assumption | apply Z.eqb_refl].
Qed.

(** ** Sorting *)





(** ** The search window and the first mention *)

Lemma search_pages_spec first p :
  In p (search_pages first) <-> first - 2 <= p <= first + 2 /\ 0 < p.
Proof.
  unfold search_pages. rewrite filter_In. simpl. rewrite Z.gtb_lt. lia.
Qed.

Lemma fold_min_spec l : forall x,
  (In (fold_left Z.min l x) (x :: l)) /\ (forall y, In y (x :: l) -> fold_left Z.min l x <= y).
Proof.
  induction l as [|a l IH]; intros x; simpl.
  - split; [now left | intros y [<- | []]; lia].
  - destruct (IH (Z.min x a)) as [Hin Hle]. split.
    + destruct Hin as [H | H]; [|now right; right].
      rewrite <- H. destruct (Z.min_spec x a) as [[_ ->] | [_ ->]]; auto.
    + intros y Hy. assert (Hm : fold_left Z.min l (Z.min x a) <= Z.min x a).
      { apply Hle. now left. }
      destruct Hy as [<- | [<- | Hy]]; [lia | lia |]. apply Hle. now right.
Qed.

Lemma py_min_spec pages m :
  py_min pages = Some m -> In m pages /\ forall p, In p pages -> m <= p.
Proof.
  destruct pages as [|x l]; [discriminate|]. simpl. intros [= <-].
  apply fold_min_spec.
Qed.


(** ** Choosing the best candidate *)

Lemma fold_best_In l : forall x,
  In (fold_left (fun best img => if size img >? size best then img else best) l x) (x :: l).
Proof.
  induction l as [|a l IH]; intros x; simpl; [now left|].
  destruct (IH (if size a >? size x then a else x)) as [H | H]; [|now right; right].
  rewrite <- H. destruct (size a >? size x); auto.
Qed.


Lemma large_images_incl c x : In x (large_images c) -> In x c.
Proof.
  unfold large_images. cbv zeta. intros H.
  destruct (is_empty (filter (fun img => size img >? 50000) c)) eqn:E1.
  - destruct (is_empty (filter (fun img => size img >? 20000) c)); [assumption|].
    now apply filter_In in H.
  - rewrite E1 in H. now apply filter_In in H.
Qed.

Lemma is_empty_false {A} (l : list A) : l <> [] <-> is_empty l = false.
Proof. destruct l; simpl; split; congruence. Qed.

Lemma large_images_nonempty c : c <> [] -> large_images c <> [].
Proof.
  unfold large_images. cbv zeta. intros Hc.
  destruct (is_empty (filter (fun img => size img >? 50000) c)) eqn:E1.
  - destruct (is_empty (filter (fun img => size img >? 20000) c)) eqn:E2; [assumption|].
    now apply is_empty_false.
  - rewrite E1. now apply is_empty_false.
Qed.

Lemma best_exists c :
  c <> [] -> exists best, max_by_size (large_images c) = Some best /\ In best c.
Proof.
  intros Hc. pose proof (large_images_nonempty c Hc) as Hne.
  destruct (large_images c) as [|x l] eqn:E; [congruence|].
  eexists. split; [reflexivity|]. apply large_images_incl. rewrite E. apply fold_best_In.
Qed.


(** ** Numbering in the fallback pass *)

Lemma filter_ge_shrinks (n : Z) (l : list Z) :
  In n l ->
  Nat.lt (length (filter (fun k => n + 1 <=? k) l)) (length (filter (fun k => n <=? k) l)).
Proof.
  assert (Hle : forall l' : list Z,
             Nat.le (length (filter (fun k => n + 1 <=? k) l'))
                    (length (filter (fun k => n <=? k) l'))).
  { induction l' as [|a l' IH]; simpl; [lia|].
    destruct (n + 1 <=? a) eqn:E1, (n <=? a) eqn:E2; simpl; lia. }
  induction l as [|a l IH]; intros Hin; [contradiction|].
  simpl. destruct Hin as [-> | Hin].
  - replace (n + 1 <=? n) with false by (symmetry; apply Z.leb_gt; lia).
    rewrite Z.leb_refl. simpl. specialize (Hle l). lia.
  - specialize (IH Hin).
    destruct (n + 1 <=? a) eqn:E1, (n <=? a) eqn:E2; simpl; lia.
Qed.

(** The [while] loop ends on a number that is not in the map. *)
Lemma next_free_spec {fuel} (fm : FigureMap) (n : Z) :
  Nat.le (length (filter (fun k => n <=? k) (keys fm))) fuel ->
  dict_mem (next_free fuel fm n) fm = false.
Proof.
  revert n. induction fuel as [|fuel IH]; intros n Hlen; simpl.
  - apply dict_mem_false_keys. intros Hin.
    assert (Hf : In n (filter (fun k => n <=? k) (keys fm))).
    { apply filter_In. split; [assumption | apply Z.leb_refl]. }
    destruct (filter (fun k => n <=? k) (keys fm)); [contradiction | simpl in Hlen; lia].
  - destruct (dict_mem n fm) eqn:E; [|assumption].
    apply IH. apply dict_mem_keys in E. pose proof (filter_ge_shrinks n _ E). lia.
Qed.

Lemma next_free_fresh (fm : FigureMap) n :
  dict_mem (next_free (length fm) fm n) fm = false.
Proof.
  apply next_free_spec. unfold keys.
  rewrite <- (length_map fst fm). apply filter_length_le.
Qed.

(** ** Exclusivity *)

Section Exclusive.
Variable imgs : list Image.
Hypothesis Hpaths : NoDup (map path imgs).











End Exclusive.


(** ** The collected references *)

Lemma add_reference_wf page fp fig :
  well_formed fp -> well_formed (add_reference page fp fig).
Proof.
  intros Hwf. unfold add_reference.
  set (fp1 := if dict_mem fig fp then fp else dict_set fig [] fp).
  assert (H1 : forall k pages, k <> fig -> dict_get k fp1 = Some pages -> pages <> []).
  { intros k pages Hne. unfold fp1. destruct (dict_mem fig fp); [apply Hwf|].
    rewrite dict_get_set_other by assumption. apply Hwf. }
  assert (H2 : forall pages, dict_get fig fp1 = Some pages ->
                             pages = [] \/ dict_get fig fp = Some pages).
  { intros pages. unfold fp1. destruct (dict_mem fig fp); [now right|].
    rewrite dict_get_set_same. intros [= <-]. now left. }
  destruct (dict_get fig fp1) as [pages|] eqn:Hg.
  - destruct (mem_Z page pages) eqn:Hm.
    + intros k ps Hk. destruct (Z.eq_dec k fig) as [-> | Hne]; [|now apply (H1 k)].
      rewrite Hg in Hk. injection Hk as <-. intros ->. discriminate.
    + intros k ps Hk. destruct (Z.eq_dec k fig) as [-> | Hne].
      * rewrite dict_get_set_same in Hk. injection Hk as <-.
        intros E. apply app_eq_nil in E. destruct E; discriminate.
      * rewrite dict_get_set_other in Hk by assumption. now apply (H1 k).
  - intros k ps Hk. destruct (Z.eq_dec k fig) as [-> | Hne]; [congruence | now apply (H1 k)].
Qed.

Lemma add_reference_NoDup page fp fig :
  NoDup (keys fp) -> NoDup (keys (add_reference page fp fig)).
Proof.
  intros Hnd. unfold add_reference.
  set (fp1 := if dict_mem fig fp then fp else dict_set fig [] fp).
  assert (Hnd1 : NoDup (keys fp1)).
  { unfold fp1. destruct (dict_mem fig fp); [assumption | now apply keys_set_NoDup]. }
  destruct (dict_get fig fp1); [|assumption].
  destruct (mem_Z page l); [assumption | now apply keys_set_NoDup].
Qed.

Lemma collect_figure_pages_ok page_refs :
  well_formed (collect_figure_pages page_refs)
  /\ NoDup (keys (collect_figure_pages page_refs)).
Proof.
  unfold collect_figure_pages.
  assert (H : forall refs page fp, well_formed fp /\ NoDup (keys fp) ->
            well_formed (fold_left (add_reference page) refs fp)
            /\ NoDup (keys (fold_left (add_reference page) refs fp))).
  { induction refs as [|f refs IH]; intros page fp [H1 H2]; simpl; [auto|].
    apply IH. split; [now apply add_reference_wf | now apply add_reference_NoDup]. }
  assert (G : forall prs fp, well_formed fp /\ NoDup (keys fp) ->
            well_formed (fold_left (fun figure_pages pr =>
                           fold_left (add_reference (fst pr)) (snd pr) figure_pages) prs fp)
            /\ NoDup (keys (fold_left (fun figure_pages pr =>
                           fold_left (add_reference (fst pr)) (snd pr) figure_pages) prs fp))).
  { induction prs as [|pr prs IH]; intros fp Hfp; simpl; [auto|]. apply IH, H, Hfp. }
  apply G. split; [intros k pages; discriminate | constructor].
Qed.

(** ** Totality of the two passes *)



Lemma fallback_pass_total imgs st : exists fm, fallback_pass imgs st = Some fm.
Proof.
  destruct st as [fm used]. unfold fallback_pass. cbv zeta.
  destruct (is_empty (filter _ imgs)); [eauto|].
  destruct fm as [|[k v] fm]; simpl; eauto.
Qed.


(** ** Entries that a pass leaves alone *)




Lemma fallback_fold_keeps U :
  forall (fm : FigureMap) used next k,
    dict_mem k fm = true ->
    dict_get k (fst (fst (fold_left fallback_step U (fm, used, next)))) = dict_get k fm.
Proof.
  induction U as [|img U IH]; intros fm used next k Hk; simpl; [reflexivity|].
  assert (Hne : k <> next_free (length fm) fm next).
  { intros ->. rewrite next_free_fresh in Hk. discriminate. }
  rewrite IH.
  - now apply dict_get_set_other.
  - unfold dict_mem in *. now rewrite dict_get_set_other.
Qed.

Lemma fallback_pass_keeps imgs fm used fm' k :
  fallback_pass imgs (fm, used) = Some fm' -> dict_mem k fm = true ->
  dict_get k fm' = dict_get k fm.
Proof.
  unfold fallback_pass. cbv zeta. intros Hfb Hk.
  destruct (is_empty (filter _ imgs)); [now inversion Hfb|].
  destruct (if is_empty fm then Some 1 else _) as [next|]; [|discriminate].
  inversion Hfb; subst. now apply fallback_fold_keeps.
Qed.


(** ** Images as [load_pdf] stores them *)






Lemma enumerate_images_ids dir figures : forall k,
  map id (enumerate_images dir k figures) = seq k (length figures).
Proof. induction figures as [|f figures IH]; intros k; simpl; [reflexivity|]. now rewrite IH. Qed.








(** ** Scenario B *)

Lemma primary_step_found imgs fp fm used fig pages first best :
  dict_get fig fp = Some pages ->
  py_min pages = Some first ->
  candidate_images imgs (search_pages first) used <> [] ->
  max_by_size (large_images (candidate_images imgs (search_pages first) used)) = Some best ->
  primary_step imgs fp (fm, used) fig
  = Some (dict_set fig (Some (new_record best)) fm, id best :: used).
Proof.
  intros Hg Hmin Hne Hbest. unfold primary_step. rewrite Hg, Hmin.
  apply is_empty_false in Hne. now rewrite Hne, Hbest.
Qed.

Lemma best_of_one a : max_by_size (large_images [a]) = Some a.
Proof.
  unfold large_images; simpl.
  destruct (size a >? 50000), (size a >? 20000); reflexivity.
Qed.

Lemma best_of_two a b :
  max_by_size (large_images [a; b]) = Some (if size b >? size a then b else a).
Proof.
  unfold large_images; simpl.
  destruct (size a >? 50000) eqn:A5, (size b >? 50000) eqn:B5,
           (size a >? 20000) eqn:A2, (size b >? 20000) eqn:B2; simpl;
    destruct (size b >? size a) eqn:E; try reflexivity; lia.
Qed.


(** With three images of equal size the page-2 image, which comes first,
    is taken for figure 1; and page 11 is outside the window of figure 2. *)
Lemma scenario_B_page3_not_always :
  ~ (forall s2 s3 s10 : Z,
        (exists figure_map,
            match_figures (collect_figure_pages scenario_citations)
                          (scenario_images s2 s3 s10) = Some figure_map
            /\ dict_get 1 figure_map = Some (Some (new_record (img_p3 s3))))
        /\ In 11 (search_pages 8)).
Proof.
  intros H. destruct (H 60000 60000 60000) as [(fm & Hm & Hg) _].
  vm_compute in Hm. injection Hm as <-. vm_compute in Hg. discriminate.
Qed.

(** C1 (amended): the search window of a figure number is the set of
    pages [first - 2 .. first + 2] that are positive, where [first] is the
    least page on which it is cited; the candidate pool is the unused
    images on those pages.  In scenario B the pool of figure 1 holds the
    images of pages 2 and 3, and figure 1 is bound to the page-3 image
    exactly when it is strictly larger than the page-2 image (else to the
    page-2 image); the window of figure 2 is pages 6..10, its pool is the
    page-10 image, and figure 2 is bound to it. *)
Theorem scenario_B_windows (s2 s3 s10 : Z) :
  (forall first p, In p (search_pages first) <-> first - 2 <= p <= first + 2 /\ 0 < p)
  /\ (forall pages first, py_min pages = Some first ->
        In first pages /\ forall p, In p pages -> first <= p)
  /\ (forall all_images figure_pages fm used fig_num pages first,
        dict_get fig_num figure_pages = Some pages -> py_min pages = Some first ->
        exists fm' used',
          primary_step all_images figure_pages (fm, used) fig_num = Some (fm', used')
          /\ match dict_get fig_num fm' with
             | Some (Some r) =>
                 exists img, r = new_record img
                   /\ In img (candidate_images all_images (search_pages first) used)
             | _ => candidate_images all_images (search_pages first) used = []
             end)
  /\ collect_figure_pages scenario_citations = [(1, [3]); (2, [8; 9])]
  /\ search_pages 3 = [1; 2; 3; 4; 5]
  /\ search_pages 8 = [6; 7; 8; 9; 10]
  /\ candidate_images (scenario_images s2 s3 s10) (search_pages 3) []
     = [img_p2 s2; img_p3 s3]
  /\ candidate_images (scenario_images s2 s3 s10) (search_pages 8)
                      [id (if s3 >? s2 then img_p3 s3 else img_p2 s2)]
     = [img_p10 s10]
  /\ exists figure_map,
       match_figures (collect_figure_pages scenario_citations) (scenario_images s2 s3 s10)
         = Some figure_map
       /\ dict_get 1 figure_map
          = Some (Some (new_record (if s3 >? s2 then img_p3 s3 else img_p2 s2)))
       /\ dict_get 2 figure_map = Some (Some (new_record (img_p10 s10))).
Proof.
  split; [exact search_pages_spec|].
  split; [exact py_min_spec|].
  split.
  { intros imgs fp fm used fig pages first Hg Hmin.
    destruct (candidate_images imgs (search_pages first) used) as [|c0 cs] eqn:Hc.
    - exists (dict_set fig None fm), used. split.
      + unfold primary_step. now rewrite Hg, Hmin, Hc.
      + now rewrite dict_get_set_same.
    - assert (Hne : candidate_images imgs (search_pages first) used <> []) by congruence.
      destruct (best_exists _ Hne) as (best & Hbest & Hin).
      exists (dict_set fig (Some (new_record best)) fm), (id best :: used). split.
      + now apply (primary_step_found _ _ _ _ _ pages first).
      + rewrite dict_get_set_same. exists best. rewrite <- Hc. auto. }
  split; [reflexivity|]. split; [reflexivity|]. split; [reflexivity|].
  split; [reflexivity|].
  set (winner := if s3 >? s2 then img_p3 s3 else img_p2 s2).
  assert (Hpool2 : candidate_images (scenario_images s2 s3 s10) (search_pages 8) [id winner]
                   = [img_p10 s10]).
  { unfold winner. destruct (s3 >? s2); reflexivity. }
  split; [exact Hpool2|].
  set (fp := collect_figure_pages scenario_citations).
  set (imgs := scenario_images s2 s3 s10).
  assert (Hstep1 : primary_step imgs fp ([], []) 1
                   = Some ([(1, Some (new_record winner))], [id winner])).
  { apply (primary_step_found imgs fp [] [] 1 [3] 3 winner); try reflexivity.
    - discriminate.
    - apply (best_of_two (img_p2 s2) (img_p3 s3)). }
  assert (Hstep2 : primary_step imgs fp ([(1, Some (new_record winner))], [id winner]) 2
                   = Some ([(1, Some (new_record winner)); (2, Some (new_record (img_p10 s10)))],
                           [id (img_p10 s10); id winner])).
  { apply (primary_step_found imgs fp [(1, Some (new_record winner))] [id winner]
             2 [8; 9] 8 (img_p10 s10)); try reflexivity.
    - fold imgs in Hpool2. rewrite Hpool2. discriminate.
    - fold imgs in Hpool2. rewrite Hpool2. apply best_of_one. }
  destruct (fallback_pass_total imgs
              ([(1, Some (new_record winner)); (2, Some (new_record (img_p10 s10)))],
               [id (img_p10 s10); id winner])) as (fm & Hfb).
  exists fm. split.
  - unfold match_figures. change (sorted (keys fp)) with [1; 2].
    cbn [primary_pass]. now rewrite Hstep1, Hstep2.
  - split; rewrite (fallback_pass_keeps _ _ _ _ _ Hfb); reflexivity.
Qed.

Lemma scenario_B_windows_witness : In 4 (search_pages 3).
Proof. apply (proj2 (proj1 (scenario_B_windows 0 0 0) 3 4)). lia. Defined.

End MatcherFacts.


(* ================================================================== *)
(** * Properties of the extraction pipeline *)
(* ================================================================== *)

Module PipelineFacts.
Import BBox Pipeline PyDict Matcher MatcherFacts.

Section Parser.
Variable get_pixmap : Page -> Rect -> option (list Byte.byte).
Variables min_image_size min_bbox_area max_aspect_ratio : Z.

#[local] Abbreviation crop_regions := (crop_regions get_pixmap min_image_size).
#[local] Abbreviation merge_groups := (merge_groups get_pixmap min_image_size).
#[local] Abbreviation raw_images := (raw_images min_image_size min_bbox_area max_aspect_ratio).
#[local] Abbreviation page_figures :=
  (page_figures get_pixmap min_image_size min_bbox_area max_aspect_ratio).
#[local] Abbreviation parse_figures :=
  (parse_figures get_pixmap min_image_size min_bbox_area max_aspect_ratio).
#[local] Abbreviation extract_by_region_crop :=
  (extract_by_region_crop get_pixmap min_image_size min_bbox_area max_aspect_ratio).

Lemma crop_regions_page page n bboxes : forall idx f,
  In f (crop_regions page n idx bboxes) -> fig_page f = n.
Proof.
  induction bboxes as [|b bboxes IH]; intros idx f Hin; simpl in Hin; [contradiction|].
  apply in_app_or in Hin. destruct Hin as [Hin | Hin]; [|eapply IH; eassumption].
  unfold crop_region in Hin. destruct (get_pixmap _ _); [|contradiction].
  destruct (len l <? min_image_size); [contradiction|].
  destruct Hin as [<- | []]. reflexivity.
Qed.

Lemma merge_groups_page page n groups : forall idx f,
  In f (merge_groups page n idx groups) -> fig_page f = n.
Proof.
  induction groups as [|g groups IH]; intros idx f Hin; simpl in Hin; [contradiction|].
  apply in_app_or in Hin. destruct Hin as [Hin | Hin]; [|eapply IH; eassumption].
  unfold merge_group in Hin.
  destruct g as [|d [|d' g]].
  - destruct (get_pixmap _ _); [|contradiction].
    destruct (len l >=? min_image_size); [|contradiction]. destruct Hin as [<- | []]. reflexivity.
  - destruct (len (bytes d) >=? min_image_size); [|contradiction].
    destruct Hin as [<- | []]. reflexivity.
  - destruct (get_pixmap _ _); [|contradiction].
    destruct (len l >=? min_image_size); [|contradiction]. destruct Hin as [<- | []]. reflexivity.
Qed.

Lemma raw_images_page n imgs : forall idx f,
  In f (raw_images n idx imgs) -> fig_page f = n.
Proof.
  induction imgs as [|i imgs IH]; intros idx f Hin; simpl in Hin; [contradiction|].
  apply in_app_or in Hin. destruct Hin as [Hin | Hin]; [|eapply IH; eassumption].
  unfold raw_image in Hin.
  destruct (base_image i) as [[b e]|]; [|contradiction].
  destruct (len b <? min_image_size); [contradiction|].
  destruct (image_rects i) as [[|r rs]|]; [| |contradiction].
  - destruct Hin as [<- | []]. reflexivity.
  - destruct (keep_bbox _ _ r); [|contradiction]. destruct Hin as [<- | []]. reflexivity.
Qed.

Lemma region_crop_page page n f : In f (extract_by_region_crop page n) -> fig_page f = n.
Proof.
  unfold Pipeline.extract_by_region_crop.
  destruct (image_bboxes page); [contradiction|]. apply crop_regions_page.
Qed.

(** Every strategy stamps the figures of a page with its page number. *)
Lemma page_figures_page mode page n f : In f (page_figures mode page n) -> fig_page f = n.
Proof.
  destruct mode; simpl.
  - apply region_crop_page.
  - apply merge_groups_page.
  - destruct (extract_by_region_crop page n) as [|f0 fs] eqn:E.
    + apply merge_groups_page.
    + rewrite <- E. apply region_crop_page.
  - apply raw_images_page.
Qed.

Lemma StronglySorted_app {A} (R : A -> A -> Prop) (l1 l2 : list A) :
  StronglySorted R l1 -> StronglySorted R l2 ->
  (forall a b, In a l1 -> In b l2 -> R a b) ->
  StronglySorted R (l1 ++ l2).
Proof.
  induction 1 as [|a l1 _ IH Ha]; intros H2 Hcross; simpl; [assumption|].
  constructor.
  - apply IH; [assumption|]. intros x y Hx Hy. apply Hcross; [now right | assumption].
  - apply Forall_app. split; [assumption|].
    apply Forall_forall. intros y Hy. apply Hcross; [now left | assumption].
Qed.

Lemma StronglySorted_const {A} (R : A -> A -> Prop) (l : list A) :
  (forall a b, In a l -> In b l -> R a b) -> StronglySorted R l.
Proof.
  induction l as [|a l IH]; intros H; constructor.
  - apply IH. intros x y Hx Hy. apply H; now right.
  - apply Forall_forall. intros y Hy. apply H; [now left | now right].
Qed.

Lemma parse_figures_pages mode doc : forall k,
  Forall (fun f => k < fig_page f) (parse_figures mode k doc)
  /\ StronglySorted (fun a b => fig_page a <= fig_page b) (parse_figures mode k doc).
Proof.
  induction doc as [|page doc IH]; intros k; simpl; [split; constructor|].
  destruct (IH (k + 1)) as [Hgt Hsorted].
  assert (Hhere : forall f, In f (page_figures mode page (k + 1)) -> fig_page f = k + 1).
  { intros f. apply page_figures_page. }
  rewrite Forall_forall in Hgt.
  split.
  - apply Forall_app. split; apply Forall_forall; intros f Hf.
    + rewrite (Hhere f Hf). lia.
    + specialize (Hgt f Hf). simpl in Hgt. lia.
  - apply StronglySorted_app; [|assumption|].
    + apply StronglySorted_const. intros a b Ha Hb.
      rewrite (Hhere a Ha), (Hhere b Hb). lia.
    + intros a b Ha Hb. rewrite (Hhere a Ha). specialize (Hgt b Hb). simpl in Hgt. lia.
Qed.

Lemma crop_regions_subseq page n bboxes : forall idx,
  subseq (map fig_bbox (crop_regions page n idx bboxes)) (map xywh bboxes).
Proof.
  induction bboxes as [|b bboxes IH]; intros idx; simpl; [constructor|].
  unfold crop_region. destruct (get_pixmap _ _); [|simpl; now constructor].
  destruct (len l <? min_image_size); simpl; [now constructor|].
  apply subseq_take, IH.
Qed.

Lemma subseq_filter {A B} (f : A -> B) (keep : A -> bool) l :
  subseq (map f (filter keep l)) (map f l).
Proof.
  induction l as [|a l IH]; simpl; [constructor|].
  destruct (keep a); simpl; now constructor.
Qed.

Lemma subseq_trans {A} (l1 l2 l3 : list A) : subseq l1 l2 -> subseq l2 l3 -> subseq l1 l3.
Proof.
  intros H12 H23. revert l1 H12.
  induction H23 as [|x l2 l3 _ IH|x l2 l3 _ IH]; intros l1 H12.
  - assumption.
  - constructor. now apply IH.
  - inversion H12; subst; constructor; now apply IH.
Qed.

Lemma region_crop_order page n :
  subseq (map fig_bbox (extract_by_region_crop page n))
         (map xywh (merge_nearby_bboxes (image_bboxes page) 80)).
Proof.
  unfold Pipeline.extract_by_region_crop.
  destruct (image_bboxes page) as [|b bs] eqn:E; [constructor|].
  eapply subseq_trans; [apply crop_regions_subseq | apply subseq_filter].
Qed.

End Parser.

Lemma StronglySorted_nth {A} (R : A -> A -> Prop) (l : list A) d :
  StronglySorted R l ->
  forall i j, (i < j)%nat -> (j < length l)%nat -> R (nth i l d) (nth j l d).
Proof.
  induction 1 as [|a l _ IH Ha]; intros i j Hij Hj; [simpl in Hj; lia|].
  destruct j as [|j]; [lia|]. simpl in Hj. destruct i as [|i]; simpl.
  - rewrite Forall_forall in Ha. apply Ha, nth_In. lia.
  - apply IH; lia.
Qed.

Lemma enumerate_images_nth dir figures : forall k i,
  (i < length figures)%nat ->
  nth i (enumerate_images dir k figures) (mkImage 0 ""%string 0 0)
  = mkImage (k + i) (raw_path dir (k + i) (fig_ext (nth i figures (mkFigure 0 0 [] ""%string None region_crop_method))))
            (fig_page (nth i figures (mkFigure 0 0 [] ""%string None region_crop_method)))
            (len (fig_data (nth i figures (mkFigure 0 0 [] ""%string None region_crop_method)))).
Proof.
  induction figures as [|f figures IH]; intros k i Hi; simpl in Hi; [lia|].
  destruct i as [|i]; simpl.
  - now rewrite Nat.add_0_r.
  - rewrite IH by lia. now rewrite Nat.add_succ_r.
Qed.

Lemma enumerate_images_pages dir figures : forall k,
  map page (enumerate_images dir k figures) = map fig_page figures.
Proof. induction figures as [|f figures IH]; intros k; simpl; [reflexivity|]. now rewrite IH. Qed.


(** The ids within a page do not follow the reading order of the boxes:
    on [two_figures_page] the figure with id 0 lies to the right of and
    below the figure with id 1. *)
Lemma ids_not_in_reading_order :
  ~ (forall get_pixmap min_image_size min_bbox_area max_aspect_ratio mode doc i j bi bj,
        let figures :=
          parse_figures get_pixmap min_image_size min_bbox_area max_aspect_ratio mode 0 doc in
        (i < j)%nat -> (j < length figures)%nat ->
        fig_page (nth i figures no_figure) = fig_page (nth j figures no_figure) ->
        fig_bbox (nth i figures no_figure) = Some bi ->
        fig_bbox (nth j figures no_figure) = Some bj ->
        reading_order bi bj).
Proof.
  intros H.
  assert (Hr : reading_order (500, 500, 200, 200) (0, 0, 200, 200)).
  { apply (H blank_pixmap 20000 5000 8 hybrid [two_figures_page] 0%nat 1%nat).
    - lia.
    - vm_compute. lia.
    - vm_compute. reflexivity.
    - vm_compute. reflexivity.
    - vm_compute. reflexivity. }
  unfold reading_order in Hr. lia.
Qed.

End PipelineFacts.


(* ================================================================== *)
(** * Properties of lazy splitting *)
(* ================================================================== *)

Module SplitFacts.
Import PyDict Matcher MatcherFacts Split.

Lemma attempted_set_same fm n r :
  attempted (dict_set n (Some r) fm) n = Some (split_attempted r).
Proof. unfold attempted. now rewrite dict_get_set_same. Qed.

Lemma attempted_set_other fm n k v :
  k <> n -> attempted (dict_set n v fm) k = attempted fm k.
Proof. intros H. unfold attempted. now rewrite dict_get_set_other. Qed.


Lemma advances_refl st : advances st st.
Proof.
  exists []. split; [reflexivity|]. split; [constructor|].
  split; [intros k []|]. split; [intros k []|]. split; [auto | tauto].
Qed.

Lemma advances_trans st1 st2 st3 : advances st1 st2 -> advances st2 st3 -> advances st1 st3.
Proof.
  intros (n1 & E1 & Hnd1 & Hf1 & Ht1 & Hk1 & Hn1) (n2 & E2 & Hnd2 & Hf2 & Ht2 & Hk2 & Hn2).
  exists (n2 ++ n1). split; [rewrite E2, E1; apply app_assoc|]. split.
  - apply NoDup_app; auto. intros k H2 H1.
    specialize (Hf2 k H2). specialize (Ht1 k H1). congruence.
  - split; [|split; [|split]].
    + intros k Hk. apply in_app_or in Hk. destruct Hk as [Hk | Hk]; [|auto].
      specialize (Hf2 k Hk).
      destruct (attempted (fst st1) k) as [[|]|] eqn:E; auto.
      * specialize (Hk1 k E). congruence.
      * apply Hn1 in E. congruence.
    + intros k Hk. apply in_app_or in Hk. destruct Hk as [Hk | Hk]; auto.
    + auto.
    + intros k. rewrite Hn1. apply Hn2.
Qed.

Lemma flag_set_advances fm calls n r :
  dict_get n fm = Some (Some r) -> split_attempted r = false ->
  forall r', split_attempted r' = true ->
    advances (fm, calls) (dict_set n (Some r') fm, calls).
Proof.
  intros Hg Hf r' Hr'. exists []. simpl.
  split; [reflexivity|]. split; [constructor|].
  split; [intros k []|]. split; [intros k []|]. split.
  - intros k Hk. destruct (Z.eq_dec k n) as [-> | Hne].
    + now rewrite attempted_set_same, Hr'.
    + now rewrite attempted_set_other.
  - intros k. destruct (Z.eq_dec k n) as [-> | Hne].
    + rewrite attempted_set_same. unfold attempted. rewrite Hg. split; discriminate.
    + now rewrite attempted_set_other.
Qed.

Lemma try_split_advances sp un ae fm calls n r :
  dict_get n fm = Some (Some r) -> split_attempted r = false ->
  advances (fm, calls) (try_split sp un ae n r (fm, calls))
  /\ attempted (fst (try_split sp un ae n r (fm, calls))) n = Some true
  /\ snd (try_split sp un ae n r (fm, calls)) = n :: calls.
Proof.
  intros Hg Hf.
  assert (Hshape : exists r', split_attempted r' = true
            /\ try_split sp un ae n r (fm, calls) = (dict_set n (Some r') fm, n :: calls)).
  { unfold try_split. destruct (split sp calls (rec_path r) n un); eexists; split;
      try reflexivity; reflexivity. }
  destruct Hshape as (r' & Hr' & ->). simpl.
  split; [|split; [now rewrite attempted_set_same, Hr' | reflexivity]].
  exists [n]. simpl. split; [reflexivity|]. split; [repeat constructor; auto|].
  assert (Hn : attempted fm n = Some false) by (unfold attempted; now rewrite Hg, Hf).
  split; [intros k [<- | []]; assumption|].
  split; [intros k [<- | []]; now rewrite attempted_set_same, Hr'|]. split.
  - intros k Hk. destruct (Z.eq_dec k n) as [-> | Hne]; [congruence|].
    now rewrite attempted_set_other.
  - intros k. destruct (Z.eq_dec k n) as [-> | Hne].
    + rewrite attempted_set_same, Hn. split; discriminate.
    + now rewrite attempted_set_other.
Qed.

Lemma try_split_adv sp un ae fm calls n r :
  dict_get n fm = Some (Some r) -> split_attempted r = false ->
  advances (fm, calls) (try_split sp un ae n r (fm, calls)).
Proof. intros Hg Hf. now apply try_split_advances. Qed.

Lemma query_advances sp texts n subfig st : advances st (query sp texts n subfig st).
Proof.
  destruct st as [fm calls]. unfold query.
  destruct texts as [|text_data texts]; [apply advances_refl|].
  destruct (dict_get n fm) as [[r|]|] eqn:Hg; try apply advances_refl.
  destruct (split_attempted r) eqn:Hf; cbn [negb].
  - rewrite !andb_false_r. apply advances_refl.
  - rewrite !andb_true_r. destruct (truthy subfig); cbn [negb].
    + destruct (is_available sp).
      * now apply try_split_adv.
      * now apply (flag_set_advances fm calls n r).
    + destruct (is_available sp); [now apply try_split_adv | apply advances_refl].
Qed.

Lemma auto_split_item_advances sp st item : advances st (auto_split_item sp st item).
Proof.
  destruct st as [fm calls]. unfold auto_split_item. cbn [fst].
  destruct (dict_get (fst item) fm) as [[r|]|] eqn:Hg; try apply advances_refl.
  destruct (split_attempted r) eqn:Hf; [apply advances_refl|].
  now apply try_split_adv.
Qed.

Lemma auto_split_fold_advances sp items : forall st,
  advances st (fold_left (auto_split_item sp) items st).
Proof.
  induction items as [|item items IH]; intros st; cbn [fold_left]; [apply advances_refl|].
  eapply advances_trans; [apply auto_split_item_advances | apply IH].
Qed.

Lemma auto_split_advances sp st : advances st (auto_split_all_figures sp st).
Proof.
  unfold auto_split_all_figures.
  destruct (is_available sp); cbn [negb];
    [apply auto_split_fold_advances | apply advances_refl].
Qed.

Lemma ensure_advances sp n st : advances st (ensure_subfigures_split sp n st).
Proof.
  destruct st as [fm calls]. unfold ensure_subfigures_split.
  destruct (dict_get n fm) as [[r|]|] eqn:Hg; try apply advances_refl.
  destruct (is_empty (subfigures r)); cbn [negb]; [|apply advances_refl].
  destruct (split_attempted r) eqn:Hf; cbn [negb]; [apply advances_refl|].
  destruct (is_available sp); cbn [negb].
  - now apply try_split_adv.
  - now apply (flag_set_advances fm calls n r).
Qed.

Lemma serve_advances sp texts st req : advances st (serve sp texts st req).
Proof.
  destruct req; cbn [serve];
    [apply query_advances | apply auto_split_advances | apply ensure_advances].
Qed.

Lemma serve_all_advances sp texts reqs : forall st, advances st (serve_all sp texts reqs st).
Proof.
  unfold serve_all. induction reqs as [|req reqs IH]; intros st; cbn [fold_left];
    [apply advances_refl|].
  eapply advances_trans; [apply serve_advances | apply IH].
Qed.

Lemma advances_kept st st' k :
  advances st st' -> attempted (fst st) k = Some true -> attempted (fst st') k = Some true.
Proof. intros (new & _ & _ & _ & _ & H & _). apply H. Qed.

Lemma advances_record st st' k :
  advances st st' -> attempted (fst st) k <> None -> attempted (fst st') k <> None.
Proof. intros (new & _ & _ & _ & _ & _ & H) Hk E. apply Hk, H, E. Qed.

Lemma auto_split_item_sets sp st item :
  attempted (fst st) (fst item) <> None ->
  attempted (fst (auto_split_item sp st item)) (fst item) = Some true.
Proof.
  destruct st as [fm calls]. unfold auto_split_item, attempted at 1. cbn [fst].
  destruct (dict_get (fst item) fm) as [[r|]|] eqn:Hg; try congruence. intros _.
  destruct (split_attempted r) eqn:Hf.
  - unfold attempted. cbn [fst]. now rewrite Hg, Hf.
  - now apply try_split_advances.
Qed.

Lemma auto_split_fold_sets sp items : forall st k,
  In k (keys items) -> attempted (fst st) k <> None ->
  attempted (fst (fold_left (auto_split_item sp) items st)) k = Some true.
Proof.
  induction items as [|item items IH]; intros st k Hin Hk; [contradiction|].
  cbn [fold_left]. destruct (Z.eq_dec (fst item) k) as [E | Hne].
  - subst k. apply (advances_kept (auto_split_item sp st item)).
    + apply auto_split_fold_advances.
    + now apply auto_split_item_sets.
  - apply IH.
    + destruct Hin as [H | H]; [contradiction | exact H].
    + apply (advances_record st); [apply auto_split_item_advances | assumption].
Qed.


(** On a document without text [query] returns at once.  An image-only
    document gives such a state: [load_pdf] stores no text, the fallback
    pass binds the image to figure 1, and a question about "Figure 1a"
    leaves the flag of the record false, with an available splitter. *)
Lemma subfigure_query_without_text :
  ~ (forall get_pixmap image_dir doc texts all_images figure_map sp k label,
        load_pdf get_pixmap image_dir doc = Some (texts, all_images, figure_map) ->
        is_available sp = true ->
        truthy (Some label) = true ->
        attempted figure_map k = Some false ->
        attempted (fst (query sp texts k (Some label) (figure_map, []))) k = Some true).
Proof.
  intros H.
  destruct (load_pdf large_pixmap default_image_dir image_only_doc)
    as [[[texts all_images] figure_map]|] eqn:E; [|vm_compute in E; discriminate E].
  specialize (H large_pixmap default_image_dir image_only_doc texts all_images figure_map
                some_splitter 1 "a"%string E eq_refl eq_refl).
  vm_compute in E. injection E as <- <- <-.
  specialize (H eq_refl). vm_compute in H. discriminate H.
Qed.

(** C8 (amended): over any sequence of requests ([query],
    [auto_split_all_figures], [ensure_subfigures_split]) the flag of a
    record goes from false to true at most once and is never reset; the
    splitter is invoked at most once per record, only while the flag is
    false, and never once it is true.  On a document with text, a query
    that names a sub-figure makes the transition whatever the splitter
    does (results, empty, exception, unavailable), and a whole-figure query
    makes it when the splitter is available and not otherwise.  On a
    document without text a query changes nothing.
    [auto_split_all_figures] makes the transition for the records among
    the first five entries when the splitter is available and changes
    nothing when it is not. *)
Theorem split_attempted_transition (sp : Splitter) (texts : list (Z * list N))
    (fm : FigureMap) (reqs : list Request) :
  (forall st req,
      (forall k, attempted (fst st) k = Some true ->
                 attempted (fst (serve sp texts st req)) k = Some true)
      /\ exists new,
           snd (serve sp texts st req) = new ++ snd st
           /\ forall k, In k new -> attempted (fst st) k = Some false)
  /\ NoDup (snd (serve_all sp texts reqs (fm, [])))
  /\ (forall k, In k (snd (serve_all sp texts reqs (fm, []))) ->
        attempted fm k = Some false
        /\ attempted (fst (serve_all sp texts reqs (fm, []))) k = Some true)
  /\ (forall k, attempted fm k = Some true ->
        attempted (fst (serve_all sp texts reqs (fm, []))) k = Some true
        /\ ~ In k (snd (serve_all sp texts reqs (fm, []))))
  /\ (texts <> [] -> forall st k label,
        truthy (Some label) = true -> attempted (fst st) k <> None ->
        attempted (fst (query sp texts k (Some label) st)) k = Some true)
  /\ (texts <> [] -> forall st k,
        attempted (fst st) k = Some false ->
        attempted (fst (query sp texts k None st)) k = Some (is_available sp))
  /\ (forall st k subfig, query sp [] k subfig st = st)
  /\ (is_available sp = false -> forall st, auto_split_all_figures sp st = st)
  /\ (is_available sp = true -> forall st k,
        In k (keys (firstn 5 (fst st))) -> attempted (fst st) k <> None ->
        attempted (fst (auto_split_all_figures sp st)) k = Some true).
Proof.
  split.
  { intros st req.
    destruct (serve_advances sp texts st req) as (new & E & _ & Hf & _ & Hk & _).
    split; [exact Hk | exists new; split; assumption]. }
  destruct (serve_all_advances sp texts reqs (fm, [])) as (new & E & Hnd & Hf & Ht & Hk & _).
  cbn [snd fst] in *. rewrite app_nil_r in E. rewrite E.
  split; [assumption|]. split; [auto|]. split.
  { intros k Hk'. split; [auto|]. intros Hin. specialize (Hf k Hin). congruence. }
  split.
  { intros Htexts [fm0 calls] k label Hl Hrec. unfold query. cbn [fst] in Hrec.
    destruct texts as [|text_data texts']; [congruence|].
    unfold attempted in Hrec.
    destruct (dict_get k fm0) as [[r|]|] eqn:Hg; try congruence.
    rewrite Hl. cbn [andb negb].
    destruct (split_attempted r) eqn:Hfl; cbn [negb].
    - unfold attempted. cbn [fst]. now rewrite Hg, Hfl.
    - destruct (is_available sp).
      + now apply try_split_advances.
      + cbn [fst]. now rewrite attempted_set_same. }
  split.
  { intros Htexts [fm0 calls] k Hfl. unfold query. cbn [fst] in Hfl.
    destruct texts as [|text_data texts']; [congruence|].
    unfold attempted in Hfl.
    destruct (dict_get k fm0) as [[r|]|] eqn:Hg; try discriminate.
    injection Hfl as Hfl. rewrite Hfl. cbn [truthy andb negb].
    destruct (is_available sp).
    - now apply try_split_advances.
    - unfold attempted. cbn [fst]. now rewrite Hg, Hfl. }
  split.
  { intros [fm0 calls] k subfig. reflexivity. }
  split.
  { intros Hav st. unfold auto_split_all_figures. now rewrite Hav. }
  intros Hav st k Hin Hrec. unfold auto_split_all_figures. rewrite Hav. cbn [negb].
  now apply auto_split_fold_sets.
Qed.


Lemma split_attempted_transition_witness :
  attempted (fst (query some_splitter one_text 1 (Some "a"%string)
                        ([(1, Some fresh_record)], []))) 1
  = Some true.
Proof.
  apply (proj1 (proj2 (proj2 (proj2 (proj2
           (split_attempted_transition some_splitter one_text [(1, Some fresh_record)] [])))))).
  - discriminate.
  - reflexivity.
  - discriminate.
Defined.

End SplitFacts.


(* ================================================================== *)
(** * Properties of the reference extractor *)
(* ================================================================== *)

Module RefsFacts.
Import Refs.

(** ** Keys *)

Lemma text_eqb_eq a b : text_eqb a b = true <-> a = b.
Proof. unfold text_eqb. destruct (list_eq_dec N.eq_dec a b); split; congruence. Qed.

Lemma key_eqb_eq (a b : key) : key_eqb a b = true <-> a = b.
Proof.
  destruct a as [fa sa], b as [fb sb]. unfold key_eqb. simpl.
  rewrite andb_true_iff, Z.eqb_eq.
  destruct sa as [x|], sb as [y|]; rewrite ?text_eqb_eq; split;
    try (intros [-> H]; congruence); try (intros [= -> ->]; auto);
    try (intros [= ->]; auto); try (intros [_ H]; discriminate).
Qed.

Lemma seen_In (k : key) seen : existsb (key_eqb k) seen = true <-> In k seen.
Proof.
  rewrite existsb_exists. split.
  - intros (x & Hx & E). apply key_eqb_eq in E. now subst.
  - intros H. exists k. split; [assumption | now apply key_eqb_eq].
Qed.

Lemma seen_not_In (k : key) seen : existsb (key_eqb k) seen = false <-> ~ In k seen.
Proof. rewrite <- seen_In. destruct (existsb (key_eqb k) seen); split; congruence. Qed.

(** ** Removing repeated keys *)

Lemma unique_In refs : forall seen r,
  In r (unique seen refs) -> In r refs /\ ~ In (ref_key r) seen.
Proof.
  induction refs as [|x refs IH]; intros seen r Hin; simpl in Hin; [contradiction|].
  destruct (existsb (key_eqb (ref_key x)) seen) eqn:E.
  - destruct (IH _ _ Hin). split; [now right | assumption].
  - destruct Hin as [<- | Hin].
    + split; [now left | now apply seen_not_In].
    + destruct (IH _ _ Hin) as [H1 H2]. split; [now right|].
      intros H. apply H2. now right.
Qed.

Lemma unique_NoDup refs : forall seen, NoDup (map ref_key (unique seen refs)).
Proof.
  induction refs as [|x refs IH]; intros seen; simpl; [constructor|].
  destruct (existsb (key_eqb (ref_key x)) seen); [apply IH|].
  simpl. constructor; [|apply IH].
  intros Hin. apply in_map_iff in Hin. destruct Hin as (r & Hk & Hr).
  apply unique_In in Hr. apply (proj2 Hr). rewrite Hk. now left.
Qed.

Lemma unique_sorted (R : Reference -> Reference -> Prop) refs : forall seen,
  StronglySorted R refs -> StronglySorted R (unique seen refs).
Proof.
  induction refs as [|x refs IH]; intros seen Hs; simpl; [constructor|].
  inversion Hs as [|? ? Hs' Hx]; subst.
  destruct (existsb (key_eqb (ref_key x)) seen); [now apply IH|].
  constructor; [now apply IH|].
  apply Forall_forall. intros r Hr. apply unique_In in Hr.
  rewrite Forall_forall in Hx. now apply Hx.
Qed.

Lemma unique_earliest refs : forall seen,
  StronglySorted (fun a b => (ref_start a <= ref_start b)%nat) refs ->
  forall r r', In r (unique seen refs) -> In r' refs -> ref_key r' = ref_key r ->
               (ref_start r <= ref_start r')%nat.
Proof.
  induction refs as [|x refs IH]; intros seen Hs r r' Hr Hr' Hk; simpl in Hr; [contradiction|].
  inversion Hs as [|? ? Hs' Hx]; subst. rewrite Forall_forall in Hx.
  destruct (existsb (key_eqb (ref_key x)) seen) eqn:E.
  - destruct Hr' as [<- | Hr']; [|now apply (IH seen Hs' r r')].
    apply seen_In in E. apply unique_In in Hr. destruct Hr as [_ Hr]. congruence.
  - destruct Hr as [<- | Hr].
    + destruct Hr' as [<- | Hr']; [lia | now apply Hx].
    + destruct Hr' as [<- | Hr']; [|now apply (IH (ref_key x :: seen) Hs' r r')].
      apply unique_In in Hr. destruct Hr as [_ Hr]. exfalso. apply Hr. left. congruence.
Qed.

Lemma unique_complete refs : forall seen r',
  In r' refs -> ~ In (ref_key r') seen ->
  exists r, In r (unique seen refs) /\ ref_key r = ref_key r'.
Proof.
  induction refs as [|x refs IH]; intros seen r' Hr' Hns; [contradiction|].
  simpl. destruct (existsb (key_eqb (ref_key x)) seen) eqn:E.
  - destruct Hr' as [<- | Hr']; [apply seen_In in E; contradiction|].
    now apply IH.
  - destruct Hr' as [<- | Hr']; [exists x; split; [now left | reflexivity]|].
    destruct (key_eqb (ref_key r') (ref_key x)) eqn:Ek.
    + apply key_eqb_eq in Ek. exists x. split; [now left | congruence].
    + destruct (IH (ref_key x :: seen) r' Hr') as (r & Hr & Hk).
      * intros [H | H]; [|contradiction].
        assert (key_eqb (ref_key r') (ref_key x) = true) by (apply key_eqb_eq; congruence).
        congruence.
      * exists r. split; [now right | assumption].
Qed.

(** ** Sorting by start offset *)

Lemma insert_by_start_perm x l : Permutation (insert_by_start x l) (x :: l).
Proof.
  induction l as [|y l IH]; simpl; [reflexivity|].
  destruct (Nat.leb (ref_start x) (ref_start y)); [reflexivity|].
  rewrite IH. apply perm_swap.
Qed.

Lemma sorted_by_start_perm l : Permutation (sorted_by_start l) l.
Proof.
  induction l as [|x l IH]; simpl; [reflexivity|].
  rewrite insert_by_start_perm. now constructor.
Qed.

Lemma insert_by_start_sorted x l :
  StronglySorted (fun a b => (ref_start a <= ref_start b)%nat) l ->
  StronglySorted (fun a b => (ref_start a <= ref_start b)%nat) (insert_by_start x l).
Proof.
  induction 1 as [|y l Hs IH Hy]; simpl; [repeat constructor|].
  destruct (Nat.leb (ref_start x) (ref_start y)) eqn:E.
  - apply Nat.leb_le in E. constructor; [now constructor|].
    constructor; [assumption|]. eapply Forall_impl; [|exact Hy]. simpl. intros; lia.
  - apply Nat.leb_gt in E. constructor; [assumption|].
    apply Forall_forall. intros z Hz.
    apply (Permutation_in _ (insert_by_start_perm x l)) in Hz.
    destruct Hz as [<- | Hz]; [lia|]. rewrite Forall_forall in Hy. now apply Hy.
Qed.

Lemma sorted_by_start_sorted l :
  StronglySorted (fun a b => (ref_start a <= ref_start b)%nat) (sorted_by_start l).
Proof.
  induction l as [|x l IH]; simpl; [constructor | now apply insert_by_start_sorted].
Qed.

(** ** The contract of [extract_references] on any text *)

Lemma kept_references_contract (t : text) :
  NoDup (map ref_key (kept_references t))
  /\ StronglySorted (fun a b => (ref_start a <= ref_start b)%nat) (kept_references t)
  /\ (forall r, In r (kept_references t) ->
        In r (found_references t)
        /\ forall r', In r' (found_references t) -> ref_key r' = ref_key r ->
                      (ref_start r <= ref_start r')%nat)
  /\ (forall r', In r' (found_references t) ->
        exists r, In r (kept_references t) /\ ref_key r = ref_key r').
Proof.
  unfold kept_references.
  pose proof (sorted_by_start_perm (found_references t)) as Hperm.
  pose proof (sorted_by_start_sorted (found_references t)) as Hsorted.
  split; [apply unique_NoDup|]. split; [now apply unique_sorted|]. split.
  - intros r Hr. split.
    + apply (Permutation_in _ Hperm). now apply (unique_In _ _ _ Hr).
    + intros r' Hr' Hk. apply (unique_earliest _ [] Hsorted r r' Hr); [|assumption].
      apply (Permutation_in _ (Permutation_sym Hperm) Hr').
  - intros r' Hr'. apply unique_complete; [|intros []].
    apply (Permutation_in _ (Permutation_sym Hperm) Hr').
Qed.

(** ** The matcher and its continuation *)

Lemma star_ext {R} items s : forall pos (k1 k2 : text -> nat -> option R),
  (forall s' pos', k1 s' pos' = k2 s' pos') -> star items s pos k1 = star items s pos k2.
Proof.
  induction s as [|c s IH]; intros pos k1 k2 H; simpl; [apply H|].
  destruct (class_match items c); [|apply H].
  now rewrite (IH (S pos) k1 k2 H), H.
Qed.

Lemma match_re_ext r : forall R s pos caps (k1 k2 : text -> nat -> captures -> option R),
  (forall s' pos' caps', k1 s' pos' caps' = k2 s' pos' caps') ->
  match_re r R s pos caps k1 = match_re r R s pos caps k2.
Proof.
  induction r as [x|items|a IHa b IHb|a IHa b IHb|a IHa|items|n a IHa|a IHa];
    intros R s pos caps k1 k2 H; simpl.
  - destruct s as [|c s]; [reflexivity|]. destruct (lit_match x c); [apply H | reflexivity].
  - destruct s as [|c s]; [reflexivity|]. destruct (class_match items c); [apply H | reflexivity].
  - apply IHa. intros s' pos' caps'. now apply IHb.
  - now rewrite (IHa R s pos caps k1 k2 H), (IHb R s pos caps k1 k2 H).
  - now rewrite (IHa R s pos caps k1 k2 H), H.
  - apply star_ext. intros s' pos'. apply H.
  - apply IHa. intros s' pos' caps'. apply H.
  - now rewrite H.
Qed.

(** Matching does not depend on the offset at which the text starts. *)
Lemma star_shift {R} items p s : forall pos (k : text -> nat -> option R),
  star items s (p + pos)%nat k = star items s pos (fun s' pos' => k s' (p + pos')%nat).
Proof.
  induction s as [|c s IH]; intros pos k; simpl; [reflexivity|].
  destruct (class_match items c); [|reflexivity].
  now rewrite <- Nat.add_succ_r, IH.
Qed.

Lemma match_re_shift r p : forall R s pos caps (k : text -> nat -> captures -> option R),
  match_re r R s (p + pos)%nat caps k
  = match_re r R s pos caps (fun s' pos' caps' => k s' (p + pos')%nat caps').
Proof.
  induction r as [x|items|a IHa b IHb|a IHa b IHb|a IHa|items|n a IHa|a IHa];
    intros R s pos caps k; simpl.
  - destruct s as [|c s]; [reflexivity|]. now rewrite Nat.add_succ_r.
  - destruct s as [|c s]; [reflexivity|]. now rewrite Nat.add_succ_r.
  - rewrite IHa. apply match_re_ext. intros s' pos' caps'. apply IHb.
  - now rewrite IHa, IHb.
  - now rewrite IHa.
  - apply star_shift.
  - rewrite IHa. apply match_re_ext. intros s' pos' caps'.
    now replace (p + pos' - (p + pos))%nat with (pos' - pos)%nat by lia.
  - now rewrite IHa.
Qed.

(** A successful match has called its continuation on a later part of the
    text. *)
Lemma star_inv {R} items s : forall pos (k : text -> nat -> option R) res,
  star items s pos k = Some res ->
  exists d, (d <= length s)%nat /\ k (skipn d s) (pos + d)%nat = Some res.
Proof.
  induction s as [|c s IH]; intros pos k res H; simpl in H.
  - exists 0%nat. simpl. now rewrite Nat.add_0_r.
  - destruct (class_match items c).
    + destruct (star items s (S pos) k) as [r|] eqn:E.
      * injection H as <-. destruct (IH _ _ _ E) as (d & Hd & Hk).
        exists (S d). simpl. split; [lia|]. now rewrite Nat.add_succ_r.
      * exists 0%nat. simpl. rewrite Nat.add_0_r. split; [lia | assumption].
    + exists 0%nat. simpl. rewrite Nat.add_0_r. split; [lia | assumption].
Qed.

Lemma match_re_inv r : forall R s pos caps (k : text -> nat -> captures -> option R) res,
  match_re r R s pos caps k = Some res ->
  exists d caps', (d <= length s)%nat /\ k (skipn d s) (pos + d)%nat caps' = Some res.
Proof.
  induction r as [x|items|a IHa b IHb|a IHa b IHb|a IHa|items|n a IHa|a IHa];
    intros R s pos caps k res H; simpl in H.
  - destruct s as [|c s]; [discriminate|]. destruct (lit_match x c); [|discriminate].
    exists 1%nat, caps. simpl. split; [lia|]. now rewrite Nat.add_1_r.
  - destruct s as [|c s]; [discriminate|]. destruct (class_match items c); [|discriminate].
    exists 1%nat, caps. simpl. split; [lia|]. now rewrite Nat.add_1_r.
  - destruct (IHa _ _ _ _ _ _ H) as (d1 & c1 & Hd1 & H1).
    destruct (IHb _ _ _ _ _ _ H1) as (d2 & c2 & Hd2 & H2).
    rewrite length_skipn in Hd2.
    exists (d1 + d2)%nat, c2. split; [lia|].
    rewrite skipn_skipn in H2. now rewrite Nat.add_assoc, (Nat.add_comm d1 d2).
  - destruct (match_re a R s pos caps k) eqn:E.
    + injection H as <-. now apply (IHa _ _ _ _ _ _ E).
    + now apply (IHb _ _ _ _ _ _ H).
  - destruct (match_re a R s pos caps k) eqn:E.
    + injection H as <-. now apply (IHa _ _ _ _ _ _ E).
    + exists 0%nat, caps. simpl. rewrite Nat.add_0_r. split; [lia | assumption].
  - destruct (star_inv _ _ _ _ _ H) as (d & Hd & Hk). now exists d, caps.
  - destruct (IHa _ _ _ _ _ _ H) as (d & c' & Hd & Hk). eauto.
  - destruct (match_re a unit s pos caps (fun _ _ _ => Some tt)); [discriminate|].
    exists 0%nat, caps. simpl. rewrite Nat.add_0_r. split; [lia | assumption].
Qed.


(** ** Where the matches of [finditer] come from *)

Lemma found_here r s pos m s' :
  match_re r _ s pos [] (found pos s) = Some (m, s') ->
  m_start m = pos /\ (pos <= m_end m)%nat
  /\ s' = skipn (m_end m - pos) s /\ (m_end m - pos <= length s)%nat.
Proof.
  intros E. destruct (match_re_inv _ _ _ _ _ _ _ E) as (d & caps' & Hd & Hk).
  unfold found in Hk. injection Hk as <- <-. cbn [m_start m_end].
  replace (pos + d - pos)%nat with d by lia. repeat split; auto; lia.
Qed.

Lemma search_spec r s : forall pos m s',
  search r s pos = Some (m, s') ->
  exists d, (d <= length s)%nat
    /\ m_start m = (pos + d)%nat
    /\ match_re r _ (skipn d s) (pos + d)%nat [] (found (pos + d)%nat (skipn d s))
       = Some (m, s')
    /\ (m_start m <= m_end m)%nat
    /\ s' = skipn (m_end m - pos) s
    /\ (m_end m - pos <= length s)%nat.
Proof.
  assert (Hhere : forall s pos m s',
            match_re r _ s pos [] (found pos s) = Some (m, s') ->
            exists d, (d <= length s)%nat
              /\ m_start m = (pos + d)%nat
              /\ match_re r _ (skipn d s) (pos + d)%nat [] (found (pos + d)%nat (skipn d s))
                 = Some (m, s')
              /\ (m_start m <= m_end m)%nat
              /\ s' = skipn (m_end m - pos) s
              /\ (m_end m - pos <= length s)%nat).
  { intros s0 pos m s' E. destruct (found_here _ _ _ _ _ E) as (H1 & H2 & H3 & H4).
    exists 0%nat. rewrite Nat.add_0_r. cbn [skipn].
    split; [lia|]. split; [assumption|]. split; [assumption|].
    split; [lia|]. split; assumption. }
  induction s as [|c s IH]; intros pos m s' H; simpl in H.
  - destruct (match_re r _ [] pos [] _) as [res|] eqn:E; [|discriminate].
    injection H as ->. now apply Hhere.
  - destruct (match_re r _ (c :: s) pos [] _) as [res|] eqn:E.
    + injection H as ->. now apply Hhere.
    + destruct (IH _ _ _ H) as (d & Hd & Hs & Hm & Hle & Hrest & Hlen).
      exists (S d). cbn [skipn length]. rewrite Nat.add_succ_r.
      split; [lia|]. split; [assumption|]. split; [assumption|]. split; [assumption|].
      assert (S pos <= m_end m)%nat by lia.
      replace (m_end m - pos)%nat with (S (m_end m - S pos)) by lia.
      cbn [skipn]. split; [assumption | lia].
Qed.

Lemma finditer_from_spec fuel r : forall s pos m,
  In m (finditer_from fuel r s pos) ->
  exists d s', (d <= length s)%nat
    /\ m_start m = (pos + d)%nat
    /\ match_re r _ (skipn d s) (pos + d)%nat [] (found (pos + d)%nat (skipn d s))
       = Some (m, s').
Proof.
  induction fuel as [|fuel IH]; intros s pos m Hin; simpl in Hin; [contradiction|].
  destruct (search r s pos) as [[m0 s0]|] eqn:E; [|contradiction].
  destruct (search_spec _ _ _ _ _ E) as (d0 & Hd0 & Hs0 & Hm0 & Hle0 & Hrest0 & Hlen0).
  destruct Hin as [<- | Hin]; [eauto|].
  assert (Hshift : forall e sfx, (pos <= e)%nat -> sfx = skipn (e - pos) s ->
            (e - pos <= length s)%nat ->
            In m (finditer_from fuel r sfx e) ->
            exists d s', (d <= length s)%nat /\ m_start m = (pos + d)%nat
              /\ match_re r _ (skipn d s) (pos + d)%nat []
                          (found (pos + d)%nat (skipn d s))
                 = Some (m, s')).
  { intros e sfx Hpe -> Hlen Hin'.
    destruct (IH _ _ _ Hin') as (d & s' & Hd & Hs & Hm).
    rewrite length_skipn in Hd. rewrite skipn_skipn in Hm.
    exists (d + (e - pos))%nat, s'. split; [lia|].
    replace (pos + (d + (e - pos)))%nat with (e + d)%nat by lia.
    split; [assumption | exact Hm]. }
  destruct (Nat.eqb (m_end m0) (m_start m0)) eqn:Eq.
  - destruct s0 as [|c s0']; [contradiction|].
    apply (Hshift (S (m_end m0)) s0'); [lia | | | assumption].
    + replace (S (m_end m0) - pos)%nat with (1 + (m_end m0 - pos))%nat by lia.
      rewrite <- skipn_skipn, <- Hrest0. reflexivity.
    + assert (length (c :: s0') = length s - (m_end m0 - pos))%nat
        by (rewrite Hrest0; apply length_skipn).
      simpl in H. lia.
  - apply (Hshift (m_end m0) s0); [lia | assumption | assumption | assumption].
Qed.

Lemma finditer_at r pre rest m :
  In m (finditer r (pre ++ rest)) -> m_start m = length pre ->
  exists s', match_re r _ rest 0 []
               (fun s' pos' caps' => found (length pre) rest s' (length pre + pos')%nat caps')
             = Some (m, s').
Proof.
  unfold finditer. intros Hin Hstart.
  destruct (finditer_from_spec _ _ _ _ _ Hin) as (d & s' & Hd & Hs & Hm).
  simpl in Hs, Hm. rewrite <- Hs, Hstart in Hm.
  rewrite skipn_app, skipn_all, Nat.sub_diag in Hm. simpl in Hm.
  exists s'. rewrite <- match_re_shift, Nat.add_0_r. exact Hm.
Qed.


(** ** When [extract_references] returns *)

Lemma collect_Some {A} (l : list (option A)) r : collect l = Some r <-> l = map Some r.
Proof.
  revert r. induction l as [|[a|] l IH]; intros r; simpl.
  - split; [intros [= <-]; reflexivity | now destruct r].
  - destruct (collect l) as [r0|] eqn:E.
    + split.
      * intros [= <-]. simpl. f_equal. now apply IH.
      * destruct r as [|a' r]; [discriminate|]. simpl. intros [= <- H].
        apply IH in H. congruence.
    + split; [discriminate|]. destruct r as [|a' r]; [discriminate|]. simpl.
      intros [= <- H]. apply IH in H. discriminate.
  - split; [discriminate|]. destruct r; discriminate.
Qed.

Lemma collect_None {A} (l : list (option A)) : collect l = None <-> In None l.
Proof.
  induction l as [|[a|] l IH]; simpl.
  - split; [discriminate | contradiction].
  - destruct (collect l) as [r0|].
    + split; [discriminate|]. intros [H | H]; [discriminate|]. now apply IH in H.
    + split; [intros _; right; now apply IH | reflexivity].
  - split; [now left | reflexivity].
Qed.

Lemma int_Some s n :
  int s = Some n <-> s <> [] /\ (length s <= max_str_digits)%nat /\ n = decimal s.
Proof.
  unfold int. destruct s as [|c s].
  - split; [discriminate | intros [H _]; congruence].
  - destruct (Nat.leb_spec (length (c :: s)) max_str_digits).
    + split; [intros [= <-]; repeat split; [discriminate | assumption]
             | intros (_ & _ & ->); reflexivity].
    + split; [discriminate | lia].
Qed.

Lemma int_None s : s <> [] -> (int s = None <-> (max_str_digits < length s)%nat).
Proof.
  intros Hne. unfold int. destruct s as [|c s]; [congruence|].
  destruct (Nat.leb_spec (length (c :: s)) max_str_digits).
  - split; [discriminate | lia].
  - tauto.
Qed.

Lemma app_same_length {A} (a c b d : list A) :
  length a = length c -> a ++ b = c ++ d -> a = c /\ b = d.
Proof.
  revert c. induction a as [|x a IH]; intros [|y c] Hl H; simpl in *; try discriminate.
  - auto.
  - injection H as -> H. destruct (IH c) as [-> ->]; [lia | assumption | auto].
Qed.

(** A reference that is built is the one built without the limit. *)
Lemma reference_Some has_subfigure m r :
  reference has_subfigure m = Some r <->
  r = reference_of has_subfigure m
  /\ exists g, group 1 (m_groups m) = Some g /\ g <> []
                /\ (length g <= max_str_digits)%nat.
Proof.
  unfold reference, reference_of. destruct (group 1 (m_groups m)) as [g|].
  - destruct (int g) as [n|] eqn:E.
    + apply int_Some in E. destruct E as (Hne & Hlen & ->). split.
      * intros [= <-]. eauto.
      * intros [-> _]. reflexivity.
    + split; [discriminate|].
      intros [_ (g' & Hg' & Hne & Hlen)]. injection Hg' as <-.
      apply (int_None g Hne) in E. lia.
  - split; [discriminate|]. intros [_ (g & H & _)]. discriminate.
Qed.

(** The matches of all patterns, with the flag of their pattern. *)
Lemma references_Some t rs :
  references t = Some rs <->
  rs = found_references t
  /\ forall p m, In p PATTERNS -> In m (finditer (fst p) t) ->
       exists g, group 1 (m_groups m) = Some g /\ g <> []
                      /\ (length g <= max_str_digits)%nat.
Proof.
  unfold references, found_references. rewrite collect_Some.
  generalize PATTERNS as ps. intros ps. revert rs.
  induction ps as [|p ps IH]; intros rs; cbn [flat_map].
  - split.
    + intros H. destruct rs; [|discriminate]. split; [reflexivity | intros ? ? []].
    + intros [-> _]. reflexivity.
  - assert (Hone : forall ms rs1,
              map (reference (snd p)) ms = map Some rs1 <->
              rs1 = map (reference_of (snd p)) ms
              /\ forall m, In m ms ->
                   exists g, group 1 (m_groups m) = Some g /\ g <> []
                      /\ (length g <= max_str_digits)%nat).
    { induction ms as [|m ms IHm]; intros rs1; simpl.
      - split.
        + intros H. destruct rs1; [|discriminate]. split; [reflexivity | intros ? []].
        + intros [-> _]. reflexivity.
      - split.
        + destruct rs1 as [|r rs1]; [discriminate|]. simpl. intros [= H1 H2].
          apply reference_Some in H1. destruct H1 as [-> Hg].
          apply IHm in H2. destruct H2 as [-> Hall].
          split; [reflexivity|]. intros m' [<- | Hm']; auto.
        + intros [-> Hall]. simpl. f_equal.
          * apply reference_Some. split; [reflexivity|]. apply Hall. now left.
          * apply IHm. split; [reflexivity|]. intros m' Hm'. apply Hall. now right. }
    split.
    + intros H.
      assert (Hsplit : exists rs1 rs2, rs = rs1 ++ rs2
                /\ map (reference (snd p)) (finditer (fst p) t) = map Some rs1
                /\ flat_map (fun p => map (reference (snd p)) (finditer (fst p) t)) ps
                   = map Some rs2).
      { exists (firstn (length (finditer (fst p) t)) rs),
               (skipn (length (finditer (fst p) t)) rs).
        split; [symmetry; apply firstn_skipn|].
        assert (Hl : length (map (reference (snd p)) (finditer (fst p) t)
                             ++ flat_map (fun p => map (reference (snd p)) (finditer (fst p) t)) ps)
                     = length (map Some rs)) by now rewrite H.
        rewrite length_app, !length_map in Hl.
        rewrite <- (firstn_skipn (length (finditer (fst p) t)) rs) in H at 1.
        rewrite map_app in H.
        apply app_same_length in H.
        - destruct H as [H1 H2]. split; assumption.
        - rewrite !length_map, length_firstn. lia. }
      destruct Hsplit as (rs1 & rs2 & -> & H1 & H2).
      apply Hone in H1. destruct H1 as [-> Hall1].
      apply IH in H2. destruct H2 as [-> Hall2].
      split; [reflexivity|].
      intros p' m [<- | Hp'] Hm; [now apply Hall1 | now apply (Hall2 p')].
    + intros [-> Hall]. rewrite map_app. f_equal.
      * apply Hone. split; [reflexivity|]. intros m Hm. apply (Hall p); [now left | assumption].
      * apply IH. split; [reflexivity|]. intros p' m Hp' Hm. apply (Hall p'); [now right | assumption].
Qed.


(** ** What group 1 captures *)

Lemma is_digit_true c : is_digit c = true <-> (48 <= c <= 57)%N.
Proof.
  unfold is_digit. rewrite andb_true_iff, !N.leb_le. tauto.
Qed.

Lemma lower_digit c : is_digit (lower c) = true -> is_digit c = true.
Proof.
  rewrite !is_digit_true. unfold lower.
  destruct ((65 <=? c) && (c <=? 90))%N eqn:E1.
  { apply andb_prop in E1. destruct E1 as [E1 E2]. apply N.leb_le in E1, E2. lia. }
  destruct ((c =? 304) || (c =? 305))%N eqn:E2; [lia|].
  destruct (c =? 383)%N eqn:E3; [lia|].
  destruct (c =? 8490)%N eqn:E4; [lia|]. tauto.
Qed.

Lemma upper_digit c : is_digit (upper c) = true -> is_digit c = true.
Proof.
  rewrite !is_digit_true. unfold upper.
  destruct ((97 <=? c) && (c <=? 122))%N eqn:E1; [|tauto].
  apply andb_prop in E1. destruct E1 as [E1 E2]. apply N.leb_le in E1, E2. lia.
Qed.

Lemma digits_only_match items c :
  digits_only items = true -> class_match items c = true -> is_digit c = true.
Proof.
  unfold digits_only, class_match. intros Hall Hm.
  apply existsb_exists in Hm. destruct Hm as (it & Hit & Hc).
  rewrite forallb_forall in Hall. specialize (Hall _ Hit).
  destruct it; try discriminate. cbn [in_item] in Hc.
  apply orb_prop in Hc. destruct Hc as [Hc | Hc].
  - now apply lower_digit.
  - now apply lower_digit, upper_digit.
Qed.

Lemma firstn_plus {A} (l : list A) : forall n m,
  firstn (n + m) l = firstn n l ++ firstn m (skipn n l).
Proof.
  induction l as [|a l IH]; intros n m.
  - now rewrite skipn_nil, !firstn_nil.
  - destruct n as [|n]; [reflexivity|]. simpl. now rewrite IH.
Qed.

(** The characters given to a greedy star match its class. *)
Lemma star_consumed {R} items s : forall pos (k : text -> nat -> option R) res,
  star items s pos k = Some res ->
  exists d, (d <= length s)%nat /\ k (skipn d s) (pos + d)%nat = Some res
            /\ Forall (fun c => class_match items c = true) (firstn d s).
Proof.
  induction s as [|c s IH]; intros pos k res H; simpl in H.
  - exists 0%nat. simpl. rewrite Nat.add_0_r. auto.
  - destruct (class_match items c) eqn:Hc.
    + destruct (star items s (S pos) k) as [r|] eqn:E.
      * injection H as <-. destruct (IH _ _ _ E) as (d & Hd & Hk & Hall).
        exists (S d). simpl. split; [lia|]. rewrite Nat.add_succ_r. split; [assumption|].
        constructor; assumption.
      * exists 0%nat. simpl. rewrite Nat.add_0_r. split; [lia|]. split; [assumption | constructor].
    + exists 0%nat. simpl. rewrite Nat.add_0_r. split; [lia|]. split; [assumption | constructor].
Qed.

Lemma digits_alone_groups r : digits_alone r = true -> number_groups r = true.
Proof.
  induction r as [x|items|a IHa b IHb|a IHa b IHb|a IHa|items|n a IHa|a IHa];
    simpl; intros H; try reflexivity; try discriminate.
  - apply andb_prop in H. destruct H. now rewrite IHa, IHb.
  - apply andb_prop in H. destruct H. now rewrite IHa, IHb.
  - auto.
Qed.

Lemma taken_from_nil s : taken_from s [].
Proof. intros g []. Qed.

Lemma taken_from_later s d new : taken_from (skipn d s) new -> taken_from s new.
Proof.
  intros H g Hg. destruct (H g Hg) as (Hne & Hdig & i & E).
  split; [assumption|]. split; [assumption|].
  exists (i + d)%nat. now rewrite <- skipn_skipn.
Qed.

Lemma taken_from_app s new1 new2 :
  taken_from s new1 -> taken_from s new2 -> taken_from s (new1 ++ new2).
Proof. intros H1 H2 g Hg. apply in_app_or in Hg. destruct Hg; auto. Qed.

(** What a successful match adds to the captures. *)
Lemma match_re_captures r : forall R s pos caps (k : text -> nat -> captures -> option R) res,
  number_groups r = true ->
  match_re r R s pos caps k = Some res ->
  exists d new,
    (d <= length s)%nat
    /\ k (skipn d s) (pos + d)%nat (new ++ caps) = Some res
    /\ taken_from s new
    /\ (captures_number r = true -> exists g, In (1%nat, g) new)
    /\ (digits_alone r = true ->
        new = [] /\ Forall (fun c => is_digit c = true) (firstn d s))
    /\ (consumes r = true -> (1 <= d)%nat).
Proof.
  induction r as [x|items|a IHa b IHb|a IHa b IHb|a IHa|items|n a IHa|a IHa];
    intros R s pos caps k res Hng H; simpl in Hng, H.
  - destruct s as [|c s]; [discriminate|]. destruct (lit_match x c); [|discriminate].
    exists 1%nat, []. simpl. rewrite Nat.add_1_r.
    split; [lia|]. split; [assumption|]. split; [apply taken_from_nil|].
    split; [discriminate|]. split; [discriminate | lia].
  - destruct s as [|c s]; [discriminate|].
    destruct (class_match items c) eqn:Hc; [|discriminate].
    exists 1%nat, []. simpl. rewrite Nat.add_1_r.
    split; [lia|]. split; [assumption|]. split; [apply taken_from_nil|].
    split; [discriminate|]. split; [|lia]. intros Hd. split; [reflexivity|].
    constructor; [|constructor]. now apply (digits_only_match items).
  - apply andb_prop in Hng. destruct Hng as [Hna Hnb].
    destruct (IHa _ _ _ _ _ _ Hna H) as (d1 & new1 & Hd1 & H1 & Ht1 & Hc1 & Hda & Hca).
    destruct (IHb _ _ _ _ _ _ Hnb H1) as (d2 & new2 & Hd2 & H2 & Ht2 & Hc2 & Hdb & Hcb).
    rewrite length_skipn in Hd2. rewrite skipn_skipn in H2.
    exists (d1 + d2)%nat, (new2 ++ new1). split; [lia|]. split.
    { rewrite <- app_assoc, Nat.add_assoc, (Nat.add_comm d1 d2). exact H2. }
    split.
    { apply taken_from_app; [|assumption]. now apply (taken_from_later s d1). }
    split.
    { simpl. intros Hc. apply orb_prop in Hc. destruct Hc as [Hc | Hc].
      - destruct (Hc1 Hc) as (g & Hg). exists g. apply in_or_app. now right.
      - destruct (Hc2 Hc) as (g & Hg). exists g. apply in_or_app. now left. }
    split.
    { simpl. intros Hd. apply andb_prop in Hd. destruct Hd as [Ha Hb].
      destruct (Hda Ha) as [-> Hfa]. destruct (Hdb Hb) as [-> Hfb].
      split; [reflexivity|]. rewrite firstn_plus. apply Forall_app. split; assumption. }
    simpl. intros Hc. apply orb_prop in Hc.
    destruct Hc as [Hc | Hc]; [specialize (Hca Hc) | specialize (Hcb Hc)]; lia.
  - apply andb_prop in Hng. destruct Hng as [Hna Hnb].
    destruct (match_re a R s pos caps k) eqn:E.
    + injection H as <-.
      destruct (IHa _ _ _ _ _ _ Hna E) as (d & new & Hd & Hk & Ht & Hc & Hda & Hca).
      exists d, new. split; [assumption|]. split; [assumption|]. split; [assumption|].
      split; [|split].
      * simpl. intros Hcn. apply andb_prop in Hcn. now apply Hc.
      * simpl. intros Hdd. apply andb_prop in Hdd. now apply Hda.
      * simpl. intros Hcc. apply andb_prop in Hcc. now apply Hca.
    + destruct (IHb _ _ _ _ _ _ Hnb H) as (d & new & Hd & Hk & Ht & Hc & Hdb & Hcb).
      exists d, new. split; [assumption|]. split; [assumption|]. split; [assumption|].
      split; [|split].
      * simpl. intros Hcn. apply andb_prop in Hcn. now apply Hc.
      * simpl. intros Hdd. apply andb_prop in Hdd. now apply Hdb.
      * simpl. intros Hcc. apply andb_prop in Hcc. now apply Hcb.
  - destruct (match_re a R s pos caps k) eqn:E.
    + injection H as <-.
      destruct (IHa _ _ _ _ _ _ Hng E) as (d & new & Hd & Hk & Ht & Hc & Hda & _).
      exists d, new. split; [assumption|]. split; [assumption|]. split; [assumption|].
      split; [discriminate|]. split; [exact Hda | discriminate].
    + exists 0%nat, []. simpl. rewrite Nat.add_0_r.
      split; [lia|]. split; [assumption|]. split; [apply taken_from_nil|].
      split; [discriminate|]. split; [|discriminate].
      intros _. split; [reflexivity | constructor].
  - destruct (star_consumed _ _ _ _ _ H) as (d & Hd & Hk & Hall).
    exists d, []. split; [assumption|]. split; [assumption|]. split; [apply taken_from_nil|].
    split; [discriminate|]. split; [|discriminate]. simpl. intros Hdo. split; [reflexivity|].
    eapply Forall_impl; [|exact Hall]. intros c Hc. now apply (digits_only_match items).
  - assert (Hna : number_groups a = true).
    { destruct (Nat.eqb n 1); [|assumption].
      apply andb_prop in Hng. now apply digits_alone_groups. }
    destruct (IHa _ _ _ _ _ _ Hna H) as (d & new & Hd & Hk & Ht & Hc & Hda & Hca).
    replace (pos + d - pos)%nat with d in Hk by lia.
    exists d, ((n, firstn d s) :: new). split; [assumption|]. split; [exact Hk|].
    split.
    { intros g [Hg | Hg]; [|now apply Ht].
      injection Hg as -> <-. cbn [Nat.eqb] in Hng.
      apply andb_prop in Hng. destruct Hng as [Hdig Hcons].
      destruct (Hda Hdig) as [_ Hf]. specialize (Hca Hcons).
      split.
      { intros E. apply (f_equal (@length N)) in E.
        rewrite length_firstn, Nat.min_l in E by assumption. simpl in E. lia. }
      split; [assumption|].
      exists 0%nat. cbn [skipn]. rewrite length_firstn, Nat.min_l by assumption. reflexivity. }
    split; [|split; [discriminate | exact Hca]].
    simpl. intros Hcn. destruct (Nat.eqb_spec n 1) as [-> | Hne].
    + exists (firstn d s). now left.
    + destruct (Hc Hcn) as (g & Hg). exists g. now right.
  - destruct (match_re a unit s pos caps (fun _ _ _ => Some tt)); [discriminate|].
    exists 0%nat, []. simpl. rewrite Nat.add_0_r.
    split; [lia|]. split; [assumption|]. split; [apply taken_from_nil|].
    split; [discriminate|]. split; discriminate.
Qed.

Lemma group_In n g0 caps : In (n, g0) caps -> exists g, group n caps = Some g /\ In (n, g) caps.
Proof.
  induction caps as [|[m t] caps IH]; intros Hin; [contradiction|]. simpl.
  destruct (Nat.eqb_spec n m) as [-> | Hne].
  - exists t. split; [reflexivity | now left].
  - destruct Hin as [Hin | Hin]; [congruence|].
    destruct (IH Hin) as (g & Hg & Hin'). exists g. split; [assumption | now right].
Qed.

Lemma patterns_capture_numbers :
  forallb (fun p => number_groups (fst p) && captures_number (fst p)) PATTERNS = true.
Proof. reflexivity. Qed.

(** Group 1 of every match of every pattern is a string of digits of the
    text. *)
Lemma finditer_number p t m :
  In p PATTERNS -> In m (finditer (fst p) t) ->
  exists g i, group 1 (m_groups m) = Some g
    /\ g <> []
    /\ Forall (fun c => is_digit c = true) g
    /\ g = firstn (length g) (skipn i t).
Proof.
  intros Hp Hin. unfold finditer in Hin.
  destruct (finditer_from_spec _ _ _ _ _ Hin) as (d & s' & Hd & Hs & Hm).
  pose proof patterns_capture_numbers as Hall. rewrite forallb_forall in Hall.
  specialize (Hall _ Hp). apply andb_prop in Hall. destruct Hall as [Hng Hcn].
  destruct (match_re_captures _ _ _ _ _ _ _ Hng Hm) as (d' & new & Hd' & Hk & Ht & Hc & _).
  unfold found in Hk. injection Hk as Hk _. subst m. cbn [m_groups].
  rewrite app_nil_r. destruct (Hc Hcn) as (g0 & Hg0).
  destruct (group_In _ _ _ Hg0) as (g & Hg & Hing).
  destruct (Ht g Hing) as (Hne & Hdig & i & E).
  exists g, (i + d)%nat. split; [assumption|]. split; [assumption|]. split; [assumption|].
  now rewrite <- skipn_skipn.
Qed.

(** ** Runs of characters *)

Lemma longest_run_from_ge P t : forall cur, (cur <= longest_run_from P cur t)%nat.
Proof.
  induction t as [|c t IH]; intros cur; simpl; [lia|].
  destruct (P c); [specialize (IH (S cur)) |]; lia.
Qed.

Lemma run_at_front P t : forall n cur,
  Forall (fun c => P c = true) (firstn n t) ->
  (cur + length (firstn n t) <= longest_run_from P cur t)%nat.
Proof.
  induction t as [|c t IH]; intros n cur H.
  - rewrite firstn_nil. simpl. lia.
  - destruct n as [|n]; simpl in *.
    + pose proof (longest_run_from_ge P (c :: t) cur) as Hge. simpl in Hge. lia.
    + inversion H as [|? ? Hc Hrest]; subst. rewrite Hc.
      specialize (IH n (S cur) Hrest). lia.
Qed.

Lemma run_inside P t : forall i n cur,
  Forall (fun c => P c = true) (firstn n (skipn i t)) ->
  (length (firstn n (skipn i t)) <= longest_run_from P cur t)%nat.
Proof.
  induction t as [|c t IH]; intros i n cur H.
  - rewrite skipn_nil, firstn_nil. simpl. lia.
  - destruct i as [|i].
    + cbn [skipn] in *. pose proof (run_at_front P (c :: t) n cur H). lia.
    + cbn [skipn] in *. simpl. destruct (P c).
      * now apply IH.
      * specialize (IH i n 0%nat H). lia.
Qed.

Lemma digit_may_be c : is_digit c = true -> may_be_digit c = true.
Proof. unfold may_be_digit. now intros ->. Qed.

(** On a text without long numbers [int] accepts every number. *)
Lemma short_numbers_groups t p m :
  short_numbers t -> In p PATTERNS -> In m (finditer (fst p) t) ->
  exists g, group 1 (m_groups m) = Some g /\ g <> [] /\ (length g <= max_str_digits)%nat.
Proof.
  intros Hshort Hp Hm.
  destruct (finditer_number p t m Hp Hm) as (g & i & Hg & Hne & Hdig & E).
  exists g. split; [assumption|]. split; [assumption|].
  unfold short_numbers, longest_run in Hshort.
  rewrite E. eapply Nat.le_trans; [|exact Hshort]. apply run_inside.
  rewrite <- E. eapply Forall_impl; [|exact Hdig]. apply digit_may_be.
Qed.

(** [extract_references] returns on a text without long numbers, and what
    it returns is [kept_references]. *)
Lemma extract_references_returns t :
  short_numbers t -> extract_references t = Some (kept_references t).
Proof.
  intros Hshort. unfold extract_references.
  replace (references t) with (Some (found_references t)); [reflexivity|].
  symmetry. apply references_Some. split; [reflexivity|].
  intros p m. now apply short_numbers_groups.
Qed.

Lemma extract_references_Some t rs :
  extract_references t = Some rs ->
  rs = kept_references t /\ references t = Some (found_references t).
Proof.
  unfold extract_references. destruct (references t) as [refs|] eqn:E; [|discriminate].
  intros [= <-]. apply references_Some in E. destruct E as [-> _]. auto.
Qed.

(** [extract_references] raises exactly when a match carries a number of
    more than 4300 digits. *)
Lemma extract_references_None t :
  extract_references t = None <->
  exists p m g, In p PATTERNS /\ In m (finditer (fst p) t)
                /\ group 1 (m_groups m) = Some g /\ (max_str_digits < length g)%nat.
Proof.
  unfold extract_references. split.
  - destruct (references t) as [refs|] eqn:E; [discriminate|]. intros _.
    unfold references in E. apply collect_None in E. apply in_flat_map in E.
    destruct E as (p & Hp & Hin). apply in_map_iff in Hin. destruct Hin as (m & Hr & Hm).
    destruct (finditer_number p t m Hp Hm) as (g & i & Hg & Hne & _ & _).
    exists p, m, g. split; [assumption|]. split; [assumption|]. split; [assumption|].
    unfold reference in Hr. rewrite Hg in Hr.
    destruct (int g) eqn:Ei; [discriminate|]. now apply (int_None g Hne).
  - intros (p & m & g & Hp & Hm & Hg & Hlen).
    destruct (references t) as [refs|] eqn:E; [|reflexivity]. exfalso.
    apply references_Some in E. destruct E as [_ Hall].
    destruct (Hall p m Hp Hm) as (g' & Hg' & _ & Hlen'). rewrite Hg in Hg'.
    injection Hg' as <-. lia.
Qed.


(** ** The citation "Figure 3a" *)

(** At an occurrence of "Figure 3a" only the first pattern matches,
    whatever follows. *)
Lemma other_patterns_fail (R : Type) (post : text) (k : text -> nat -> captures -> option R) :
  Forall (fun p => match_re (fst p) R (figure_3a ++ post) 0 [] k = None) (tl PATTERNS).
Proof. repeat constructor. Qed.

Lemma first_pattern_groups (R : Type) (post : text)
    (k : text -> nat -> captures -> option R) res :
  match_re (fst (hd (Lit 0, true) PATTERNS)) R (figure_3a ++ post) 0 [] k = Some res ->
  exists s' pos', k s' pos' groups_3a = Some res.
Proof.
  cbn. intros H.
  destruct (star [Space] post 9 _) as [r|] eqn:E; [|discriminate].
  injection H as ->. apply star_inv in E. destruct E as (d & _ & E).
  destruct (skipn d post) as [|c s0].
  - eauto.
  - match type of E with context [if ?b then _ else _] => destruct b end.
    + destruct (k s0 (S (9 + d)) _) eqn:Ek; [injection E as <-; eauto | eauto].
    + eauto.
Qed.

Lemma at_figure_3a (R : Type) pat has_subfigure (post : text)
    (k : text -> nat -> captures -> option R) res :
  In (pat, has_subfigure) PATTERNS ->
  match_re pat R (figure_3a ++ post) 0 [] k = Some res ->
  has_subfigure = true /\ exists s' pos', k s' pos' groups_3a = Some res.
Proof.
  intros Hin Hm. change PATTERNS with (hd (Lit 0, true) PATTERNS :: tl PATTERNS) in Hin.
  destruct Hin as [E | Hin].
  - injection E as <- <-. split; [reflexivity | exact (first_pattern_groups R post k res Hm)].
  - pose proof (other_patterns_fail R post k) as Hf. rewrite Forall_forall in Hf.
    specialize (Hf _ Hin). cbn [fst] in Hf. congruence.
Qed.

(** Every raw reference that starts at an occurrence of "Figure 3a" is the
    sub-figure reference (3, "a"). *)
Lemma references_at_figure_3a pre post r :
  In r (found_references (pre ++ figure_3a ++ post)) -> ref_start r = length pre ->
  ref_key r = (3, Some (codes "a"%string)).
Proof.
  unfold found_references. intros Hin Hstart.
  apply in_flat_map in Hin. destruct Hin as ([pat has_sub] & Hpat & Hin).
  apply in_map_iff in Hin. destruct Hin as (m & <- & Hm). cbn [fst snd] in *.
  destruct (finditer_at _ _ _ _ Hm Hstart) as (s' & Hmatch).
  destruct (at_figure_3a _ _ _ _ _ _ Hpat Hmatch) as (-> & s0 & pos0 & Hk).
  unfold found in Hk. injection Hk as <- _. reflexivity.
Qed.

Lemma star_some {R} items s : forall pos (k : text -> nat -> option R),
  (forall s' pos', k s' pos' <> None) -> star items s pos k <> None.
Proof.
  induction s as [|c s IH]; intros pos k Hk; simpl; [apply Hk|].
  destruct (class_match items c); [|apply Hk].
  destruct (star items s (S pos) k); [discriminate | apply Hk].
Qed.

Lemma search_here r s pos res :
  match_re r _ s pos [] (found pos s) = Some res -> search r s pos = Some res.
Proof. intros H. unfold found in H. destruct s; simpl; now rewrite H. Qed.

(** A text that begins with "Figure 3a" has a raw reference at offset 0. *)
Lemma reference_at_start post :
  exists r, In r (found_references (figure_3a ++ post)) /\ ref_start r = 0%nat.
Proof.
  set (t := figure_3a ++ post).
  assert (Hs : exists m s', search (fst (hd (Lit 0, true) PATTERNS)) t 0 = Some (m, s')
                            /\ m_start m = 0%nat).
  { destruct (match_re (fst (hd (Lit 0, true) PATTERNS)) _ t 0 [] (found 0 t))
      as [[m s']|] eqn:E.
    - exists m, s'. split; [now apply search_here | now apply found_here in E].
    - exfalso. revert E. unfold t. cbn.
      destruct (star [Space] post 9 _) eqn:E; [discriminate|]. intros _. revert E.
      apply star_some. intros s' pos'.
      destruct s' as [|c s0]; [discriminate|].
      match goal with |- context [if ?b then _ else _] => destruct b end; discriminate. }
  destruct Hs as (m & s' & Hs & Hstart).
  exists (reference_of true m). split; [|exact Hstart].
  unfold found_references. change PATTERNS with (hd (Lit 0, true) PATTERNS :: tl PATTERNS).
  cbn [flat_map]. apply in_or_app. left. apply in_map.
  unfold finditer. cbn [finditer_from]. fold t. rewrite Hs. now left.
Qed.

Lemma NoDup_map_eq {A B} (f : A -> B) (l : list A) a b :
  NoDup (map f l) -> In a l -> In b l -> f a = f b -> a = b.
Proof.
  induction l as [|x l IH]; intros Hnd Ha Hb E; [contradiction|].
  simpl in Hnd. inversion Hnd as [|? ? Hx Hl]; subst.
  destruct Ha as [<- | Ha], Hb as [<- | Hb]; auto.
  - exfalso. apply Hx. rewrite E. now apply in_map.
  - exfalso. apply Hx. rewrite <- E. now apply in_map.
Qed.

(** A text with "Figure 3a" and, later, a plain "Figure 3" has two
    citations of figure 3, one of them bare. *)
Lemma figure_3a_not_the_only_citation :
  ~ (forall pre post,
        exists rs r,
          extract_references (pre ++ figure_3a ++ post) = Some rs
          /\ filter (fun r => figure r =? 3) rs = [r]
          /\ subfigure r = Some (codes "a"%string)).
Proof.
  intros H. destruct (H [] (codes " Figure 3"%string)) as (rs & r & Hrs & Hr & _).
  vm_compute in Hrs. injection Hrs as <-. vm_compute in Hr. discriminate.
Qed.

(** C3 (amended): no citation that starts at an occurrence of "Figure 3a"
    is a bare (3, none) citation: it is the sub-figure citation (3, "a").
    [extract_references] returns on every text that has no run of more
    than 4300 consecutive digits (characters outside ASCII counted as
    digits).  Whenever it returns on a text that begins with "Figure 3a",
    whatever follows, the list holds exactly one citation with the key
    (3, "a"), at offset 0.  Whenever it returns, the list has pairwise
    different keys (figure number, sub-figure label), is ordered by start
    offset, holds for every key the earliest match, and holds every key
    that was matched.  On "Figure 3a" and on
    "Figure 3a and Figure 3a" the result is the single citation (3, "a").
    On an ASCII text [extract_references] raises exactly when a match of
    one of the patterns carries a number of more than 4300 digits, which
    [int] refuses: so it does on "Figure 3a Figure " followed by 4301
    digits. *)
Theorem figure_3a_citation :
  (forall pre post rs r,
      extract_references (pre ++ figure_3a ++ post) = Some rs ->
      In r rs ->
      ref_start r = length pre ->
      ref_key r = (3, Some (codes "a"%string)))
  /\ (forall post rs,
        extract_references (figure_3a ++ post) = Some rs ->
        exists r,
          In r rs
          /\ ref_key r = (3, Some (codes "a"%string))
          /\ ref_start r = 0%nat
          /\ forall r', In r' rs -> ref_key r' = (3, Some (codes "a"%string)) -> r' = r)
  /\ (forall t, short_numbers t -> exists rs, extract_references t = Some rs)
  /\ (forall t,
        is_ascii t ->
        (extract_references t = None <->
         exists p m g,
           In p PATTERNS /\ In m (finditer (fst p) t)
           /\ group 1 (m_groups m) = Some g /\ (max_str_digits < length g)%nat))
  /\ (forall t rs,
        extract_references t = Some rs ->
        exists refs,
          references t = Some refs
          /\ NoDup (map ref_key rs)
          /\ StronglySorted (fun a b => (ref_start a <= ref_start b)%nat) rs
          /\ (forall r, In r rs ->
                In r refs
                /\ forall r', In r' refs -> ref_key r' = ref_key r ->
                              (ref_start r <= ref_start r')%nat)
          /\ (forall r', In r' refs -> exists r, In r rs /\ ref_key r = ref_key r'))
  /\ extract_references (codes "Figure 3a"%string)
     = Some [mkReference (codes "Figure 3a"%string) 3 (Some (codes "a"%string)) 0 9]
  /\ extract_references (codes "Figure 3a and Figure 3a"%string)
     = Some [mkReference (codes "Figure 3a "%string) 3 (Some (codes "a"%string)) 0 10]
  /\ extract_references (figure_3a ++ codes " Figure "%string ++ repeat (code "1"%char) 4301)
     = None.
Proof.
  split.
  { intros pre post rs r Hrs Hr Hstart.
    apply extract_references_Some in Hrs. destruct Hrs as [-> _].
    apply references_at_figure_3a with (pre := pre) (post := post); [|assumption].
    now apply (kept_references_contract (pre ++ figure_3a ++ post)). }
  split.
  { intros post rs Hrs.
    apply extract_references_Some in Hrs. destruct Hrs as [-> _].
    destruct (kept_references_contract (figure_3a ++ post)) as (Hnd & _ & Hearly & Hall).
    destruct (reference_at_start post) as (r0 & Hr0 & Hs0).
    destruct (Hall r0 Hr0) as (r & Hr & Hk).
    assert (Hk0 : ref_key r0 = (3, Some (codes "a"%string))).
    { now apply (references_at_figure_3a [] post). }
    exists r. split; [assumption|]. split; [congruence|]. split.
    - destruct (Hearly r Hr) as [_ Hle]. specialize (Hle r0 Hr0 (eq_sym Hk)). lia.
    - intros r' Hr' Hk'. apply (NoDup_map_eq ref_key _ _ _ Hnd Hr' Hr). congruence. }
  split.
  { intros t Hshort. exists (kept_references t). now apply extract_references_returns. }
  split; [intros t _; exact (extract_references_None t)|].
  split.
  { intros t rs Hrs. apply extract_references_Some in Hrs. destruct Hrs as [-> Hrefs].
    exists (found_references t). split; [assumption|].
    exact (kept_references_contract t). }
  split; [vm_compute; reflexivity|].
  split; [vm_compute; reflexivity|].
  vm_compute. reflexivity.
Qed.

Lemma figure_3a_citation_witness :
  let rs := [mkReference (codes "Figure 3a "%string) 3 (Some (codes "a"%string)) 0 10] in
  extract_references (figure_3a ++ codes " and Figure 3a"%string) = Some rs
  /\ exists r,
       In r rs
       /\ ref_key r = (3, Some (codes "a"%string))
       /\ ref_start r = 0%nat
       /\ forall r', In r' rs -> ref_key r' = (3, Some (codes "a"%string)) -> r' = r.
Proof.
  split; [vm_compute; reflexivity|].
  apply (proj1 (proj2 figure_3a_citation) (codes " and Figure 3a"%string)).
  vm_compute. reflexivity.
Defined.

(** C10: since the patterns are applied case-insensitively, the class of
    the sub-figure letter also matches an uppercase letter, and there are
    texts on which [extract_references] returns a sub-figure citation of
    figure 3 labelled with the first letter of the following word, and no
    bare citation (3, none): "Figure 3 The" is one, its only citation is
    (3, "T").  On "Figure 3. The" the sub-figure citation (3, "T") is
    returned first and the bare citation (3, none) after it. *)
Theorem capital_letter_captured :
  (forall c, (65 <= c <= 90)%N -> class_match [Range (code "a"%char) (code "z"%char)] c = true)
  /\ (exists t rs,
        extract_references t = Some rs
        /\ (exists r, In r rs /\ ref_key r = (3, Some (codes "T"%string)))
        /\ ~ (exists r, In r rs /\ ref_key r = (3, None)))
  /\ extract_references (codes "Figure 3 The"%string)
     = Some [mkReference (codes "Figure 3 T"%string) 3 (Some (codes "T"%string)) 0 10]
  /\ extract_references (codes "Figure 3. The"%string)
     = Some [mkReference (codes "Figure 3. T"%string) 3 (Some (codes "T"%string)) 0 11;
             mkReference (codes "Figure 3"%string) 3 None 0 8].
Proof.
  split.
  { intros c Hc. unfold class_match, in_item, lower, upper. simpl.
    replace ((65 <=? c)%N && (c <=? 90)%N) with true
      by (symmetry; apply andb_true_iff; split; apply N.leb_le; lia).
    replace ((97 <=? c + 32)%N && (c + 32 <=? 122)%N) with true
      by (symmetry; apply andb_true_iff; split; apply N.leb_le; lia).
    reflexivity. }
  split.
  { exists (codes "Figure 3 The"%string),
           [mkReference (codes "Figure 3 T"%string) 3 (Some (codes "T"%string)) 0 10].
    split; [vm_compute; reflexivity|]. split.
    - eexists. split; [left; reflexivity | reflexivity].
    - intros (r & [<- | []] & Hk). discriminate Hk. }
  split; vm_compute; reflexivity.
Qed.

Lemma capital_letter_captured_witness :
  class_match [Range (code "a"%char) (code "z"%char)] (code "T"%char) = true.
Proof. apply (proj1 capital_letter_captured). vm_compute. split; discriminate. Defined.

End RefsFacts.

(* ================================================================== *)
(** * Further properties of the merger and of the extraction strategies *)
(* ================================================================== *)

Module ExtractionFacts.
Import BBox Pipeline Matcher Extraction BBoxFacts PipelineFacts.

(** ** The merger: passes, size, coverage *)

Lemma regions_count (l : list Region) :
  Forall (fun r : Region => snd r <> []) l -> (length l <= length (members l))%nat.
Proof.
  unfold members. induction 1 as [|r l Hr _ IH]; simpl; [lia|].
  rewrite length_app. destruct (snd r); [congruence | simpl; lia].
Qed.

Lemma merge_regions_nonempty R t :
  Forall (fun r : Region => snd r <> []) (merge_regions R t).
Proof.
  destruct (merge_regions_spec R t) as (_ & _ & Hgood & _).
  eapply Forall_impl; [|exact Hgood]. intros r Hc.
  now destruct (Cluster_members _ _ _ _ Hc).
Qed.

Lemma merge_length R t : (length (merge_nearby_bboxes R t) <= length R)%nat.
Proof.
  destruct (merge_regions_spec R t) as (<- & _ & _ & Hperm).
  rewrite length_map.
  etransitivity; [apply regions_count, merge_regions_nonempty|].
  rewrite (Permutation_length Hperm), length_seq. lia.
Qed.

Lemma merge_loop_nil fuel t : merge_loop fuel t [] = [].
Proof. destruct fuel; reflexivity. Qed.

(** X1: the loop [while changed] of [_merge_nearby_bboxes] is over after at
    most [len(bboxes)] passes: any larger bound on the number of passes
    gives the same list.  The list returned is no longer than the input
    and is empty only for an empty input. *)
Theorem merge_passes_bounded (R : list Rect) (t : Z) (fuel : nat) :
  (length R <= fuel)%nat ->
  merge_loop fuel t R = merge_nearby_bboxes R t
  /\ (length (merge_nearby_bboxes R t) <= length R)%nat
  /\ (R <> [] -> merge_nearby_bboxes R t <> []).
Proof.
  intros Hfuel. split; [|split].
  - destruct R as [|r R]; [apply merge_loop_nil|].
    unfold merge_nearby_bboxes. now apply merge_loop_fuel.
  - apply merge_length.
  - intros Hne E.
    destruct (merge_regions_spec R t) as (Hfst & _ & _ & Hperm).
    rewrite E in Hfst. apply map_eq_nil in Hfst. rewrite Hfst in Hperm.
    apply Permutation_length in Hperm. rewrite length_seq in Hperm.
    destruct R; [congruence | discriminate].
Qed.

Lemma merge_passes_bounded_witness :
  merge_loop 7 45 three_in_a_row = merge_nearby_bboxes three_in_a_row 45.
Proof. apply (proj1 (merge_passes_bounded three_in_a_row 45 7 ltac:(simpl; lia))). Defined.

Lemma inside_cover rs : forall r,
  inside r (cover r rs) /\ forall x, In x rs -> inside x (cover r rs).
Proof.
  induction rs as [|r' rs IH]; intros r; simpl.
  - split; [apply inside_refl | contradiction].
  - destruct (IH (union r r')) as [H1 H2]. split.
    + eapply inside_trans; [apply inside_union_l | exact H1].
    + intros x [<- | Hx]; [|now apply H2].
      eapply inside_trans; [apply inside_union_r | exact H1].
Qed.

Lemma cover_least rs : forall r B,
  inside r B -> (forall x, In x rs -> inside x B) -> inside (cover r rs) B.
Proof.
  induction rs as [|r' rs IH]; intros r B Hr Hrs; simpl; [assumption|].
  apply IH.
  - apply union_least; [assumption | apply Hrs; now left].
  - intros x Hx. apply Hrs. now right.
Qed.

Lemma inside_bounding_box rs r : In r rs -> inside r (bounding_box rs).
Proof.
  destruct rs as [|r0 rs]; [contradiction|]. simpl.
  destruct (inside_cover rs r0) as [H1 H2].
  intros [<- | Hin]; [assumption | now apply H2].
Qed.

(** X2: nothing is lost by the merger: every input rectangle lies inside
    one of the rectangles returned, and every rectangle returned lies
    inside the smallest rectangle around all input rectangles. *)
Theorem merge_covers_input (R : list Rect) (t : Z) :
  (forall r, In r R -> exists b, In b (merge_nearby_bboxes R t) /\ inside r b)
  /\ (forall b, In b (merge_nearby_bboxes R t) -> inside b (bounding_box R)).
Proof.
  destruct (merge_regions_spec R t) as (Hfst & _ & Hgood & Hperm).
  rewrite Forall_forall in Hgood. split.
  - intros r Hin. destruct (In_nth _ _ zero_rect Hin) as (k & Hk & <-).
    assert (Hmem : In k (members (merge_regions R t))).
    { apply (Permutation_in _ (Permutation_sym Hperm)). apply in_seq. lia. }
    apply in_members in Hmem. destruct Hmem as ([b m] & Hr & Hkm).
    exists b. split.
    + rewrite <- Hfst. apply in_map_iff. now exists (b, m).
    + destruct (Cluster_members _ _ _ _ (Hgood _ Hr)) as (_ & Hins & _).
      now apply Hins.
  - intros b Hb. rewrite <- Hfst in Hb. apply in_map_iff in Hb.
    destruct Hb as ([b' m] & <- & Hr).
    destruct (Cluster_members _ _ _ _ (Hgood _ Hr)) as (_ & Hins & Hleast).
    apply Hleast. intros k Hk. apply inside_bounding_box, nth_In.
    now apply (Hins k).
Qed.

Lemma merge_covers_input_witness :
  exists b, In b (merge_nearby_bboxes three_in_a_row 45) /\ inside (mkRect 50 0 60 10) b.
Proof.
  apply (proj1 (merge_covers_input three_in_a_row 45)). simpl. auto.
Defined.

Lemma ForallOrdPairs_tag (P : Rect -> Rect -> Prop) (l : list Region) :
  ForallOrdPairs P (map fst l) -> ForallOrdPairs (fun a b => P (fst a) (fst b)) l.
Proof.
  induction l as [|a l IH]; intros H; [constructor|].
  simpl in H. inversion H as [|? ? Ha Hl]; subst. constructor.
  - rewrite Forall_map in Ha. exact Ha.
  - now apply IH.
Qed.

Lemma ForallOrdPairs_of_nth {A} (P : A -> A -> Prop) d (l : list A) :
  (forall i j, (i < j)%nat -> (j < length l)%nat -> P (nth i l d) (nth j l d)) ->
  ForallOrdPairs P l.
Proof.
  induction l as [|a l IH]; intros H; constructor.
  - apply Forall_forall. intros x Hx. destruct (In_nth _ _ d Hx) as (k & Hk & <-).
    apply (H 0%nat (S k)); simpl; lia.
  - apply IH. intros i j Hij Hj. apply (H (S i) (S j)); simpl; lia.
Qed.

Lemma region_loop_fixed t fuel (l : list Region) :
  ForallOrdPairs (apart t) l -> region_loop fuel t l = l.
Proof.
  intros Hord. destruct fuel as [|fuel]; [reflexivity|].
  simpl. now rewrite scan_fixed by (auto; lia).
Qed.

(** X3: the merger returns its input unchanged exactly when no two input
    rectangles are near each other at the threshold. *)
Theorem merge_unchanged_iff_separated (R : list Rect) (t : Z) :
  merge_nearby_bboxes R t = R
  <-> ForallOrdPairs (fun a b => is_nearby a b t = false) R.
Proof.
  split.
  - intros E. apply (ForallOrdPairs_of_nth _ zero_rect). intros i j Hij Hj.
    pose proof (merge_output_apart R t i j) as H. rewrite E in H. apply H; lia.
  - intros Hsep. destruct R as [|r R]; [reflexivity|].
    assert (Hord : ForallOrdPairs (apart t) (tag (r :: R))).
    { apply ForallOrdPairs_tag with (P := fun a b => is_nearby a b t = false).
      now rewrite tag_fst. }
    change (merge_nearby_bboxes (r :: R) t) with (merge_loop (length (r :: R)) t (r :: R)).
    pose proof (merge_loop_regions t (length (r :: R)) (tag (r :: R))) as H.
    rewrite tag_fst in H. rewrite H, region_loop_fixed by assumption. apply tag_fst.
Qed.

Lemma merge_unchanged_iff_separated_witness :
  merge_nearby_bboxes three_in_a_row 10 = three_in_a_row.
Proof.
  apply (proj2 (merge_unchanged_iff_separated three_in_a_row 10)).
  repeat constructor.
Defined.

(** ** Grouping of images in the merging strategy *)

Lemma chained_single x : chained [x].
Proof.
  intros pre y post E Hne. destruct pre as [|p pre]; [congruence|].
  destruct pre; discriminate.
Qed.

Lemma chained_snoc g img :
  chained g ->
  existsb (fun existing_img => is_nearby (bbox img) (bbox existing_img) 50) g = true ->
  chained (g ++ [img]).
Proof.
  intros Hg Hnear pre x post E Hne.
  destruct (exists_last (l := x :: post)) as (post' & z & Hz); [discriminate|].
  rewrite Hz, app_assoc in E. apply app_inj_tail in E. destruct E as [E <-].
  destruct post' as [|x' post'].
  - injection Hz as -> . rewrite app_nil_r in E. subst g.
    apply existsb_exists in Hnear. destruct Hnear as (y & Hy & Hn). eauto.
  - injection Hz as <- Hpost. apply (Hg pre x post'); assumption.
Qed.

Lemma add_to_groups_spec img groups :
  Forall (fun g => g <> [] /\ chained g) groups ->
  Forall (fun g => g <> [] /\ chained g) (add_to_groups img groups)
  /\ Permutation (concat (add_to_groups img groups)) (img :: concat groups)
  /\ (length (add_to_groups img groups) <= S (length groups))%nat.
Proof.
  induction 1 as [|g groups [Hne Hch] Hgs IH]; simpl.
  - split; [|split; [reflexivity | lia]].
    constructor; [|constructor]. split; [discriminate | apply chained_single].
  - destruct (existsb _ g) eqn:Hnear.
    + split; [|split; [|simpl; lia]].
      * constructor; [|assumption]. split; [|now apply chained_snoc].
        destruct g; discriminate.
      * simpl. rewrite <- app_assoc. simpl.
        symmetry. apply Permutation_middle.
    + destruct IH as (IH1 & IH2 & IH3). split; [|split; [|simpl; lia]].
      * constructor; auto.
      * simpl. rewrite IH2. symmetry. apply Permutation_middle.
Qed.

Lemma group_fold_spec rest : forall groups,
  Forall (fun g => g <> [] /\ chained g) groups ->
  Forall (fun g => g <> [] /\ chained g)
         (fold_left (fun groups img => add_to_groups img groups) rest groups)
  /\ Permutation (concat (fold_left (fun groups img => add_to_groups img groups) rest groups))
                 (concat groups ++ rest)
  /\ (length (fold_left (fun groups img => add_to_groups img groups) rest groups)
      <= length groups + length rest)%nat.
Proof.
  induction rest as [|img rest IH]; intros groups Hgs; simpl.
  - rewrite app_nil_r. split; [assumption | split; [reflexivity | lia]].
  - destruct (add_to_groups_spec img groups Hgs) as (H1 & H2 & H3).
    destruct (IH _ H1) as (I1 & I2 & I3). split; [assumption|]. split; [|lia].
    rewrite I2, H2. simpl. apply Permutation_middle.
Qed.

(** The groups hold the images, and no group is empty. *)
Lemma groups_hold (image_data : list ImageData) :
  Permutation (concat (group_nearby_images image_data)) image_data
  /\ Forall (fun g => g <> []) (group_nearby_images image_data).
Proof.
  destruct image_data as [|first rest]; simpl.
  - split; [reflexivity | constructor].
  - destruct (group_fold_spec rest [[first]]) as (H1 & H2 & _).
    { constructor; [|constructor]. split; [discriminate | apply chained_single]. }
    split; [exact H2|]. eapply Forall_impl; [|exact H1]. simpl. tauto.
Qed.

(** X4: [_group_nearby_images] shares out the images among the groups:
    the groups together hold every image exactly once, no group is empty,
    there are at most as many groups as images, and every member of a
    group but its first is within 50 of a member that joined the group
    before it. *)
Theorem groups_partition (image_data : list ImageData) :
  Permutation (concat (group_nearby_images image_data)) image_data
  /\ Forall (fun g => g <> []) (group_nearby_images image_data)
  /\ (length (group_nearby_images image_data) <= length image_data)%nat
  /\ (forall g pre x post,
        In g (group_nearby_images image_data) -> g = pre ++ x :: post -> pre <> [] ->
        exists y, In y pre /\ is_nearby (bbox x) (bbox y) 50 = true).
Proof.
  destruct image_data as [|first rest]; simpl.
  - split; [reflexivity|]. split; [constructor|]. split; [lia|]. contradiction.
  - destruct (group_fold_spec rest [[first]]) as (H1 & H2 & H3).
    { constructor; [|constructor]. split; [discriminate | apply chained_single]. }
    rewrite Forall_forall in H1. split; [exact H2|]. split; [|split; [simpl in H3; lia|]].
    + apply Forall_forall. intros g Hg. now apply H1.
    + intros g pre x post Hg. now apply (H1 g Hg).
Qed.

(** ** The rectangle around a group *)

Lemma cover_x0 rs : forall r, x0 (cover r rs) = fold_left Z.min (map x0 rs) (x0 r).
Proof. induction rs as [|r' rs IH]; intros r; simpl; [reflexivity | now rewrite IH]. Qed.

Lemma cover_y0 rs : forall r, y0 (cover r rs) = fold_left Z.min (map y0 rs) (y0 r).
Proof. induction rs as [|r' rs IH]; intros r; simpl; [reflexivity | now rewrite IH]. Qed.

Lemma cover_x1 rs : forall r, x1 (cover r rs) = fold_left Z.max (map x1 rs) (x1 r).
Proof. induction rs as [|r' rs IH]; intros r; simpl; [reflexivity | now rewrite IH]. Qed.

Lemma cover_y1 rs : forall r, y1 (cover r rs) = fold_left Z.max (map y1 rs) (y1 r).
Proof. induction rs as [|r' rs IH]; intros r; simpl; [reflexivity | now rewrite IH]. Qed.

(** X5: for a non-empty list, [_merge_bboxes_to_one] returns the rectangle
    whose corners are the least [x0], the least [y0], the greatest [x1]
    and the greatest [y1] of the list; it contains every rectangle of the
    list and lies inside every rectangle that does. *)
Theorem merge_bboxes_to_one_extremes (bboxes : list Rect) :
  bboxes <> [] ->
  py_min (map x0 bboxes) = Some (x0 (merge_bboxes_to_one bboxes))
  /\ py_min (map y0 bboxes) = Some (y0 (merge_bboxes_to_one bboxes))
  /\ py_max (map x1 bboxes) = Some (x1 (merge_bboxes_to_one bboxes))
  /\ py_max (map y1 bboxes) = Some (y1 (merge_bboxes_to_one bboxes))
  /\ (forall b, In b bboxes -> inside b (merge_bboxes_to_one bboxes))
  /\ (forall B, (forall b, In b bboxes -> inside b B) ->
                inside (merge_bboxes_to_one bboxes) B).
Proof.
  intros Hne. destruct bboxes as [|r rs]; [congruence|].
  unfold merge_bboxes_to_one. simpl.
  rewrite cover_x0, cover_y0, cover_x1, cover_y1.
  repeat (split; [reflexivity|]). split.
  - intros b Hb. now apply (inside_bounding_box (r :: rs)).
  - intros B HB. apply cover_least.
    + apply HB. now left.
    + intros x Hx. apply HB. now right.
Qed.

Lemma merge_bboxes_to_one_extremes_witness :
  py_min (map x0 three_in_a_row) = Some (x0 (merge_bboxes_to_one three_in_a_row)).
Proof.
  apply (proj1 (merge_bboxes_to_one_extremes three_in_a_row ltac:(discriminate))).
Defined.

(** ** What the three strategies let through *)

Section Raw.
Variables min_image_size min_bbox_area max_aspect_ratio : Z.

#[local] Abbreviation keep := (keep_bbox min_bbox_area max_aspect_ratio).

Lemma keep_bbox_true b :
  keep b = true <->
  min_bbox_area <= (x1 b - x0 b) * (y1 b - y0 b)
  /\ Z.max (x1 b - x0 b) (y1 b - y0 b)
     <= max_aspect_ratio * Z.max (Z.min (x1 b - x0 b) (y1 b - y0 b)) 1.
Proof.
  unfold keep_bbox. cbv zeta.
  destruct (_ <? min_bbox_area) eqn:E1; [split; [discriminate | lia]|].
  destruct (_ >? _) eqn:E2; [split; [discriminate | lia]|].
  split; [lia | reflexivity].
Qed.

Lemma raw_images_spec n imgs : forall idx f,
  In f (raw_images min_image_size min_bbox_area max_aspect_ratio n idx imgs) ->
  (idx <= fig_index f)%nat
  /\ exists img_info,
       nth_error imgs (fig_index f - idx) = Some img_info
       /\ base_image img_info = Some (fig_data f, fig_ext f)
       /\ min_image_size <= len (fig_data f)
       /\ fig_page f = n /\ fig_method f = raw_filtered_method
       /\ match image_rects img_info with
          | Some [] => fig_bbox f = None
          | Some (r :: _) => fig_bbox f = Some (rect_tuple r) /\ keep r = true
          | None => False
          end.
Proof.
  induction imgs as [|i imgs IH]; intros idx f Hin; simpl in Hin; [contradiction|].
  apply in_app_or in Hin. destruct Hin as [Hin | Hin].
  - unfold raw_image in Hin.
    destruct (base_image i) as [[b e]|] eqn:Hb; [|contradiction].
    destruct (len b <? min_image_size) eqn:Hlen; [contradiction|].
    destruct (image_rects i) as [[|r rs]|] eqn:Hr; [| |contradiction].
    + destruct Hin as [<- | []]. cbn. split; [lia|]. exists i.
      rewrite Nat.sub_diag, Hr. repeat split; auto. lia.
    + destruct (keep r) eqn:Hk; [|contradiction].
      destruct Hin as [<- | []]. cbn. split; [lia|]. exists i.
      rewrite Nat.sub_diag, Hr. repeat split; auto. lia.
  - destruct (IH _ _ Hin) as (Hle & i' & Hnth & Hrest). split; [lia|].
    exists i'. split; [|exact Hrest].
    replace (fig_index f - idx)%nat with (S (fig_index f - S idx)) by lia. exact Hnth.
Qed.

(** X7: every figure returned by [_extract_raw_images] carries the bytes
    and the extension of the embedded image found at position [index] of
    the page's image list, and these bytes number at least
    [min_image_size].  The area and aspect-ratio filters are applied to the
    first rectangle of the image; an image that is placed nowhere on the
    page (no rectangle) is let through without them, with no [bbox]. *)
Theorem raw_figures_filtered (page : Page) (page_num : Z) (f : Figure) :
  In f (extract_raw_images min_image_size min_bbox_area max_aspect_ratio page page_num) ->
  exists img_info,
    nth_error (image_list page) (fig_index f) = Some img_info
    /\ base_image img_info = Some (fig_data f, fig_ext f)
    /\ min_image_size <= len (fig_data f)
    /\ fig_page f = page_num /\ fig_method f = raw_filtered_method
    /\ match image_rects img_info with
       | Some [] => fig_bbox f = None
       | Some (r :: _) =>
           fig_bbox f = Some (rect_tuple r)
           /\ min_bbox_area <= (x1 r - x0 r) * (y1 r - y0 r)
           /\ Z.max (x1 r - x0 r) (y1 r - y0 r)
              <= max_aspect_ratio * Z.max (Z.min (x1 r - x0 r) (y1 r - y0 r)) 1
       | None => False
       end.
Proof.
  unfold extract_raw_images. intros Hin. apply raw_images_spec in Hin.
  destruct Hin as (_ & i & Hnth & Hb & Hlen & Hp & Hm & Hr).
  rewrite Nat.sub_0_r in Hnth. exists i. repeat (split; [assumption|]).
  destruct (image_rects i) as [[|r rs]|]; [assumption| |assumption].
  destruct Hr as [Hbox Hk]. apply keep_bbox_true in Hk. tauto.
Qed.

End Raw.

Section Strategies.
Variable get_pixmap : Page -> Rect -> option (list Byte.byte).
Variables min_image_size min_bbox_area max_aspect_ratio : Z.

Lemma crop_regions_spec page n bboxes : forall idx f,
  In f (crop_regions get_pixmap min_image_size page n idx bboxes) ->
  (idx <= fig_index f)%nat
  /\ exists b,
       nth_error bboxes (fig_index f - idx) = Some b
       /\ f = mkFigure n (fig_index f) (fig_data f) "png"%string (xywh b) region_crop_method
       /\ min_image_size <= len (fig_data f)
       /\ get_pixmap page
            (mkRect (Z.max 0 (x0 b - 5)) (Z.max 0 (y0 b - 5))
                    (Z.min (rect_width page) (x1 b + 5))
                    (Z.min (rect_height page) (y1 b + 5)))
          = Some (fig_data f).
Proof.
  induction bboxes as [|b bboxes IH]; intros idx f Hin; simpl in Hin; [contradiction|].
  apply in_app_or in Hin. destruct Hin as [Hin | Hin].
  - unfold crop_region in Hin. cbv zeta in Hin.
    destruct (get_pixmap _ _) as [img_bytes|] eqn:Hpix; [|contradiction].
    destruct (len img_bytes <? min_image_size) eqn:Hlen; [contradiction|].
    destruct Hin as [<- | []]. cbn [fig_index fig_data]. split; [lia|].
    exists b. rewrite Nat.sub_diag. repeat split; auto. lia.
  - destruct (IH _ _ Hin) as (Hle & b' & Hnth & Hrest). split; [lia|].
    exists b'. split; [|exact Hrest].
    replace (fig_index f - idx)%nat with (S (fig_index f - S idx)) by lia. exact Hnth.
Qed.

Lemma crop_regions_indices page n bboxes : forall idx,
  StronglySorted Nat.lt
    (map fig_index (crop_regions get_pixmap min_image_size page n idx bboxes)).
Proof.
  induction bboxes as [|b bboxes IH]; intros idx; simpl; [constructor|].
  rewrite map_app. apply StronglySorted_app; [| apply IH |].
  - unfold crop_region. cbv zeta. destruct (get_pixmap _ _); [|constructor].
    destruct (_ <? _); repeat constructor.
  - intros i j Hi Hj. apply in_map_iff in Hj. destruct Hj as (f & <- & Hf).
    apply crop_regions_spec in Hf. destruct Hf as [Hle _].
    unfold crop_region in Hi. cbv zeta in Hi. destruct (get_pixmap _ _); [|contradiction].
    destruct (_ <? _); [contradiction|]. destruct Hi as [<- | []]. simpl. unfold Nat.lt. lia.
Qed.

(** X6: every figure returned by [_extract_by_region_crop] is a PNG crop
    of one of the merged regions of the page (threshold 80), widened by a
    margin of 5 and clipped to the page; the region passed the area and
    aspect-ratio filters, the crop has at least [min_image_size] bytes,
    and the figures come with strictly increasing [index]. *)
Theorem region_crop_figures_filtered (page : Page) (page_num : Z) :
  (forall f,
      In f (extract_by_region_crop get_pixmap min_image_size min_bbox_area
                                   max_aspect_ratio page page_num) ->
      exists b,
        In b (merge_nearby_bboxes (image_bboxes page) 80)
        /\ f = mkFigure page_num (fig_index f) (fig_data f) "png"%string (xywh b)
                        region_crop_method
        /\ min_bbox_area <= (x1 b - x0 b) * (y1 b - y0 b)
        /\ Z.max (x1 b - x0 b) (y1 b - y0 b)
           <= max_aspect_ratio * Z.max (Z.min (x1 b - x0 b) (y1 b - y0 b)) 1
        /\ min_image_size <= len (fig_data f)
        /\ get_pixmap page
             (mkRect (Z.max 0 (x0 b - 5)) (Z.max 0 (y0 b - 5))
                     (Z.min (rect_width page) (x1 b + 5))
                     (Z.min (rect_height page) (y1 b + 5)))
           = Some (fig_data f))
  /\ StronglySorted Nat.lt
       (map fig_index
            (extract_by_region_crop get_pixmap min_image_size min_bbox_area
                                    max_aspect_ratio page page_num)).
Proof.
  unfold extract_by_region_crop.
  destruct (image_bboxes page) as [|b0 bs] eqn:E; [split; [contradiction | constructor]|].
  split; [|apply crop_regions_indices].
  intros f Hin. apply crop_regions_spec in Hin.
  destruct Hin as (_ & b & Hnth & Hf & Hlen & Hpix).
  apply nth_error_In, filter_In in Hnth. destruct Hnth as [Hb Hkeep].
  apply keep_bbox_true in Hkeep. destruct Hkeep as [Ha Hr].
  exists b. repeat split; assumption.
Qed.

Lemma image_bboxes_nil page :
  image_bboxes page = [] ->
  Forall (fun img_info => image_rects img_info = None \/ image_rects img_info = Some [])
         (image_list page).
Proof.
  unfold image_bboxes. induction (image_list page) as [|i l IH]; simpl; intros E;
    [constructor|].
  apply app_eq_nil in E. destruct E as [E1 E2]. constructor; [|now apply IH].
  destruct (image_rects i) as [rs|]; [right; now subst | now left].
Qed.

(** X8: a page none of whose embedded images is placed anywhere (no image
    rectangle at all) yields no figure under the strategies "region_crop",
    "merge_images" and "hybrid". *)
Theorem no_rectangles_no_figures (mode : Mode) (page : Page) (page_num : Z) :
  image_bboxes page = [] -> mode <> extract_raw ->
  page_figures get_pixmap min_image_size min_bbox_area max_aspect_ratio mode page page_num
  = [].
Proof.
  intros E Hmode.
  assert (Hcrop : extract_by_region_crop get_pixmap min_image_size min_bbox_area
                    max_aspect_ratio page page_num = []).
  { unfold extract_by_region_crop. now rewrite E. }
  assert (Hmerge : extract_by_merging get_pixmap min_image_size page page_num = []).
  { unfold extract_by_merging.
    replace (collect_image_data page) with (@nil ImageData); [reflexivity|].
    symmetry. unfold collect_image_data. apply image_bboxes_nil in E.
    induction E as [|i l Hi _ IH]; [reflexivity|]. simpl. rewrite IH, app_nil_r.
    destruct (base_image i) as [[b e]|]; [|reflexivity].
    destruct Hi as [-> | ->]; reflexivity. }
  destruct mode; simpl; try assumption; [|congruence].
  now rewrite Hcrop.
Qed.

Lemma collect_image_data_spec page d :
  In d (collect_image_data page) ->
  exists img_info rs,
    In img_info (image_list page)
    /\ base_image img_info = Some (bytes d, ext d)
    /\ image_rects img_info = Some (bbox d :: rs)
    /\ 5000 < len (bytes d).
Proof.
  unfold collect_image_data. intros Hin. apply in_flat_map in Hin.
  destruct Hin as (i & Hi & Hin).
  destruct (base_image i) as [[b e]|] eqn:Hb; [|contradiction].
  destruct (image_rects i) as [[|r rs]|] eqn:Hr; try contradiction.
  destruct (len b >? 5000) eqn:Hlen; [|contradiction].
  destruct Hin as [<- | []]. exists i, rs. cbn. repeat split; auto. lia.
Qed.

Lemma merge_groups_spec page n groups : forall idx f,
  In f (merge_groups get_pixmap min_image_size page n idx groups) ->
  min_image_size <= len (fig_data f)
  /\ exists group, In group groups
       /\ ((exists img_data, group = [img_data]
             /\ f = mkFigure n (fig_index f) (bytes img_data) (ext img_data)
                             (Some (rect_tuple (bbox img_data))) single_image_method)
           \/ (length group <> 1%nat
               /\ f = mkFigure n (fig_index f) (fig_data f) "png"%string
                               (Some (rect_tuple (merge_bboxes_to_one (map bbox group))))
                               merged_region_method
               /\ get_pixmap page (merge_bboxes_to_one (map bbox group))
                  = Some (fig_data f))).
Proof.
  induction groups as [|g groups IH]; intros idx f Hin; simpl in Hin; [contradiction|].
  apply in_app_or in Hin. destruct Hin as [Hin | Hin].
  - assert (Hmulti : length g <> 1%nat ->
              In f match get_pixmap page (merge_bboxes_to_one (map bbox g)) with
                   | Some img_bytes =>
                       if len img_bytes >=? min_image_size
                       then [mkFigure n idx img_bytes "png"%string
                               (Some (rect_tuple (merge_bboxes_to_one (map bbox g))))
                               merged_region_method]
                       else []
                   | None => []
                   end ->
              min_image_size <= len (fig_data f)
              /\ exists group, In group (g :: groups)
                   /\ ((exists img_data, group = [img_data]
                         /\ f = mkFigure n (fig_index f) (bytes img_data) (ext img_data)
                                 (Some (rect_tuple (bbox img_data))) single_image_method)
                       \/ (length group <> 1%nat
                           /\ f = mkFigure n (fig_index f) (fig_data f) "png"%string
                                   (Some (rect_tuple (merge_bboxes_to_one (map bbox group))))
                                   merged_region_method
                           /\ get_pixmap page (merge_bboxes_to_one (map bbox group))
                              = Some (fig_data f)))).
    { intros Hlen H. destruct (get_pixmap _ _) as [img_bytes|] eqn:Hpix; [|contradiction].
      destruct (len img_bytes >=? min_image_size) eqn:Hsz; [|contradiction].
      destruct H as [<- | []]. cbn. split; [lia|]. exists g. split; [now left|].
      right. repeat split; auto. }
    unfold merge_group in Hin. destruct g as [|d [|d' g]].
    + apply Hmulti; [discriminate | exact Hin].
    + destruct (len (bytes d) >=? min_image_size) eqn:Hsz; [|contradiction].
      destruct Hin as [<- | []]. cbn. split; [lia|]. exists [d]. split; [now left|].
      left. exists d. split; reflexivity.
    + apply Hmulti; [discriminate | exact Hin].
  - destruct (IH _ _ Hin) as (Hlen & group & Hg & Hcase). split; [assumption|].
    exists group. split; [now right | assumption].
Qed.

(** X9: every figure returned by [_extract_by_merging] has at least
    [min_image_size] bytes.  It is either the untouched bytes of one
    embedded image of more than 5000 bytes that forms a group of its own,
    with the image's first rectangle as [bbox], or a PNG rendering of the
    rectangle around a group of several images. *)
Theorem merging_figures_filtered (page : Page) (page_num : Z) (f : Figure) :
  In f (extract_by_merging get_pixmap min_image_size page page_num) ->
  min_image_size <= len (fig_data f)
  /\ fig_page f = page_num
  /\ ((fig_method f = single_image_method
       /\ 5000 < len (fig_data f)
       /\ exists img_info r rs,
            In img_info (image_list page)
            /\ base_image img_info = Some (fig_data f, fig_ext f)
            /\ image_rects img_info = Some (r :: rs)
            /\ fig_bbox f = Some (rect_tuple r))
      \/ (fig_method f = merged_region_method
          /\ fig_ext f = "png"%string
          /\ exists group,
               In group (group_nearby_images (collect_image_data page))
               /\ (2 <= length group)%nat
               /\ fig_bbox f = Some (rect_tuple (merge_bboxes_to_one (map bbox group)))
               /\ get_pixmap page (merge_bboxes_to_one (map bbox group))
                  = Some (fig_data f))).
Proof.
  unfold extract_by_merging. intros Hin.
  split; [now destruct (merge_groups_spec _ _ _ _ _ Hin)|].
  split; [now apply (merge_groups_page get_pixmap min_image_size) in Hin|].
  destruct (merge_groups_spec _ _ _ _ _ Hin) as (_ & group & Hg & Hcase).
  destruct (groups_hold (collect_image_data page)) as (Hperm & Hne).
  destruct Hcase as [(d & -> & Hf) | (Hlen & Hf & Hpix)].
  - left. assert (Hd : In d (collect_image_data page)).
    { apply (Permutation_in _ Hperm). apply in_concat. exists [d]. split; [assumption|].
      now left. }
    destruct (collect_image_data_spec _ _ Hd) as (i & rs & Hi & Hb & Hr & Hsz).
    rewrite Hf. cbn. split; [reflexivity|]. split; [assumption|].
    exists i, (bbox d), rs. auto.
  - right. rewrite Hf. cbn. split; [reflexivity|]. split; [reflexivity|].
    exists group. repeat split; auto.
    rewrite Forall_forall in Hne. specialize (Hne _ Hg).
    destruct group as [|a [|b g]]; [congruence | simpl in Hlen; congruence | simpl; lia].
Qed.

Lemma parse_figures_range mode doc : forall k f,
  In f (parse_figures get_pixmap min_image_size min_bbox_area max_aspect_ratio mode k doc) ->
  exists i page,
    nth_error doc i = Some page /\ fig_page f = k + 1 + Z.of_nat i
    /\ In f (page_figures get_pixmap min_image_size min_bbox_area max_aspect_ratio mode
                          page (k + 1 + Z.of_nat i)).
Proof.
  induction doc as [|page doc IH]; intros k f Hin; simpl in Hin; [contradiction|].
  apply in_app_or in Hin. destruct Hin as [Hin | Hin].
  - exists 0%nat, page. simpl. rewrite Z.add_0_r. split; [reflexivity|].
    split; [|assumption]. eapply page_figures_page; eassumption.
  - destruct (IH _ _ Hin) as (i & pg & Hnth & Hp & Hf).
    exists (S i), pg. simpl. split; [assumption|].
    replace (k + 1 + Z.pos (Pos.of_succ_nat i)) with (k + 1 + 1 + Z.of_nat i) by lia.
    split; assumption.
Qed.

End Strategies.

Lemma parse_texts_spec doc : forall k p t,
  In (p, t) (parse_texts k doc) <->
  exists i page,
    nth_error doc i = Some page /\ p = k + 1 + Z.of_nat i
    /\ t = page_text page /\ has_text t = true.
Proof.
  induction doc as [|page doc IH]; intros k p t; simpl.
  - split; [contradiction|]. intros (i & pg & Hnth & _). destruct i; discriminate.
  - rewrite in_app_iff, IH. split.
    + intros [Hin | (i & pg & Hnth & Hp & Ht & Hh)].
      * destruct (has_text (page_text page)) eqn:Hh; [|contradiction].
        destruct Hin as [[= <- <-] | []]. exists 0%nat, page. simpl.
        repeat split; auto. lia.
      * exists (S i), pg. simpl. repeat split; auto. lia.
    + intros (i & pg & Hnth & Hp & Ht & Hh). destruct i as [|i]; simpl in Hnth.
      * injection Hnth as ->. left. subst t. rewrite Hh. left. f_equal. lia.
      * right. exists i, pg. repeat split; auto. lia.
Qed.

Lemma parse_texts_sorted doc : forall k,
  Forall (fun p => k < p) (map fst (parse_texts k doc))
  /\ StronglySorted Z.lt (map fst (parse_texts k doc)).
Proof.
  induction doc as [|page doc IH]; intros k; simpl; [split; constructor|].
  destruct (IH (k + 1)) as [Hlow Hs].
  assert (Hlow' : Forall (fun p => k < p) (map fst (parse_texts (k + 1) doc))).
  { eapply Forall_impl; [|exact Hlow]. simpl. intros; lia. }
  destruct (has_text (page_text page)); simpl.
  - split; constructor; try assumption; lia.
  - split; assumption.
Qed.

(** X10: [parse] numbers the pages from 1.  The texts it returns are those
    of the pages that hold something besides white space, each with the
    number of its page and in page order without repetition; every
    figure carries the number of the page it was taken from, and that
    page exists. *)
Theorem parse_page_numbers
    (get_pixmap : Page -> Rect -> option (list Byte.byte))
    (min_image_size min_bbox_area max_aspect_ratio : Z) (mode : Mode) (doc : list Page) :
  StronglySorted Z.lt (map fst (parse_texts 0 doc))
  /\ (forall p t,
        In (p, t) (parse_texts 0 doc) <->
        1 <= p
        /\ (exists page, nth_error doc (Z.to_nat (p - 1)) = Some page /\ t = page_text page)
        /\ exists c, In c t /\ Refs.is_space c = false)
  /\ (forall f,
        In f (parse_figures get_pixmap min_image_size min_bbox_area max_aspect_ratio
                            mode 0 doc) ->
        1 <= fig_page f <= Z.of_nat (length doc)
        /\ exists page,
             nth_error doc (Z.to_nat (fig_page f - 1)) = Some page
             /\ In f (page_figures get_pixmap min_image_size min_bbox_area
                                   max_aspect_ratio mode page (fig_page f))).
Proof.
  split; [apply parse_texts_sorted|]. split.
  - intros p t. rewrite parse_texts_spec. unfold has_text. split.
    + intros (i & pg & Hnth & -> & -> & Hex). apply existsb_exists in Hex.
      destruct Hex as (c & Hc & Hs). split; [lia|]. split.
      * exists pg. replace (Z.to_nat (0 + 1 + Z.of_nat i - 1)) with i by lia. auto.
      * exists c. split; [assumption|]. now destruct (Refs.is_space c).
    + intros (Hp & (pg & Hnth & ->) & c & Hc & Hs).
      exists (Z.to_nat (p - 1)), pg. repeat split; auto; [lia|].
      apply existsb_exists. exists c. split; [assumption|]. now rewrite Hs.
  - intros f Hin. apply parse_figures_range in Hin.
    destruct Hin as (i & pg & Hnth & Hp & Hf).
    assert (Hi : (i < length doc)%nat) by (apply nth_error_Some; congruence).
    split; [lia|]. exists pg. rewrite Hp.
    replace (Z.to_nat (0 + 1 + Z.of_nat i - 1)) with i by lia. auto.
Qed.

Lemma parse_page_numbers_witness :
  1 <= 1
  /\ (exists page, nth_error [letter_page] (Z.to_nat (1 - 1)) = Some page
                   /\ [65%N] = page_text page)
  /\ exists c, In c [65%N] /\ Refs.is_space c = false.
Proof.
  apply (proj1 (proj2 (parse_page_numbers blank_pixmap 0 0 0 hybrid [letter_page]))).
  simpl. now left.
Defined.

Lemma groups_partition_witness :
  Permutation (concat (group_nearby_images [mkImageData [] "png"%string zero_rect]))
              [mkImageData [] "png"%string zero_rect].
Proof. apply (proj1 (groups_partition [mkImageData [] "png"%string zero_rect])). Defined.

Lemma region_crop_figures_filtered_witness :
  StronglySorted Nat.lt
    (map fig_index (extract_by_region_crop blank_pixmap 20000 5000 8 two_figures_page 1)).
Proof.
  apply (proj2 (region_crop_figures_filtered blank_pixmap 20000 5000 8 two_figures_page 1)).
Defined.

Lemma raw_figures_filtered_witness :
  exists img_info,
    nth_error (image_list unplaced_page) 0 = Some img_info
    /\ base_image img_info = Some (six_thousand, "jpeg"%string)
    /\ 5000 <= len six_thousand
    /\ 1 = 1 /\ raw_filtered_method = raw_filtered_method
    /\ match image_rects img_info with
       | Some [] => @None (Z * Z * Z * Z) = None
       | Some (r :: _) =>
           @None (Z * Z * Z * Z) = Some (rect_tuple r)
           /\ 5000 <= (x1 r - x0 r) * (y1 r - y0 r)
           /\ Z.max (x1 r - x0 r) (y1 r - y0 r)
              <= 8 * Z.max (Z.min (x1 r - x0 r) (y1 r - y0 r)) 1
       | None => False
       end.
Proof.
  apply (raw_figures_filtered 5000 5000 8 unplaced_page 1
           (mkFigure 1 0 six_thousand "jpeg"%string None raw_filtered_method)).
  now left.
Defined.

Lemma no_rectangles_no_figures_witness :
  page_figures blank_pixmap 5000 5000 8 hybrid unplaced_page 1 = [].
Proof.
  apply (no_rectangles_no_figures blank_pixmap 5000 5000 8 hybrid unplaced_page 1).
  - reflexivity.
  - discriminate.
Defined.

Lemma merging_figures_filtered_witness :
  5000 <= len six_thousand.
Proof.
  apply (proj1 (merging_figures_filtered blank_pixmap 5000 placed_page 1
                  (mkFigure 1 0 six_thousand "jpeg"%string
                            (Some (rect_tuple (mkRect 0 0 200 200))) single_image_method)
                  ltac:(now left))).
Defined.

End ExtractionFacts.

(* ================================================================== *)
(** * Further properties of the matcher *)
(* ================================================================== *)

Module LoaderFacts.
Import PyDict Pipeline Matcher Loader MatcherFacts.

(** ** Dictionaries *)




Lemma dict_get_In {V} k (v : V) d : dict_get k d = Some v -> In (k, v) d.
Proof.
  induction d as [|[k' v'] d IH]; simpl; [discriminate|].
  destruct (Z.eqb_spec k k') as [-> | Hne].
  - intros [= <-]. now left.
  - intros H. right. now apply IH.
Qed.


(** ** The first loop: which pages cite which figure *)

Lemma add_reference_get page fp fig k :
  dict_get k (add_reference page fp fig)
  = if k =? fig
    then Some (let pages := match dict_get fig fp with Some ps => ps | None => [] end in
               if mem_Z page pages then pages else pages ++ [page])
    else dict_get k fp.
Proof.
  unfold add_reference. unfold dict_mem.
  destruct (dict_get fig fp) as [ps|] eqn:Hg.
  - rewrite Hg. cbv zeta. destruct (mem_Z page ps) eqn:Hm.
    + destruct (Z.eqb_spec k fig) as [-> | Hne]; [assumption | reflexivity].
    + destruct (Z.eqb_spec k fig) as [-> | Hne];
        [apply dict_get_set_same | now apply dict_get_set_other].
  - rewrite dict_get_set_same. cbn [mem_Z existsb app].
    destruct (Z.eqb_spec k fig) as [-> | Hne].
    + apply dict_get_set_same.
    + now rewrite !dict_get_set_other.
Qed.

Lemma collect_as_fold page_refs : forall fp,
  fold_left (fun figure_pages pr => fold_left (add_reference (fst pr)) (snd pr) figure_pages)
            page_refs fp
  = fold_left (fun figure_pages c => add_reference (fst c) figure_pages (snd c))
              (citations page_refs) fp.
Proof.
  induction page_refs as [|[p refs] prs IH]; intros fp; simpl; [reflexivity|].
  rewrite fold_left_app, IH. f_equal.
  clear. revert fp. induction refs as [|f refs IH]; intros fp; simpl; [reflexivity|].
  apply IH.
Qed.

Lemma citations_fold cs : forall fp seen,
  (forall n, match dict_get n fp with
             | Some ps => NoDup ps /\ forall p, In p ps <-> In (p, n) seen
             | None => forall p, ~ In (p, n) seen
             end) ->
  forall n,
    match dict_get n (fold_left (fun figure_pages c => add_reference (fst c) figure_pages (snd c))
                                cs fp) with
    | Some ps => NoDup ps /\ forall p, In p ps <-> In (p, n) seen \/ In (p, n) cs
    | None => forall p, ~ (In (p, n) seen \/ In (p, n) cs)
    end.
Proof.
  induction cs as [|[page fig] cs IH]; intros fp seen Hinv n; simpl.
  - specialize (Hinv n). destruct (dict_get n fp); [|intros p [H | []]; now apply (Hinv p)].
    destruct Hinv as [Hnd Hin]. split; [assumption|]. intros p. rewrite Hin. tauto.
  - assert (Hstep : forall m,
              match dict_get m (add_reference page fp fig) with
              | Some ps => NoDup ps /\ forall p, In p ps <-> In (p, m) ((page, fig) :: seen)
              | None => forall p, ~ In (p, m) ((page, fig) :: seen)
              end).
    { intros m. rewrite add_reference_get. specialize (Hinv m).
      destruct (Z.eqb_spec m fig) as [-> | Hne].
      - cbv zeta. destruct (dict_get fig fp) as [ps|].
        + destruct Hinv as [Hnd Hin]. destruct (mem_Z page ps) eqn:Hm.
          * split; [assumption|]. intros p. rewrite Hin. simpl. split; [tauto|].
            intros [[= <-] | H]; [|assumption]. apply Hin. now apply mem_Z_In.
          * assert (Hnot : ~ In page ps).
            { intros H. apply mem_Z_In in H. congruence. }
            split.
            -- apply NoDup_app; [assumption | repeat constructor; auto |].
               intros x Hx [<- | []]. contradiction.
            -- intros p. rewrite in_app_iff, Hin. simpl. split.
               ++ intros [H | [<- | []]]; auto.
               ++ intros [[= <-] | H]; auto.
        + cbn [mem_Z existsb app]. split; [repeat constructor; auto|].
          intros p. simpl. split.
          * intros [<- | []]. now left.
          * intros [[= <-] | H]; [now left | now apply Hinv in H].
      - destruct (dict_get m fp) as [ps|].
        + destruct Hinv as [Hnd Hin]. split; [assumption|]. intros p. rewrite Hin. simpl.
          split; [tauto|]. intros [[= _ E] | H]; [congruence | assumption].
        + intros p [[= _ E] | H]; [congruence | now apply (Hinv p)]. }
    specialize (IH _ _ Hstep n). cbv beta in IH.
    destruct (dict_get n _) as [ps|].
    + destruct IH as [Hnd Hin]. split; [assumption|]. intros p. rewrite Hin. simpl. tauto.
    + intros p H. apply (IH p). simpl in *. tauto.
Qed.

Lemma in_citations page_refs p n :
  In (p, n) (citations page_refs) <-> exists refs, In (p, refs) page_refs /\ In n refs.
Proof.
  unfold citations. rewrite in_flat_map. split.
  - intros ([p' refs] & Hpr & Hin). apply in_map_iff in Hin.
    destruct Hin as (f & [= <- <-] & Hf). eauto.
  - intros (refs & Hpr & Hn). exists (p, refs). split; [assumption|].
    apply in_map_iff. eauto.
Qed.

Lemma figure_pages_spec page_refs n :
  match dict_get n (collect_figure_pages page_refs) with
  | Some ps => NoDup ps /\ forall p, In p ps <-> In (p, n) (citations page_refs)
  | None => forall p, ~ In (p, n) (citations page_refs)
  end.
Proof.
  unfold collect_figure_pages. rewrite collect_as_fold.
  pose proof (citations_fold (citations page_refs) [] [] (fun _ p H => H) n) as Hf.
  cbv beta in Hf. destruct (dict_get n _) as [ps|].
  - destruct Hf as [Hnd Hin]. split; [assumption|]. intros p. rewrite Hin. simpl. tauto.
  - intros p Hp. apply (Hf p). now right.
Qed.

(** X11: the first loop of [_match_figures_intelligently] records, for
    every figure number, exactly the pages whose text cites it, each page
    once; the figure numbers recorded are exactly the cited ones. *)
Theorem figure_pages_collected (page_refs : list (Z * list Z)) :
  (forall n, In n (keys (collect_figure_pages page_refs))
             <-> exists p refs, In (p, refs) page_refs /\ In n refs)
  /\ (forall n pages,
        dict_get n (collect_figure_pages page_refs) = Some pages ->
        NoDup pages
        /\ forall p, In p pages <-> exists refs, In (p, refs) page_refs /\ In n refs).
Proof.
  pose proof (figure_pages_spec page_refs) as H.
  destruct (collect_figure_pages_ok page_refs) as [Hwf _].
  split.
  - intros n. specialize (H n). rewrite <- dict_mem_keys. unfold dict_mem.
    destruct (dict_get n _) as [ps|] eqn:Hg.
    + destruct H as [_ Hin]. split; [|reflexivity]. intros _.
      destruct ps as [|p ps]; [now apply Hwf in Hg|].
      exists p. apply in_citations, Hin. now left.
    + split; [discriminate|]. intros (p & refs & Hpr & Hn). exfalso.
      apply (H p), in_citations. eauto.
  - intros n pages Hg. specialize (H n). rewrite Hg in H. destruct H as [Hnd Hin].
    split; [assumption|]. intros p. now rewrite Hin, in_citations.
Qed.

Lemma figure_pages_collected_witness :
  NoDup [8; 9] /\ forall p, In p [8; 9] <-> exists refs, In (p, refs) scenario_citations /\ In 2 refs.
Proof.
  apply (proj2 (figure_pages_collected scenario_citations) 2 [8; 9]). reflexivity.
Defined.

(** ** Sorting *)









(** ** The shape of the map after the two passes *)













(** ** Which images end up bound *)











(** ** The statistics *)



(** ** The references of the texts *)








End LoaderFacts.

(* ================================================================== *)
(** * Properties of the analyzer and of the automatic split *)
(* ================================================================== *)

Module AnalyzerFacts.
Import PyDict Matcher Split Analyzer MatcherFacts SplitFacts.

(** The state component agrees with the model of the effect used for the
    transitions of [split_attempted]. *)
Lemma ensure_state sp n st :
  snd (Analyzer.ensure_subfigures_split sp n st) = Split.ensure_subfigures_split sp n st.
Proof.
  destruct st as [fm calls]. unfold Analyzer.ensure_subfigures_split,
    Split.ensure_subfigures_split, try_split.
  destruct (dict_get n fm) as [[r|]|]; try reflexivity.
  destruct (negb (is_empty (subfigures r))) eqn:Hs; [reflexivity|].
  destruct (negb (split_attempted r)); [|reflexivity].
  destruct (negb (is_available sp)); [reflexivity|].
  destruct (split sp calls (rec_path r) n true) as [subfigs|]; [|reflexivity].
  cbn [orb]. destruct (negb (is_empty subfigs)); reflexivity.
Qed.

(** X16: [ensure_subfigures_split] raises [ValueError] exactly for a figure
    number that is not in the figure map, and [TypeError] exactly for a
    cited figure that has no image.  Otherwise it returns the sub-figure
    dictionary that the record holds after the call, and by then the
    record holds sub-figures or is marked [split_attempted]; a second call
    returns the same dictionary, calls the splitter no more and changes
    nothing. *)
Theorem ensure_returns_stored (sp : Splitter) (fig_num : Z) (st : State) :
  (fst (Analyzer.ensure_subfigures_split sp fig_num st) = ValueError
   <-> dict_get fig_num (fst st) = None)
  /\ (fst (Analyzer.ensure_subfigures_split sp fig_num st) = TypeError
      <-> dict_get fig_num (fst st) = Some None)
  /\ (forall subfigs,
        fst (Analyzer.ensure_subfigures_split sp fig_num st) = Ok subfigs ->
        (exists r,
            dict_get fig_num (fst (snd (Analyzer.ensure_subfigures_split sp fig_num st)))
            = Some (Some r)
            /\ subfigures r = subfigs
            /\ (subfigs <> [] \/ split_attempted r = true))
        /\ Analyzer.ensure_subfigures_split sp fig_num
             (snd (Analyzer.ensure_subfigures_split sp fig_num st))
           = (Ok subfigs, snd (Analyzer.ensure_subfigures_split sp fig_num st))).
Proof.
  destruct st as [fm calls]. cbn [fst].
  destruct (Analyzer.ensure_subfigures_split sp fig_num (fm, calls)) as [res st'] eqn:E.
  cbn [fst snd]. unfold Analyzer.ensure_subfigures_split in E.
  destruct (dict_get fig_num fm) as [[r|]|] eqn:Hg.
  2:{ injection E as <- <-. split; [split; discriminate|].
      split; [split; reflexivity|]. discriminate. }
  2:{ injection E as <- <-. split; [split; reflexivity|].
      split; [split; discriminate|]. discriminate. }
  assert (Hflag : forall r' calls',
            Analyzer.ensure_subfigures_split sp fig_num
              (dict_set fig_num (Some (set_attempted r')) fm, calls')
            = (Ok (subfigures r'),
               (dict_set fig_num (Some (set_attempted r')) fm, calls'))).
  { intros r' calls'. unfold Analyzer.ensure_subfigures_split. rewrite dict_get_set_same.
    cbn [set_attempted subfigures split_attempted negb].
    destruct (negb (is_empty (subfigures r'))); reflexivity. }
  assert (Hok : forall subfigs0 r' calls',
            (res, st') = (Ok subfigs0, (dict_set fig_num (Some (set_attempted r')) fm, calls')) ->
            subfigures r' = subfigs0 ->
            (res = ValueError <-> Some (Some r) = None)
            /\ (res = TypeError <-> Some (Some r) = Some None)
            /\ (forall subfigs,
                  res = Ok subfigs ->
                  (exists r0,
                      dict_get fig_num (fst st') = Some (Some r0)
                      /\ subfigures r0 = subfigs
                      /\ (subfigs <> [] \/ split_attempted r0 = true))
                  /\ Analyzer.ensure_subfigures_split sp fig_num st' = (Ok subfigs, st'))).
  { intros subfigs0 r' calls' [= -> ->] Hs.
    split; [split; discriminate|]. split; [split; discriminate|].
    intros subfigs [= <-]. cbn [fst]. split.
    - exists (set_attempted r'). rewrite dict_get_set_same. auto.
    - rewrite Hflag. now rewrite Hs. }
  assert (Hsame : (res, st') = (Ok (subfigures r), (fm, calls)) ->
            (subfigures r <> [] \/ split_attempted r = true) ->
            (res = ValueError <-> Some (Some r) = None)
            /\ (res = TypeError <-> Some (Some r) = Some None)
            /\ (forall subfigs,
                  res = Ok subfigs ->
                  (exists r0,
                      dict_get fig_num (fst st') = Some (Some r0)
                      /\ subfigures r0 = subfigs
                      /\ (subfigs <> [] \/ split_attempted r0 = true))
                  /\ Analyzer.ensure_subfigures_split sp fig_num st' = (Ok subfigs, st'))).
  { intros [= -> ->] Hor.
    split; [split; discriminate|]. split; [split; discriminate|].
    intros subfigs [= <-]. cbn [fst]. split.
    - exists r. auto.
    - unfold Analyzer.ensure_subfigures_split. rewrite Hg.
      destruct (negb (is_empty (subfigures r))) eqn:Hsub; [reflexivity|].
      destruct Hor as [Hne | Hatt].
      + destruct (subfigures r); [congruence | discriminate].
      + now rewrite Hatt. }
  destruct (negb (is_empty (subfigures r))) eqn:Hsub.
  { apply Hsame; [now symmetry|]. left. destruct (subfigures r); [discriminate | congruence]. }
  assert (Hnil : subfigures r = []).
  { destruct (subfigures r); [reflexivity | discriminate]. }
  destruct (negb (split_attempted r)) eqn:Hatt.
  2:{ apply Hsame; [now symmetry|]. right. now destruct (split_attempted r). }
  destruct (negb (is_available sp)).
  { apply (Hok [] r calls); [now symmetry | assumption]. }
  destruct (split sp calls (rec_path r) fig_num true) as [subfigs0|].
  - destruct (negb (is_empty subfigs0)) eqn:Hres.
    + apply (Hok subfigs0 (set_subfigures subfigs0 r) (fig_num :: calls));
        [now symmetry | reflexivity].
    + apply (Hok [] r (fig_num :: calls)); [now symmetry | assumption].
  - apply (Hok [] r (fig_num :: calls)); [now symmetry | assumption].
Qed.

Lemma ensure_returns_stored_witness :
  fst (Analyzer.ensure_subfigures_split some_splitter 2 (one_matched, [])) = TypeError.
Proof.
  apply (proj1 (proj2 (ensure_returns_stored some_splitter 2 (one_matched, [])))).
  reflexivity.
Defined.

(** ** The automatic split *)

Lemma try_split_shape sp un ae n r fm calls :
  exists r',
    try_split sp un ae n r (fm, calls) = (dict_set n (Some r') fm, n :: calls).
Proof.
  unfold try_split. destruct (split sp calls (rec_path r) n un); eauto.
Qed.

Lemma auto_split_item_shape sp fm calls item :
  (auto_split_item sp (fm, calls) item = (fm, calls))
  \/ exists r', In (fst item) (keys fm)
       /\ auto_split_item sp (fm, calls) item
          = (dict_set (fst item) (Some r') fm, fst item :: calls).
Proof.
  unfold auto_split_item. cbn [fst].
  destruct (dict_get (fst item) fm) as [[r|]|] eqn:Hg; auto.
  destruct (split_attempted r); auto.
  right. destruct (try_split_shape sp true false (fst item) r fm calls) as (r' & E).
  exists r'. split; [|assumption]. apply dict_mem_keys. unfold dict_mem. now rewrite Hg.
Qed.

Lemma auto_split_fold_shape sp items : forall fm calls,
  keys (fst (fold_left (auto_split_item sp) items (fm, calls))) = keys fm
  /\ (forall k, ~ In k (map fst items) ->
        dict_get k (fst (fold_left (auto_split_item sp) items (fm, calls))) = dict_get k fm)
  /\ exists new,
       snd (fold_left (auto_split_item sp) items (fm, calls)) = new ++ calls
       /\ (length new <= length items)%nat
       /\ forall k, In k new -> In k (map fst items).
Proof.
  induction items as [|item items IH]; intros fm calls; cbn [fold_left].
  - split; [reflexivity|]. split; [reflexivity|]. exists []. simpl. auto.
  - destruct (auto_split_item_shape sp fm calls item) as [E | (r' & Hin & E)]; rewrite E.
    + destruct (IH fm calls) as (H1 & H2 & new & H3 & H4 & H5).
      split; [assumption|]. split; [intros k Hk; apply H2; simpl in Hk; tauto|].
      exists new. simpl. repeat split; auto.
    + destruct (IH (dict_set (fst item) (Some r') fm) (fst item :: calls))
        as (H1 & H2 & new & H3 & H4 & H5).
      split; [etransitivity; [exact H1 | now apply keys_set_in]|]. split.
      * intros k Hk. etransitivity; [apply H2; simpl in Hk; tauto|].
        apply dict_get_set_other. simpl in Hk. intros ->. tauto.
      * exists (new ++ [fst item]). rewrite <- app_assoc. split; [exact H3|].
        rewrite length_app. simpl. split; [lia|].
        intros k Hk. apply in_app_or in Hk. destruct Hk as [Hk | [<- | []]]; simpl; auto.
Qed.

(** X17: [auto_split_all_figures] looks at the first five entries of the
    figure map only: it calls the splitter at most five times, and only
    for figure numbers among these entries; every other entry is left as
    it was, and no entry is added or removed. *)
Theorem auto_split_first_five (sp : Splitter) (st : State) :
  keys (fst (auto_split_all_figures sp st)) = keys (fst st)
  /\ (forall k, ~ In k (keys (firstn 5 (fst st))) ->
        dict_get k (fst (auto_split_all_figures sp st)) = dict_get k (fst st))
  /\ exists new,
       snd (auto_split_all_figures sp st) = new ++ snd st
       /\ (length new <= 5)%nat
       /\ forall k, In k new -> In k (keys (firstn 5 (fst st))).
Proof.
  unfold auto_split_all_figures. destruct (negb (is_available sp)).
  - split; [reflexivity|]. split; [reflexivity|]. exists []. simpl.
    split; [reflexivity|]. split; [lia | contradiction].
  - destruct st as [fm calls]. cbn [fst snd].
    destruct (auto_split_fold_shape sp (firstn 5 fm) fm calls) as (H1 & H2 & new & H3 & H4 & H5).
    split; [assumption|]. split; [assumption|].
    exists new. split; [assumption|]. split; [|assumption].
    etransitivity; [exact H4|]. apply firstn_le_length.
Qed.

End AnalyzerFacts.

(* ================================================================== *)
(** * Properties of the sub-figure splitter *)
(* ================================================================== *)

Module SubfigureSplitterFacts.
Import PyDict Pipeline Matcher Split SubfigureSplitter MatcherFacts SplitFacts.

Lemma str_get_None k d : str_get k d = None <-> ~ In k (map fst d).
Proof.
  induction d as [|[k' v] d IH]; simpl; [tauto|].
  destruct (String.eqb_spec k k') as [-> | Hne].
  - split; [discriminate | intros H; exfalso; auto].
  - rewrite IH. split; [intros H [E | Hin]; [congruence | contradiction] | tauto].
Qed.

Lemma str_set_new k v d : ~ In k (map fst d) -> str_set k v d = d ++ [(k, v)].
Proof.
  induction d as [|[k' v'] d IH]; simpl; intros Hk; [reflexivity|].
  destruct (String.eqb_spec k k') as [-> | Hne]; [exfalso; auto|].
  rewrite IH; auto.
Qed.

Lemma nth_not_in_firstn {A} (l : list A) d idx :
  NoDup l -> (idx < length l)%nat -> ~ In (nth idx l d) (firstn idx l).
Proof.
  revert idx. induction l as [|a l IH]; intros idx Hnd Hlt; [simpl in Hlt; lia|].
  inversion Hnd as [|? ? Ha Hl]; subst. destruct idx as [|idx]; simpl; [tauto|].
  intros [E | Hin].
  - apply Ha. rewrite E. apply nth_In. simpl in Hlt. lia.
  - apply (IH idx); [assumption | simpl in Hlt; lia | assumption].
Qed.

Lemma firstn_S_nth {A} (l : list A) d idx :
  (idx < length l)%nat -> firstn (S idx) l = firstn idx l ++ [nth idx l d].
Proof.
  revert idx. induction l as [|a l IH]; intros idx Hlt; [simpl in Hlt; lia|].
  destruct idx as [|idx]; [reflexivity|]. simpl in Hlt.
  change (firstn (S (S idx)) (a :: l)) with (a :: firstn (S idx) l).
  rewrite (IH idx) by lia. reflexivity.
Qed.

Lemma skipn_nth_cons {A} (l : list A) d idx :
  (idx < length l)%nat -> skipn idx l = nth idx l d :: skipn (S idx) l.
Proof.
  revert idx. induction l as [|a l IH]; intros idx Hlt; [simpl in Hlt; lia|].
  destruct idx as [|idx]; [reflexivity|]. simpl in Hlt.
  change (skipn (S idx) (a :: l)) with (skipn idx l).
  change (nth (S idx) (a :: l) d) with (nth idx l d).
  change (skipn (S (S idx)) (a :: l)) with (skipn (S idx) l).
  apply IH. lia.
Qed.

Lemma subseq_nil {A} (l : list A) : subseq [] l.
Proof. induction l; constructor; assumption. Qed.

Lemma subseq_In {A} (l1 l2 : list A) x : subseq l1 l2 -> In x l1 -> In x l2.
Proof.
  induction 1 as [|y l1 l2 _ IH|y l1 l2 _ IH]; intros Hin; [contradiction| |].
  - right. now apply IH.
  - destruct Hin as [<- | Hin]; [now left | right; now apply IH].
Qed.

Lemma subseq_length {A} (l1 l2 : list A) : subseq l1 l2 -> (length l1 <= length l2)%nat.
Proof. induction 1; simpl; lia. Qed.

Lemma subseq_NoDup {A} (l1 l2 : list A) : subseq l1 l2 -> NoDup l2 -> NoDup l1.
Proof.
  induction 1 as [|y l1 l2 Hs IH|y l1 l2 Hs IH]; intros Hnd; [constructor| |].
  - inversion Hnd; auto.
  - inversion Hnd as [|? ? Hy Hl]; subst. constructor; [|auto].
    intros Hin. apply Hy. eapply subseq_In; eassumption.
Qed.

Section Loop.
Variable env : Env.
Variable output_dir : String.string.
Variable figure_num : Z.
Variable separator : String.string.
Variable labels : list String.string.
Variables height width : Z.
Hypothesis labels_NoDup : NoDup labels.

Lemma crop_loop_spec dets : forall idx result res,
  (forall k, In k (map fst result) -> In k (firstn idx labels)) ->
  crop_loop env output_dir figure_num separator labels height width idx dets result
  = Some res ->
  exists added,
    res = result ++ added
    /\ subseq (map fst added) (skipn idx labels)
    /\ Forall (fun e => snd e = figure_path output_dir figure_num separator (fst e)) added.
Proof.
  induction dets as [|d dets IH]; intros idx result res Hkeys Hloop; simpl in Hloop.
  - injection Hloop as <-. exists []. rewrite app_nil_r.
    split; [reflexivity|]. split; [apply subseq_nil | constructor].
  - destruct (Nat.leb_spec (length labels) idx) as [Hge | Hlt].
    + injection Hloop as <-. exists []. rewrite app_nil_r.
      split; [reflexivity|]. split; [apply subseq_nil | constructor].
    + destruct (det_conf d) as [conf|]; [|discriminate].
      assert (Hnext : forall k, In k (firstn idx labels) -> In k (firstn (S idx) labels)).
      { intros k Hk. rewrite (firstn_S_nth _ ""%string) by assumption.
        apply in_or_app. now left. }
      rewrite (skipn_nth_cons _ ""%string idx Hlt).
      destruct (_ || _).
      * destruct (IH (S idx) result res) as (added & E & Hs & Hp); [auto | assumption|].
        exists added. split; [assumption|]. split; [now constructor | assumption].
      * destruct (imwrite_raises env _); [discriminate|].
        assert (Hfresh : ~ In (nth idx labels ""%string) (map fst result)).
        { intros H. apply Hkeys in H. revert H. now apply nth_not_in_firstn. }
        rewrite (str_set_new _ _ _ Hfresh) in Hloop.
        destruct (fun H => IH _ _ _ H Hloop) as (added & E & Hs & Hp).
        { intros k. rewrite map_app, in_app_iff.
          rewrite (firstn_S_nth _ ""%string) by assumption. rewrite in_app_iff.
          cbn [map fst In]. intros [H | H]; auto. }
        exists ((nth idx labels ""%string,
                 figure_path output_dir figure_num separator (nth idx labels ""%string))
                  :: added).
        rewrite E, <- app_assoc. split; [reflexivity|].
        split; [simpl; now constructor | now constructor].
Qed.

End Loop.

Lemma number_labels_NoDup : NoDup number_labels.
Proof. repeat constructor; simpl; intuition discriminate. Qed.

Lemma letter_labels_NoDup : NoDup letter_labels.
Proof. repeat constructor; simpl; intuition discriminate. Qed.

Lemma split_spec (self : SubfigureSplitter) (env : Env)
    (image_path output_dir : String.string) (figure_num : Z)
    (min_confidence : QArith_base.Q) (use_numbers : bool) :
  subseq (map fst (split self env image_path output_dir figure_num min_confidence
                         use_numbers))
         (if use_numbers then number_labels else letter_labels)
  /\ (forall label path,
        In (label, path)
           (split self env image_path output_dir figure_num min_confidence use_numbers) ->
        path = figure_path output_dir figure_num
                 (if use_numbers then "-"%string else ""%string) label).
Proof.
  assert (Hnd : NoDup (if use_numbers then number_labels else letter_labels)).
  { destruct use_numbers; [apply number_labels_NoDup | apply letter_labels_NoDup]. }
  assert (Hnil : subseq (map fst (@nil (String.string * String.string)))
                        (if use_numbers then number_labels else letter_labels)
                 /\ (forall label path, In (label, path) [] ->
                       path = figure_path output_dir figure_num
                                (if use_numbers then "-"%string else ""%string) label)).
  { split; [apply subseq_nil | contradiction]. }
  unfold split, split_simple.
  destruct (negb (enabled self)); [exact Hnil|].
  destruct (negb (has_separator env)); [exact Hnil|].
  destruct (run env) as [|returncode json]; [exact Hnil|].
  destruct (negb (returncode =? 0)); [exact Hnil|].
  destruct json as [detections|]; [|exact Hnil].
  destruct (is_empty detections); [exact Hnil|]. cbv zeta.
  destruct (is_empty (filter _ detections)); [exact Hnil|].
  destruct (imread env) as [[height width]|]; [|exact Hnil].
  destruct (crop_loop _ _ _ _ _ _ _ _ _ _) as [res|] eqn:Hloop; [|exact Hnil].
  apply crop_loop_spec in Hloop; [|assumption|contradiction].
  destruct Hloop as (added & -> & Hs & Hp). simpl. split; [exact Hs|].
  intros label path Hin. rewrite Forall_forall in Hp. now apply (Hp _ Hin).
Qed.

(** X18: whatever figure-separator reports, [split] returns at most ten
    sub-figures.  Their labels are distinct and come in the order of the
    label list ("1" to "10" with [use_numbers], "a" to "j" without), and
    the path stored under a label is [figure_<n>-<label>.png], respectively
    [figure_<n><label>.png], in the output directory.  Without the
    figure-separator files the result is empty. *)
Theorem split_result_shape (self : SubfigureSplitter) (env : Env)
    (image_path output_dir : String.string) (figure_num : Z)
    (min_confidence : QArith_base.Q) (use_numbers : bool) :
  let result :=
    split self env image_path output_dir figure_num min_confidence use_numbers in
  subseq (map fst result) (if use_numbers then number_labels else letter_labels)
  /\ NoDup (map fst result)
  /\ (length result <= 10)%nat
  /\ (forall label path, In (label, path) result ->
        path = figure_path output_dir figure_num
                 (if use_numbers then "-"%string else ""%string) label)
  /\ (has_separator env = false -> result = []).
Proof.
  intros result.
  assert (Hnd : NoDup (if use_numbers then number_labels else letter_labels)).
  { destruct use_numbers; [apply number_labels_NoDup | apply letter_labels_NoDup]. }
  assert (Hlen : length (if use_numbers then number_labels else letter_labels) = 10%nat).
  { now destruct use_numbers. }
  destruct (split_spec self env image_path output_dir figure_num min_confidence
                       use_numbers) as [Hs Hp].
  fold result in Hs, Hp.
  split; [assumption|]. split; [eapply subseq_NoDup; eassumption|].
  split; [rewrite <- (length_map fst), <- Hlen; now apply subseq_length|].
  split; [assumption|].
  intros Hsep. unfold result, split, split_simple. rewrite Hsep.
  simpl. now destruct (negb (enabled self)).
Qed.

Lemma split_result_shape_witness :
  split (init (Some true)) (mkEnv false RunRaised None (fun _ => false))
        "a.png"%string "out"%string 1 default_min_confidence true = [].
Proof.
  apply (proj2 (proj2 (proj2 (proj2
           (split_result_shape (init (Some true))
              (mkEnv false RunRaised None (fun _ => false))
              "a.png"%string "out"%string 1 default_min_confidence true))))).
  reflexivity.
Defined.

(** ** Numbered sub-figures and questions about lettered ones *)

Lemma init_enabled files_found : enabled (init files_found) = true.
Proof. now destruct files_found as [[|]|]. Qed.

Section Labels.
Variable files_found : option bool.
Variable env : list Z -> Path -> Env.
Variable output_dir : String.string.
Variable fig_num : Z.
Variable image_path : Path.

#[local] Abbreviation sp := (as_splitter files_found env output_dir).

(** The record of [fig_num], if any, shows the image [image_path], and its
    sub-figures have numbers for labels. *)
Let numbered_only (fm : FigureMap) : Prop :=
  forall r, dict_get fig_num fm = Some (Some r) ->
    rec_path r = image_path
    /\ forall k, In k (map fst (subfigures r)) -> In k number_labels.

Lemma auto_split_item_numbered st item :
  numbered_only (fst st) -> numbered_only (fst (auto_split_item sp st item)).
Proof.
  destruct st as [fm calls]. unfold auto_split_item. cbn [fst]. intros Hinv.
  destruct (dict_get (fst item) fm) as [[r|]|] eqn:Hg; try assumption.
  destruct (split_attempted r); [assumption|].
  unfold try_split, as_splitter. cbn [Split.split orb].
  set (subfigs := SubfigureSplitter.split _ _ _ _ _ _ _).
  assert (Hsub : forall k, In k (map fst subfigs) -> In k number_labels).
  { intros k Hk. eapply subseq_In; [|exact Hk].
    exact (proj1 (split_spec _ _ _ _ _ _ true)). }
  cbn [fst]. intros r' Hr'.
  destruct (Z.eq_dec fig_num (fst item)) as [E | Hne].
  - rewrite <- E in *. rewrite dict_get_set_same in Hr'. injection Hr' as <-.
    destruct (Hinv _ Hg) as [Hp Hk].
    destruct (negb (is_empty subfigs)); cbn; split; assumption.
  - rewrite dict_get_set_other in Hr' by assumption. now apply Hinv.
Qed.

Lemma auto_split_fold_numbered items : forall st,
  numbered_only (fst st) -> numbered_only (fst (fold_left (auto_split_item sp) items st)).
Proof.
  induction items as [|item items IH]; intros st Hinv; [assumption|].
  cbn [fold_left]. now apply IH, auto_split_item_numbered.
Qed.

End Labels.

(** X19: the splitter built by [__init__] is always available.  Once
    [auto_split_all_figures] has run, the sub-figures of a figure among the
    first five entries carry the labels "1", "2", ...; on a document with
    text, a question that names a sub-figure of such a figure by another
    label (a letter) does not call the splitter again and is shown the
    whole figure.  On a document without text the question is answered
    with an error: no figure is shown and nothing changes. *)
Theorem letter_query_after_auto_split
    (files_found : option bool) (env : list Z -> Path -> Env) (output_dir : String.string)
    (texts : list (Z * list N))
    (figure_map : FigureMap) (fig_num : Z) (fig_data : FigureRecord)
    (label : String.string) :
  dict_get fig_num figure_map = Some (Some fig_data) ->
  In fig_num (keys (firstn 5 figure_map)) ->
  subfigures fig_data = [] ->
  ~ In label number_labels ->
  Split.is_available (as_splitter files_found env output_dir) = true
  /\ (texts <> [] ->
      selected_image (as_splitter files_found env output_dir) texts fig_num (Some label)
        (auto_split_all_figures (as_splitter files_found env output_dir) (figure_map, []))
      = Some (rec_path fig_data))
  /\ query (as_splitter files_found env output_dir) texts fig_num (Some label)
       (auto_split_all_figures (as_splitter files_found env output_dir) (figure_map, []))
     = auto_split_all_figures (as_splitter files_found env output_dir) (figure_map, [])
  /\ selected_image (as_splitter files_found env output_dir) [] fig_num (Some label)
       (auto_split_all_figures (as_splitter files_found env output_dir) (figure_map, []))
     = None.
Proof.
  intros Hg Hfirst Hsub Hlabel.
  set (sp := as_splitter files_found env output_dir).
  assert (Hav : Split.is_available sp = true) by apply init_enabled.
  split; [assumption|].
  set (st := auto_split_all_figures sp (figure_map, [])).
  assert (Hatt : attempted (fst st) fig_num = Some true).
  { unfold st, auto_split_all_figures. rewrite Hav. cbn [negb fst].
    apply auto_split_fold_sets; [assumption|]. unfold attempted. cbn [fst]. now rewrite Hg. }
  assert (Hnum : forall r, dict_get fig_num (fst st) = Some (Some r) ->
            rec_path r = rec_path fig_data
            /\ forall k, In k (map fst (subfigures r)) -> In k number_labels).
  { unfold st, auto_split_all_figures. rewrite Hav. cbn [negb fst].
    apply (auto_split_fold_numbered files_found env output_dir fig_num (rec_path fig_data)).
    cbn [fst]. intros r Hr. rewrite Hg in Hr. injection Hr as <-.
    split; [reflexivity|]. rewrite Hsub. contradiction. }
  unfold attempted in Hatt.
  destruct (dict_get fig_num (fst st)) as [[r|]|] eqn:Hr; try discriminate.
  injection Hatt as Hatt.
  assert (Hq : query sp texts fig_num (Some label) st = st).
  { unfold query. destruct st as [fm calls]. destruct texts; [reflexivity|].
    cbn [fst] in Hr. rewrite Hr, Hatt.
    cbn [negb]. rewrite !andb_false_r. reflexivity. }
  split; [|split; [assumption | reflexivity]].
  intros Htexts. unfold selected_image. rewrite Hq, Hr.
  destruct texts as [|text_data texts']; [congruence|].
  destruct (Hnum r eq_refl) as [Hp Hk].
  replace (str_get label (subfigures r)) with (@None String.string).
  - rewrite Hp. now destruct (truthy (Some label)).
  - symmetry. apply str_get_None. intros H. apply Hlabel. now apply Hk.
Qed.

Lemma letter_query_after_auto_split_witness :
  selected_image (as_splitter (Some true) (fun _ _ => two_boxes) "data/images"%string)
                 one_text 1 (Some "a"%string)
       (auto_split_all_figures
          (as_splitter (Some true) (fun _ _ => two_boxes) "data/images"%string)
          ([(1, Some fresh_record)], []))
  = Some (rec_path fresh_record).
Proof.
  apply (proj1 (proj2 (letter_query_after_auto_split (Some true) (fun _ _ => two_boxes)
                         "data/images"%string one_text [(1, Some fresh_record)] 1
                         fresh_record "a"%string eq_refl (or_introl eq_refl) eq_refl
                         ltac:(simpl; intuition discriminate)))).
  discriminate.
Defined.

End SubfigureSplitterFacts.

(* ================================================================== *)
(** * Properties of the grid detection *)
(* ================================================================== *)

Module GridFacts.
Import Matcher Pipeline Grid.

(** ** The valleys *)

Lemma low_app_left pre suffix k :
  0 <= k < Z.of_nat (length pre) -> low (pre ++ suffix) k = low pre k.
Proof.
  intros H. unfold low. destruct (Z.ltb_spec k 0); [lia|].
  apply app_nth1. lia.
Qed.

Lemma low_here pre b suffix :
  low (pre ++ b :: suffix) (Z.of_nat (length pre)) = b.
Proof.
  unfold low. destruct (Z.ltb_spec (Z.of_nat (length pre)) 0); [lia|].
  rewrite Nat2Z.id, app_nth2 by lia. now rewrite Nat.sub_diag.
Qed.

(** What [scan_valleys] returns from index [i] on, when the entries before
    [i] are [pre]: valleys of the whole array, in increasing order, none
    before the current run or index. *)
Lemma scan_valleys_spec suffix : forall pre in_valley valley_start,
  (in_valley = true ->
   0 <= valley_start < Z.of_nat (length pre)
   /\ forall k, valley_start <= k < Z.of_nat (length pre) -> low pre k = true) ->
  StronglySorted Z.lt
    (scan_valleys suffix (Z.of_nat (length pre)) in_valley valley_start)
  /\ Forall (fun v => (if in_valley then valley_start else Z.of_nat (length pre)) <= v
                      /\ valley_of (pre ++ suffix) v)
            (scan_valleys suffix (Z.of_nat (length pre)) in_valley valley_start).
Proof.
  induction suffix as [|b suffix IH]; intros pre in_valley valley_start Hinv;
    [split; constructor|].
  assert (Hnext : Z.of_nat (length pre) + 1 = Z.of_nat (length (pre ++ [b])))
    by (rewrite length_app; simpl; lia).
  assert (Happ : pre ++ b :: suffix = (pre ++ [b]) ++ suffix)
    by (now rewrite <- app_assoc).
  cbn [scan_valleys]. rewrite Hnext, Happ.
  destruct b, in_valley; cbn [andb negb].
  - (* the run goes on *)
    destruct (Hinv eq_refl) as [Hstart Hrun].
    destruct (IH (pre ++ [true]) true valley_start) as [Hs Hall]; [|split; assumption].
    intros _. rewrite <- Hnext. split; [lia|]. intros k Hk.
    destruct (Z.eq_dec k (Z.of_nat (length pre))) as [-> | Hne].
    + apply low_here.
    + rewrite low_app_left by lia. apply Hrun. lia.
  - (* a run begins *)
    destruct (IH (pre ++ [true]) true (Z.of_nat (length pre))) as [Hs Hall].
    { intros _. rewrite <- Hnext. split; [lia|]. intros k Hk.
      replace k with (Z.of_nat (length pre)) by lia. apply low_here. }
    split; [assumption|]. eapply Forall_impl; [|exact Hall]. simpl. intros v [H1 H2]. auto.
  - (* the run is closed *)
    destruct (Hinv eq_refl) as [Hstart Hrun].
    destruct (IH (pre ++ [false]) false valley_start) as [Hs Hall]; [discriminate|].
    assert (Hmid : valley_start <= (valley_start + Z.of_nat (length pre)) / 2
                   < Z.of_nat (length pre)).
    { split; [apply Z.div_le_lower_bound | apply Z.div_lt_upper_bound]; lia. }
    split.
    + constructor; [assumption|]. eapply Forall_impl; [|exact Hall]. simpl. intros v [H1 _]. lia.
    + constructor.
      * split; [lia|]. exists valley_start, (Z.of_nat (length pre)).
        rewrite <- Happ. rewrite length_app. simpl.
        repeat split; try lia.
        -- intros k Hk. rewrite low_app_left by lia. apply Hrun. lia.
        -- apply low_here.
      * eapply Forall_impl; [|exact Hall]. simpl. intros v [H1 H2]. split; [lia | assumption].
  - (* outside a run *)
    destruct (IH (pre ++ [false]) false valley_start) as [Hs Hall]; [discriminate|].
    split; [assumption|].
    eapply Forall_impl; [|exact Hall]. simpl. intros v [H1 H2]. split; [lia | assumption].
Qed.

Lemma subseq_refl {A} (l : list A) : subseq l l.
Proof. induction l; constructor; assumption. Qed.

Lemma subseq_snoc_skip {A} (l1 l2 : list A) x : subseq l1 l2 -> subseq l1 (l2 ++ [x]).
Proof.
  induction 1 as [|y l1 l2 _ IH|y l1 l2 _ IH]; simpl.
  - apply subseq_skip, Pipeline.subseq_nil.
  - now apply subseq_skip.
  - now apply subseq_take.
Qed.

Lemma subseq_snoc_take {A} (l1 l2 : list A) x : subseq l1 l2 -> subseq (l1 ++ [x]) (l2 ++ [x]).
Proof.
  induction 1 as [|y l1 l2 _ IH|y l1 l2 _ IH]; simpl.
  - apply subseq_take, Pipeline.subseq_nil.
  - now apply subseq_skip.
  - now apply subseq_take.
Qed.

Lemma subseq_app {A} (a b c d : list A) : subseq a b -> subseq c d -> subseq (a ++ c) (b ++ d).
Proof.
  induction 1 as [|y l1 l2 _ IH|y l1 l2 _ IH]; intros H; simpl; auto.
  - now apply subseq_skip, IH.
  - now apply subseq_take, IH.
Qed.

Lemma subseq_member {A} (l1 l2 : list A) x : subseq l1 l2 -> In x l1 -> In x l2.
Proof.
  induction 1 as [|y l1 l2 _ IH|y l1 l2 _ IH]; simpl; auto.
  intros [-> | H]; auto.
Qed.

Lemma subseq_sorted {A} (R : A -> A -> Prop) (l1 l2 : list A) :
  subseq l1 l2 -> StronglySorted R l2 -> StronglySorted R l1.
Proof.
  induction 1 as [|y l1 l2 Hsub IH|y l1 l2 Hsub IH]; intros Hs; [constructor| |];
    inversion Hs as [|? ? Hs' Hy]; subst.
  - now apply IH.
  - constructor; [now apply IH|]. rewrite Forall_forall in *.
    intros x Hx. apply Hy. eapply subseq_member; eassumption.
Qed.

Lemma spaced_snoc d filtered v :
  spaced d filtered -> d <= v - last filtered 0 -> spaced d (filtered ++ [v]).
Proof.
  intros Hsp Hv pre a b post E.
  destruct post as [|p post0] using rev_ind.
  - change (pre ++ [a; b]) with (pre ++ [a] ++ [b]) in E. rewrite app_assoc in E.
    apply app_inj_tail in E. destruct E as [-> ->]. now rewrite last_last in Hv.
  - clear IHpost0.
    change (pre ++ a :: b :: post0 ++ [p]) with (pre ++ (a :: b :: post0) ++ [p]) in E.
    rewrite app_assoc in E. apply app_inj_tail in E. destruct E as [E _].
    exact (Hsp pre a b post0 E).
Qed.

(** The loop that drops the valleys too close to the last one kept. *)
Lemma keep_apart_fold d rest : forall filtered,
  spaced d filtered ->
  exists added,
    fold_left (keep_apart d) rest filtered = filtered ++ added
    /\ subseq added rest
    /\ spaced d (filtered ++ added).
Proof.
  induction rest as [|v rest IH]; intros filtered Hsp; simpl.
  - exists []. rewrite app_nil_r. split; [reflexivity|]. split; [constructor | assumption].
  - unfold keep_apart at 2. destruct (Z.geb_spec (v - last filtered 0) d) as [Hge | Hlt].
    + destruct (IH (filtered ++ [v])) as (added & E & Hsub & Hsp');
        [apply spaced_snoc; [assumption | lia]|].
      exists (v :: added). rewrite <- app_assoc in *. simpl in *.
      split; [assumption|]. split; [now apply subseq_take | assumption].
    + destruct (IH filtered Hsp) as (added & E & Hsub & Hsp').
      exists added. split; [assumption|]. split; [now apply subseq_skip | assumption].
Qed.

Lemma find_valleys_spec below d :
  subseq (find_valleys below d) (scan_valleys below 0 false 0)
  /\ spaced d (find_valleys below d)
  /\ hd_error (find_valleys below d) = hd_error (scan_valleys below 0 false 0).
Proof.
  unfold find_valleys. destruct (scan_valleys below 0 false 0) as [|v0 [|v1 rest]].
  - split; [constructor|]. split; [|reflexivity]. intros [|? ?] a b post E; discriminate.
  - split; [apply subseq_refl|]. split; [|reflexivity].
    intros [|? [|? ?]] a b post E; discriminate.
  - destruct (keep_apart_fold d (v1 :: rest) [v0]) as (added & -> & Hsub & Hsp).
    { intros [|? [|? ?]] a b post E; discriminate. }
    split; [now apply subseq_take|]. split; [assumption | reflexivity].
Qed.

Lemma scan_valleys_all below :
  StronglySorted Z.lt (scan_valleys below 0 false 0)
  /\ Forall (valley_of below) (scan_valleys below 0 false 0).
Proof.
  destruct (scan_valleys_spec below [] false 0) as [Hs Hall]; [discriminate|].
  simpl in Hs, Hall. split; [assumption|].
  eapply Forall_impl; [|exact Hall]. simpl. tauto.
Qed.

Lemma find_valleys_sorted below d :
  StronglySorted Z.lt (find_valleys below d) /\ Forall (valley_of below) (find_valleys below d).
Proof.
  destruct (find_valleys_spec below d) as (Hsub & _).
  destruct (scan_valleys_all below) as [Hs Hall]. split.
  - eapply subseq_sorted; eassumption.
  - rewrite Forall_forall in *. intros v Hv. apply Hall. eapply subseq_member; eassumption.
Qed.

(** X29: the valleys returned by [_find_valleys] are in strictly
    increasing order; each is the middle index of a run of entries below
    the threshold that is closed by a later entry not below it (a run
    that reaches the end of the array gives no valley); neighbours in the
    list are at least [min_distance] apart; and the first valley found is
    always kept. *)
Theorem valleys_apart (below : list bool) (min_distance : Z) :
  StronglySorted Z.lt (find_valleys below min_distance)
  /\ Forall (valley_of below) (find_valleys below min_distance)
  /\ spaced min_distance (find_valleys below min_distance)
  /\ hd_error (find_valleys below min_distance) = hd_error (scan_valleys below 0 false 0).
Proof.
  destruct (find_valleys_sorted below min_distance) as [Hs Hall].
  destruct (find_valleys_spec below min_distance) as (_ & Hsp & Hhd).
  auto.
Qed.

(** ** The loops over the cells *)

Section Loops.

Variable save_subfigure : Z * Z * Z * Z -> N -> option String.string.
Variable min_size : Z.

Lemma firstn_sum {A} (l : list A) : forall n m,
  firstn (n + m) l = firstn n l ++ firstn m (skipn n l).
Proof.
  induction l as [|a l IH]; intros n m.
  - now rewrite skipn_nil, !firstn_nil.
  - destruct n as [|n]; [reflexivity|]. simpl. now rewrite IH.
Qed.

Lemma firstn_skipn_S {A} (l : list A) n k x :
  nth_error l n = Some x -> firstn (S k) (skipn n l) = x :: firstn k (skipn (S n) l).
Proof.
  revert l. induction n as [|n IH]; intros [|a l] H; try discriminate.
  - now injection H as ->.
  - simpl in H. now apply IH.
Qed.

Lemma row_loop_cons labels y1 y2 x1 x2 rest st :
  row_loop save_subfigure min_size labels y1 y2 (x1 :: x2 :: rest) st
  = if (x2 - x1 <? min_size) || (y2 - y1 <? min_size)
    then row_loop save_subfigure min_size labels y1 y2 (x2 :: rest) st
    else match nth_error labels (snd st) with
         | None => st
         | Some label =>
             match save_subfigure (x1, y1, x2 - x1, y2 - y1) label with
             | Some subfig_path =>
                 row_loop save_subfigure min_size labels y1 y2 (x2 :: rest)
                          (fst st ++ [mkSubfigure subfig_path label
                                                  (x1, y1, x2 - x1, y2 - y1)],
                           S (snd st))
             | None => row_loop save_subfigure min_size labels y1 y2 (x2 :: rest) st
             end
         end.
Proof. reflexivity. Qed.

Lemma grid_loop_cons labels y1 y2 rest v_lines st :
  grid_loop save_subfigure min_size labels (y1 :: y2 :: rest) v_lines st
  = grid_loop save_subfigure min_size labels (y2 :: rest) v_lines
              (row_loop save_subfigure min_size labels y1 y2 v_lines st).
Proof. reflexivity. Qed.

Lemma nothing_added (labels : list N) (st : list Subfigure * nat) (l : list (Z * Z * Z * Z)) :
  exists added : list Subfigure,
    st = (fst st ++ added, (snd st + length added)%nat)
    /\ subseq (map sub_bbox added) l
    /\ map sub_label added = firstn (length added) (skipn (snd st) labels)
    /\ Forall (kept save_subfigure min_size) added.
Proof.
  destruct st as [subs idx]. exists []. simpl. rewrite app_nil_r, Nat.add_0_r.
  split; [reflexivity|]. split; [|split; [reflexivity | constructor]].
  induction l; constructor; assumption.
Qed.

Lemma row_loop_spec labels y1 y2 v_lines : forall st,
  exists added,
    row_loop save_subfigure min_size labels y1 y2 v_lines st
    = (fst st ++ added, (snd st + length added)%nat)
    /\ subseq (map sub_bbox added) (map (cell (y1, y2)) (neighbours v_lines))
    /\ map sub_label added = firstn (length added) (skipn (snd st) labels)
    /\ Forall (kept save_subfigure min_size) added.
Proof.
  induction v_lines as [|x1 rest IH]; intros st; [apply nothing_added|].
  destruct rest as [|x2 rest']; [apply nothing_added|].
  rewrite row_loop_cons. cbn [neighbours map].
  destruct ((x2 - x1 <? min_size) || (y2 - y1 <? min_size)) eqn:Hsmall.
  - destruct (IH st) as (added & E & Hsub & Hadd).
    exists added. split; [assumption|]. split; [now apply subseq_skip | assumption].
  - apply orb_false_iff in Hsmall. destruct Hsmall as [Hw Hh].
    apply Z.ltb_ge in Hw, Hh.
    destruct (nth_error labels (snd st)) as [label|] eqn:Hlabel; [|apply nothing_added].
    destruct (save_subfigure (x1, y1, x2 - x1, y2 - y1) label) as [subfig_path|] eqn:Hsave.
    + destruct (IH (fst st ++ [mkSubfigure subfig_path label (x1, y1, x2 - x1, y2 - y1)],
                    S (snd st))) as (added & E & Hsub & Hlab & Hall).
      cbn [fst snd] in *.
      exists (mkSubfigure subfig_path label (x1, y1, x2 - x1, y2 - y1) :: added).
      split; [|split; [|split]].
      * rewrite E, <- app_assoc. cbn [app length]. f_equal. lia.
      * cbn [map sub_bbox]. now apply subseq_take.
      * cbn [map length sub_label]. rewrite (firstn_skipn_S _ _ _ _ Hlabel). now f_equal.
      * constructor; [|assumption]. unfold kept. cbn [sub_bbox sub_label sub_path]. auto.
    + destruct (IH st) as (added & E & Hsub & Hadd).
      exists added. split; [assumption|]. split; [now apply subseq_skip | assumption].
Qed.

(** What is appended by the whole loop. *)
Lemma grid_loop_spec labels v_lines h_lines : forall st,
  exists added,
    grid_loop save_subfigure min_size labels h_lines v_lines st
    = (fst st ++ added, (snd st + length added)%nat)
    /\ subseq (map sub_bbox added) (cells h_lines v_lines)
    /\ map sub_label added = firstn (length added) (skipn (snd st) labels)
    /\ Forall (kept save_subfigure min_size) added.
Proof.
  induction h_lines as [|y1 rest IH]; intros st; [apply nothing_added|].
  destruct rest as [|y2 rest']; [apply nothing_added|].
  rewrite grid_loop_cons.
  change (cells (y1 :: y2 :: rest') v_lines)
    with (map (cell (y1, y2)) (neighbours v_lines) ++ cells (y2 :: rest') v_lines).
  destruct (row_loop_spec labels y1 y2 v_lines st) as (row & -> & Hsub1 & Hlab1 & Hall1).
  destruct (IH (fst st ++ row, (snd st + length row)%nat))
    as (more & -> & Hsub2 & Hlab2 & Hall2).
  cbn [fst snd] in *.
  exists (row ++ more). split; [|split; [|split]].
  - rewrite <- app_assoc, length_app. f_equal. lia.
  - rewrite map_app. now apply subseq_app.
  - rewrite map_app, Hlab1, Hlab2, length_app.
    replace (skipn (snd st + length row) labels)
      with (skipn (length row) (skipn (snd st) labels))
      by (rewrite skipn_skipn; f_equal; lia).
    symmetry. apply firstn_sum.
  - apply Forall_app. auto.
Qed.

End Loops.

(** ** The grid *)

Lemma pairs_app {A} (R : A -> A -> Prop) (l1 l2 : list A) :
  ForallOrdPairs R l1 -> ForallOrdPairs R l2 ->
  (forall a b, In a l1 -> In b l2 -> R a b) ->
  ForallOrdPairs R (l1 ++ l2).
Proof.
  induction 1 as [|a l1 Ha H1 IH]; intros H2 Hcross; simpl; [assumption|].
  constructor.
  - apply Forall_app. split; [assumption|].
    apply Forall_forall. intros b Hb. apply Hcross; [now left | assumption].
  - apply IH; [assumption|]. intros x y Hx Hy. apply Hcross; [now right | assumption].
Qed.

Lemma pairs_weaken {A} (R R' : A -> A -> Prop) (l : list A) :
  (forall a b, R a b -> R' a b) -> ForallOrdPairs R l -> ForallOrdPairs R' l.
Proof.
  intros H. induction 1 as [|a l Ha Hl IH]; constructor; [|assumption].
  eapply Forall_impl; [|exact Ha]. apply H.
Qed.

Lemma pairs_map {A B} (f : A -> B) (R : B -> B -> Prop) (l : list A) :
  ForallOrdPairs (fun a b => R (f a) (f b)) l <-> ForallOrdPairs R (map f l).
Proof.
  induction l as [|a l IH]; simpl; split; intros H; try constructor;
    inversion H as [|? ? Ha Hl]; subst.
  - rewrite Forall_forall in *. intros y Hy. apply in_map_iff in Hy.
    destruct Hy as (x & <- & Hx). now apply Ha.
  - now apply IH.
  - rewrite Forall_forall in *. intros x Hx. apply Ha. now apply in_map.
  - now apply IH.
Qed.

Lemma pairs_subseq {A} (R : A -> A -> Prop) (l1 l2 : list A) :
  subseq l1 l2 -> ForallOrdPairs R l2 -> ForallOrdPairs R l1.
Proof.
  induction 1 as [|y l1 l2 Hsub IH|y l1 l2 Hsub IH]; intros H; [constructor| |];
    inversion H as [|? ? Hy Hl]; subst.
  - now apply IH.
  - constructor; [|now apply IH]. rewrite Forall_forall in *.
    intros x Hx. apply Hy. eapply subseq_member; eassumption.
Qed.

(** The lines [[0] + valleys + [size]] are in increasing order between 0
    and [size]. *)
Lemma lines_sorted (vs : list Z) (size : Z) :
  0 <= size -> StronglySorted Z.lt vs -> Forall (fun v => 0 <= v < size) vs ->
  StronglySorted Z.le (0 :: vs ++ [size])
  /\ Forall (fun v => 0 <= v <= size) (0 :: vs ++ [size]).
Proof.
  intros Hsize Hs Hall. split.
  - constructor.
    + induction Hs as [|v vs Hs IH Hv]; simpl; [repeat constructor|].
      inversion Hall as [|? ? Hv0 Hall']; subst.
      constructor; [now apply IH|]. apply Forall_app. split.
      * eapply Forall_impl; [|exact Hv]. simpl. lia.
      * repeat constructor. lia.
    + apply Forall_app. split; [|repeat constructor; lia].
      eapply Forall_impl; [|exact Hall]. simpl. lia.
  - constructor; [lia|]. apply Forall_app. split; [|repeat constructor; lia].
    eapply Forall_impl; [|exact Hall]. simpl. lia.
Qed.

Lemma neighbours_sorted (l : list Z) :
  StronglySorted Z.le l ->
  Forall (fun p => In (fst p) l /\ In (snd p) l /\ fst p <= snd p) (neighbours l)
  /\ ForallOrdPairs (fun p q => snd p <= fst q) (neighbours l).
Proof.
  induction 1 as [|a l Hl [IH1 IH2] Ha]; [split; constructor|].
  destruct l as [|b rest]; [split; constructor|].
  cbn [neighbours]. inversion Ha as [|? ? Hab Hrest]; subst.
  inversion Hl as [|? ? _ Hb]; subst. split.
  - constructor; [cbn [fst snd]; simpl; auto|].
    eapply Forall_impl; [|exact IH1]. simpl. intros p (H1 & H2 & H3). auto.
  - constructor; [|assumption]. rewrite Forall_forall in *.
    intros q Hq. destruct (IH1 q Hq) as ([Hq1 | Hq1] & _ & _); cbn [snd]; [lia|].
    apply Hb. exact Hq1.
Qed.

(** The cells of a grid on lines in increasing order do not overlap. *)
Lemma cells_apart (h_lines v_lines : list Z) :
  StronglySorted Z.le h_lines -> StronglySorted Z.le v_lines ->
  ForallOrdPairs apart (cells h_lines v_lines).
Proof.
  intros Hh Hv. destruct (neighbours_sorted _ Hh) as [_ Hrows].
  destruct (neighbours_sorted _ Hv) as [_ Hcols]. unfold cells.
  induction Hrows as [|ys rows Hys Hrows IH]; simpl; [constructor|].
  apply pairs_app; [|assumption|].
  - apply (proj1 (pairs_map (cell ys) apart (neighbours v_lines))).
    eapply pairs_weaken; [|exact Hcols].
    intros p q Hpq. unfold apart, cell. cbn in *. lia.
  - intros a b Ha Hb. apply in_map_iff in Ha. destruct Ha as (p & <- & _).
    apply in_flat_map in Hb. destruct Hb as (ys' & Hys' & Hb).
    apply in_map_iff in Hb. destruct Hb as (q & <- & _).
    rewrite Forall_forall in Hys. specialize (Hys ys' Hys').
    unfold apart, cell. cbn. lia.
Qed.

Lemma valley_range below v : valley_of below v -> 0 <= v < Z.of_nat (length below).
Proof.
  intros (s & e & Hs & Hse & He & _ & _ & ->).
  split; [apply Z.div_le_lower_bound | apply Z.div_lt_upper_bound]; lia.
Qed.

Lemma firstn_seq_prefix k : forall start n,
  (k <= n)%nat -> firstn k (seq start n) = seq start k.
Proof.
  induction k as [|k IH]; intros start n Hk; [reflexivity|].
  destruct n as [|n]; [lia|]. simpl. f_equal. apply IH. lia.
Qed.

Lemma labels_prefix count k :
  (k <= length (generate_labels count))%nat ->
  firstn k (generate_labels count) = generate_labels (Z.of_nat k).
Proof.
  unfold generate_labels. rewrite length_map, length_seq. intros Hk.
  rewrite firstn_map, firstn_seq_prefix by assumption. f_equal. f_equal. lia.
Qed.

Lemma labels_length count : (length (generate_labels count) <= 26)%nat.
Proof. unfold generate_labels. rewrite length_map, length_seq. lia. Qed.

(** X30: for a grey image whose row and column arrays have the lengths
    of its shape, [_detect_by_grid] returns either nothing or between 2
    and 26 sub-figures.  They are labelled "a", "b", "c", ... in the order
    of the list; each box is at least [min_size] wide and high, lies
    within the image and was saved under the path recorded; and no two
    boxes overlap. *)
Theorem grid_subfigures
    (save_subfigure : Z * Z * Z * Z -> N -> option String.string) (min_size : Z) (g : Gray) :
  Z.of_nat (length (rows_below g)) = height g ->
  Z.of_nat (length (columns_below g)) = width g ->
  (detect_by_grid save_subfigure min_size g = []
   \/ (2 <= length (detect_by_grid save_subfigure min_size g) <= 26)%nat)
  /\ map sub_label (detect_by_grid save_subfigure min_size g)
     = generate_labels (Z.of_nat (length (detect_by_grid save_subfigure min_size g)))
  /\ Forall (well_placed save_subfigure min_size g)
            (detect_by_grid save_subfigure min_size g)
  /\ ForallOrdPairs (fun a b => apart (sub_bbox a) (sub_bbox b))
                    (detect_by_grid save_subfigure min_size g).
Proof.
  intros Hrows Hcols.
  assert (Hempty : (@nil Subfigure = [] \/ (2 <= length (@nil Subfigure) <= 26)%nat)
                   /\ map sub_label [] = generate_labels (Z.of_nat (length (@nil Subfigure)))
                   /\ Forall (well_placed save_subfigure min_size g) []
                   /\ ForallOrdPairs (fun a b => apart (sub_bbox a) (sub_bbox b)) []).
  { split; [now left|]. split; [reflexivity|]. split; constructor. }
  unfold detect_by_grid, find_grid_lines.
  set (hv := find_valleys (rows_below g) (height g / 10)).
  set (vv := find_valleys (columns_below g) (width g / 10)).
  destruct (is_empty hv && is_empty vv); [exact Hempty|].
  set (h_lines := 0 :: hv ++ [height g]). set (v_lines := 0 :: vv ++ [width g]).
  set (labels := generate_labels ((Z.of_nat (length h_lines) - 1)
                                  * (Z.of_nat (length v_lines) - 1))).
  destruct (grid_loop_spec save_subfigure min_size labels v_lines h_lines ([], 0%nat))
    as (subs & -> & Hsub & Hlab & Hkept).
  cbn [fst snd app skipn] in *.
  destruct (Nat.leb_spec 2 (length subs)) as [Htwo | _]; [|exact Hempty].
  assert (Hlen : (length subs <= length labels)%nat).
  { apply (f_equal (@length N)) in Hlab. rewrite length_map, length_firstn in Hlab. lia. }
  pose proof (labels_length ((Z.of_nat (length h_lines) - 1)
                             * (Z.of_nat (length v_lines) - 1))) as H26.
  fold labels in H26.
  destruct (find_valleys_sorted (rows_below g) (height g / 10)) as [Hhs Hhv].
  destruct (find_valleys_sorted (columns_below g) (width g / 10)) as [Hvs Hvv].
  fold hv in Hhs, Hhv. fold vv in Hvs, Hvv.
  destruct (lines_sorted hv (height g)) as [Hhsorted Hhrange]; [lia | assumption | |].
  { eapply Forall_impl; [|exact Hhv]. intros v Hv. apply valley_range in Hv. lia. }
  destruct (lines_sorted vv (width g)) as [Hvsorted Hvrange]; [lia | assumption | |].
  { eapply Forall_impl; [|exact Hvv]. intros v Hv. apply valley_range in Hv. lia. }
  fold h_lines in Hhsorted, Hhrange. fold v_lines in Hvsorted, Hvrange.
  split; [right; lia|]. split; [|split].
  - rewrite Hlab. now apply labels_prefix.
  - apply Forall_forall. intros s Hs.
    rewrite Forall_forall in Hkept. specialize (Hkept s Hs).
    assert (Hcell : In (sub_bbox s) (cells h_lines v_lines)).
    { eapply subseq_member; [exact Hsub|]. now apply in_map. }
    unfold cells in Hcell. apply in_flat_map in Hcell. destruct Hcell as (ys & Hys & Hcell).
    apply in_map_iff in Hcell. destruct Hcell as (xs & Hbox & Hxs).
    destruct (neighbours_sorted _ Hhsorted) as [Hrows' _].
    destruct (neighbours_sorted _ Hvsorted) as [Hcols' _].
    rewrite Forall_forall in Hrows', Hcols', Hhrange, Hvrange.
    destruct (Hrows' ys Hys) as (Hy1 & Hy2 & _). destruct (Hcols' xs Hxs) as (Hx1 & Hx2 & _).
    apply Hhrange in Hy1, Hy2. apply Hvrange in Hx1, Hx2.
    unfold well_placed, kept in *. rewrite <- Hbox in *. unfold cell in *.
    destruct Hkept as (Hw & Hh & Hsave). repeat split; auto; lia.
  - apply (proj2 (pairs_map sub_bbox apart subs)).
    eapply pairs_subseq; [exact Hsub|]. now apply cells_apart.
Qed.

Lemma grid_subfigures_witness :
  (detect_by_grid save_always 150 banded = []
   \/ (2 <= length (detect_by_grid save_always 150 banded) <= 26)%nat)
  /\ map sub_label (detect_by_grid save_always 150 banded)
     = generate_labels (Z.of_nat (length (detect_by_grid save_always 150 banded)))
  /\ Forall (well_placed save_always 150 banded) (detect_by_grid save_always 150 banded)
  /\ ForallOrdPairs (fun a b => apart (sub_bbox a) (sub_bbox b))
                    (detect_by_grid save_always 150 banded).
Proof. apply (grid_subfigures save_always 150 banded); reflexivity. Defined.

End GridFacts.

(* ================================================================== *)
(** * Further properties of the reference extractor *)
(* ================================================================== *)

Module PatternFacts.
Import Refs Patterns RefsFacts.

Ltac n_bool :=
  repeat match goal with
         | H : (_ && _)%bool = true |- _ => apply andb_prop in H; destruct H
         | H : (_ && _)%bool = false |- _ => apply andb_false_iff in H; destruct H
         | H : (_ || _)%bool = true |- _ => apply orb_prop in H; destruct H
         | H : (_ || _)%bool = false |- _ => apply orb_false_iff in H; destruct H
         | H : (_ <=? _)%N = true |- _ => apply N.leb_le in H
         | H : (_ <=? _)%N = false |- _ => apply N.leb_gt in H
         | H : (_ =? _)%N = true |- _ => apply N.eqb_eq in H
         | H : (_ =? _)%N = false |- _ => apply N.eqb_neq in H
         end.

Lemma In_firstn_le {A} (l : list A) x n m : (n <= m)%nat -> In x (firstn n l) -> In x (firstn m l).
Proof.
  intros Hle Hin. replace m with (n + (m - n))%nat by lia.
  rewrite firstn_plus. apply in_or_app. now left.
Qed.

Lemma In_firstn_skipn {A} (l : list A) x n m :
  In x (firstn m (skipn n l)) -> In x (firstn (n + m) l).
Proof. intros Hin. rewrite firstn_plus. apply in_or_app. now right. Qed.

(** A match of an expression that demands a digit has consumed one. *)
Lemma match_re_digit r : forall R s pos caps (k : text -> nat -> captures -> option R) res,
  demands_digit r = true ->
  match_re r R s pos caps k = Some res ->
  exists d caps',
    (d <= length s)%nat
    /\ k (skipn d s) (pos + d)%nat caps' = Some res
    /\ exists c, In c (firstn d s) /\ is_digit c = true.
Proof.
  induction r as [x|items|a IHa b IHb|a IHa b IHb|a IHa|items|n a IHa|a IHa];
    intros R s pos caps k res Hd H; simpl in Hd, H; try discriminate.
  - destruct s as [|c s]; [discriminate|].
    destruct (class_match items c) eqn:Hc; [|discriminate].
    exists 1%nat, caps. simpl. split; [lia|]. rewrite Nat.add_1_r. split; [assumption|].
    exists c. split; [now left | now apply (digits_only_match items)].
  - destruct (demands_digit a) eqn:Da.
    + destruct (IHa _ _ _ _ _ _ eq_refl H) as (d1 & c1 & Hd1 & H1 & c & Hc & Hdig).
      destruct (match_re_inv _ _ _ _ _ _ _ H1) as (d2 & c2 & Hd2 & H2).
      rewrite length_skipn in Hd2. rewrite skipn_skipn in H2.
      exists (d1 + d2)%nat, c2. split; [lia|]. split.
      * now rewrite Nat.add_assoc, (Nat.add_comm d1 d2).
      * exists c. split; [|assumption]. eapply In_firstn_le; [|eassumption]. lia.
    + simpl in Hd.
      destruct (match_re_inv _ _ _ _ _ _ _ H) as (d1 & c1 & Hd1 & H1).
      destruct (IHb _ _ _ _ _ _ Hd H1) as (d2 & c2 & Hd2 & H2 & c & Hc & Hdig).
      rewrite length_skipn in Hd2. rewrite skipn_skipn in H2.
      exists (d1 + d2)%nat, c2. split; [lia|]. split.
      * now rewrite Nat.add_assoc, (Nat.add_comm d1 d2).
      * exists c. split; [|assumption]. now apply In_firstn_skipn.
  - apply andb_prop in Hd. destruct Hd as [Da Db].
    destruct (match_re a R s pos caps k) eqn:E.
    + injection H as <-. now apply (IHa _ _ _ _ _ _ Da E).
    + now apply (IHb _ _ _ _ _ _ Db H).
  - destruct (IHa _ _ _ _ _ _ Hd H) as (d & c' & Hd' & Hk & Hc). eauto.
Qed.

Lemma patterns_demand_digit : forallb (fun p => demands_digit (fst p)) PATTERNS = true.
Proof. reflexivity. Qed.

Lemma found_text r s pos m s' :
  match_re r _ s pos [] (found pos s) = Some (m, s') ->
  m_text m = firstn (m_end m - m_start m) s.
Proof.
  intros E. destruct (match_re_inv _ _ _ _ _ _ _ E) as (d & caps' & Hd & Hk).
  unfold found in Hk. now injection Hk as <- <-.
Qed.

(** Every match found by [finditer] for one of the patterns. *)
Lemma finditer_pattern p t m :
  In p PATTERNS -> In m (finditer (fst p) t) ->
  (m_start m < m_end m)%nat /\ (m_end m <= length t)%nat
  /\ m_text m = slice t (m_start m) (m_end m)
  /\ exists c, In c (m_text m) /\ is_digit c = true.
Proof.
  intros Hp Hin. unfold finditer in Hin.
  destruct (finditer_from_spec _ _ _ _ _ Hin) as (d & s' & Hd & Hs & Hm).
  simpl in Hs, Hm.
  pose proof (found_text _ _ _ _ _ Hm) as Htext.
  destruct (found_here _ _ _ _ _ Hm) as (_ & Hle & _ & Hlen).
  rewrite length_skipn in Hlen.
  pose proof patterns_demand_digit as Hall. rewrite forallb_forall in Hall.
  destruct (match_re_digit _ _ _ _ _ _ _ (Hall _ Hp) Hm)
    as (d' & caps' & Hd' & Hk & c & Hc & Hdig).
  unfold found in Hk. injection Hk as Hk _. subst m. cbn [m_start m_end m_text] in *.
  replace (d + d' - d)%nat with d' in * by lia.
  assert (Hpos : (0 < d')%nat) by (destruct d'; [contradiction | lia]).
  split; [lia|]. split; [lia|]. split.
  - unfold slice. now replace (d + d' - d)%nat with d' by lia.
  - exists c. split; assumption.
Qed.

Lemma In_references t r :
  In r (found_references t) ->
  exists p m, In p PATTERNS /\ In m (finditer (fst p) t) /\ r = reference_of (snd p) m.
Proof.
  unfold found_references. intros Hin. apply in_flat_map in Hin.
  destruct Hin as (p & Hp & Hin). apply in_map_iff in Hin.
  destruct Hin as (m & <- & Hm). eauto.
Qed.

(** Every reference returned spans a non-empty part of the text that
    holds a digit. *)
Lemma reference_span t r :
  In r (kept_references t) ->
  (ref_start r < ref_end r)%nat /\ (ref_end r <= length t)%nat
  /\ ref_text r = slice t (ref_start r) (ref_end r)
  /\ exists c, In c (ref_text r) /\ is_digit c = true.
Proof.
  intros Hr.
  destruct (kept_references_contract t) as (_ & _ & Hsub & _).
  destruct (Hsub r Hr) as [Hin _].
  destruct (In_references _ _ Hin) as (p & m & Hp & Hm & ->).
  exact (finditer_pattern p t m Hp Hm).
Qed.

(** X20: for an ASCII text, [extract_references] returns nothing when
    the text holds no digit; and every reference it returns spans a
    non-empty part [text[start:end]] of the text, which it carries as its
    own text and which holds a digit. *)
Theorem references_need_digits (t : text) :
  is_ascii t ->
  ((forall c, In c t -> is_digit c = false) -> extract_references t = Some [])
  /\ (forall rs r, extract_references t = Some rs -> In r rs ->
        (ref_start r < ref_end r)%nat /\ (ref_end r <= length t)%nat
        /\ ref_text r = slice t (ref_start r) (ref_end r)
        /\ exists c, In c (ref_text r) /\ is_digit c = true).
Proof.
  intros _.
  assert (H : forall r, In r (kept_references t) ->
            (ref_start r < ref_end r)%nat /\ (ref_end r <= length t)%nat
            /\ ref_text r = slice t (ref_start r) (ref_end r)
            /\ exists c, In c (ref_text r) /\ is_digit c = true).
  { intros r Hr. now apply reference_span. }
  split.
  - intros Hno.
    assert (Hnil : kept_references t = []).
    { destruct (kept_references t) as [|r rs] eqn:E; [reflexivity|].
      destruct (H r (or_introl eq_refl)) as (_ & _ & Htext & c & Hc & Hdig).
      rewrite Htext in Hc. unfold slice in Hc.
      apply In_firstn_skipn in Hc.
      assert (Hct : In c t).
      { rewrite <- (firstn_skipn (ref_start r + (ref_end r - ref_start r)) t).
        apply in_or_app. now left. }
      rewrite (Hno c Hct) in Hdig. discriminate. }
    destruct (extract_references t) as [rs|] eqn:E.
    + apply extract_references_Some in E. destruct E as [-> _]. now rewrite Hnil.
    + exfalso. apply extract_references_None in E.
      destruct E as (p & m & g & Hp & Hm & Hg & Hlen).
      destruct (finditer_pattern p t m Hp Hm) as (_ & Hend & Htext & c & Hc & Hdig).
      rewrite Htext in Hc. unfold slice in Hc. apply In_firstn_skipn in Hc.
      assert (Hct : In c t).
      { rewrite <- (firstn_skipn (m_start m + (m_end m - m_start m)) t).
        apply in_or_app. now left. }
      rewrite (Hno c Hct) in Hdig. discriminate.
  - intros rs r Hrs Hr. apply extract_references_Some in Hrs. destruct Hrs as [-> _].
    now apply H.
Qed.

Lemma references_need_digits_witness :
  is_ascii see_fig_2
  /\ ((forall c, In c see_fig_2 -> is_digit c = false) -> extract_references see_fig_2 = Some [])
  /\ (forall rs r, extract_references see_fig_2 = Some rs -> In r rs ->
        (ref_start r < ref_end r)%nat /\ (ref_end r <= length see_fig_2)%nat
        /\ ref_text r = slice see_fig_2 (ref_start r) (ref_end r)
        /\ exists c, In c (ref_text r) /\ is_digit c = true).
Proof.
  assert (Ha : is_ascii see_fig_2) by (repeat constructor).
  split; [exact Ha | exact (references_need_digits see_fig_2 Ha)].
Defined.

End PatternFacts.

Module PlainFacts.
Import Refs Plain RefsFacts.

Lemma digit_cases c :
  is_digit c = true ->
  (c = 48 \/ c = 49 \/ c = 50 \/ c = 51 \/ c = 52
   \/ c = 53 \/ c = 54 \/ c = 55 \/ c = 56 \/ c = 57)%N.
Proof.
  unfold is_digit. rewrite andb_true_iff, !N.leb_le. lia.
Qed.

Ltac each_digit H :=
  apply digit_cases in H;
  destruct H as [-> | [-> | [-> | [-> | [-> | [-> | [-> | [-> | [-> | ->]]]]]]]]].

Lemma star_all {R} items s : forall pos (k : text -> nat -> option R) r,
  Forall (fun c => class_match items c = true) s ->
  k [] (pos + length s)%nat = Some r ->
  star items s pos k = Some r.
Proof.
  induction s as [|c s IH]; intros pos k r Hall Hk; simpl.
  - simpl in Hk. now rewrite Nat.add_0_r in Hk.
  - inversion Hall as [|? ? Hc Hs]; subst. rewrite Hc.
    rewrite (IH (S pos) k r Hs); [reflexivity|].
    simpl in Hk. now rewrite Nat.add_succ_r in Hk.
Qed.

Lemma star_none {R} items s : forall pos (k : text -> nat -> option R),
  (forall d, (d <= length s)%nat -> k (skipn d s) (pos + d)%nat = None) ->
  star items s pos k = None.
Proof.
  induction s as [|c s IH]; intros pos k Hk; simpl.
  - specialize (Hk 0%nat (Nat.le_refl _)). simpl in Hk. now rewrite Nat.add_0_r in Hk.
  - assert (H0 : k (c :: s) pos = None).
    { specialize (Hk 0%nat (Nat.le_0_l _)). simpl in Hk. now rewrite Nat.add_0_r in Hk. }
    destruct (class_match items c); [|assumption].
    rewrite IH; [assumption|].
    intros d Hd. specialize (Hk (S d)). simpl in Hk. rewrite Nat.add_succ_r in Hk.
    apply Hk. lia.
Qed.

Lemma search_none r s : forall pos,
  (forall d, (d <= length s)%nat ->
     match_re r _ (skipn d s) (pos + d)%nat [] (found (pos + d)%nat (skipn d s)) = None) ->
  search r s pos = None.
Proof.
  induction s as [|c s IH]; intros pos H.
  - specialize (H 0%nat (Nat.le_refl _)). simpl in H. rewrite Nat.add_0_r in H.
    unfold found in H. simpl. now rewrite H.
  - assert (H0 := H 0%nat (Nat.le_0_l _)). simpl in H0. rewrite Nat.add_0_r in H0.
    unfold found in H0. cbn [search]. rewrite H0. apply IH.
    intros d Hd. specialize (H (S d)). simpl in H. rewrite Nat.add_succ_r in H.
    apply H. lia.
Qed.

(** No pattern matches at the front of a string of digits. *)
Lemma patterns_fail_on_digits (s : text) :
  Forall (fun c => is_digit c = true) s ->
  Forall (fun p => forall R pos (k : text -> nat -> captures -> option R),
            match_re (fst p) R s pos [] k = None) PATTERNS.
Proof.
  intros Hs. destruct s as [|c s].
  - repeat (constructor; [intros; reflexivity|]). constructor.
  - inversion Hs as [|? ? Hc _]; subst. each_digit Hc;
      (repeat (constructor; [intros; reflexivity|]); constructor).
Qed.

Lemma Forall_skipn {A} (P : A -> Prop) (l : list A) n : Forall P l -> Forall P (skipn n l).
Proof.
  revert l. induction n as [|n IH]; intros l H; [assumption|].
  destruct l; [constructor|]. inversion H; subst. simpl. now apply IH.
Qed.

(** No pattern matches at an offset other than 0 of "Figure " followed by
    digits. *)
Lemma patterns_fail_later (ds : text) d :
  Forall (fun c => is_digit c = true) ds -> (1 <= d)%nat ->
  Forall (fun p => forall R pos (k : text -> nat -> captures -> option R),
            match_re (fst p) R (skipn d (figure_n ds)) pos [] k = None) PATTERNS.
Proof.
  intros Hds Hd. unfold figure_n.
  destruct d as [|[|[|[|[|[|[|d]]]]]]]; [lia| | | | | | |];
    try solve [repeat (constructor; [intros; reflexivity|]); constructor].
  change (skipn (S (S (S (S (S (S (S d))))))) (codes "Figure "%string ++ ds))
    with (skipn d ds).
  apply patterns_fail_on_digits. now apply Forall_skipn.
Qed.

Lemma search_later p (ds : text) :
  In p PATTERNS -> Forall (fun c => is_digit c = true) ds ->
  search (fst p) (skipn 1 (figure_n ds)) 1 = None.
Proof.
  intros Hp Hds. apply search_none. intros d Hd.
  rewrite skipn_skipn.
  pose proof (patterns_fail_later ds (d + 1) Hds ltac:(lia)) as H.
  rewrite Forall_forall in H. apply (H p Hp).
Qed.

Lemma digit_not_space c : is_digit c = true -> class_match [Space] c = false.
Proof. intros H. each_digit H; reflexivity. Qed.

Lemma digit_class c : is_digit c = true -> class_match [Digit] c = true.
Proof. intros H. each_digit H; reflexivity. Qed.

Lemma cons_eq {A} (a b : A) l l' : a = b -> l = l' -> a :: l = b :: l'.
Proof. now intros -> ->. Qed.

Lemma cons_inv {A} (a b : A) l l' : a :: l = b :: l' -> a = b /\ l = l'.
Proof. intros [= -> ->]. auto. Qed.

(** What each pattern does at offset 0. *)
Lemma patterns_at_start (ds : text) :
  ds <> [] -> Forall (fun c => is_digit c = true) ds ->
  map (fun p => match_re (fst p) _ (figure_n ds) 0 [] (found 0 (figure_n ds))) PATTERNS
  = [None; None; None; None; Some (plain_match ds, []); None;
     Some (plain_match ds, []); None; None; None].
Proof.
  intros Hne Hds. destruct ds as [|c ds]; [congruence|].
  inversion Hds as [|? ? Hc Hds']; subst.
  assert (Hclass : Forall (fun c => class_match [Digit] c = true) ds).
  { eapply Forall_impl; [|exact Hds']. apply digit_class. }
  assert (Hfail : forall R (K : text -> nat -> option R),
            (forall s pos, Forall (fun c => is_digit c = true) s -> K s pos = None) ->
            star [Digit] ds 8 K = None).
  { intros R K HK. apply star_none. intros d Hd. apply HK. now apply Forall_skipn. }
  unfold PATTERNS, figure_n, plain_match. cbn [map fst].
  each_digit Hc;
    repeat (apply cons_eq;
            [ cbn;
              first
                [ reflexivity
                | rewrite Hfail;
                  [ reflexivity
                  | intros s pos Hs; destruct s as [|c' s];
                    [ reflexivity
                    | inversion Hs as [|? ? Hc' _]; subst; each_digit Hc'; reflexivity ] ]
                | erewrite star_all; [|exact Hclass | cbn; reflexivity];
                  cbn; rewrite ?firstn_all; reflexivity ]
            | ]);
    reflexivity.
Qed.

Lemma figure_n_length ds : length (figure_n ds) = S (6 + length ds).
Proof. unfold figure_n. now rewrite length_app. Qed.

(** [finditer] finds nothing after offset 0. *)
Lemma finditer_none p (ds : text) :
  In p PATTERNS -> Forall (fun c => is_digit c = true) ds ->
  match_re (fst p) _ (figure_n ds) 0 [] (found 0 (figure_n ds)) = None ->
  finditer (fst p) (figure_n ds) = [].
Proof.
  intros Hp Hds E. unfold finditer. rewrite figure_n_length.
  cbn [finditer_from]. unfold found in E.
  replace (search (fst p) (figure_n ds) 0) with (@None (Match * text)); [reflexivity|].
  symmetry. unfold figure_n in *. cbn [codes app search] in *. rewrite E.
  apply (search_later p ds Hp Hds).
Qed.

Lemma finditer_whole p (ds : text) m :
  In p PATTERNS ->
  match_re (fst p) _ (figure_n ds) 0 [] (found 0 (figure_n ds)) = Some (m, []) ->
  Nat.eqb (m_end m) (m_start m) = false ->
  finditer (fst p) (figure_n ds) = [m].
Proof.
  intros Hp E Hlen. unfold finditer. rewrite figure_n_length.
  cbn [finditer_from]. rewrite (search_here _ _ _ _ E), Hlen.
  f_equal. cbn [finditer_from search].
  pose proof (patterns_fail_on_digits [] (Forall_nil _)) as Hnil.
  rewrite Forall_forall in Hnil. now rewrite (Hnil p Hp).
Qed.

Lemma flat_map_combine {A B C D} (u : A -> B) (h : A -> C) (F : B -> C -> list D) l :
  flat_map (fun a => F (u a) (h a)) l
  = flat_map (fun x => F (fst x) (snd x)) (combine (map u l) (map h l)).
Proof. induction l as [|a l IH]; simpl; [reflexivity | now rewrite IH]. Qed.

Lemma finditer_plain (ds : text) :
  ds <> [] -> Forall (fun c => is_digit c = true) ds ->
  map (fun p => finditer (fst p) (figure_n ds)) PATTERNS
  = [[]; []; []; []; [plain_match ds]; []; [plain_match ds]; []; []; []].
Proof.
  intros Hne Hds.
  pose proof (patterns_at_start ds Hne Hds) as Hstart.
  transitivity
    (map (fun r : option (Match * text) => match r with Some (m, _) => [m] | None => [] end)
         (map (fun p => match_re (fst p) _ (figure_n ds) 0 [] (found 0 (figure_n ds)))
              PATTERNS)).
  - rewrite map_map. apply map_ext_in. intros p Hp.
    assert (Hin : In (match_re (fst p) _ (figure_n ds) 0 [] (found 0 (figure_n ds)))
                     [None; None; None; None; Some (plain_match ds, []); None;
                      Some (plain_match ds, []); None; None; None]).
    { rewrite <- Hstart.
      apply (in_map (fun p => match_re (fst p) _ (figure_n ds) 0 []
                                       (found 0 (figure_n ds)))). exact Hp. }
    destruct (match_re (fst p) _ (figure_n ds) 0 [] (found 0 (figure_n ds)))
      as [[m s']|] eqn:E.
    + assert (Hm : (m, s') = (plain_match ds, [])).
      { simpl in Hin. intuition congruence. }
      injection Hm as -> ->. now apply finditer_whole.
    + now apply finditer_none.
  - rewrite Hstart. reflexivity.
Qed.

Lemma found_references_plain (ds : text) :
  ds <> [] -> Forall (fun c => is_digit c = true) ds ->
  found_references (figure_n ds) = [plain_reference ds; plain_reference ds].
Proof.
  intros Hne Hds. unfold found_references.
  rewrite (flat_map_combine snd (fun p => finditer (fst p) (figure_n ds))
                            (fun b ms => map (reference_of b) ms) PATTERNS).
  rewrite (finditer_plain ds Hne Hds). reflexivity.
Qed.

(** The decimal digits written by [str] spell the number. *)
Lemma decimal_of_uint d : forall acc,
  fold_left (fun acc c => 10 * acc + (Z.of_N c - 48))
            (codes (DecimalString.NilEmpty.string_of_uint d)) (Z.of_nat acc)
  = Z.of_nat (Nat.of_uint_acc d acc).
Proof.
  induction d; intros acc; cbn [DecimalString.NilEmpty.string_of_uint codes fold_left
                                 Nat.of_uint_acc]; [reflexivity| | | | | | | | | |];
    rewrite <- IHd, Nat.tail_mul_spec; f_equal;
    match goal with
    | |- context [Z.of_N (code ?c)] =>
        let v := eval vm_compute in (Z.of_N (code c)) in
        change (Z.of_N (code c)) with v
    end; lia.
Qed.

Lemma decimal_str_nat n : decimal (codes (Matcher.str_nat n)) = Z.of_nat n.
Proof.
  unfold decimal, Matcher.str_nat. rewrite (decimal_of_uint _ 0).
  change (Nat.of_uint_acc (Nat.to_uint n) 0) with (Nat.of_uint (Nat.to_uint n)).
  now rewrite DecimalNat.Unsigned.of_to.
Qed.

Lemma uint_digits d :
  Forall (fun c => is_digit c = true) (codes (DecimalString.NilEmpty.string_of_uint d)).
Proof. induction d; simpl; constructor; auto. Qed.

Lemma codes_app a b : codes (String.append a b) = codes a ++ codes b.
Proof. induction a as [|c a IH]; simpl; [reflexivity | now rewrite IH]. Qed.

Lemma codes_length s : length (codes s) = String.length s.
Proof. induction s; simpl; congruence. Qed.

(** The matches on "Figure n" capture the digits as group 1. *)
Lemma plain_groups (ds : text) p m :
  ds <> [] -> Forall (fun c => is_digit c = true) ds ->
  In p PATTERNS -> In m (finditer (fst p) (figure_n ds)) ->
  group 1 (m_groups m) = Some ds.
Proof.
  intros Hne Hds Hp Hm.
  assert (Hin : In (finditer (fst p) (figure_n ds))
                   [[]; []; []; []; [plain_match ds]; []; [plain_match ds]; []; []; []]).
  { rewrite <- (finditer_plain ds Hne Hds).
    apply (in_map (fun p => finditer (fst p) (figure_n ds))). exact Hp. }
  assert (E : m = plain_match ds).
  { simpl in Hin.
    repeat (destruct Hin as [Hin | Hin];
            [rewrite <- Hin in Hm; simpl in Hm; intuition congruence|]).
    contradiction. }
  subst m. reflexivity.
Qed.

Lemma kept_references_plain (ds : text) :
  ds <> [] -> Forall (fun c => is_digit c = true) ds ->
  kept_references (figure_n ds) = [plain_reference ds].
Proof.
  intros Hne Hds. unfold kept_references.
  rewrite (found_references_plain ds Hne Hds).
  cbn [sorted_by_start fold_right insert_by_start plain_reference ref_start Nat.leb unique
       existsb].
  replace (key_eqb (ref_key (plain_reference ds)) (ref_key (plain_reference ds)))
    with true; [reflexivity|].
  symmetry. now apply key_eqb_eq.
Qed.

(** What [extract_references] does on "Figure n". *)
Lemma extract_references_plain (ds : text) :
  ds <> [] -> Forall (fun c => is_digit c = true) ds ->
  extract_references (figure_n ds)
  = if Nat.leb (length ds) max_str_digits then Some [plain_reference ds] else None.
Proof.
  intros Hne Hds. destruct (Nat.leb_spec (length ds) max_str_digits) as [Hle | Hgt].
  - unfold extract_references.
    replace (references (figure_n ds)) with (Some (found_references (figure_n ds))).
    + fold (kept_references (figure_n ds)). now rewrite kept_references_plain.
    + symmetry. apply references_Some. split; [reflexivity|].
      intros p m Hp Hm. exists ds. split; [now apply (plain_groups ds p m) | auto].
  - apply extract_references_None.
    exists (nth 4 PATTERNS (Lit 0, false)), (plain_match ds), ds.
    split; [unfold PATTERNS; simpl; tauto|]. split; [|split; [reflexivity | assumption]].
    pose proof (finditer_plain ds Hne Hds) as H.
    apply (f_equal (fun l => nth 4 l [])) in H.
    change (nth 4 (map (fun p => finditer (fst p) (figure_n ds)) PATTERNS) [])
      with (finditer (fst (nth 4 PATTERNS (Lit 0, false))) (figure_n ds)) in H.
    rewrite H. now left.
Qed.

(** X21: the text "Figure " followed by a non-empty string of at most
    4300 digits yields exactly one reference: to the figure whose number
    the digits spell, without sub-figure, spanning the whole text.  With
    more than 4300 digits [extract_references] raises.  In particular,
    for every natural number [n] written with at most 4300 digits, the
    text "Figure n" is read back as a reference to figure [n]. *)
Theorem plain_citation_read_back :
  (forall ds : text,
      ds <> [] -> Forall (fun c => is_digit c = true) ds ->
      (length ds <= max_str_digits)%nat ->
      int ds = Some (decimal ds)
      /\ extract_references (codes "Figure "%string ++ ds)
         = Some [mkReference (codes "Figure "%string ++ ds) (decimal ds) None 0
                             (7 + length ds)])
  /\ (forall ds : text,
        ds <> [] -> Forall (fun c => is_digit c = true) ds ->
        (max_str_digits < length ds)%nat ->
        extract_references (codes "Figure "%string ++ ds) = None)
  /\ (forall n : nat,
        (String.length (Matcher.str_nat n) <= max_str_digits)%nat ->
        extract_references (codes (String.append "Figure "%string (Matcher.str_nat n)))
        = Some [mkReference (codes (String.append "Figure "%string (Matcher.str_nat n)))
                            (Z.of_nat n) None 0
                            (String.length
                               (String.append "Figure "%string (Matcher.str_nat n)))]).
Proof.
  assert (H : forall ds : text,
            ds <> [] -> Forall (fun c => is_digit c = true) ds ->
            (length ds <= max_str_digits)%nat ->
            extract_references (figure_n ds) = Some [plain_reference ds]).
  { intros ds Hne Hds Hle. rewrite (extract_references_plain ds Hne Hds).
    apply Nat.leb_le in Hle. now rewrite Hle. }
  split.
  { intros ds Hne Hds Hle. split; [|exact (H ds Hne Hds Hle)].
    apply int_Some. auto. }
  split.
  { intros ds Hne Hds Hgt. change (codes "Figure "%string ++ ds) with (figure_n ds).
    rewrite (extract_references_plain ds Hne Hds).
    destruct (Nat.leb_spec (length ds) max_str_digits); [lia | reflexivity]. }
  intros n Hlen. rewrite codes_app.
  assert (Hne : codes (Matcher.str_nat n) <> []).
  { unfold Matcher.str_nat.
    assert (Hnn : Nat.to_uint n <> Decimal.Nil).
    { rewrite <- (DecimalNat.Unsigned.of_to n) at 1. rewrite DecimalNat.Unsigned.to_of.
      apply DecimalFacts.unorm_nonnil. }
    destruct (Nat.to_uint n); [congruence | | | | | | | | | |]; discriminate. }
  change (codes "Figure "%string ++ codes (Matcher.str_nat n))
    with (figure_n (codes (Matcher.str_nat n))).
  rewrite (H _ Hne (uint_digits _)) by now rewrite codes_length.
  unfold plain_reference, figure_n.
  rewrite decimal_str_nat, codes_length. reflexivity.
Qed.

Lemma plain_citation_read_back_witness :
  int (codes "12"%string) = Some (decimal (codes "12"%string))
  /\ extract_references (codes "Figure "%string ++ codes "12"%string)
     = Some [mkReference (codes "Figure "%string ++ codes "12"%string)
                         (decimal (codes "12"%string))
                         None 0 (7 + length (codes "12"%string))].
Proof.
  apply (proj1 plain_citation_read_back (codes "12"%string)).
  - discriminate.
  - repeat constructor.
  - apply Nat.leb_le. reflexivity.
Defined.

End PlainFacts.

(* ================================================================== *)
(** * Properties of the figure number of a question *)
(* ================================================================== *)

Module QuestionFacts.
Import Refs Question RefsFacts.

(** The greedy star takes a run of matching characters when the rest of
    the expression succeeds after it. *)
Lemma star_cs_run {R} items run : forall s pos (k : text -> nat -> option R) r,
  Forall (fun c => class_in items c = true) run ->
  match s with [] => True | c :: _ => class_in items c = false end ->
  k s (pos + length run)%nat = Some r ->
  star_cs items (run ++ s) pos k = Some r.
Proof.
  induction run as [|c run IH]; intros s pos k r Hrun Hs Hk.
  - simpl in *. rewrite Nat.add_0_r in Hk.
    destruct s as [|c s]; simpl; [assumption|]. now rewrite Hs.
  - inversion Hrun as [|? ? Hc Hrest]; subst. simpl. rewrite Hc.
    rewrite (IH s (S pos) k r Hrest Hs); [reflexivity|].
    simpl in Hk. now rewrite Nat.add_succ_r in Hk.
Qed.

(** When the rest of the expression always succeeds, so does the star. *)
Lemma star_cs_total {R} (P : R -> Prop) items s : forall pos (k : text -> nat -> option R),
  (forall s' pos', exists r, k s' pos' = Some r /\ P r) ->
  exists r, star_cs items s pos k = Some r /\ P r.
Proof.
  induction s as [|c s IH]; intros pos k Hk; simpl; [apply Hk|].
  destruct (class_in items c); [|apply Hk].
  destruct (IH (S pos) k Hk) as (r & -> & Hr). eauto.
Qed.

Lemma is_space_true c :
  is_space c = true ->
  (9 <= c <= 13 \/ 28 <= c <= 32 \/ c = 133 \/ c = 160 \/ c = 5760 \/ 8192 <= c <= 8202
   \/ c = 8232 \/ c = 8233 \/ c = 8239 \/ c = 8287 \/ c = 12288)%N.
Proof.
  unfold is_space. rewrite !orb_true_iff, !andb_true_iff, !N.leb_le, !N.eqb_eq. tauto.
Qed.

Lemma is_letter_true c : is_letter c = true -> (97 <= c <= 122 \/ 65 <= c <= 90)%N.
Proof.
  unfold is_letter. rewrite !orb_true_iff, !andb_true_iff, !N.leb_le. tauto.
Qed.

Lemma is_digit_range c : is_digit c = true -> (48 <= c <= 57)%N.
Proof. unfold is_digit. rewrite !andb_true_iff, !N.leb_le. tauto. Qed.

Lemma class_space c : class_in [Space] c = is_space c.
Proof. unfold class_in. simpl. apply orb_false_r. Qed.

Lemma class_digit c : class_in [Digit] c = is_digit c.
Proof. unfold class_in. simpl. apply orb_false_r. Qed.

Lemma digit_not_space_cs c : is_digit c = true -> class_in [Space] c = false.
Proof.
  intros H. apply is_digit_range in H. rewrite class_space.
  destruct (is_space c) eqn:E; [|reflexivity]. apply is_space_true in E. lia.
Qed.

Lemma digit_class_cs c : is_digit c = true -> class_in [Digit] c = true.
Proof. intros H. now rewrite class_digit. Qed.

Lemma letter_class c : is_letter c = true -> class_in a_zA_Z c = true.
Proof.
  unfold is_letter, class_in, a_zA_Z, existsb, in_item. intros H.
  change (code "a"%char) with 97%N. change (code "z"%char) with 122%N.
  change (code "A"%char) with 65%N. change (code "Z"%char) with 90%N.
  now rewrite orb_false_r.
Qed.

Lemma letter_not_space c : is_letter c = true -> class_in [Space] c = false.
Proof.
  intros H. apply is_letter_true in H. rewrite class_space.
  destruct (is_space c) eqn:E; [|reflexivity]. apply is_space_true in E. lia.
Qed.

Lemma letter_not_digit c : is_letter c = true -> class_in [Digit] c = false.
Proof.
  intros H. apply is_letter_true in H. rewrite class_digit.
  destruct (is_digit c) eqn:E; [|reflexivity]. apply is_digit_range in E. lia.
Qed.

Lemma letter_not_punct c : is_letter c = true -> class_in (map One (codes "-.("%string)) c = false.
Proof.
  intros H. apply is_letter_true in H.
  unfold class_in. cbn [codes map existsb in_item].
  change (code "-"%char) with 45%N. change (code "."%char) with 46%N.
  change (code "("%char) with 40%N.
  destruct (N.eqb_spec c 45); [lia|]. destruct (N.eqb_spec c 46); [lia|].
  destruct (N.eqb_spec c 40); [lia|]. reflexivity.
Qed.

Lemma space_not_digit c : class_in [Space] c = true -> class_in [Digit] c = false.
Proof.
  rewrite class_space, class_digit. intros H. apply is_space_true in H.
  destruct (is_digit c) eqn:E; [|reflexivity]. apply is_digit_range in E. lia.
Qed.

Lemma firstn_run {A} (l s : list A) : firstn (length l) (l ++ s) = l.
Proof. induction l as [|a l IH]; simpl; [reflexivity | now rewrite IH]. Qed.

(** [\s*[\)]?] at the end of a pattern never fails. *)
Lemma tail_total {R} (P : R -> Prop) (k : text -> nat -> captures -> option R) s pos caps :
  (forall s' pos', exists r, k s' pos' caps = Some r /\ P r) ->
  exists r,
    match_cs (cat [Star [Space]; Opt (one_of ")"%string)]) R s pos caps k = Some r /\ P r.
Proof.
  intros Hk. cbn [cat match_cs]. apply star_cs_total. intros s' pos'.
  destruct (Hk s' pos') as (r0 & Hr0 & HP0).
  unfold one_of. cbn [match_cs].
  destruct s' as [|x s']; [rewrite Hr0; eauto|].
  destruct (class_in (map One (codes ")"%string)) x).
  - destruct (Hk s' (S pos')) as (r1 & -> & HP1). eauto.
  - rewrite Hr0. eauto.
Qed.

(** [\s*[-\.\(]?\s*([a-zA-Z])\s*[\)]?] on white space followed by a
    letter: the letter is captured as group 2. *)
Lemma label_match {R} (P : R -> Prop) (k : text -> nat -> captures -> option R)
    spaces c rest pos caps :
  Forall (fun x => is_space x = true) spaces -> is_letter c = true ->
  (forall s' pos', exists r, k s' pos' ((2%nat, [c]) :: caps) = Some r /\ P r) ->
  exists r,
    match_cs (cat [Star [Space]; Opt (one_of "-.("%string); Star [Space]; any_letter;
                   Star [Space]; Opt (one_of ")"%string)])
             R (spaces ++ c :: rest) pos caps k = Some r /\ P r.
Proof.
  intros Hsp Hc Hk.
  destruct (tail_total P k rest (S (pos + length spaces)) ((2%nat, [c]) :: caps) Hk)
    as (r & Hr & HP).
  exists r. split; [|exact HP].
  change (cat [Star [Space]; Opt (one_of "-.("%string); Star [Space]; any_letter;
               Star [Space]; Opt (one_of ")"%string)])
    with (Cat (Star [Space])
              (Cat (Opt (Class (map One (codes "-.("%string))))
                   (Cat (Star [Space])
                        (Cat (Group 2 (Class a_zA_Z))
                             (cat [Star [Space]; Opt (one_of ")"%string)]))))).
  cbn [match_cs]. apply star_cs_run.
  - eapply Forall_impl; [|exact Hsp]. intros x Hx. now rewrite class_space.
  - now apply letter_not_space.
  - rewrite (letter_not_punct c Hc). cbn [star_cs].
    rewrite (letter_not_space c Hc), (letter_class c Hc).
    replace (S (pos + length spaces) - (pos + length spaces))%nat with 1%nat by lia.
    exact Hr.
Qed.

(** [(\d+)] on a run of digits followed by something else: the run is
    captured as group 1. *)
Lemma number_match {R} (k : text -> nat -> captures -> option R) ds s pos caps r :
  ds <> [] -> Forall (fun d => is_digit d = true) ds ->
  match s with [] => True | x :: _ => class_in [Digit] x = false end ->
  k s (pos + length ds)%nat ((1%nat, ds) :: caps) = Some r ->
  match_cs number R (ds ++ s) pos caps k = Some r.
Proof.
  intros Hne Hds Hs Hk. destruct ds as [|d ds]; [congruence|].
  inversion Hds as [|? ? Hd Hrest]; subst.
  unfold number, plus. cbn [match_cs app]. rewrite (digit_class_cs d Hd).
  apply star_cs_run.
  - eapply Forall_impl; [|exact Hrest]. apply digit_class_cs.
  - exact Hs.
  - replace (S pos + length ds - pos)%nat with (length (d :: ds)) by (cbn [length]; lia).
    change (d :: ds ++ s) with ((d :: ds) ++ s). rewrite (firstn_run (d :: ds) s).
    simpl in Hk. now rewrite Nat.add_succ_r in Hk.
Qed.

(** [[Ff]igure?\s*] on "Figure " followed by something that is no white
    space. *)
Lemma figure_head {R} (rest_re : regex) (k : text -> nat -> captures -> option R) u r :
  match u with [] => True | x :: _ => class_in [Space] x = false end ->
  match_cs rest_re R u 7 [] k = Some r ->
  match_cs (Cat figure_word (Cat (Star [Space]) rest_re)) R
           (codes "Figure "%string ++ u) 0 [] k = Some r.
Proof.
  intros Hu H. cbn.
  destruct u as [|x u]; cbn [star_cs]; [now rewrite H|].
  change (existsb (fun it => in_item it x) [Space]) with (class_in [Space] x).
  rewrite Hu. now rewrite H.
Qed.

Lemma search_cs_here r s pos m :
  match_cs r Match s pos [] (found_cs pos s) = Some m -> search_cs r s pos = Some m.
Proof. intros H. destruct s; simpl; now rewrite H. Qed.

(** The first pattern on a question that begins with "Figure ", a number,
    white space and a letter. *)
Lemma first_pattern_match ds spaces c rest :
  ds <> [] -> Forall (fun d => is_digit d = true) ds ->
  Forall (fun x => is_space x = true) spaces -> is_letter c = true ->
  exists m,
    search_cs (fst (hd (Lit 0, true) patterns)) (figure_then_word ds spaces c rest) 0 = Some m
    /\ m_groups m = [(2%nat, [c]); (1%nat, ds)].
Proof.
  intros Hne Hds Hsp Hc. set (t := figure_then_word ds spaces c rest).
  destruct (label_match (fun m => m_groups m = [(2%nat, [c]); (1%nat, ds)])
                        (found_cs 0 t) spaces c rest (7 + length ds) [(1%nat, ds)] Hsp Hc)
    as (m & Hm & Hgroups).
  { intros s' pos'. unfold found_cs. eauto. }
  exists m. split; [|exact Hgroups]. apply search_cs_here.
  change (fst (hd (Lit 0, true) patterns))
    with (Cat figure_word
              (Cat (Star [Space])
                   (Cat number
                        (cat [Star [Space]; Opt (one_of "-.("%string); Star [Space];
                              any_letter; Star [Space]; Opt (one_of ")"%string)])))).
  unfold t at 1, figure_then_word. apply figure_head.
  - destruct ds as [|d ds]; [congruence|]. inversion Hds; subst.
    now apply digit_not_space_cs.
  - cbn [match_cs]. apply number_match; [assumption | assumption | | exact Hm].
    destruct spaces as [|x spaces]; simpl.
    + now apply letter_not_digit.
    + inversion Hsp; subst. apply space_not_digit. now rewrite class_space.
Qed.

(** X22: in a question that begins with "Figure ", a number, any white
    space (possibly none) and a letter, [_extract_figure_number] reads the
    letter, in lower case, as the sub-figure label, whatever follows: the
    first letter of the word after the number is taken for a label.  The
    number is what [int] makes of the digits; when there are more than
    4300 of them [int] raises, and so does [_extract_figure_number]. *)
Theorem question_word_taken_as_label (ds spaces : text) (c : N) (rest : text) :
  ds <> [] -> Forall (fun d => is_digit d = true) ds ->
  Forall (fun x => is_space x = true) spaces -> is_letter c = true ->
  extract_figure_number (codes "Figure "%string ++ ds ++ spaces ++ c :: rest)
  = match int ds with
    | Some number => Some (Some (mkFigRef number (Some [letter_lower c])))
    | None => None
    end.
Proof.
  intros Hne Hds Hsp Hc.
  destruct (first_pattern_match ds spaces c rest Hne Hds Hsp Hc) as (m & Hm & Hg).
  unfold extract_figure_number.
  change patterns with ((fst (hd (Lit 0, true) patterns), true) :: tl patterns).
  cbn [first_match]. unfold figure_then_word in Hm. rewrite Hm.
  unfold fig_ref. rewrite Hg. cbn [group Nat.eqb].
  destruct (int ds); reflexivity.
Qed.

Lemma question_word_taken_as_label_witness :
  extract_figure_number figure_3_shows
  = Some (Some (mkFigRef 3 (Some (codes "s"%string)))).
Proof.
  apply (question_word_taken_as_label (codes "3"%string) (codes " "%string) (code "s"%char)
           (codes "hows what?"%string)).
  - discriminate.
  - repeat constructor.
  - repeat constructor.
  - reflexivity.
Defined.

(** ** Questions in which no letter follows the number *)

Lemma star_cs_inv {R} items s : forall pos (k : text -> nat -> option R) res,
  star_cs items s pos k = Some res ->
  exists d, (d <= length s)%nat /\ k (skipn d s) (pos + d)%nat = Some res.
Proof.
  induction s as [|c s IH]; intros pos k res H; simpl in H.
  - exists 0%nat. simpl. now rewrite Nat.add_0_r.
  - destruct (class_in items c).
    + destruct (star_cs items s (S pos) k) as [r|] eqn:E.
      * injection H as <-. destruct (IH _ _ _ E) as (d & Hd & Hk).
        exists (S d). simpl. split; [lia|]. now rewrite Nat.add_succ_r.
      * exists 0%nat. simpl. rewrite Nat.add_0_r. split; [lia | assumption].
    + exists 0%nat. simpl. rewrite Nat.add_0_r. split; [lia | assumption].
Qed.

Lemma match_cs_inv r : forall R s pos caps (k : text -> nat -> captures -> option R) res,
  match_cs r R s pos caps k = Some res ->
  exists d caps', (d <= length s)%nat /\ k (skipn d s) (pos + d)%nat caps' = Some res.
Proof.
  induction r as [x|items|a IHa b IHb|a IHa b IHb|a IHa|items|n a IHa|a IHa];
    intros R s pos caps k res H; simpl in H.
  - destruct s as [|c s]; [discriminate|]. destruct (c =? x)%N; [|discriminate].
    exists 1%nat, caps. simpl. split; [lia|]. now rewrite Nat.add_1_r.
  - destruct s as [|c s]; [discriminate|]. destruct (class_in items c); [|discriminate].
    exists 1%nat, caps. simpl. split; [lia|]. now rewrite Nat.add_1_r.
  - destruct (IHa _ _ _ _ _ _ H) as (d1 & c1 & Hd1 & H1).
    destruct (IHb _ _ _ _ _ _ H1) as (d2 & c2 & Hd2 & H2).
    rewrite length_skipn in Hd2.
    exists (d1 + d2)%nat, c2. split; [lia|].
    rewrite skipn_skipn in H2. now rewrite Nat.add_assoc, (Nat.add_comm d1 d2).
  - destruct (match_cs a R s pos caps k) eqn:E.
    + injection H as <-. now apply (IHa _ _ _ _ _ _ E).
    + now apply (IHb _ _ _ _ _ _ H).
  - destruct (match_cs a R s pos caps k) eqn:E.
    + injection H as <-. now apply (IHa _ _ _ _ _ _ E).
    + exists 0%nat, caps. simpl. rewrite Nat.add_0_r. split; [lia | assumption].
  - destruct (star_cs_inv _ _ _ _ _ H) as (d & Hd & Hk). now exists d, caps.
  - destruct (IHa _ _ _ _ _ _ H) as (d & c' & Hd & Hk). eauto.
  - destruct (match_cs a unit s pos caps (fun _ _ _ => Some tt)); [discriminate|].
    exists 0%nat, caps. simpl. rewrite Nat.add_0_r. split; [lia | assumption].
Qed.

Lemma In_firstn_more {A} (l : list A) x n m : (n <= m)%nat -> In x (firstn n l) -> In x (firstn m l).
Proof.
  revert l m. induction n as [|n IH]; intros l m Hle Hin; [destruct l; contradiction|].
  destruct l as [|a l]; [contradiction|]. destruct m as [|m]; [lia|].
  simpl in *. destruct Hin as [-> | Hin]; [now left | right]. apply (IH l m); [lia | assumption].
Qed.

Lemma In_firstn_after {A} (l : list A) x n m :
  In x (firstn m (skipn n l)) -> In x (firstn (n + m) l).
Proof.
  revert l. induction n as [|n IH]; intros l Hin; [assumption|].
  destruct l as [|a l]; [destruct m; contradiction|]. simpl. right. now apply IH.
Qed.

Lemma In_firstn_In {A} (l : list A) x n : In x (firstn n l) -> In x l.
Proof.
  intros H. rewrite <- (firstn_skipn n l). apply in_or_app. now left.
Qed.

(** A match of an expression that demands a character has consumed one. *)
Lemma match_cs_demands P r :
  Demands P r ->
  forall R s pos caps (k : text -> nat -> captures -> option R) res,
  match_cs r R s pos caps k = Some res ->
  exists d caps',
    (d <= length s)%nat
    /\ k (skipn d s) (pos + d)%nat caps' = Some res
    /\ exists c, In c (firstn d s) /\ P c.
Proof.
  induction 1 as [x Hx|items Hitems|a b _ IHa|a b _ IHb|a b _ IHa _ IHb|n a _ IHa];
    intros R s pos caps k res H; simpl in H.
  - destruct s as [|c s]; [discriminate|].
    destruct (N.eqb_spec c x) as [->|]; [|discriminate].
    exists 1%nat, caps. simpl. split; [lia|]. rewrite Nat.add_1_r. split; [assumption|].
    exists x. split; [now left | assumption].
  - destruct s as [|c s]; [discriminate|].
    destruct (class_in items c) eqn:Hc; [|discriminate].
    exists 1%nat, caps. simpl. split; [lia|]. rewrite Nat.add_1_r. split; [assumption|].
    exists c. split; [now left | now apply Hitems].
  - destruct (IHa _ _ _ _ _ _ H) as (d1 & c1 & Hd1 & H1 & c & Hc & HP).
    destruct (match_cs_inv _ _ _ _ _ _ _ H1) as (d2 & c2 & Hd2 & H2).
    rewrite length_skipn in Hd2. rewrite skipn_skipn in H2.
    exists (d1 + d2)%nat, c2. split; [lia|]. split.
    + now rewrite Nat.add_assoc, (Nat.add_comm d1 d2).
    + exists c. split; [|assumption]. eapply In_firstn_more; [|eassumption]. lia.
  - destruct (match_cs_inv _ _ _ _ _ _ _ H) as (d1 & c1 & Hd1 & H1).
    destruct (IHb _ _ _ _ _ _ H1) as (d2 & c2 & Hd2 & H2 & c & Hc & HP).
    rewrite length_skipn in Hd2. rewrite skipn_skipn in H2.
    exists (d1 + d2)%nat, c2. split; [lia|]. split.
    + now rewrite Nat.add_assoc, (Nat.add_comm d1 d2).
    + exists c. split; [|assumption]. now apply In_firstn_after.
  - destruct (match_cs a R s pos caps k) eqn:E.
    + injection H as <-. now apply (IHa _ _ _ _ _ _ E).
    + now apply (IHb _ _ _ _ _ _ H).
  - destruct (IHa _ _ _ _ _ _ H) as (d & c' & Hd' & Hk & Hc). eauto.
Qed.

(** An expression that demands a character fails on a text without one. *)
Lemma match_cs_absent P r R s pos caps (k : text -> nat -> captures -> option R) :
  Demands P r -> (forall c, In c s -> ~ P c) ->
  match_cs r R s pos caps k = None.
Proof.
  intros HD Hs. destruct (match_cs r R s pos caps k) as [res|] eqn:E; [|reflexivity].
  destruct (match_cs_demands P r HD _ _ _ _ _ _ E) as (d & caps' & _ & _ & c & Hc & HP).
  exfalso. apply (Hs c); [|assumption]. now apply In_firstn_In in Hc.
Qed.

Lemma letter_demanded c : class_in a_zA_Z c = true -> is_letter c = true.
Proof.
  unfold is_letter, class_in, a_zA_Z, existsb, in_item.
  change (code "a"%char) with 97%N. change (code "z"%char) with 122%N.
  change (code "A"%char) with 65%N. change (code "Z"%char) with 90%N.
  now rewrite orb_false_r.
Qed.

Lemma demands_letter : Demands (fun c => is_letter c = true) (Class a_zA_Z).
Proof. apply Demands_class. exact letter_demanded. Qed.

Lemma digit_no_letter c : is_digit c = true -> no_letter_char c.
Proof.
  intros H. apply is_digit_range in H. split; [|lia].
  destruct (is_letter c) eqn:E; [|reflexivity]. apply is_letter_true in E. lia.
Qed.

(** No pattern matches at a character other than "F", "f" and U+56FE, nor
    at the end of the text. *)
Lemma patterns_first_char s :
  match s with [] => True | x :: _ => no_letter_char x \/ In x (codes "igure "%string) end ->
  forall p, In p patterns ->
  forall R pos caps (k : text -> nat -> captures -> option R),
    match_cs (fst p) R s pos caps k = None.
Proof.
  intros Hs.
  assert (H : Forall (fun p => forall R pos caps (k : text -> nat -> captures -> option R),
                        match_cs (fst p) R s pos caps k = None) patterns).
  { destruct s as [|x s].
    - unfold patterns. repeat (constructor; [intros; reflexivity|]). constructor.
    - assert (HF : class_in (map One (codes "Ff"%string)) x = false).
      { unfold class_in. cbn [codes map existsb in_item].
        change (code "F"%char) with 70%N. change (code "f"%char) with 102%N.
        destruct (N.eqb_spec x 70) as [->|]; [|destruct (N.eqb_spec x 102) as [->|]];
          [| |reflexivity]; exfalso;
          (destruct Hs as [[Hl _] | Hin];
           [discriminate Hl | simpl in Hin; intuition discriminate]). }
      assert (Ht : (x =? 22270)%N = false).
      { destruct (N.eqb_spec x 22270) as [->|]; [|reflexivity]. exfalso.
        destruct Hs as [[_ Hn] | Hin]; [congruence | simpl in Hin; intuition discriminate]. }
      unfold patterns.
      repeat (constructor;
              [ intros;
                cbn [fst cat match_cs figure_word fig_word tu one_of];
                rewrite ?HF, ?Ht; reflexivity | ]).
      constructor. }
  intros p Hp. rewrite Forall_forall in H. now apply H.
Qed.

Lemma search_cs_none r s : forall pos,
  (forall d, (d <= length s)%nat ->
     match_cs r Match (skipn d s) (pos + d)%nat [] (found_cs (pos + d)%nat (skipn d s)) = None) ->
  search_cs r s pos = None.
Proof.
  induction s as [|c s IH]; intros pos H.
  - specialize (H 0%nat (Nat.le_refl _)). simpl in H. rewrite Nat.add_0_r in H.
    simpl. now rewrite H.
  - assert (H0 := H 0%nat (Nat.le_0_l _)). simpl in H0. rewrite Nat.add_0_r in H0.
    cbn [search_cs]. rewrite H0. apply IH.
    intros d Hd. specialize (H (S d)). simpl in H. rewrite Nat.add_succ_r in H.
    apply H. lia.
Qed.

Lemma skipn_head {A} (Q : A -> Prop) (l : list A) d :
  Forall Q l -> match skipn d l with [] => True | x :: _ => Q x end.
Proof.
  revert l. induction d as [|d IH]; intros l H.
  - destruct l; [exact I|]. now inversion H.
  - destruct l as [|a l]; [exact I|]. inversion H; subst. simpl. now apply IH.
Qed.

(** [[Ff]igure?\s*] followed by an expression that does not match: on
    "Figure " and something that is no white space. *)
Lemma figure_head_none {R} (rest_re : regex) (k : text -> nat -> captures -> option R) u :
  match u with [] => True | x :: _ => class_in [Space] x = false end ->
  (forall s pos, match_cs rest_re R (code " "%char :: s) pos [] k = None) ->
  (forall s pos, match_cs rest_re R (code "e"%char :: s) pos [] k = None) ->
  match_cs rest_re R u 7 [] k = None ->
  match_cs (Cat figure_word (Cat (Star [Space]) rest_re)) R
           (codes "Figure "%string ++ u) 0 [] k = None.
Proof.
  intros Hu Hsp He H. cbn.
  change 32%N with (code " "%char). change 101%N with (code "e"%char).
  rewrite (Hsp u 6%nat), (He (code " "%char :: u) 5%nat).
  destruct u as [|x u]; cbn [star_cs]; [now rewrite H|].
  change (existsb (fun it => in_item it x) [Space]) with (class_in [Space] x).
  rewrite Hu. now rewrite H.
Qed.

Lemma first_match_skip ps qs t :
  Forall (fun p => search_cs (fst p) t 0 = None) ps ->
  first_match (ps ++ qs) t = first_match qs t.
Proof.
  induction 1 as [|[r b] ps Hr _ IH]; [reflexivity|].
  simpl in *. now rewrite Hr.
Qed.

Section NoLetter.

Variables ds rest : text.
Hypothesis Hne : ds <> [].
Hypothesis Hds : Forall (fun d => is_digit d = true) ds.
Hypothesis Hrest : Forall no_letter_char rest.
Hypothesis Hstop : match rest with [] => True | x :: _ => ascii_no_digit x end.

Let t : text := codes "Figure "%string ++ ds ++ rest.

Lemma no_letter_after : forall c, In c (ds ++ rest) -> ~ is_letter c = true.
Proof.
  intros c Hc Hl. apply in_app_or in Hc. destruct Hc as [Hc | Hc].
  - rewrite Forall_forall in Hds. destruct (digit_no_letter c (Hds c Hc)). congruence.
  - rewrite Forall_forall in Hrest. destruct (Hrest c Hc). congruence.
Qed.

Lemma number_not_space : match ds ++ rest with [] => True | x :: _ => class_in [Space] x = false end.
Proof.
  destruct ds as [|d ds']; [congruence|]. inversion Hds; subst. simpl.
  now apply digit_not_space_cs.
Qed.

(** A number followed by an expression that demands a letter. *)
Lemma number_then_letter R X (k : text -> nat -> captures -> option R) :
  Demands (fun c => is_letter c = true) X ->
  match_cs (Cat figure_word (Cat (Star [Space]) (Cat number X))) R t 0 [] k = None.
Proof.
  intros HX. apply figure_head_none.
  - exact number_not_space.
  - reflexivity.
  - reflexivity.
  - apply (match_cs_absent (fun c => is_letter c = true)).
    + now apply Demands_right.
    + exact no_letter_after.
Qed.

(** The patterns with a sub-figure label do not match at the start. *)
Lemma labelled_fail_at_start :
  Forall (fun p => forall (k : text -> nat -> captures -> option Match),
            match_cs (fst p) Match t 0 [] k = None) (firstn 5 patterns).
Proof.
  unfold patterns. cbn [firstn].
  constructor; [|constructor; [|constructor; [|constructor; [|constructor; [|constructor]]]]];
    intros k; cbn [fst].
  - apply (number_then_letter Match
             (cat [Star [Space]; Opt (one_of "-.("%string); Star [Space]; any_letter;
                   Star [Space]; Opt (one_of ")"%string)])).
    cbn [cat]. do 3 apply Demands_right. apply Demands_left, Demands_group, demands_letter.
  - reflexivity.
  - reflexivity.
  - reflexivity.
  - apply (number_then_letter Match (cat [Star [Space]; zi; tu; Star [Space]; any_letter])).
    cbn [cat]. do 4 apply Demands_right. apply Demands_group, demands_letter.
Qed.

(** No pattern matches after the start. *)
Lemma fail_after_start p d (k : text -> nat -> captures -> option Match) pos :
  In p patterns -> (1 <= d)%nat ->
  match_cs (fst p) Match (skipn d t) pos [] k = None.
Proof.
  intros Hp Hd. apply patterns_first_char; [|assumption].
  destruct d as [|d]; [lia|].
  change (skipn (S d) t) with (skipn d (codes "igure "%string ++ ds ++ rest)).
  apply (skipn_head (fun x => no_letter_char x \/ In x (codes "igure "%string))).
  apply Forall_app. split.
  - apply Forall_forall. intros x Hx. now right.
  - apply Forall_app. split.
    + eapply Forall_impl; [|exact Hds]. intros x Hx. left. now apply digit_no_letter.
    + eapply Forall_impl; [|exact Hrest]. intros x Hx. now left.
Qed.

Lemma labelled_not_found :
  Forall (fun p => search_cs (fst p) t 0 = None) (firstn 5 patterns).
Proof.
  pose proof labelled_fail_at_start as H0. rewrite Forall_forall in H0 |- *.
  intros p Hp. apply search_cs_none. intros d Hd.
  destruct d as [|d].
  - apply (H0 p Hp).
  - apply fail_after_start; [|lia]. eapply In_firstn_In. exact Hp.
Qed.

(** The sixth pattern matches at the start. *)
Lemma plain_found :
  search_cs (cat [figure_word; Star [Space]; number; no_any_letter]) t 0
  = Some (mkMatch 0 (7 + length ds) [(1%nat, ds)] (firstn (7 + length ds - 0) t)).
Proof.
  apply search_cs_here.
  change (cat [figure_word; Star [Space]; number; no_any_letter])
    with (Cat figure_word (Cat (Star [Space]) (Cat number no_any_letter))).
  apply figure_head; [exact number_not_space|].
  cbn [match_cs]. apply number_match; [exact Hne | exact Hds | |].
  - destruct rest as [|x r]; [exact I|]. rewrite class_digit. exact (proj1 Hstop).
  - unfold no_any_letter. cbn [match_cs].
    rewrite (match_cs_absent (fun c => is_letter c = true)); [reflexivity | |].
    + cbn [cat]. apply Demands_right, demands_letter.
    + intros c Hc. apply no_letter_after. apply in_or_app. now right.
Qed.

End NoLetter.

(** X23: in a question that begins with "Figure " and a number, followed
    by characters none of which is an ASCII letter or U+56FE (and the
    first of which is an ASCII character other than a digit),
    [_extract_figure_number] reads the number and no sub-figure label.
    The number is what [int] makes of the digits; when there are more than
    4300 of them [int] raises, and so does [_extract_figure_number]. *)
Theorem question_without_word (ds rest : text) :
  ds <> [] -> Forall (fun d => is_digit d = true) ds ->
  Forall no_letter_char rest ->
  match rest with [] => True | x :: _ => ascii_no_digit x end ->
  extract_figure_number (codes "Figure "%string ++ ds ++ rest)
  = match int ds with
    | Some number => Some (Some (mkFigRef number None))
    | None => None
    end.
Proof.
  intros Hne Hds Hrest Hstop. unfold extract_figure_number.
  change patterns with (firstn 5 patterns ++ skipn 5 patterns).
  rewrite first_match_skip by now apply labelled_not_found.
  cbn [skipn patterns first_match]. rewrite plain_found by assumption.
  unfold fig_ref. cbn [m_groups group Nat.eqb]. destruct (int ds); reflexivity.
Qed.

Lemma question_without_word_witness :
  extract_figure_number figure_3_mark = Some (Some (mkFigRef 3 None)).
Proof.
  apply (question_without_word (codes "3"%string) (codes "?"%string)).
  - discriminate.
  - repeat constructor.
  - repeat constructor; discriminate.
  - split; reflexivity.
Defined.

End QuestionFacts.

(* ================================================================== *)
(** * Properties of the description of a figure *)
(* ================================================================== *)

Module ContextFacts.
Import Refs Patterns Context RefsFacts PatternFacts.

Lemma lstrip_spec t :
  exists l, t = l ++ lstrip t /\ Forall (fun c => is_space c = true) l
            /\ (forall c rest, lstrip t = c :: rest -> is_space c = false).
Proof.
  induction t as [|c t (l & Ht & Hl & Hhd)].
  - exists []. simpl. repeat split; [constructor | discriminate].
  - simpl. destruct (is_space c) eqn:E.
    + exists (c :: l). simpl. split; [now f_equal|]. split; [now constructor | exact Hhd].
    + exists []. simpl. split; [reflexivity|]. split; [constructor|].
      intros c' rest [= <- _]. exact E.
Qed.

Lemma rstrip_spec t :
  exists r, t = rstrip t ++ r /\ Forall (fun c => is_space c = true) r
            /\ (forall c front, rstrip t = front ++ [c] -> is_space c = false).
Proof.
  unfold rstrip. destruct (lstrip_spec (rev t)) as (l & Ht & Hl & Hhd).
  exists (rev l). split; [|split].
  - rewrite <- rev_app_distr, <- Ht. now rewrite rev_involutive.
  - now apply Forall_rev.
  - intros c front E. apply (f_equal (@rev N)) in E.
    rewrite rev_involutive, rev_app_distr in E. simpl in E. exact (Hhd _ _ E).
Qed.

(** Stripping keeps what lies between two characters that are no white
    space. *)
Lemma lstrip_keeps x c y :
  is_space c = false -> exists x', lstrip (x ++ c :: y) = x' ++ c :: y.
Proof.
  intros Hc. induction x as [|a x IH]; simpl.
  - rewrite Hc. now exists [].
  - destruct (is_space a); [exact IH|]. now exists (a :: x).
Qed.

Lemma rstrip_keeps x c y :
  is_space c = false -> exists y', rstrip (x ++ c :: y) = x ++ c :: y'.
Proof.
  intros Hc. unfold rstrip. rewrite rev_app_distr. simpl. rewrite <- app_assoc. simpl.
  destruct (lstrip_keeps (rev y) c (rev x) Hc) as (y' & ->).
  exists (rev y'). rewrite rev_app_distr. simpl. now rewrite rev_involutive, <- app_assoc.
Qed.

Lemma strip_trimmed t : trimmed (strip t).
Proof.
  unfold strip. split.
  - intros c rest E.
    destruct (lstrip_spec t) as (_ & _ & _ & Hhd).
    destruct (rstrip_spec (lstrip t)) as (r & Hr & _ & _).
    rewrite E in Hr. simpl in Hr. exact (Hhd _ _ Hr).
  - intros c front E. destruct (rstrip_spec (lstrip t)) as (_ & _ & _ & Hlast).
    exact (Hlast _ _ E).
Qed.

Lemma strip_infix t : exists l r, t = l ++ strip t ++ r.
Proof.
  destruct (lstrip_spec t) as (l & Hl & _). destruct (rstrip_spec (lstrip t)) as (r & Hr & _).
  exists l, r. unfold strip. now rewrite <- Hr.
Qed.

Lemma strip_length t : (length (strip t) <= length t)%nat.
Proof.
  destruct (strip_infix t) as (l & r & E). rewrite E at 2. rewrite !length_app. lia.
Qed.

Lemma strip_keeps_core x core y :
  core <> [] -> trimmed core ->
  exists x' y', strip (x ++ core ++ y) = x' ++ core ++ y'.
Proof.
  intros Hne [Hhd Hlast].
  assert (Hl : exists x', lstrip (x ++ core ++ y) = x' ++ core ++ y).
  { destruct core as [|c core']; [congruence|].
    apply (lstrip_keeps x c (core' ++ y)). exact (Hhd c core' eq_refl). }
  destruct Hl as (x' & Hl).
  destruct (exists_last Hne) as (front & e & Hcore).
  pose proof (Hlast e front Hcore) as He.
  assert (Hr : exists y', rstrip (x' ++ core ++ y) = x' ++ core ++ y').
  { rewrite Hcore. destruct (rstrip_keeps (x' ++ front) e y He) as (y' & Hr).
    exists y'. rewrite <- !app_assoc in *. exact Hr. }
  destruct Hr as (y' & Hr).
  exists x', y'. unfold strip. now rewrite Hl.
Qed.

Lemma strip_nonempty t c : In c t -> is_space c = false -> strip t <> [].
Proof.
  intros Hin Hc. apply in_split in Hin. destruct Hin as (x & y & ->).
  unfold strip. destruct (lstrip_keeps x c y Hc) as (x' & ->).
  destruct (rstrip_keeps x' c y Hc) as (y' & ->). now destruct x'.
Qed.

Lemma digit_no_space c : is_digit c = true -> is_space c = false.
Proof.
  intros H. apply is_digit_true in H.
  destruct (is_space c) eqn:E; [|reflexivity]. exfalso. revert E.
  unfold is_space. rewrite !orb_true_iff, !andb_true_iff, !N.leb_le, !N.eqb_eq. lia.
Qed.

(** A slice from [a] to [d] is made of the slices from [a] to [b], from
    [b] to [c] and from [c] to [d]. *)
Lemma slice_three (t : text) (a b c d : nat) :
  (a <= b)%nat -> (b <= c)%nat -> (c <= d)%nat ->
  slice t a d = slice t a b ++ slice t b c ++ slice t c d.
Proof.
  intros Hab Hbc Hcd. unfold slice.
  replace (d - a)%nat with ((b - a) + ((c - b) + (d - c)))%nat by lia.
  rewrite !firstn_plus, !skipn_skipn.
  replace (b - a + a)%nat with b by lia. replace (c - b + b)%nat with c by lia.
  reflexivity.
Qed.

Lemma slice_infix (t : text) (a d : nat) : infix (slice t a d) t.
Proof.
  exists (firstn a t), (skipn (d - a) (skipn a t)). unfold slice.
  now rewrite firstn_skipn, firstn_skipn.
Qed.

Lemma slice_length (t : text) (a d : nat) : (length (slice t a d) <= d - a)%nat.
Proof. unfold slice. rewrite length_firstn. lia. Qed.

Lemma infix_trans (a b c : text) : infix a b -> infix b c -> infix a c.
Proof.
  intros (x & y & ->) (x' & y' & ->). exists (x' ++ x), (y ++ y').
  now rewrite <- !app_assoc.
Qed.

(** The window of [get_context] around a reference that lies in the
    text. *)
Lemma window_spec (t : text) (start stop : nat) (size : Z) :
  (start <= stop)%nat -> (stop <= length t)%nat -> 0 <= size ->
  exists lo hi : nat,
    (lo <= start)%nat /\ (stop <= hi)%nat /\ (hi <= length t)%nat
    /\ Z.of_nat start - size <= Z.of_nat lo /\ Z.of_nat hi <= Z.of_nat stop + size
    /\ py_slice t (Z.max 0 (Z.of_nat start - size))
                (Z.min (Z.of_nat (length t)) (Z.of_nat stop + size))
       = slice t lo hi.
Proof.
  intros Hse Hlen Hsize.
  set (lo := Z.max 0 (Z.of_nat start - size)).
  set (hi := Z.min (Z.of_nat (length t)) (Z.of_nat stop + size)).
  exists (Z.to_nat lo), (Z.to_nat hi).
  assert (Hlo : 0 <= lo <= Z.of_nat start) by (unfold lo; lia).
  assert (Hhi : Z.of_nat stop <= hi <= Z.of_nat (length t)) by (unfold hi; lia).
  repeat split; try lia.
  unfold py_slice, slice_index, slice.
  destruct (Z.ltb_spec lo 0); [lia|]. destruct (Z.ltb_spec hi 0); [lia|].
  rewrite !Z.min_l by lia. f_equal. lia.
Qed.

(** X24: for a reference [r] returned by [extract_references(text)] and a
    context size that is not negative, [get_context] returns a contiguous
    piece of the text that neither begins nor ends with white space, is
    at most the reference and [context_size] characters on each side
    long, and holds the reference's own text (without the white space at
    its ends, and never empty). *)
Theorem context_holds_citation (t : text) (refs : list Reference) (r : Reference) (size : Z) :
  extract_references t = Some refs -> In r refs -> 0 <= size ->
  infix (get_context t r size) t
  /\ trimmed (get_context t r size)
  /\ Z.of_nat (length (get_context t r size))
     <= Z.of_nat (ref_end r - ref_start r) + 2 * size
  /\ infix (strip (ref_text r)) (get_context t r size)
  /\ strip (ref_text r) <> [].
Proof.
  intros Hrefs Hr Hsize.
  apply extract_references_Some in Hrefs. destruct Hrefs as [-> _].
  destruct (reference_span t r Hr) as (Hlt & Hlen & Htext & c & Hc & Hdig).
  destruct (window_spec t (ref_start r) (ref_end r) size ltac:(lia) Hlen Hsize)
    as (lo & hi & Hlo & Hhi & Hhilen & Hlo' & Hhi' & Hwin).
  unfold get_context. rewrite Hwin.
  assert (Hcore : strip (ref_text r) <> []).
  { apply (strip_nonempty _ c Hc). now apply digit_no_space. }
  split; [|split; [|split; [|split]]].
  - apply (infix_trans _ (slice t lo hi)); [|apply slice_infix].
    destruct (strip_infix (slice t lo hi)) as (l & rr & E). now exists l, rr.
  - apply strip_trimmed.
  - pose proof (strip_length (slice t lo hi)). pose proof (slice_length t lo hi). lia.
  - rewrite (slice_three t lo (ref_start r) (ref_end r) hi Hlo ltac:(lia) Hhi).
    rewrite <- Htext.
    destruct (strip_infix (ref_text r)) as (l & rr & E).
    pose proof (strip_trimmed (ref_text r)) as Htrim.
    set (core := strip (ref_text r)) in *.
    rewrite E, <- !app_assoc.
    rewrite (app_assoc (slice t lo (ref_start r)) l).
    destruct (strip_keeps_core (slice t lo (ref_start r) ++ l) core
                               (rr ++ slice t (ref_end r) hi) Hcore Htrim)
      as (x' & y' & ->).
    now exists x', y'.
  - exact Hcore.
Qed.

Lemma context_holds_citation_witness :
  infix (get_context sample_page (mkReference (codes "in Figure 2"%string) 2 None 11 22) 5)
        sample_page
  /\ trimmed (get_context sample_page (mkReference (codes "in Figure 2"%string) 2 None 11 22) 5)
  /\ Z.of_nat (length (get_context sample_page
                                   (mkReference (codes "in Figure 2"%string) 2 None 11 22) 5))
     <= Z.of_nat (22 - 11) + 2 * 5
  /\ infix (strip (codes "in Figure 2"%string))
           (get_context sample_page (mkReference (codes "in Figure 2"%string) 2 None 11 22) 5)
  /\ strip (codes "in Figure 2"%string) <> [].
Proof.
  apply (context_holds_citation sample_page
           [mkReference (codes "in Figure 2"%string) 2 None 11 22]
           (mkReference (codes "in Figure 2"%string) 2 None 11 22) 5).
  - vm_compute. reflexivity.
  - now left.
  - lia.
Defined.

(** ** The description *)

Lemma seen_text d seen : existsb (text_eqb d) seen = true <-> In d seen.
Proof.
  rewrite existsb_exists. split.
  - intros (x & Hx & E). apply text_eqb_eq in E. now subst.
  - intros H. exists d. split; [assumption | now apply text_eqb_eq].
Qed.

(** The second loop: what is added to [unique_desc]. *)
Lemma unique_loop_spec descs : forall u seen,
  (forall d, In d seen <-> In d u) -> NoDup u -> (length u < 3)%nat ->
  exists ext,
    unique_loop descs u seen = u ++ ext
    /\ NoDup (u ++ ext)
    /\ (length (u ++ ext) <= 3)%nat
    /\ (forall d, In d ext -> In d descs)
    /\ ((length (u ++ ext) < 3)%nat -> forall d, In d descs -> In d (u ++ ext))
    /\ (u = [] -> hd_error ext = hd_error descs).
Proof.
  induction descs as [|desc rest IH]; intros u seen Hseen Hnd Hlen.
  - exists []. rewrite app_nil_r. simpl. repeat split; auto; try lia; contradiction.
  - cbn [unique_loop]. destruct (existsb (text_eqb desc) seen) eqn:E.
    + apply seen_text in E. apply Hseen in E.
      destruct (IH u seen Hseen Hnd Hlen) as (ext & -> & Hnd' & Hlen' & Hin & Hall & Hhd).
      exists ext. repeat split; auto.
      * intros d Hd. right. now apply Hin.
      * intros Hlt d [<- | Hd]; [apply in_or_app; now left | now apply Hall].
      * intros ->. contradiction.
    + assert (Hfresh : ~ In desc u).
      { intros Hin. apply Hseen in Hin. apply seen_text in Hin. congruence. }
      assert (Hnd1 : NoDup (u ++ [desc])).
      { apply NoDup_app; [assumption | repeat constructor; auto | ].
        intros x Hx [<- | []]. contradiction. }
      destruct (Nat.leb_spec 3 (length (u ++ [desc]))) as [Hfull | Hroom].
      * exists [desc]. rewrite length_app in *. simpl in *.
        repeat split; auto; try lia.
        intros d [<- | []]. now left.
      * destruct (IH (u ++ [desc]) (desc :: seen)) as (ext & -> & Hnd' & Hlen' & Hin & Hall & _);
          [ | assumption | assumption | ].
        { intros d. simpl. rewrite in_app_iff, Hseen. simpl. tauto. }
        exists (desc :: ext). rewrite <- app_assoc in *. simpl in *.
        repeat split; auto.
        -- intros d [<- | Hd]; [now left | right; now apply Hin].
        -- intros Hlt d [<- | Hd]; [apply in_or_app; right; now left | now apply Hall].
Qed.

Lemma In_descriptions texts n sub d :
  In d (kept_descriptions texts n sub) <->
  exists page content r,
    In (page, content) texts /\ In r (kept_references content)
    /\ describes n sub r = true /\ d = get_context content r 250.
Proof.
  unfold kept_descriptions. rewrite in_flat_map. split.
  - intros ([page content] & Ht & Hd). apply in_flat_map in Hd.
    destruct Hd as (r & Hr & Hd). simpl in *.
    destruct (describes n sub r) eqn:E; [|contradiction].
    destruct Hd as [<- | []]. exists page, content, r. auto.
  - intros (page & content & r & Ht & Hr & E & ->).
    exists (page, content). split; [assumption|]. apply in_flat_map.
    exists r. split; [assumption|]. simpl. rewrite E. now left.
Qed.

Lemma describes_true n sub r :
  describes n sub r = true <->
  figure r = n /\ (given sub = true -> subfigure r = sub).
Proof.
  unfold describes. rewrite andb_true_iff, Z.eqb_eq.
  destruct (given sub) eqn:G.
  - unfold same_label. destruct (subfigure r) as [x|], sub as [y|]; try discriminate G.
    + rewrite text_eqb_eq. split; intros [H1 H2]; split; auto.
      * intros _. now f_equal.
      * specialize (H2 eq_refl). congruence.
    + split; [intros [_ H]; discriminate | intros [_ H]; specialize (H eq_refl); discriminate].
  - split; intros [H1 _]; split; auto. discriminate.
Qed.

(** What the two loops build from the references of the texts. *)
Lemma kept_description_spec (texts : list (Z * text)) (n : Z) (sub : option text) :
  ((forall page content r,
       In (page, content) texts -> In r (kept_references content) ->
       ~ (figure r = n /\ (given sub = true -> subfigure r = sub))) ->
   kept_figure_description texts n sub = not_found n sub)
  /\ ((exists page content r,
         In (page, content) texts /\ In r (kept_references content)
         /\ figure r = n /\ (given sub = true -> subfigure r = sub)) ->
      exists parts,
        kept_figure_description texts n sub = join [10; 10]%N parts
        /\ NoDup parts /\ (1 <= length parts <= 3)%nat
        /\ hd_error parts = hd_error (kept_descriptions texts n sub)
        /\ (forall d, In d parts ->
              exists page content r,
                In (page, content) texts /\ In r (kept_references content)
                /\ figure r = n /\ (given sub = true -> subfigure r = sub)
                /\ d = get_context content r 250)
        /\ ((length parts < 3)%nat ->
            forall page content r,
              In (page, content) texts -> In r (kept_references content) ->
              figure r = n -> (given sub = true -> subfigure r = sub) ->
              In (get_context content r 250) parts)).
Proof.
  split.
  - intros Hnone. unfold kept_figure_description.
    destruct (kept_descriptions texts n sub) as [|d ds] eqn:E; [reflexivity|].
    exfalso. assert (Hd : In d (kept_descriptions texts n sub)) by (rewrite E; now left).
    apply In_descriptions in Hd. destruct Hd as (page & content & r & Ht & Hr & Hdesc & _).
    apply describes_true in Hdesc. exact (Hnone page content r Ht Hr Hdesc).
  - intros (page & content & r & Ht & Hr & Hfig & Hsub).
    assert (Hin : In (get_context content r 250) (kept_descriptions texts n sub)).
    { apply In_descriptions. exists page, content, r. repeat split; auto.
      now apply describes_true. }
    destruct (unique_loop_spec (kept_descriptions texts n sub) [] [])
      as (parts & Hloop & Hnd & Hlen & Hfrom & Hall & Hhd);
      [intros d; tauto | constructor | simpl; lia |].
    simpl in Hloop, Hnd, Hlen, Hall. specialize (Hhd eq_refl).
    exists parts. split; [|split; [|split; [|split; [|split]]]].
    + unfold kept_figure_description.
      destruct (kept_descriptions texts n sub) as [|d ds] eqn:E; [contradiction|].
      now rewrite Hloop.
    + exact Hnd.
    + split; [|exact Hlen].
      destruct (kept_descriptions texts n sub) as [|d ds]; [contradiction|].
      destruct parts; [discriminate Hhd | simpl; lia].
    + exact Hhd.
    + intros d Hd. apply Hfrom, In_descriptions in Hd.
      destruct Hd as (p & c & r' & H1 & H2 & H3 & H4).
      apply describes_true in H3. destruct H3. exists p, c, r'. auto.
    + intros Hlt p c r' H1 H2 H3 H4. apply (Hall Hlt). apply In_descriptions.
      exists p, c, r'. repeat split; auto. now apply describes_true.
Qed.

(** ** When the first loop returns *)

Lemma descriptions_Some (texts : list (Z * text)) n sub descs :
  descriptions texts n sub = Some descs <->
  descs = kept_descriptions texts n sub
  /\ forall text_data, In text_data texts -> extract_references (snd text_data) <> None.
Proof.
  unfold descriptions, kept_descriptions.
  set (f := fun text_data : Z * text =>
              match extract_references (snd text_data) with
              | Some refs => Some (described (snd text_data) n sub refs)
              | None => None
              end).
  assert (H : forall per_text,
            map f texts = map Some per_text <->
            per_text = map (fun text_data : Z * text =>
                              described (snd text_data) n sub (kept_references (snd text_data)))
                           texts
            /\ forall text_data, In text_data texts ->
                 extract_references (snd text_data) <> None).
  { induction texts as [|td texts IH]; intros per_text; cbn [map].
    - split.
      + intros H. destruct per_text; [|discriminate]. split; [reflexivity | intros ? []].
      + intros [-> _]. reflexivity.
    - split.
      + destruct per_text as [|d per_text]; [discriminate|]. cbn [map]. intros [= H1 H2].
        apply IH in H2. destruct H2 as [-> Hall]. unfold f in H1.
        destruct (extract_references (snd td)) as [rs|] eqn:E; [|discriminate].
        assert (Hsome : extract_references (snd td) <> None) by (rewrite E; discriminate).
        apply extract_references_Some in E. destruct E as [-> _].
        injection H1 as <-. split; [reflexivity|].
        intros td' [<- | Hin]; [assumption | now apply Hall].
      + intros [-> Hall]. cbn [map]. f_equal.
        * unfold f. destruct (extract_references (snd td)) as [rs|] eqn:E.
          -- apply extract_references_Some in E. destruct E as [-> _]. reflexivity.
          -- exfalso. apply (Hall td); [now left | assumption].
        * apply IH. split; [reflexivity|]. intros td' Hin. apply Hall. now right. }
  destruct (collect (map f texts)) as [per_text|] eqn:E.
  - apply collect_Some in E. apply H in E. destruct E as [-> Hall]. split.
    + intros [= <-]. split; [|assumption]. now rewrite flat_map_concat_map.
    + intros [-> _]. now rewrite flat_map_concat_map.
  - split; [discriminate|]. intros [_ Hall]. exfalso.
    apply collect_None in E. apply in_map_iff in E. destruct E as (td & Hf & Hin).
    apply (Hall td Hin). unfold f in Hf.
    destruct (extract_references (snd td)); [discriminate | reflexivity].
Qed.

Lemma descriptions_None (texts : list (Z * text)) n sub :
  descriptions texts n sub = None <->
  exists text_data, In text_data texts /\ extract_references (snd text_data) = None.
Proof.
  split.
  - intros H. destruct (Exists_dec (fun td : Z * text => extract_references (snd td) = None) texts)
      as [Hex | Hno].
    + intros td. destruct (extract_references (snd td)); [right; discriminate | now left].
    + apply Exists_exists in Hex. exact Hex.
    + exfalso. assert (Hs : descriptions texts n sub = Some (kept_descriptions texts n sub)).
      { apply descriptions_Some. split; [reflexivity|]. intros td Hin Hn.
        apply Hno. apply Exists_exists. eauto. }
      congruence.
  - intros (td & Hin & Hn). destruct (descriptions texts n sub) as [descs|] eqn:E; [|reflexivity].
    apply descriptions_Some in E. destruct E as [_ Hall]. exfalso. exact (Hall td Hin Hn).
Qed.

(** X25: [_get_figure_description] returns when no text has a run of more
    than 4300 consecutive digits (characters outside ASCII counted as
    digits).  On ASCII texts it raises exactly when [extract_references]
    raises on one of the texts, and what it returns is: the "not found"
    message when no text holds a reference to the figure (carrying the
    sub-figure label, when one is asked for); otherwise, joined with an
    empty line between them, at least one and at most three different
    contexts (of size 250), each the context of such a reference, the
    first one being that of the first such reference; when fewer than
    three are joined, every such reference's context is among them. *)
Theorem description_from_citations (texts : list (Z * text)) (n : Z) (sub : option text) :
  ((forall page content, In (page, content) texts -> short_numbers content) ->
   exists description, get_figure_description texts n sub = Some description)
  /\ ((forall page content, In (page, content) texts -> is_ascii content) ->
      (get_figure_description texts n sub = None <->
       exists page content, In (page, content) texts /\ extract_references content = None)
      /\ forall description,
           get_figure_description texts n sub = Some description ->
           exists descs,
             descriptions texts n sub = Some descs
             /\ ((forall page content r,
                    In (page, content) texts -> returned content r ->
                    ~ (figure r = n /\ (given sub = true -> subfigure r = sub))) ->
                 description = not_found n sub)
             /\ ((exists page content r,
                    In (page, content) texts /\ returned content r
                    /\ figure r = n /\ (given sub = true -> subfigure r = sub)) ->
                 exists parts,
                   description = join [10; 10]%N parts
                   /\ NoDup parts /\ (1 <= length parts <= 3)%nat
                   /\ hd_error parts = hd_error descs
                   /\ (forall d, In d parts ->
                         exists page content r,
                           In (page, content) texts /\ returned content r
                           /\ figure r = n /\ (given sub = true -> subfigure r = sub)
                           /\ d = get_context content r 250)
                   /\ ((length parts < 3)%nat ->
                       forall page content r,
                         In (page, content) texts -> returned content r ->
                         figure r = n -> (given sub = true -> subfigure r = sub) ->
                         In (get_context content r 250) parts))).
Proof.
  split; [|intros _; split].
  - intros Hshort.
    assert (Hd : descriptions texts n sub = Some (kept_descriptions texts n sub)).
    { apply descriptions_Some. split; [reflexivity|]. intros [page content] Hin.
      cbn [snd]. rewrite (extract_references_returns content (Hshort page content Hin)).
      discriminate. }
    exists (kept_figure_description texts n sub).
    unfold get_figure_description, kept_figure_description. rewrite Hd.
    now destruct (kept_descriptions texts n sub).
  - unfold get_figure_description. split.
    + destruct (descriptions texts n sub) as [[|d descs]|] eqn:E; try discriminate.
      intros _. apply descriptions_None in E. destruct E as ([page content] & Hin & Hn).
      exists page, content. auto.
    + intros (page & content & Hin & Hn).
      replace (descriptions texts n sub) with (@None (list text)); [reflexivity|].
      symmetry. apply descriptions_None. exists (page, content). auto.
  - intros description Hg.
    destruct (descriptions texts n sub) as [descs|] eqn:Hd;
      [|unfold get_figure_description in Hg; rewrite Hd in Hg; discriminate].
    destruct (proj1 (descriptions_Some texts n sub descs) Hd) as [-> Hall].
    assert (Hret : forall page content r,
              In (page, content) texts ->
              (returned content r <-> In r (kept_references content))).
    { intros page content r Hin. unfold returned.
      specialize (Hall (page, content) Hin). cbn [snd] in Hall.
      destruct (extract_references content) as [rs|] eqn:E; [|congruence].
      destruct (extract_references_Some content rs E) as [-> _]. split.
      - intros (refs & [= <-] & Hr). exact Hr.
      - intros Hr. eauto. }
    assert (Hk : description = kept_figure_description texts n sub).
    { unfold get_figure_description in Hg. rewrite Hd in Hg.
      unfold kept_figure_description.
      destruct (kept_descriptions texts n sub); now injection Hg as <-. }
    subst description.
    destruct (kept_description_spec texts n sub) as [Hnone Hsome].
    exists (kept_descriptions texts n sub).
    split; [reflexivity|]. split.
    + intros Hno. apply Hnone. intros page content r Hin Hr.
      apply (Hno page content r Hin). now apply (Hret page).
    + intros (page & content & r & Hin & Hr & Hfig & Hsub).
      destruct Hsome as (parts & Hj & Hnd & Hlen & Hhd & Hfrom & Hall').
      { exists page, content, r. split; [assumption|]. split; [|auto].
        now apply (Hret page). }
      exists parts. split; [assumption|]. split; [assumption|]. split; [assumption|].
      split; [assumption|]. split.
      * intros d Hd'. destruct (Hfrom d Hd') as (p & c & r' & H1 & H2 & H3 & H4 & H5).
        exists p, c, r'. split; [assumption|]. split; [now apply (Hret p)|]. auto.
      * intros Hlt p c r' H1 H2 H3 H4. apply (Hall' Hlt p c r' H1); auto.
        now apply (Hret p).
Qed.

Lemma description_from_citations_witness :
  (exists description, get_figure_description [(1, sample_page)] 2 None = Some description)
  /\ (get_figure_description [(1, sample_page)] 2 None = None <->
      exists page content,
        In (page, content) [(1, sample_page)] /\ extract_references content = None).
Proof.
  split.
  - apply (proj1 (description_from_citations [(1, sample_page)] 2 None)).
    intros page content [[= <- <-] | []]. apply Nat.leb_le. vm_compute. reflexivity.
  - apply (proj2 (description_from_citations [(1, sample_page)] 2 None)).
    intros page content [[= <- <-] | []]. repeat constructor.
Defined.

End ContextFacts.

(* ================================================================== *)
(** * Properties of a number followed by a letter *)
(* ================================================================== *)

Module CutFacts.
Import Refs Question Cut RefsFacts PatternFacts PlainFacts QuestionFacts.

(** ** [finditer] finds every match that no earlier match runs into *)

Lemma search_found r s : forall pos d res,
  (d <= length s)%nat ->
  match_re r _ (skipn d s) (pos + d)%nat [] (found (pos + d)%nat (skipn d s)) = Some res ->
  exists m0 s0, search r s pos = Some (m0, s0) /\ (m_start m0 <= pos + d)%nat.
Proof.
  induction s as [|c s IH]; intros pos d res Hd H.
  - assert (d = 0)%nat by (simpl in Hd; lia). subst d. simpl in H. rewrite Nat.add_0_r in H.
    destruct res as [m s']. exists m, s'. split; [now apply search_here|].
    apply found_here in H. lia.
  - cbn [search].
    destruct (match_re r _ (c :: s) pos [] _) as [[m0 s0]|] eqn:E.
    + exists m0, s0. split; [reflexivity|].
      apply (found_here r (c :: s) pos) in E. lia.
    + destruct d as [|d].
      * simpl in H. rewrite Nat.add_0_r in H. unfold found in H, E. congruence.
      * simpl in H. rewrite Nat.add_succ_r in H.
        destruct (IH (S pos) d res ltac:(simpl in Hd; lia) H) as (m0 & s0 & Hs & Hle).
        exists m0, s0. split; [assumption | lia].
Qed.

Lemma finditer_from_complete fuel r : forall s pos d m s',
  (length s < fuel)%nat -> (d <= length s)%nat ->
  match_re r _ (skipn d s) (pos + d)%nat [] (found (pos + d)%nat (skipn d s)) = Some (m, s') ->
  (forall d0 m0 s0,
      (d0 < d)%nat ->
      match_re r _ (skipn d0 s) (pos + d0)%nat [] (found (pos + d0)%nat (skipn d0 s))
      = Some (m0, s0) ->
      (m_start m0 < m_end m0)%nat /\ (m_end m0 <= pos + d)%nat) ->
  In m (finditer_from fuel r s pos).
Proof.
  induction fuel as [|fuel IH]; intros s pos d m s' Hfuel Hd Hm Hfree; [lia|].
  cbn [finditer_from].
  destruct (search_found r s pos d _ Hd Hm) as (m0 & s0 & Hs & Hle).
  rewrite Hs.
  destruct (search_spec _ _ _ _ _ Hs) as (d0 & Hd0 & Hs0 & Hm0 & Hle0 & Hrest0 & Hlen0).
  destruct (Nat.eq_dec d0 d) as [-> | Hne].
  - left. congruence.
  - right. assert (Hlt : (d0 < d)%nat) by lia.
    destruct (Hfree d0 m0 s0 Hlt Hm0) as [Hpos Hend].
    replace (Nat.eqb (m_end m0) (m_start m0)) with false
      by (symmetry; apply Nat.eqb_neq; lia).
    apply (IH s0 (m_end m0) (d - (m_end m0 - pos))%nat m s').
    + rewrite Hrest0, length_skipn. lia.
    + rewrite Hrest0, length_skipn. lia.
    + rewrite Hrest0, skipn_skipn.
      replace (d - (m_end m0 - pos) + (m_end m0 - pos))%nat with d by lia.
      replace (m_end m0 + (d - (m_end m0 - pos)))%nat with (pos + d)%nat by lia.
      exact Hm.
    + intros d1 m1 s1 Hd1 Hm1.
      rewrite Hrest0, skipn_skipn in Hm1.
      replace (m_end m0 + d1)%nat with (pos + (d1 + (m_end m0 - pos)))%nat in Hm1 by lia.
      destruct (Hfree (d1 + (m_end m0 - pos))%nat m1 s1 ltac:(lia) Hm1) as [H1 H2].
      split; [assumption | lia].
Qed.

(** ** Characters under [re.IGNORECASE] *)

Lemma lower_upper_case c : (65 <= c <= 90)%N -> lower c = (c + 32)%N.
Proof.
  intros H. unfold lower.
  destruct (N.leb_spec 65 c); [|lia]. destruct (N.leb_spec c 90); [|lia]. reflexivity.
Qed.

Lemma lower_other c :
  (c < 65 \/ (90 < c /\ c <> 304 /\ c <> 305 /\ c <> 383 /\ c <> 8490))%N -> lower c = c.
Proof.
  intros H. unfold lower.
  replace ((65 <=? c)%N && (c <=? 90)%N) with false
    by (symmetry; apply andb_false_iff; rewrite !N.leb_gt; lia).
  destruct (N.eqb_spec c 304); [lia|]. destruct (N.eqb_spec c 305); [lia|].
  destruct (N.eqb_spec c 383); [lia|]. destruct (N.eqb_spec c 8490); [lia|]. reflexivity.
Qed.

Lemma upper_lower_case c : (97 <= c <= 122)%N -> upper c = (c - 32)%N.
Proof.
  intros H. unfold upper.
  destruct (N.leb_spec 97 c); [|lia]. destruct (N.leb_spec c 122); [|lia]. reflexivity.
Qed.

Lemma upper_other c : (c < 97 \/ 122 < c)%N -> upper c = c.
Proof.
  intros H. unfold upper.
  replace ((97 <=? c)%N && (c <=? 122)%N) with false
    by (symmetry; apply andb_false_iff; rewrite !N.leb_gt; lia).
  reflexivity.
Qed.

(** The lower case of an ASCII letter is a lower-case ASCII letter. *)
Lemma letter_lower_range c : is_letter c = true -> (97 <= lower c <= 122)%N.
Proof.
  intros H. apply is_letter_true in H. destruct H as [H | H].
  - rewrite lower_other by lia. lia.
  - rewrite lower_upper_case by lia. lia.
Qed.

Lemma is_space_false c : (33 <= c < 128)%N -> is_space c = false.
Proof.
  intros H. destruct (is_space c) eqn:E; [|reflexivity]. apply is_space_true in E. lia.
Qed.

Lemma is_digit_false c : (c < 48 \/ 57 < c)%N -> is_digit c = false.
Proof.
  intros H. destruct (is_digit c) eqn:E; [|reflexivity]. apply is_digit_range in E. lia.
Qed.

Lemma class_match_one it c :
  class_match [it] c = in_item it (lower c) || in_item it (upper (lower c)).
Proof. unfold class_match. simpl. apply orb_false_r. Qed.

Lemma letter_is_letter c :
  is_letter c = true -> class_match [Range (code "a"%char) (code "z"%char)] c = true.
Proof.
  intros H. apply letter_lower_range in H. rewrite class_match_one. cbn [in_item].
  change (code "a"%char) with 97%N. change (code "z"%char) with 122%N.
  apply orb_true_iff. left. apply andb_true_iff. rewrite !N.leb_le. lia.
Qed.

Lemma letter_no_space c : is_letter c = true -> class_match [Space] c = false.
Proof.
  intros H. apply letter_lower_range in H. rewrite class_match_one. cbn [in_item].
  rewrite upper_lower_case by lia.
  rewrite (is_space_false (lower c)) by lia.
  now rewrite (is_space_false (lower c - 32)) by lia.
Qed.

Lemma space_is_space c : is_space c = true -> class_match [Space] c = true.
Proof.
  intros H. pose proof (is_space_true c H) as Hc. rewrite class_match_one. cbn [in_item].
  rewrite lower_other by lia. now rewrite H.
Qed.

Lemma digit_not_letter_re d :
  is_digit d = true -> class_match [Range (code "a"%char) (code "z"%char)] d = false.
Proof. intros H. each_digit H; reflexivity. Qed.

Lemma letter_not_digit_re c : is_letter c = true -> class_match [Digit] c = false.
Proof.
  intros H. apply letter_lower_range in H. rewrite class_match_one. cbn [in_item].
  rewrite upper_lower_case by lia.
  rewrite (is_digit_false (lower c)) by lia.
  now rewrite (is_digit_false (lower c - 32)) by lia.
Qed.

Lemma space_not_digit_re c : is_space c = true -> class_match [Digit] c = false.
Proof.
  intros H. pose proof (is_space_true c H) as Hc. rewrite class_match_one. cbn [in_item].
  rewrite lower_other by lia. rewrite upper_other by lia.
  now rewrite is_digit_false by lia.
Qed.

(** ** The greedy star and its first step back *)

Lemma star_run_re {R} items run : forall s pos (k : text -> nat -> option R) r,
  Forall (fun c => class_match items c = true) run ->
  match s with [] => True | c :: _ => class_match items c = false end ->
  k s (pos + length run)%nat = Some r ->
  star items (run ++ s) pos k = Some r.
Proof.
  induction run as [|c run IH]; intros s pos k r Hrun Hs Hk.
  - simpl in *. rewrite Nat.add_0_r in Hk.
    destruct s as [|c s]; simpl; [assumption|]. now rewrite Hs.
  - inversion Hrun as [|? ? Hc Hrest]; subst. simpl. rewrite Hc.
    rewrite (IH s (S pos) k r Hrest Hs); [reflexivity|].
    simpl in Hk. now rewrite Nat.add_succ_r in Hk.
Qed.

Lemma star_back_re {R} items run x : forall s pos (k : text -> nat -> option R) r,
  Forall (fun c => class_match items c = true) run ->
  class_match items x = true ->
  match s with [] => True | c :: _ => class_match items c = false end ->
  k s (S (pos + length run)) = None ->
  k (x :: s) (pos + length run)%nat = Some r ->
  star items (run ++ x :: s) pos k = Some r.
Proof.
  induction run as [|c run IH]; intros s pos k r Hrun Hx Hs Hnone Hk.
  - simpl in *. rewrite Nat.add_0_r in *. rewrite Hx.
    replace (star items s (S pos) k) with (@None R); [assumption|].
    symmetry. destruct s as [|c s]; simpl; [assumption|]. now rewrite Hs.
  - inversion Hrun as [|? ? Hc Hrest]; subst. simpl. rewrite Hc.
    rewrite (IH s (S pos) k r Hrest Hx Hs); [reflexivity | |].
    + simpl in Hnone. now rewrite Nat.add_succ_r in Hnone.
    + simpl in Hk. now rewrite Nat.add_succ_r in Hk.
Qed.

(** ** The fifth pattern on a number followed by a letter *)

(** [(?!\s*[a-z])] before white space and a letter. *)
Lemma lookahead_at_letter {R} spaces c rest pos caps
    (k : text -> nat -> captures -> option R) :
  Forall (fun x => is_space x = true) spaces -> is_letter c = true ->
  match_re no_letter R (spaces ++ c :: rest) pos caps k = None.
Proof.
  intros Hsp Hc. unfold no_letter. cbn [match_re cat].
  rewrite (star_run_re [Space] spaces (c :: rest) pos _ tt).
  - reflexivity.
  - eapply Forall_impl; [|exact Hsp]. apply space_is_space.
  - now apply letter_no_space.
  - now rewrite (letter_is_letter c Hc).
Qed.

(** [(?!\s*[a-z])] before a digit. *)
Lemma lookahead_at_digit {R} d s pos caps (k : text -> nat -> captures -> option R) :
  is_digit d = true ->
  match_re no_letter R (d :: s) pos caps k = k (d :: s) pos caps.
Proof.
  intros Hd. unfold no_letter. cbn [match_re cat star].
  rewrite (digit_not_space d Hd), (digit_not_letter_re d Hd). reflexivity.
Qed.

Lemma firstn_prefix {A} (l s : list A) : firstn (length l) (l ++ s) = l.
Proof. induction l as [|a l IH]; simpl; [reflexivity | now rewrite IH]. Qed.

(** [(\d+)(?!\s*[a-z])] on the digits [ds] and [d], white space and a
    letter: the number stops before [d]. *)
Lemma number_cut {R} ds d spaces c rest pos caps
    (k : text -> nat -> captures -> option R) r :
  ds <> [] -> Forall (fun x => is_digit x = true) ds -> is_digit d = true ->
  Forall (fun x => is_space x = true) spaces -> is_letter c = true ->
  k (d :: spaces ++ c :: rest) (pos + length ds)%nat ((1%nat, ds) :: caps) = Some r ->
  match_re (Cat number no_letter) R (ds ++ d :: spaces ++ c :: rest) pos caps k = Some r.
Proof.
  intros Hne Hds Hd Hsp Hc Hk.
  destruct ds as [|d0 ds0]; [congruence|]. inversion Hds as [|? ? Hd0 Hds0]; subst.
  unfold number, plus. cbn [match_re app]. rewrite (digit_class d0 Hd0).
  apply star_back_re.
  - eapply Forall_impl; [|exact Hds0]. apply digit_class.
  - now apply digit_class.
  - destruct spaces as [|x spaces]; cbn [app].
    + now apply letter_not_digit_re.
    + inversion Hsp; subst. now apply space_not_digit_re.
  - now apply lookahead_at_letter.
  - rewrite (lookahead_at_digit d _ _ _ _ Hd).
    replace (S pos + length ds0 - pos)%nat with (length (d0 :: ds0)) by (cbn [length]; lia).
    change (d0 :: ds0 ++ d :: spaces ++ c :: rest)
      with ((d0 :: ds0) ++ d :: spaces ++ c :: rest).
    rewrite firstn_prefix.
    cbn [length] in Hk. rewrite Nat.add_succ_r in Hk. exact Hk.
Qed.

(** [[Ff]igure?\s+] on "Figure " followed by something that is no white
    space. *)
Lemma figure_head_re {R} (rest_re : regex) (k : text -> nat -> captures -> option R)
    u pos r :
  match u with [] => True | x :: _ => class_match [Space] x = false end ->
  match_re rest_re R u (7 + pos) [] k = Some r ->
  match_re (Cat figure_word (Cat (plus [Space]) rest_re)) R
           (codes "Figure "%string ++ u) pos [] k = Some r.
Proof.
  intros Hu H. cbn in H |- *.
  destruct u as [|x u]; cbn [star]; [now rewrite H|].
  change (existsb (fun it => in_item it (lower x) || in_item it (upper (lower x))) [Space])
    with (class_match [Space] x).
  rewrite Hu. now rewrite H.
Qed.

(** The fifth pattern at "Figure ", the digits [ds] and [d], white space
    and a letter: it matches "Figure " and [ds]. *)
Lemma bare_figure_cut ds d spaces c rest pos :
  ds <> [] -> Forall (fun x => is_digit x = true) ds -> is_digit d = true ->
  Forall (fun x => is_space x = true) spaces -> is_letter c = true ->
  match_re bare_figure _ (digits_then_letter ds d spaces c rest) pos []
           (found pos (digits_then_letter ds d spaces c rest))
  = Some (cut_match pos ds, d :: spaces ++ c :: rest).
Proof.
  intros Hne Hds Hd Hsp Hc.
  change bare_figure with (Cat figure_word (Cat (plus [Space]) (Cat number no_letter))).
  unfold digits_then_letter at 1. apply figure_head_re.
  - destruct ds as [|d0 ds0]; [congruence|]. inversion Hds; subst.
    now apply digit_not_space.
  - apply number_cut; try assumption.
    unfold found, cut_match.
    replace (7 + pos + length ds)%nat with (pos + (7 + length ds))%nat by lia.
    replace (pos + (7 + length ds) - pos)%nat with (length (codes "Figure "%string ++ ds))
      by (rewrite length_app; cbn [codes length]; lia).
    unfold digits_then_letter. now rewrite app_assoc, firstn_prefix.
Qed.

(** ** How far a match of the fifth pattern reaches *)

Lemma star_within {R} (P : N -> Prop) items s :
  (forall c, class_match items c = true -> P c) ->
  forall pos (k : text -> nat -> option R) res,
  star items s pos k = Some res ->
  exists d, (d <= length s)%nat /\ k (skipn d s) (pos + d)%nat = Some res
            /\ Forall P (firstn d s).
Proof.
  intros HP. induction s as [|c s IH]; intros pos k res H; simpl in H.
  - exists 0%nat. simpl. rewrite Nat.add_0_r. auto.
  - destruct (class_match items c) eqn:Hc.
    + destruct (star items s (S pos) k) as [r|] eqn:E.
      * injection H as <-. destruct (IH _ _ _ E) as (d & Hd & Hk & Hall).
        exists (S d). simpl. split; [lia|]. rewrite Nat.add_succ_r. split; [assumption|].
        constructor; [now apply HP | assumption].
      * exists 0%nat. simpl. rewrite Nat.add_0_r. split; [lia|]. split; [assumption|constructor].
    + exists 0%nat. simpl. rewrite Nat.add_0_r. split; [lia|]. split; [assumption|constructor].
Qed.

Lemma match_re_within P r :
  Within P r ->
  forall R s pos caps (k : text -> nat -> captures -> option R) res,
  match_re r R s pos caps k = Some res ->
  exists d caps',
    (d <= length s)%nat /\ k (skipn d s) (pos + d)%nat caps' = Some res
    /\ Forall P (firstn d s).
Proof.
  induction 1 as [x Hx|items Hitems|a b _ IHa _ IHb|a b _ IHa _ IHb|a _ IHa|items Hitems
                  |n a _ IHa|a];
    intros R s pos caps k res H; simpl in H.
  - destruct s as [|c s]; [discriminate|]. destruct (lit_match x c) eqn:Hc; [|discriminate].
    exists 1%nat, caps. simpl. split; [lia|]. rewrite Nat.add_1_r. split; [assumption|].
    constructor; [now apply Hx | constructor].
  - destruct s as [|c s]; [discriminate|].
    destruct (class_match items c) eqn:Hc; [|discriminate].
    exists 1%nat, caps. simpl. split; [lia|]. rewrite Nat.add_1_r. split; [assumption|].
    constructor; [now apply Hitems | constructor].
  - destruct (IHa _ _ _ _ _ _ H) as (d1 & c1 & Hd1 & H1 & Hall1).
    destruct (IHb _ _ _ _ _ _ H1) as (d2 & c2 & Hd2 & H2 & Hall2).
    rewrite length_skipn in Hd2. rewrite skipn_skipn in H2.
    exists (d1 + d2)%nat, c2. split; [lia|]. split.
    + now rewrite Nat.add_assoc, (Nat.add_comm d1 d2).
    + rewrite firstn_plus. apply Forall_app. auto.
  - destruct (match_re a R s pos caps k) eqn:E.
    + injection H as <-. now apply (IHa _ _ _ _ _ _ E).
    + now apply (IHb _ _ _ _ _ _ H).
  - destruct (match_re a R s pos caps k) eqn:E.
    + injection H as <-. now apply (IHa _ _ _ _ _ _ E).
    + exists 0%nat, caps. simpl. rewrite Nat.add_0_r. split; [lia|]. split; [assumption|constructor].
  - destruct (star_within P items s Hitems _ _ _ H) as (d & Hd & Hk & Hall). now exists d, caps.
  - destruct (IHa _ _ _ _ _ _ H) as (d & c' & Hd & Hk & Hall). eauto.
  - destruct (match_re a unit s pos caps (fun _ _ _ => Some tt)); [discriminate|].
    exists 0%nat, caps. simpl. rewrite Nat.add_0_r. split; [lia|]. split; [assumption|constructor].
Qed.

(** After its first character, a match of the fifth pattern does not go
    through a capital F. *)
Lemma after_F_within : Within (fun c => c <> 70%N) after_F.
Proof.
  unfold after_F, word, plus, number, no_letter. cbn [cat map codes].
  repeat constructor; intros c H ->; vm_compute in H; discriminate.
Qed.

Lemma bare_figure_extent s pos m s' :
  match_re bare_figure _ s pos [] (found pos s) = Some (m, s') ->
  exists n,
    m_start m = pos /\ m_end m = S (pos + n)
    /\ Forall (fun c => c <> 70%N) (firstn n (skipn 1 s)).
Proof.
  intros H.
  change (match_re (Cat (one_of "Ff"%string) after_F) _ s pos [] (found pos s)
          = Some (m, s')) in H.
  cbn [match_re one_of] in H.
  destruct s as [|c s1]; [discriminate|].
  destruct (class_match _ c); [|discriminate].
  destruct (match_re_within _ _ after_F_within _ _ _ _ _ _ H) as (n & caps' & Hn & Hk & Hall).
  unfold found in Hk. injection Hk as <- _. cbn [m_start m_end skipn].
  exists n. split; [reflexivity|]. split; [reflexivity | exact Hall].
Qed.

Lemma Forall_firstn_nth {A} (P : A -> Prop) (l : list A) : forall n j x,
  Forall P (firstn n l) -> (j < n)%nat -> nth_error l j = Some x -> P x.
Proof.
  induction l as [|a l IH]; intros n j x Hall Hj Hx; [destruct j; discriminate|].
  destruct n as [|n]; [lia|]. simpl in Hall. inversion Hall; subst.
  destruct j as [|j]; simpl in Hx; [congruence|]. apply (IH n j); auto. lia.
Qed.

Lemma nth_error_skip {A} (l : list A) : forall a j, nth_error (skipn a l) j = nth_error l (a + j).
Proof.
  induction l as [|x l IH]; intros a j.
  - rewrite skipn_nil. destruct j, a; reflexivity.
  - destruct a as [|a]; [reflexivity|]. simpl. apply IH.
Qed.

(** A match of the fifth pattern that starts before an "F" ends before
    it. *)
Lemma bare_figure_stops_at_F pre post d0 m0 s0 :
  (d0 < length pre)%nat ->
  match_re bare_figure _ (skipn d0 (pre ++ 70%N :: post)) (0 + d0)%nat []
           (found (0 + d0)%nat (skipn d0 (pre ++ 70%N :: post))) = Some (m0, s0) ->
  (m_start m0 < m_end m0)%nat /\ (m_end m0 <= 0 + length pre)%nat.
Proof.
  intros Hd0 H. destruct (bare_figure_extent _ _ _ _ H) as (n & Hs & He & Hall).
  cbn [Nat.add] in *. split; [lia|].
  destruct (Nat.le_gt_cases (S (d0 + n)) (length pre)) as [Hle | Hgt]; [lia|].
  exfalso. rewrite skipn_skipn in Hall.
  apply (Forall_firstn_nth _ _ n (length pre - d0 - 1) 70%N Hall); [lia | | reflexivity].
  rewrite nth_error_skip.
  replace (1 + d0 + (length pre - d0 - 1))%nat with (length pre) by lia.
  rewrite nth_error_app2 by lia. now rewrite Nat.sub_diag.
Qed.

(** The raw reference that the fifth pattern finds at "Figure ", the
    digits [ds] and [d], white space and a letter. *)
Lemma cut_reference_found pre ds d spaces c rest :
  ds <> [] -> Forall (fun x => is_digit x = true) ds -> is_digit d = true ->
  Forall (fun x => is_space x = true) spaces -> is_letter c = true ->
  In (reference_of false (cut_match (length pre) ds))
     (found_references (pre ++ digits_then_letter ds d spaces c rest)).
Proof.
  intros Hne Hds Hd Hsp Hc.
  set (t := pre ++ digits_then_letter ds d spaces c rest).
  assert (Hm : In (cut_match (length pre) ds) (finditer bare_figure t)).
  { unfold finditer.
    apply (finditer_from_complete _ bare_figure t 0 (length pre) _
                                  (d :: spaces ++ c :: rest)).
    - lia.
    - unfold t. rewrite length_app. lia.
    - unfold t. rewrite skipn_app, skipn_all, Nat.sub_diag. cbn [app skipn Nat.add].
      now apply bare_figure_cut.
    - intros d0 m0 s0 Hd0 H0. unfold t, digits_then_letter in H0.
      cbn [codes app] in H0. change (code "F"%char) with 70%N in H0.
      exact (bare_figure_stops_at_F _ _ _ _ _ Hd0 H0). }
  unfold found_references. apply in_flat_map. exists (bare_figure, false). split.
  - unfold PATTERNS. do 4 right. left. reflexivity.
  - cbn [fst snd]. now apply in_map.
Qed.

(** Every raw reference is returned, or an earlier one with the same
    figure number and sub-figure. *)
Lemma returned_for_key t r0 :
  In r0 (found_references t) ->
  exists r, In r (kept_references t) /\ figure r = figure r0 /\ subfigure r = subfigure r0.
Proof.
  intros H0. destruct (kept_references_contract t) as (_ & _ & _ & Hall).
  destruct (Hall _ H0) as (r & Hr & Hkey).
  exists r. split; [assumption|]. unfold ref_key in Hkey. now injection Hkey.
Qed.

(** The digits before the cut are a number that [int] accepts. *)
Lemma cut_number_short pre ds post :
  ds <> [] -> Forall (fun x => is_digit x = true) ds ->
  short_numbers (pre ++ codes "Figure "%string ++ ds ++ post) ->
  int ds = Some (decimal ds).
Proof.
  intros Hne Hds Hshort. apply int_Some. split; [assumption|]. split; [|reflexivity].
  unfold short_numbers, longest_run in Hshort.
  eapply Nat.le_trans; [|exact Hshort].
  assert (E : ds = firstn (length ds)
                          (skipn (length (pre ++ codes "Figure "%string))
                                 (pre ++ codes "Figure "%string ++ ds ++ post))).
  { rewrite app_assoc, skipn_app, skipn_all, Nat.sub_diag. cbn [skipn app].
    rewrite firstn_app, Nat.sub_diag, firstn_all. cbn [firstn]. now rewrite app_nil_r. }
  rewrite E at 1. apply run_inside. rewrite <- E.
  eapply Forall_impl; [|exact Hds]. apply digit_may_be.
Qed.

(** X26: wherever a text holds "Figure ", a number of two or more digits,
    any white space (possibly none) and a letter, as in "Figure 12a" or
    "Figure 12 shows", [extract_references] also returns a reference
    without sub-figure to the figure whose number is made of the digits
    before the last one: the look-ahead of the fifth pattern makes the
    number give back its last digit.  This holds for every text without
    a run of more than 4300 consecutive digits (characters outside ASCII
    counted as digits): on such a text [int] accepts every number. *)
Theorem last_digit_given_back (pre ds : text) (d : N) (spaces : text) (c : N) (rest : text) :
  ds <> [] -> Forall (fun x => is_digit x = true) ds -> is_digit d = true ->
  Forall (fun x => is_space x = true) spaces -> is_letter c = true ->
  short_numbers (pre ++ codes "Figure "%string ++ ds ++ d :: spaces ++ c :: rest) ->
  exists refs r,
    extract_references (pre ++ codes "Figure "%string ++ ds ++ d :: spaces ++ c :: rest)
    = Some refs
    /\ In r refs
    /\ int ds = Some (figure r) /\ subfigure r = None.
Proof.
  intros Hne Hds Hd Hsp Hc Hshort.
  pose proof (cut_reference_found pre ds d spaces c rest Hne Hds Hd Hsp Hc) as Hraw.
  unfold digits_then_letter in Hraw.
  destruct (returned_for_key _ _ Hraw) as (r & Hr & Hfig & Hsub).
  change (figure r = decimal ds) in Hfig.
  exists (kept_references (pre ++ codes "Figure "%string ++ ds ++ d :: spaces ++ c :: rest)), r.
  split; [now apply extract_references_returns|]. split; [assumption|].
  split; [|exact Hsub].
  rewrite Hfig. exact (cut_number_short pre ds _ Hne Hds Hshort).
Qed.

Lemma last_digit_given_back_witness :
  exists refs r,
    extract_references (codes "Then "%string ++ codes "Figure "%string
                        ++ codes "1"%string
                        ++ code "2"%char :: codes " "%string
                        ++ code "s"%char :: codes "hows the result."%string)
    = Some refs
    /\ In r refs
    /\ int (codes "1"%string) = Some (figure r) /\ subfigure r = None.
Proof.
  apply (last_digit_given_back (codes "Then "%string) (codes "1"%string) (code "2"%char)
           (codes " "%string) (code "s"%char) (codes "hows the result."%string)).
  - discriminate.
  - repeat constructor.
  - reflexivity.
  - repeat constructor.
  - reflexivity.
  - apply Nat.leb_le. vm_compute. reflexivity.
Defined.

(** ** The consequence for the figure map *)



End CutFacts.

(* ================================================================== *)
(** * Properties of the retrieval of the texts *)
(* ================================================================== *)

Module SearchFacts.
Import Refs Matcher Context Search RefsFacts.

Lemma insert_scored_perm x l : Permutation (insert_scored x l) (x :: l).
Proof.
  induction l as [|y l IH]; simpl; [reflexivity|].
  destruct (fst y <=? fst x); [reflexivity|].
  rewrite IH. apply perm_swap.
Qed.

Lemma sort_scored_perm l : Permutation (sort_scored l) l.
Proof.
  induction l as [|x l IH]; simpl; [reflexivity|].
  rewrite insert_scored_perm. now constructor.
Qed.

Lemma insert_scored_sorted x l :
  StronglySorted (fun a b => fst b <= fst a) l ->
  StronglySorted (fun a b => fst b <= fst a) (insert_scored x l).
Proof.
  induction 1 as [|y l Hl IH Hy]; simpl; [repeat constructor|].
  destruct (Z.leb_spec (fst y) (fst x)) as [Hle | Hgt].
  - constructor; [now constructor|]. constructor; [assumption|].
    eapply Forall_impl; [|exact Hy]. simpl. intros. lia.
  - constructor; [assumption|].
    apply (Permutation_Forall (Permutation_sym (insert_scored_perm x l))).
    constructor; [lia | assumption].
Qed.

Lemma sort_scored_sorted l : StronglySorted (fun a b => fst b <= fst a) (sort_scored l).
Proof. induction l as [|x l IH]; simpl; [constructor | now apply insert_scored_sorted]. Qed.

Lemma sorted_split {A} (R : A -> A -> Prop) (l : list A) n :
  StronglySorted R l ->
  forall a b, In a (firstn n l) -> In b (skipn n l) -> R a b.
Proof.
  intros Hs. revert n. induction Hs as [|x l Hl IH Hx]; intros n a b Ha Hb.
  - rewrite firstn_nil in Ha. contradiction.
  - destruct n as [|n]; [contradiction|]. simpl in Ha, Hb.
    destruct Ha as [<- | Ha]; [|now apply (IH n)].
    rewrite Forall_forall in Hx. apply Hx.
    rewrite <- (firstn_skipn n l). apply in_or_app. now right.
Qed.

Lemma StronglySorted_firstn {A} (R : A -> A -> Prop) (l : list A) n :
  StronglySorted R l -> StronglySorted R (firstn n l).
Proof.
  intros Hs. revert n. induction Hs as [|x l Hl IH Hx]; intros n.
  - rewrite firstn_nil. constructor.
  - destruct n as [|n]; simpl; constructor; [apply IH|].
    rewrite Forall_forall in *. intros y Hy. apply Hx.
    rewrite <- (firstn_skipn n l). apply in_or_app. now left.
Qed.

Lemma StronglySorted_map {A B} (f : A -> B) (R : B -> B -> Prop) (l : list A) :
  StronglySorted (fun a b => R (f a) (f b)) l -> StronglySorted R (map f l).
Proof.
  induction 1 as [|x l Hl IH Hx]; simpl; constructor; [assumption|].
  rewrite Forall_forall in *. intros y Hy. apply in_map_iff in Hy.
  destruct Hy as (a & <- & Ha). now apply Hx.
Qed.

Section WithLower.

Variable lower : text -> text.

Lemma scored_spec words texts :
  scored lower words texts
  = map (fun c => (score lower words c, c))
        (filter (fun c => score lower words c >? 0) (map snd texts)).
Proof.
  unfold scored. induction texts as [|[p c] texts IH]; simpl; [reflexivity|].
  rewrite IH. destruct (score lower words c >? 0); reflexivity.
Qed.

Lemma ranked_scores words texts x :
  In x (sort_scored (scored lower words texts)) ->
  fst x = score lower words (snd x) /\ 0 < fst x /\ In (snd x) (map snd texts).
Proof.
  intros H. apply (Permutation_in _ (sort_scored_perm _)) in H.
  rewrite scored_spec in H. apply in_map_iff in H. destruct H as (c & <- & Hc).
  apply filter_In in Hc. destruct Hc as [Hin Hpos]. simpl. repeat split; [lia | assumption].
Qed.

Lemma up_to_firstn {A} (l : list A) k : 0 <= k -> up_to l k = firstn (Z.to_nat k) l.
Proof.
  intros Hk. unfold up_to, slice_index. destruct (Z.ltb_spec k 0); [lia|].
  destruct (Z.le_gt_cases k (Z.of_nat (length l))) as [Hle | Hgt].
  - now rewrite Z.min_l by lia.
  - rewrite Z.min_r by lia. rewrite Nat2Z.id.
    rewrite firstn_all. symmetry. apply firstn_all2. lia.
Qed.

Lemma up_to_incl {A} (l : list A) k x : In x (up_to l k) -> In x l.
Proof.
  unfold up_to. intros H. rewrite <- (firstn_skipn (Z.to_nat (slice_index (Z.of_nat (length l)) k)) l).
  apply in_or_app. now left.
Qed.

Lemma first_three_incl (texts : list (Z * text)) c :
  In c (map snd (firstn 3 texts)) -> In c (map snd texts).
Proof.
  intros H. apply in_map_iff in H. destruct H as (x & <- & Hx). apply in_map.
  rewrite <- (firstn_skipn 3 texts). apply in_or_app. now left.
Qed.

(** X28: whatever [str.lower] does, [_search_text] only returns texts of
    the document, and at least one when the document has a text and
    [top_k] is at least 1.  When the question has no word of two
    characters or more, or no text scores, it returns the first three
    texts.  Otherwise (for [top_k] not negative) it returns the [top_k]
    best-scoring texts among those with a positive score, or all of them
    when they are fewer, by decreasing score: no text left out scores more
    than a text returned. *)
Theorem search_text_ranked (texts : list (Z * text)) (query : text) (top_k : Z) :
  (forall c, In c (search_text lower texts query top_k) -> In c (map snd texts))
  /\ (texts <> [] -> 1 <= top_k -> search_text lower texts query top_k <> [])
  /\ (query_words lower query = []
      \/ (forall c, In c (map snd texts) -> score lower (query_words lower query) c <= 0) ->
      search_text lower texts query top_k = map snd (firstn 3 texts))
  /\ (query_words lower query <> [] ->
      (exists c, In c (map snd texts) /\ 0 < score lower (query_words lower query) c) ->
      0 <= top_k ->
      (forall c, In c (search_text lower texts query top_k) ->
                 0 < score lower (query_words lower query) c)
      /\ StronglySorted (fun a b => score lower (query_words lower query) b
                                    <= score lower (query_words lower query) a)
                        (search_text lower texts query top_k)
      /\ length (search_text lower texts query top_k)
         = Nat.min (Z.to_nat top_k)
             (length (filter (fun c => score lower (query_words lower query) c >? 0)
                             (map snd texts)))
      /\ exists dropped,
           Permutation (search_text lower texts query top_k ++ dropped)
                       (filter (fun c => score lower (query_words lower query) c >? 0)
                               (map snd texts))
           /\ forall a b, In a (search_text lower texts query top_k) -> In b dropped ->
                          score lower (query_words lower query) b
                          <= score lower (query_words lower query) a).
Proof.
  set (words := query_words lower query).
  set (ranked := sort_scored (scored lower words texts)).
  assert (Hunfold : search_text lower texts query top_k
                    = if is_empty words then map snd (firstn 3 texts)
                      else if is_empty ranked then map snd (firstn 3 texts)
                           else map snd (up_to ranked top_k)) by reflexivity.
  assert (Hin3 : forall c, In c (map snd (up_to ranked top_k)) -> In c (map snd texts)).
  { intros c H. apply in_map_iff in H. destruct H as (x & <- & Hx).
    apply up_to_incl in Hx. now apply (ranked_scores words texts x). }
  assert (Hperm : Permutation (map snd ranked)
                    (filter (fun c => score lower words c >? 0) (map snd texts))).
  { unfold ranked. rewrite (sort_scored_perm (scored lower words texts)), scored_spec.
    rewrite map_map. simpl. now rewrite map_id. }
  split; [|split; [|split]].
  - intros c. rewrite Hunfold.
    destruct (is_empty words); [apply first_three_incl|].
    destruct (is_empty ranked); [apply first_three_incl | apply Hin3].
  - intros Hne Hk. rewrite Hunfold.
    assert (H3 : map snd (firstn 3 texts) <> []) by (destruct texts; [congruence | discriminate]).
    destruct (is_empty words); [assumption|].
    destruct ranked as [|x ranked'] eqn:E; [assumption|]. cbn [is_empty].
    rewrite up_to_firstn by lia.
    destruct (Z.to_nat top_k) as [|k] eqn:Ek; [lia | discriminate].
  - intros [Hw | Hnone]; rewrite Hunfold.
    + fold words in Hw. now rewrite Hw.
    + destruct (is_empty words); [reflexivity|].
      destruct ranked as [|x ranked'] eqn:E; [reflexivity|]. exfalso.
      destruct (ranked_scores words texts x) as (Hs & Hpos & Hin).
      { fold ranked. rewrite E. now left. }
      specialize (Hnone _ Hin). fold words in Hnone. lia.
  - intros Hw (c0 & Hc0 & Hpos0) Hk. fold words in Hw, Hpos0 |- *.
    assert (Hranked : ranked <> []).
    { intros E. assert (Hin : In c0 (map snd ranked)).
      { apply (Permutation_in _ (Permutation_sym Hperm)). apply filter_In.
        split; [assumption | lia]. }
      rewrite E in Hin. contradiction. }
    assert (Hres : search_text lower texts query top_k
                   = map snd (firstn (Z.to_nat top_k) ranked)).
    { rewrite Hunfold. destruct words; [congruence|]. cbn [is_empty].
      destruct ranked; [congruence|]. cbn [is_empty]. now rewrite up_to_firstn. }
    rewrite Hres.
    assert (Hsorted : StronglySorted (fun a b => score lower words (snd b)
                                                 <= score lower words (snd a)) ranked).
    { assert (Hall : Forall (fun x => fst x = score lower words (snd x)) ranked).
      { apply Forall_forall. intros x Hx. now apply (ranked_scores words texts x). }
      pose proof (sort_scored_sorted (scored lower words texts)) as Hs. fold ranked in Hs.
      clear -Hs Hall. induction Hs as [|x l Hl IH Hx]; constructor.
      - apply IH. now inversion Hall.
      - inversion Hall as [|? ? Ex Hall']; subst. rewrite Forall_forall in *.
        intros y Hy. rewrite <- Ex, <- (Hall' y Hy). now apply Hx. }
    split; [|split; [|split]].
    + intros c Hc. apply in_map_iff in Hc. destruct Hc as (x & <- & Hx).
      destruct (ranked_scores words texts x) as (Hs & Hpos & _); [|lia].
      fold ranked. rewrite <- (firstn_skipn (Z.to_nat top_k) ranked).
      apply in_or_app. now left.
    + apply StronglySorted_map. now apply StronglySorted_firstn.
    + rewrite length_map, length_firstn.
      rewrite <- (Permutation_length Hperm), length_map. reflexivity.
    + exists (map snd (skipn (Z.to_nat top_k) ranked)). split.
      * rewrite <- map_app, firstn_skipn. exact Hperm.
      * intros a b Ha Hb. apply in_map_iff in Ha, Hb.
        destruct Ha as (x & <- & Hx), Hb as (y & <- & Hy).
        exact (sorted_split _ _ _ Hsorted x y Hx Hy).
Qed.

End WithLower.

End SearchFacts.

(* ================================================================== *)
(** * The ids of the figures follow the order of extraction *)
(* ================================================================== *)

Module OrderFacts.
Import BBox Pipeline Matcher Order BBoxFacts MatcherFacts PipelineFacts.

(** ** The merged regions come in the order of their first rectangles *)

Lemma join_rep a b : snd a <> [] -> rep (join a b) = rep a.
Proof. unfold rep, join. cbn [snd]. destruct (snd a); [congruence | reflexivity]. Qed.

Lemma absorb_order threshold rest : forall cur c keep ch,
  absorb threshold cur rest = (c, keep, ch) ->
  snd cur <> [] ->
  rep c = rep cur
  /\ snd c <> []
  /\ subseq keep rest
  /\ (forall k, In k (snd c) -> In k (snd cur) \/ exists r, In r rest /\ In k (snd r)).
Proof.
  induction rest as [|r rest IH]; intros cur c keep ch Habs Hne; simpl in Habs.
  - injection Habs as <- <- <-. repeat split; auto. constructor.
  - destruct (is_nearby (fst cur) (fst r) threshold).
    + destruct (absorb threshold (join cur r) rest) as [[c' keep'] ch'] eqn:E.
      injection Habs as <- <- <-.
      assert (Hne' : snd (join cur r) <> []).
      { unfold join. cbn [snd]. destruct (snd cur); [congruence | discriminate]. }
      destruct (IH _ _ _ _ E Hne') as (Hrep & Hc & Hsub & Hmem).
      split; [rewrite Hrep; now apply join_rep|]. split; [assumption|].
      split; [now constructor|].
      intros k Hk. destruct (Hmem k Hk) as [Hin | (r' & Hr' & Hin)].
      * unfold join in Hin. cbn [snd] in Hin. apply in_app_or in Hin.
        destruct Hin as [Hin | Hin]; [now left|]. right. exists r. split; [now left | assumption].
      * right. exists r'. split; [now right | assumption].
    + destruct (absorb threshold cur rest) as [[c' keep'] ch'] eqn:E.
      injection Habs as <- <- <-.
      destruct (IH _ _ _ _ E Hne) as (Hrep & Hc & Hsub & Hmem).
      split; [assumption|]. split; [assumption|]. split; [now constructor|].
      intros k Hk. destruct (Hmem k Hk) as [Hin | (r' & Hr' & Hin)]; [now left|].
      right. exists r'. split; [now right | assumption].
Qed.

Lemma subseq_map {A B} (f : A -> B) (l1 l2 : list A) :
  subseq l1 l2 -> subseq (map f l1) (map f l2).
Proof. induction 1; simpl; now constructor. Qed.

Lemma subseq_Forall {A} (P : A -> Prop) (l1 l2 : list A) :
  subseq l1 l2 -> Forall P l2 -> Forall P l1.
Proof.
  induction 1 as [|y l1 l2 _ IH|y l1 l2 _ IH]; intros H; [constructor| |];
    inversion H; subst; [|constructor]; auto.
Qed.

Lemma by_first_member_subseq l1 l2 : subseq l1 l2 -> by_first_member l2 -> by_first_member l1.
Proof.
  intros Hsub [Hs Hall]. split.
  - eapply GridFacts.subseq_sorted; [apply subseq_map; eassumption | assumption].
  - eapply subseq_Forall; eassumption.
Qed.

Lemma scan_order threshold fuel : forall l out ch,
  (length l <= fuel)%nat ->
  scan fuel threshold l = (out, ch) ->
  by_first_member l ->
  by_first_member out /\ subseq (map rep out) (map rep l).
Proof.
  induction fuel as [|fuel IH]; intros l out ch Hlen Hscan Hord.
  - destruct l; [|simpl in Hlen; lia]. injection Hscan as <- <-.
    split; [assumption | constructor].
  - destruct l as [|r rest].
    + injection Hscan as <- <-. split; [assumption | constructor].
    + simpl in Hscan, Hlen.
      destruct (absorb threshold r rest) as [[c keep] ch1] eqn:Habs.
      destruct (scan fuel threshold keep) as [out' ch'] eqn:Hs.
      injection Hscan as <- <-.
      destruct Hord as [Hsorted Hall]. cbn [map] in Hsorted.
      inversion Hsorted as [|? ? Hsorted' Hlt]; subst.
      inversion Hall as [|? ? [Hin Hmin] Hall']; subst.
      assert (Hne : snd r <> []) by (destruct (snd r); [contradiction | discriminate]).
      destruct (absorb_order _ _ _ _ _ _ Habs Hne) as (Hrep & Hc & Hsub & Hmem).
      assert (Hkeep : by_first_member keep).
      { apply (by_first_member_subseq keep rest Hsub). split; assumption. }
      assert (Hlk : (length keep <= fuel)%nat).
      { pose proof (SubfigureSplitterFacts.subseq_length _ _ Hsub). lia. }
      destruct (IH _ _ _ Hlk Hs Hkeep) as ([Hso Hao] & Hsubrep).
      assert (Hsubrest : subseq (map rep out') (map rep rest)).
      { eapply subseq_trans; [exact Hsubrep | now apply subseq_map]. }
      split; [split|].
      * cbn [map]. constructor; [assumption|]. rewrite Hrep.
        eapply subseq_Forall; eassumption.
      * constructor; [|assumption]. split.
        -- unfold rep at 1. destruct (snd c); [congruence | now left].
        -- apply Forall_forall. intros k Hk. rewrite Hrep.
           destruct (Hmem k Hk) as [Hk' | (r' & Hr' & Hk')].
           ++ rewrite Forall_forall in Hmin. now apply Hmin.
           ++ rewrite Forall_forall in Hall', Hlt.
              destruct (Hall' r' Hr') as [_ Hmin'].
              rewrite Forall_forall in Hmin'. specialize (Hmin' k Hk').
              specialize (Hlt (rep r') (in_map rep _ _ Hr')). lia.
      * cbn [map]. rewrite Hrep. now constructor.
Qed.

Lemma region_loop_order threshold fuel : forall l,
  (length l <= fuel)%nat -> by_first_member l ->
  by_first_member (region_loop fuel threshold l).
Proof.
  induction fuel as [|fuel IH]; intros l Hlen Hord; [assumption|].
  simpl. destruct (scan (length l) threshold l) as [out ch] eqn:Hscan.
  destruct (scan_order _ _ _ _ _ (Nat.le_refl _) Hscan Hord) as [Hout Hsub].
  destruct ch; [|assumption].
  apply IH; [|assumption].
  pose proof (SubfigureSplitterFacts.subseq_length _ _ Hsub) as Hl.
  rewrite !length_map in Hl.
  destruct (scan_spec threshold [] _ _ _ _ (Nat.le_refl _) Hscan) as (_ & Hlt & _).
  specialize (Hlt eq_refl). lia.
Qed.

Lemma tag_order R : by_first_member (tag R).
Proof.
  unfold tag. generalize 0%nat as k.
  induction R as [|b R IH]; intros k; cbn [length seq map combine].
  - split; constructor.
  - destruct (IH (S k)) as [Hs Hall]. split.
    + cbn [map]. constructor; [assumption|].
      apply Forall_forall. intros x Hx. apply in_map_iff in Hx.
      destruct Hx as (r & <- & Hr).
      assert (Hk : In (snd r) (map (fun k => [k]) (seq (S k) (length R)))).
      { destruct r as [b' m]. now apply in_combine_r in Hr. }
      apply in_map_iff in Hk. destruct Hk as (j & Hj & Hin). apply in_seq in Hin.
      unfold rep. cbn [snd]. rewrite <- Hj. simpl. lia.
    + constructor; [|assumption]. unfold rep. cbn [snd hd]. split; [now left|].
      constructor; [lia | constructor].
Qed.

Lemma merge_regions_order R threshold : by_first_member (merge_regions R threshold).
Proof.
  unfold merge_regions. destruct R as [|b R]; [split; constructor|].
  apply region_loop_order; [now rewrite tag_length | apply tag_order].
Qed.

(** ** The groups of images come in the order of their first images *)

Lemma first_images_app g1 g2 : first_images (g1 ++ g2) = first_images g1 ++ first_images g2.
Proof. unfold first_images. apply flat_map_app. Qed.

Lemma add_to_groups_first img groups :
  Forall (fun g => g <> []) groups ->
  Forall (fun g => g <> []) (add_to_groups img groups)
  /\ (first_images (add_to_groups img groups) = first_images groups
      \/ first_images (add_to_groups img groups) = first_images groups ++ [img]).
Proof.
  induction groups as [|g groups IH]; intros Hne; simpl.
  - split; [repeat constructor; discriminate | now right].
  - inversion Hne as [|? ? Hg Hne']; subst.
    destruct (existsb _ g).
    + split.
      * constructor; [destruct g; discriminate | assumption].
      * left. unfold first_images. cbn [flat_map]. f_equal.
        destruct g; [congruence | reflexivity].
    + destruct (IH Hne') as [Hall [E | E]].
      * split; [now constructor|]. left. unfold first_images in *. cbn [flat_map].
        now rewrite E.
      * split; [now constructor|]. right. unfold first_images in *. cbn [flat_map].
        rewrite E. now rewrite app_assoc.
Qed.

Lemma group_fold_first rest : forall groups pre,
  Forall (fun g => g <> []) groups ->
  subseq (first_images groups) pre ->
  subseq (first_images (fold_left (fun groups img => add_to_groups img groups) rest groups))
         (pre ++ rest).
Proof.
  induction rest as [|img rest IH]; intros groups pre Hne Hsub; cbn [fold_left].
  - now rewrite app_nil_r.
  - destruct (add_to_groups_first img groups Hne) as [Hne' HE].
    replace (pre ++ img :: rest) with ((pre ++ [img]) ++ rest)
      by now rewrite <- app_assoc.
    apply IH; [assumption|]. destruct HE as [-> | ->].
    + now apply GridFacts.subseq_snoc_skip.
    + now apply GridFacts.subseq_snoc_take.
Qed.

Lemma groups_order image_data :
  subseq (first_images (group_nearby_images image_data)) image_data.
Proof.
  unfold group_nearby_images. destruct image_data as [|first rest]; [constructor|].
  apply (group_fold_first rest [[first]] [first]).
  - repeat constructor. discriminate.
  - apply GridFacts.subseq_refl.
Qed.

Lemma collect_image_data_order page :
  subseq (map data_source (collect_image_data page)) (map base_image (image_list page)).
Proof.
  unfold collect_image_data. induction (image_list page) as [|img imgs IH]; [constructor|].
  cbn [flat_map map]. destruct (base_image img) as [[b e]|].
  - destruct (image_rects img) as [[|r rs]|]; cbn [app]; try now constructor.
    destruct (len b >? 5000); [|now constructor].
    cbn [app map]. now apply subseq_take.
  - now constructor.
Qed.

Section Strategies.
Variable get_pixmap : Page -> Rect -> option (list Byte.byte).
Variables min_image_size min_bbox_area max_aspect_ratio : Z.

Lemma merge_groups_order page n groups : forall idx,
  subseq (map fig_bbox (merge_groups get_pixmap min_image_size page n idx groups))
         (map group_box groups).
Proof.
  induction groups as [|g groups IH]; intros idx; cbn [merge_groups map]; [constructor|].
  assert (Hone : merge_group get_pixmap min_image_size page n idx g = []
                 \/ exists f, merge_group get_pixmap min_image_size page n idx g = [f]
                              /\ fig_bbox f = group_box g).
  { unfold merge_group, group_box.
    destruct g as [|d [|d' g']].
    - destruct (get_pixmap page _); [|now left].
      destruct (len l >=? min_image_size); [right; eexists; split; reflexivity | now left].
    - destruct (len (bytes d) >=? min_image_size); [|now left].
      right. eexists. split; reflexivity.
    - destruct (get_pixmap page _); [|now left].
      destruct (len l >=? min_image_size); [right; eexists; split; reflexivity | now left]. }
  destruct Hone as [-> | (f & -> & <-)]; cbn [app map].
  - apply subseq_skip, IH.
  - apply subseq_take, IH.
Qed.

Lemma raw_images_order n imgs : forall idx,
  subseq (map figure_source
              (raw_images min_image_size min_bbox_area max_aspect_ratio n idx imgs))
         (map base_image imgs).
Proof.
  induction imgs as [|img imgs IH]; intros idx; cbn [raw_images map]; [constructor|].
  unfold raw_image. destruct (base_image img) as [[b e]|]; [|apply subseq_skip, IH].
  destruct (len b <? min_image_size); [apply subseq_skip, IH|].
  destruct (image_rects img) as [[|r rs]|]; cbn [app map].
  - apply subseq_take, IH.
  - destruct (keep_bbox min_bbox_area max_aspect_ratio r); cbn [app map].
    + apply subseq_take, IH.
    + apply subseq_skip, IH.
  - apply subseq_skip, IH.
Qed.

Lemma parse_figures_numbered mode doc : forall k,
  parse_figures get_pixmap min_image_size min_bbox_area max_aspect_ratio mode k doc
  = flat_map (fun np => page_figures get_pixmap min_image_size min_bbox_area
                                     max_aspect_ratio mode (snd np) (fst np))
             (numbered_pages k doc).
Proof.
  induction doc as [|page doc IH]; intros k; simpl; [reflexivity|]. now rewrite IH.
Qed.

End Strategies.

Lemma numbered_pages_spec doc : forall k,
  map snd (numbered_pages k doc) = doc
  /\ map fst (numbered_pages k doc) = map (fun i => k + 1 + Z.of_nat i) (seq 0 (length doc)).
Proof.
  induction doc as [|page doc IH]; intros k; cbn [numbered_pages map length seq fst snd];
    [split; reflexivity|].
  destruct (IH (k + 1)) as [H1 H2]. rewrite H1, H2. split; [reflexivity|].
  f_equal; [lia|]. rewrite <- seq_shift, map_map.
  apply map_ext. intros i. lia.
Qed.

(** C7 (amended): the images stored by [load_pdf] carry the dense ids
    0, 1, 2, ...: the image with id [k] is made from the [k]-th figure of
    the parser's list.  That list runs through the pages in page order
    (pages 1, 2, ...) and, within a page, through the figures in the
    order in which the strategy of extraction returned them; no geometric
    sort is applied.  The region-crop figures follow the order of the
    bounding-box merger's output, whose regions come in the order of the
    first of their rectangles in the page's list of image rectangles; the
    merged figures follow the order of the groups of images, which come
    in the order of their first image in the page's embedded-image list;
    the raw figures follow that list itself; and the hybrid strategy
    takes for a page the region-crop figures when there are any and the
    merged ones otherwise. *)
Theorem figure_ids_dense_in_page_order
    (get_pixmap : Page -> Rect -> option (list Byte.byte))
    (min_image_size min_bbox_area max_aspect_ratio : Z) (mode : Mode)
    (image_dir : String.string) (doc : list Page) :
  let page_figures := page_figures get_pixmap min_image_size min_bbox_area max_aspect_ratio in
  let extract_by_region_crop :=
    extract_by_region_crop get_pixmap min_image_size min_bbox_area max_aspect_ratio in
  let extract_by_merging := extract_by_merging get_pixmap min_image_size in
  let extract_raw_images := extract_raw_images min_image_size min_bbox_area max_aspect_ratio in
  let figures :=
    parse_figures get_pixmap min_image_size min_bbox_area max_aspect_ratio mode 0 doc in
  let all_images := load_images image_dir figures in
  (map id all_images = seq 0 (length figures)
   /\ forall k, (k < length figures)%nat ->
        nth k all_images no_image
        = mkImage k (raw_path image_dir k (fig_ext (nth k figures no_figure)))
                  (fig_page (nth k figures no_figure))
                  (len (fig_data (nth k figures no_figure))))
  /\ (figures = flat_map (fun np => page_figures mode (snd np) (fst np)) (numbered_pages 0 doc)
      /\ map snd (numbered_pages 0 doc) = doc
      /\ map fst (numbered_pages 0 doc) = map (fun i => 1 + Z.of_nat i) (seq 0 (length doc))
      /\ (forall page n f, In f (page_figures mode page n) -> fig_page f = n)
      /\ forall i j, (i < j)%nat -> (j < length all_images)%nat ->
           page (nth i all_images no_image) <= page (nth j all_images no_image))
  /\ (forall page n,
        subseq (map fig_bbox (extract_by_region_crop page n))
               (map xywh (merge_nearby_bboxes (image_bboxes page) 80))
        /\ map fst (merge_regions (image_bboxes page) 80)
           = merge_nearby_bboxes (image_bboxes page) 80
        /\ Forall (fun r : Region => Cluster 80 (image_bboxes page) (fst r) (snd r))
                  (merge_regions (image_bboxes page) 80)
        /\ by_first_member (merge_regions (image_bboxes page) 80)
        /\ image_bboxes page
           = flat_map (fun img_info =>
                         match image_rects img_info with
                         | Some img_rects => img_rects
                         | None => []
                         end)
                      (image_list page))
  /\ (forall page n,
        subseq (map fig_bbox (extract_by_merging page n))
               (map group_box (group_nearby_images (collect_image_data page)))
        /\ subseq (first_images (group_nearby_images (collect_image_data page)))
                  (collect_image_data page)
        /\ subseq (map data_source (collect_image_data page))
                  (map base_image (image_list page)))
  /\ (forall page n,
        subseq (map figure_source (extract_raw_images page n))
               (map base_image (image_list page)))
  /\ (forall page n,
        page_figures region_crop page n = extract_by_region_crop page n
        /\ page_figures merge_images page n = extract_by_merging page n
        /\ page_figures extract_raw page n = extract_raw_images page n
        /\ (extract_by_region_crop page n <> [] ->
            page_figures hybrid page n = extract_by_region_crop page n)
        /\ (extract_by_region_crop page n = [] ->
            page_figures hybrid page n = extract_by_merging page n)).
Proof.
  intros pf rc mg raw figures all_images.
  split.
  { split; [apply enumerate_images_ids|].
    intros k Hk. exact (enumerate_images_nth image_dir figures 0 k Hk). }
  split.
  { split; [apply parse_figures_numbered|].
    destruct (numbered_pages_spec doc 0) as [H1 H2].
    split; [assumption|]. split; [exact H2|].
    split; [intros pg n f; apply page_figures_page|].
    intros i j Hij Hj.
    rewrite <- !(map_nth page). unfold all_images, load_images in *.
    rewrite enumerate_images_pages.
    rewrite <- (length_map page), enumerate_images_pages, length_map in Hj.
    change (page no_image) with (fig_page no_figure). rewrite !(map_nth fig_page).
    destruct (parse_figures_pages get_pixmap min_image_size min_bbox_area max_aspect_ratio
                mode doc 0) as [_ Hsorted].
    now apply (StronglySorted_nth _ _ no_figure Hsorted). }
  split.
  { intros pg n. split; [apply region_crop_order|].
    destruct (merge_regions_spec (image_bboxes pg) 80) as (H1 & _ & H3 & _).
    split; [assumption|]. split; [assumption|].
    split; [apply merge_regions_order | reflexivity]. }
  split.
  { intros pg n. split; [apply merge_groups_order|].
    split; [apply groups_order | apply collect_image_data_order]. }
  split.
  { intros pg n. apply raw_images_order. }
  intros pg n. split; [reflexivity|]. split; [reflexivity|]. split; [reflexivity|].
  unfold pf, rc, mg. cbn [Pipeline.page_figures]. split.
  - intros Hne.
    destruct (Pipeline.extract_by_region_crop get_pixmap min_image_size min_bbox_area
                max_aspect_ratio pg n); [congruence | reflexivity].
  - intros ->. reflexivity.
Qed.

Lemma figure_ids_dense_in_page_order_witness :
  page (nth 0 (load_images default_image_dir (parse_figures blank_pixmap 20000 5000 8 hybrid 0
                                          [two_figures_page; two_figures_page])) no_image)
  <= page (nth 3 (load_images default_image_dir (parse_figures blank_pixmap 20000 5000 8 hybrid 0
                                          [two_figures_page; two_figures_page])) no_image).
Proof.
  apply (proj2 (proj2 (proj2 (proj2 (proj1 (proj2
           (figure_ids_dense_in_page_order blank_pixmap 20000 5000 8 hybrid
              default_image_dir [two_figures_page; two_figures_page]))))))).
  - lia.
  - vm_compute. lia.
Defined.

End OrderFacts.
